(* ===== verification/_CoqProject ===== *)
-Q . S2P
Prelude.v
BTree.v
Bytes.v
AppCrypto.v
Orders.v
Toy.v
Matching.v
Circuit.v
MpcRunner.v
Book.v
BookInv.v
BookMatch.v
BookApply.v
BookLife.v
Ordering.v
Proofs.v
Reservations.v
ReservationInv.v
ReservationLife.v
Settlement.v
SettlementInv.v
SettlementLife.v
Canonical.v
Compat.v
CompatLife.v
EngineLife.v
Backing.v
Eligibility.v
Service.v
OptimisticService.v
Queue.v
ServiceInv.v
ServiceLife.v
QueueLife.v
Edge.v
EdgeCreate.v
EdgeField.v
EdgeShares.v
EdgeSeal.v
EdgeLife.v
EdgeTotal.v
EdgeDecimal.v
NodeReceipts.v
NodeState.v
NodeStore.v
NodeSteps.v
NodeCore.v
NodeInv.v
NodeLife.v
NodeAdmit.v
NodeRpc.v
RpcLife.v
EdgeClient.v
ClientLife.v
DeliveryLife.v
OrderDelivery.v
PublicDepth.v
DepthLife.v
Corporate.v
Journal.v
JournalRuns.v
JournalLife.v
JournalPool.v
Dispatch.v
DispatchLife.v
MarketJournal.v
MarketLife.v
ToyEdge.v
ToyStore.v
Fixtures.v
WitnessBook.v
WitnessProtocol.v
WitnessSettlement.v
WitnessService.v
WitnessEdge.v
WitnessNode.v
WitnessRpc.v
WitnessJournal.v
WitnessMarket.v
