(* ===== verification/Prelude.v ===== *)
(** * OCLOB: a confidential order book, verified

    This development models the exchange of the [rust/] workspace: orders that
    stay private, a committee that fixes their sequence, an MPC circuit that
    matches them, a book that applies the match, reservations and a settlement
    engine that moves the money and the securities.

    ** The program and its model

    An order ([oclob-core], [SecretOrder]) is committed, authorized by a hybrid
    signature and certified at one sequence number by a seven-node committee
    ([oclob-ordering]). The private book offers up to eight resting orders as
    an MPC batch; seven parties evaluate the generated circuit ([oclob-mpc]) and
    print the public result; the book recomputes the canonical result and
    applies it. The committee attests a transition statement ([oclob-proofs]),
    and the settlement engine ([oclob-settlement]) consumes the reservations of
    maker and taker and moves both legs of each fill. The service
    ([oclob-service]) drives all of them on clones and installs the clones
    together, in one phase, or in two phases around canonical finality; a
    durable queue feeds it, and an eligibility verifier ([oclob-dekyx]) admits
    one anonymous presentation per order. On the participant's side the edge
    library ([oclob-edge]) splits an order into verifiable shares, seals one
    package to each of the seven nodes and seals the private state under a key
    that three nodes can rebuild. On the node's side ([oclob-node]) a share
    store admits a package, votes for its order, keeps certificates, receipts
    and observations, releases its key share once, and rewrites one state file
    at every step, from which it must restart. Peers reach the store through a
    request service that checks their role; the participant's client sends an
    order to all seven nodes, the coordinator's collects votes and executions,
    the settlement's collects key shares. A corporate participant keeps what it
    has signed and sent in an encrypted journal that several processes share; a
    submission worker, a reconciliation of expired requests and a dispatch
    worker with its queue read and extend it at any time.

    Files, in dependency order:
    - [Prelude]: the [result] type, the state-and-error [method] monad of
      [&mut self] functions (the state survives an error, as in the code),
      checked, saturating and wrapping [u64] arithmetic, tactics and hints.
    - [BTree]: [BTreeMap] as sorted association lists, with its laws.
    - [Bytes], [AppCrypto], [Toy]: byte strings, digests, UTF-8, the hash and
      signature suite as a class [Crypto] with laws [CryptoLaws]; the signature
      envelope of [application_crypto.rs]; a toy instance for witnesses.
    - [Orders]: the data types of [oclob-core/src/lib.rs], the wire format and
      its cursor, commitments, authorities and cancellations.
    - [Matching]: [expected_batch], [validate_public_levels].
    - [Circuit]: the arithmetic of the program that [matching_program_parts]
      generates, wire by wire; the upstream sorting network is a parameter.
    - [MpcRunner]: [execute_batch], [parse_result] and the input encoding, with
      the text a round produces as data.
    - [Book]: [PrivateBook] and all its operations; [BookInv] (well-formedness,
      the book as a finite map), [BookMatch], [BookApply], [BookLife] (match
      input, match application, one-slot match, cancellation, expiry, runs).
    - [Ordering]: votes, certificates, the log, the committee.
    - [Proofs]: statements, attestations, bindings, optimistic claims.
    - [Reservations], [ReservationInv], [ReservationLife]: [ReservationBook].
    - [Settlement], [SettlementInv], [SettlementLife]: [SettlementEngine] and
      the collaborative batch; [Canonical]: two-phase canonical acceptance;
      [Compat], [CompatLife]: the batch over scalar openings, [settle_batch];
      [EngineLife]: every engine the public interface can produce.
    - [Eligibility]: [OclobEligibilityVerifier].
    - [Service]: [OclobService]; [OptimisticService]: its [optimistic.rs];
      [Queue]: [DurableOclobQueue] and its worker.
    - [Backing], [ServiceInv], [ServiceLife], [QueueLife]: the relation between
      resting orders and reservations, its preservation by every operation of
      the service, runs of the service, what the queue delivers.
    - [Edge]: the data of [oclob-edge/src/lib.rs], manifests, shares, envelopes,
      capabilities and reservation authorities with their checks; [EdgeCreate]:
      bundle creation, sealing and key reconstruction; [EdgeField]: polynomials
      and Lagrange interpolation over the scalar field; [EdgeShares]: shares
      and their Feldman check, reconstruction; [EdgeSeal], [EdgeLife]: sealing
      and opening, what a node receives, the capability's round trip;
      [EdgeTotal]: when creation succeeds; [EdgeDecimal]: the decimal of a share.
    - [NodeReceipts]: round plans, receipts and attestations of [oclob-node];
      [NodeState]: the persisted state, its validation and [read_state];
      [NodeStore]: [NodeShareStore] and all its operations.
    - [NodeSteps]: the abstract step of each operation of the store, its effect
      and what a failing write can leave, and runs with restarts; [NodeCore], [NodeInv]: the part of
      the state [read_state] checks and its preservation; [NodeLife]: theorems
      on runs; [NodeAdmit]: a bundle of the edge at a node's store.
    - [NodeRpc]: the records, roles, request handlers and client calls of
      [network.rs]; [RpcLife]: theorems on them over the store's runs.
    - [EdgeClient]: the fan-out of [edge_client.rs] over the cluster, with what
      each thread met as input; [ClientLife], [DeliveryLife], [OrderDelivery]:
      the client against the nodes' own handlers; [PublicDepth], [DepthLife]: the
      published book of [public_depth.rs].
    - [Corporate]: reservations, authorizations and expiry resolutions of the
      corporate participant with their checks ([corporate.rs],
      [corporate_authorization.rs], [corporate_expiry.rs]); [Journal]:
      [NativeCorporateJournal], the submission worker and the reconciliation as
      programs, trees of calls on the outbox, the clock and the network;
      [JournalRuns]: one program among others on a growing file, and pools of
      programs in any interleaving; [JournalLife], [JournalPool]: what each
      operation leaves on file and the theorems on pools; [Dispatch],
      [DispatchLife]: the dispatch worker of [corporate_dispatch.rs];
      [MarketJournal], [MarketLife]: the market's journal ([market_journal.rs])
      and its intake envelopes ([market_network.rs]).
    - [ToyEdge], [ToyStore]: instances of the two classes of crates that meet
      their laws; [Fixtures], [WitnessBook], [WitnessProtocol],
      [WitnessSettlement], [WitnessService], [WitnessEdge], [WitnessNode],
      [WitnessRpc], [WitnessJournal], [WitnessMarket]: the theorems applied to concrete data.

    ** Modelling conventions

    Machine integers are [Z]; every checked, saturating or wrapping operation
    of the source is the corresponding function of [Prelude] (the release
    profile wraps). Digests are 32-byte strings by type. Strings are byte
    lists. A function with [&mut self] is a [method]: it returns the state it
    leaves behind on success and on error alike, so atomicity is a theorem and
    not a convention. An [expect] that would abort is the error [Panic].
    Randomness, the hash, the signature suite, zero-knowledge proofs, the
    ledger, the finality SDK, DeKYX, the optimistic protocol, the outbox and
    JSON are parameters (classes [Crypto], [Points], [SettlementCrates],
    [CompatCrates], [Dekyx], [OptimisticSdk], [CorporateOutbox], [Json],
    [EdgeCrates], [ReceiptJson], [StoreJson], [Persistence], [CorporateCrates],
    [OutboxFile], [JournalJson], [DispatchJson], [MarketJson]). Some of them come
    with laws their client relies on: a settlement package takes its legs from
    the holdings it was built on ([CompatLaws]); JSON reads back what it wrote
    ([EnvelopeLaws], [StoreLaws]); the scalars of the edge form a field acting
    on the commitment group, sealed boxes open and base64 decodes what it encoded
    ([EdgeLaws]); an outbox only grows and keeps the first request of an identifier
    ([OutboxLaws]). No theorem assumes that the hash is injective or never zero:
    binding theorems exhibit the two colliding preimages, and where the code
    refuses an all-zero digest the theorem names the digests of that run. A
    request to a node is one step, also where the source releases and retakes the
    store's lock inside it. Records of other crates have the fields the code reads.

    ** What the theorems show

    - Orders: the private wire form is a bijection with valid orders, a
      commitment binds every field, an authorization verifies just until expiry.
    - Matching: price-time priority within the limits, conservation and exact
      canonical depth of the reference match; the circuit computes the same result; an honest
      round returns it, and any receipt means unanimity.
    - Book: the invariant and replay protection over all runs; the match as a
      refinement of fills on a finite map; all-or-nothing application;
      conservation; the book never crosses; exact cancellation, expiry, capacity
      guard and snapshot.
    - Ordering and proofs: one vote per sequence and node, quorum intersection,
      the head binds the history, progress; attestation and verification,
      uniqueness of what an authorization binds, challenges.
    - Settlement: no engine that the public interface can produce over-promises,
      fills are consumed exactly, batches move exactly what the fills say and are
      atomic up to the height, acceptance is a compare-and-swap.
    - Service: on every run, attested or optimistic, the book, the certified log
      and the engine stay in step and every resting order is backed by its own
      reservation; failed calls leave no trace of their order; the queue
      delivers what was signed and records each answer once.
    - Edge: creation returns a bundle exactly when one of the scalars drawn for
      the key is not zero; every node opens a package that passes its own
      check; any three key shares give the sealing key back; the
      capability survives its JSON; the decimal text of a share is its value.
    - Node: an honest bundle is admitted by a fresh store; every operation takes
      its own abstract step or none, in memory and on disk together unless a
      write fails or the generation is exhausted; over runs with failing writes
      and restarts the file is one its own reader accepts as long as every
      private head keeps its sealed share, a node never votes for two live
      statements in one slot, and one reservation backs one order. Pruning an
      order that still has a private head is shown to strand the file.
    - Network: records round-trip at a fixed size; a peer gets nothing outside
      its role; a key share leaves a node only for an order that a verified
      certificate and a completed round or a certified release cover; a node
      never signs two live statements for one sequence whatever it is asked;
      ordering survives two faulty nodes and key release four; a delivery is
      acknowledged by all seven nodes or not at all, and an honest order at
      ready nodes is.
    - Corporate journal: over every interleaving of workers on one file, with
      calls that fail, lost acknowledgements and processes that insert what they
      like, a reserve that was sent is never declared unsent, neither to a
      caller nor on the queue; a resubmission repeats the recorded bytes;
      requests go out in the order of their intents; an identifier stands for
      one instruction; an admission is acknowledged only with a verified receipt
      on file.
    - Market: an order has one place in the intake; inputs are taken up in that
      order, and none whose round is complete; every agreed execution can be published as a book that readers
      accept.

    ** Bounds

    The recursion of the source is over finite lists, so the definitions are
    structural and need no fuel, with three exceptions: [MpcRunner.dec_from]
    (decimal printing) is given as many steps as [u64] has digits and is proved
    exact there; the rejection loop of the edge ([random_nonzero_scalar]) takes
    a bound on the draws, and the theorem about creation says for every random
    tape whether the bound is enough; the carry of
    [bigint_le_to_decimal] is given as many steps as the carry has digits. Runs
    of the store are [fair] when no digest the code computes is all zero and
    digests of different domains do not coincide. Theorems about sequences assume the book or log is short of
    [u64::MAX] commands where the source adds one without a check.

    ** Not modelled

    Processes, pipes, sockets, TLS and HTTP; key generation and serde adapters; the blinding and
    bit-decomposition wires of the circuit, which only feed the proof parties;
    the demonstration issuer and wallet of [oclob-dekyx]; the native and
    Avalanche adapters, whose content is the interface of other repositories;
    the making of a corporate reserve (proofs and wallet notes), the claim keys,
    enrolment and first initialisation of the corporate journal, its HTTP
    intake, the market's resident loop, and the issuer's pre-trade checks. *)

From stdpp Require Export base option list list_numbers sorting numbers strings sets gmap.
From Stdlib Require Export ZArith Lia.
Open Scope Z_scope.

(** ** Results and state-passing methods *)

(** [Result<A, E>] of the source, with the error type first so that
    [result E] is a monad. *)
Inductive result (E A : Type) : Type :=
| Ok (a : A)
| Err (e : E).
Arguments Ok {E A} a.
Arguments Err {E A} e.

#[export] Instance result_mret E : MRet (result E) := λ A a, Ok a.
#[export] Instance result_mbind E : MBind (result E) := λ A B f r,
  match r with Ok a => f a | Err e => Err e end.
#[export] Instance result_fmap E : FMap (result E) := λ A B f r,
  match r with Ok a => Ok (f a) | Err e => Err e end.

#[export] Instance result_eq_dec E A `{EqDecision E, EqDecision A} :
  EqDecision (result E A).
Proof. solve_decision. Defined.

(** [Option::ok_or] and [Result::map_err]. *)
Definition ok_or {E A} (o : option A) (e : E) : result E A :=
  match o with Some a => Ok a | None => Err e end.

Definition map_err {E F A} (f : E → F) (r : result E A) : result F A :=
  match r with Ok a => Ok a | Err e => Err (f e) end.

(** [if c { return Err(e) }]. *)
Definition fail_if {E} (c : bool) (e : E) : result E () :=
  if c then Err e else Ok ().

Definition is_ok {E A} (r : result E A) : bool :=
  match r with Ok _ => true | Err _ => false end.

(** A method taking [&mut self] and returning [Result]: the state it leaves
    behind is part of the outcome on the error path too. *)
Definition method (S E A : Type) : Type := S → S * result E A.

#[export] Instance method_mret S E : MRet (method S E) := λ A a s, (s, Ok a).
#[export] Instance method_mbind S E : MBind (method S E) := λ A B f m s,
  match m s with
  | (s', Ok a) => f a s'
  | (s', Err e) => (s', Err e)
  end.

Definition self {S E} : method S E S := λ s, (s, Ok s).
Definition set_self {S E} (s' : S) : method S E () := λ _, (s', Ok ()).
Definition try {S E A} (r : result E A) : method S E A := λ s, (s, r).

(** [iter().map(f).collect::<Result<Vec<_>, _>>()]. *)
Fixpoint collect {E A B} (f : A → result E B) (l : list A) : result E (list B) :=
  match l with
  | [] => Ok []
  | a :: l => b ← f a; bs ← collect f l; Ok (b :: bs)
  end.

(** [for x in l { body }] threading a local accumulator with early return. *)
Fixpoint for_each {E A B} (f : B → A → result E B) (b : B) (l : list A) : result E B :=
  match l with
  | [] => Ok b
  | a :: l => b' ← f b a; for_each f b' l
  end.

(** ** Machine integers *)

Definition u16_max : Z := 2 ^ 16 - 1.
Definition u32_max : Z := 2 ^ 32 - 1.
Definition u64_max : Z := 2 ^ 64 - 1.

Definition is_u16 (x : Z) : bool := (0 <=? x) && (x <=? u16_max).
Definition is_u64 (x : Z) : bool := (0 <=? x) && (x <=? u64_max).

Definition checked_add (x y : Z) : option Z :=
  if x + y <=? u64_max then Some (x + y) else None.
Definition checked_mul (x y : Z) : option Z :=
  if x * y <=? u64_max then Some (x * y) else None.
Definition checked_sub (x y : Z) : option Z :=
  if y <=? x then Some (x - y) else None.
Definition saturating_add (x y : Z) : Z := Z.min (x + y) u64_max.
Definition saturating_sub (x y : Z) : Z := Z.max (x - y) 0.

(** [+] and [Iterator::sum] on [u64] in the release profile (no overflow
    checks): arithmetic modulo [2^64]. *)
Definition wrapping_add (x y : Z) : Z := (x + y) mod 2 ^ 64.
Definition wrapping_sum (l : list Z) : Z := foldl wrapping_add 0 l.

(** [u64::is_multiple_of]: only zero is a multiple of zero. *)
Definition is_multiple_of (x y : Z) : bool :=
  if y =? 0 then x =? 0 else x mod y =? 0.

Definition sumZ (l : list Z) : Z := foldr Z.add 0 l.

(** ** Tactics *)

(** Splits the scrutinee of a [match] or [if] that blocks evaluation. *)
Ltac case_match_hyp H :=
  match type of H with
  | context [match ?x with _ => _ end] =>
      lazymatch x with
      | context [match _ with _ => _ end] => fail
      | _ => let E := fresh "E" in destruct x eqn:E; simplify_eq/=
      end
  end.

Ltac run H := repeat case_match_hyp H.

(** Turns boolean tests among the hypotheses into propositions. *)
Ltac bool_hyps :=
  repeat match goal with
  | H : _ && _ = true |- _ => apply andb_true_iff in H as [? ?]
  | H : _ || _ = false |- _ => apply orb_false_iff in H as [? ?]
  | H : negb _ = true |- _ => apply negb_true_iff in H
  | H : negb _ = false |- _ => apply negb_false_iff in H
  | H : bool_decide _ = true |- _ => apply bool_decide_eq_true in H
  | H : bool_decide _ = false |- _ => apply bool_decide_eq_false in H
  | H : (_ =? _) = true |- _ => apply Z.eqb_eq in H
  | H : (_ =? _) = false |- _ => apply Z.eqb_neq in H
  | H : (_ <=? _) = true |- _ => apply Z.leb_le in H
  | H : (_ <=? _) = false |- _ => apply Z.leb_gt in H
  | H : (_ <? _) = true |- _ => apply Z.ltb_lt in H
  | H : (_ <? _) = false |- _ => apply Z.ltb_ge in H
  | H : Is_true _ |- _ => apply Is_true_true in H
  end.

(** Splits on the outermost guard of a method. *)
Ltac split_guard E :=
  match goal with
  | |- context [match fail_if ?c ?e with _ => _ end] => destruct c eqn:E; simpl
  end.

Create HintDb oclob.
Create Rewrite HintDb result.

(** ** Lemmas on results and methods *)

Lemma bind_Ok {E A B} (r : result E A) (f : A → result E B) b :
  r ≫= f = Ok b ↔ ∃ a, r = Ok a ∧ f a = Ok b.
Proof. destruct r; naive_solver. Qed.

Lemma Ok_bind {E A B} (a : A) (f : A → result E B) : Ok a ≫= f = f a.
Proof. done. Qed.

Lemma Ok_inj {E A} (a b : A) : @Ok E A a = Ok b → a = b.
Proof. by intros [=]. Qed.

Lemma ok_or_Ok {E A} (o : option A) (e : E) a : ok_or o e = Ok a ↔ o = Some a.
Proof. destruct o; naive_solver. Qed.

Lemma map_err_Ok {E F A} (f : E → F) (r : result E A) a :
  map_err f r = Ok a ↔ r = Ok a.
Proof. destruct r; naive_solver. Qed.

Lemma fail_if_Ok {E} c (e : E) u : fail_if c e = Ok u ↔ c = false.
Proof. destruct c, u; naive_solver. Qed.

Lemma pass_guard {E B} c (e : E) (f : () → result E B) : c = false → fail_if c e ≫= f = f ().
Proof. by intros ->. Qed.

Lemma collect_Ok {E A B} (f : A → result E B) l bs :
  collect f l = Ok bs ↔ Forall2 (λ a b, f a = Ok b) l bs.
Proof.
  revert bs; induction l as [|a l IH]; intros bs; simpl.
  { split; [intros [= <-]; constructor|]. by inversion 1. }
  rewrite bind_Ok. setoid_rewrite bind_Ok. setoid_rewrite IH.
  split; [naive_solver|]. inversion 1; naive_solver.
Qed.

Lemma try_spec {S E A} (r : result E A) (s : S) : try r s = (s, r).
Proof. done. Qed.

Lemma method_bind {S E A B} (m : method S E A) (f : A → method S E B) s :
  (m ≫= f) s = match m s with (s', Ok a) => f a s' | (s', Err e) => (s', Err e) end.
Proof. done. Qed.

Lemma method_bind_Ok {S E A B} (m : method S E A) (f : A → method S E B) s s' b :
  (m ≫= f) s = (s', Ok b) ↔ ∃ s1 a, m s = (s1, Ok a) ∧ f a s1 = (s', Ok b).
Proof. rewrite method_bind. destruct (m s) as [s1 [a|e]]; naive_solver. Qed.

Lemma try_Ok {S E A} (r : result E A) (s s' : S) a : try r s = (s', Ok a) ↔ s' = s ∧ r = Ok a.
Proof. unfold try. naive_solver. Qed.

Lemma mret_Ok {S E A} (a b : A) (s s' : S) :
  @mret (method S E) _ A a s = (s', Ok b) ↔ s' = s ∧ a = b.
Proof. unfold mret, method_mret. naive_solver. Qed.

Lemma try_bind {S E A B} (r : result E A) (f : A → method S E B) s :
  (try r ≫= f) s = match r with Ok a => f a s | Err e => (s, Err e) end.
Proof. by destruct r. Qed.

Lemma self_bind {S E B} (f : S → method S E B) s : (self ≫= f) s = f s s.
Proof. done. Qed.

Lemma set_self_bind {S E B} (f : () → method S E B) s s' : (set_self s' ≫= f) s = f () s'.
Proof. done. Qed.

(** Takes the next step off a successful run [H] of a method or a result. *)
Tactic Notation "step" hyp(H) "as" simple_intropattern(p) :=
  first [apply method_bind_Ok in H as p | apply bind_Ok in H as p].

(** ** Lemmas on machine integers *)

Lemma checked_add_Some x y z : checked_add x y = Some z ↔ z = x + y ∧ x + y ≤ u64_max.
Proof. unfold checked_add. case_match; bool_hyps; naive_solver lia. Qed.

Lemma checked_mul_Some x y z : checked_mul x y = Some z ↔ z = x * y ∧ x * y ≤ u64_max.
Proof. unfold checked_mul. case_match; bool_hyps; naive_solver lia. Qed.

Lemma checked_sub_Some x y z : checked_sub x y = Some z ↔ z = x - y ∧ y ≤ x.
Proof. unfold checked_sub. case_match; bool_hyps; naive_solver lia. Qed.

Lemma is_u64_spec x : is_u64 x = true ↔ 0 ≤ x ≤ u64_max.
Proof. unfold is_u64. rewrite andb_true_iff, !Z.leb_le. done. Qed.

Lemma sumZ_app l k : sumZ (l ++ k) = sumZ l + sumZ k.
Proof. induction l; simpl; lia. Qed.

Lemma sumZ_nonneg l : Forall (λ x, 0 ≤ x) l → 0 ≤ sumZ l.
Proof. induction 1; simpl; lia. Qed.

#[export] Instance sumZ_perm : Proper ((≡ₚ) ==> (=)) sumZ.
Proof. induction 1; simpl; lia. Qed.

Lemma wrapping_sum_exact l :
  Forall (λ x, 0 ≤ x) l → sumZ l ≤ u64_max → wrapping_sum l = sumZ l.
Proof.
  intros Hl. unfold wrapping_sum.
  enough (∀ a, 0 ≤ a → a + sumZ l ≤ u64_max → foldl wrapping_add a l = a + sumZ l)
    as H by (intros; rewrite H; lia).
  induction Hl as [|x l Hx Hl IH]; intros a Ha Hs; simpl in *; [lia|].
  pose proof (sumZ_nonneg l Hl). unfold u64_max in *.
  assert (wrapping_add a x = a + x) as -> by (apply Z.mod_small; lia).
  rewrite IH; lia.
Qed.

Lemma StronglySorted_lookup_lt {A} (R : A → A → Prop) l i j x y :
  StronglySorted R l → (i < j)%nat → l !! i = Some x → l !! j = Some y → R x y.
Proof.
  intros Hl; revert i j; induction Hl as [|z l Hl IH Hz]; intros i j Hij Hi Hj;
    [by rewrite lookup_nil in Hi|].
  destruct j as [|j]; [lia|]; simpl in Hj. destruct i as [|i]; simpl in Hi.
  - simplify_eq. rewrite Forall_lookup in Hz; eauto.
  - eapply IH; [|done..]. lia.
Qed.

#[export] Hint Rewrite @bind_Ok @ok_or_Ok @map_err_Ok @fail_if_Ok
  checked_add_Some checked_mul_Some checked_sub_Some : result.
