(* ===== verification/BTree.v ===== *)
(** * Ordered maps

    [std::collections::BTreeMap] as the source uses it: iteration visits keys
    in increasing order, [entry(k).or_default()], [get_mut], [insert],
    [remove], [keys().next()] and [keys().next_back()].  A map is the list of
    its entries; [bt_ok] says the keys are strictly increasing, which is the
    representation invariant every operation preserves. *)

From S2P Require Import Prelude.

(** A total order on keys, as [Ord] in Rust. *)
Class Ord (K : Type) := {
  ocmp : K → K → comparison;
  ocmp_eq : ∀ a b, ocmp a b = Eq ↔ a = b;
  ocmp_opp : ∀ a b, ocmp b a = CompOpp (ocmp a b);
  ocmp_trans : ∀ a b c, ocmp a b = Lt → ocmp b c = Lt → ocmp a c = Lt
}.

Arguments ocmp : simpl never.

Definition olt {K} `{Ord K} (a b : K) : Prop := ocmp a b = Lt.
Definition oltb {K} `{Ord K} (a b : K) : bool :=
  match ocmp a b with Lt => true | _ => false end.
Definition oleb {K} `{Ord K} (a b : K) : bool :=
  match ocmp a b with Gt => false | _ => true end.

#[export] Instance Z_ord : Ord Z.
Proof.
  apply (Build_Ord _ Z.compare).
  - apply Z.compare_eq_iff.
  - intros a b. apply Z.compare_antisym.
  - intros a b c. rewrite !Z.compare_lt_iff. lia.
Defined.

Definition pair_cmp {A B} `{Ord A, Ord B} (x y : A * B) : comparison :=
  match ocmp x.1 y.1 with Eq => ocmp x.2 y.2 | c => c end.

#[export] Instance pair_ord A B `{Ord A, Ord B} : Ord (A * B).
Proof.
  apply (Build_Ord _ pair_cmp).
  - intros [a b] [c d]; unfold pair_cmp; simpl. destruct (ocmp a c) eqn:E.
    + apply ocmp_eq in E as ->. rewrite ocmp_eq. naive_solver.
    + split; [done|]. intros [= -> ->]. rewrite (proj2 (ocmp_eq c c)) in E; done.
    + split; [done|]. intros [= -> ->]. rewrite (proj2 (ocmp_eq c c)) in E; done.
  - intros [a b] [c d]; unfold pair_cmp; simpl.
    rewrite (ocmp_opp a c). destruct (ocmp a c); simpl; auto using ocmp_opp.
  - intros [a b] [c d] [e f]; unfold pair_cmp; simpl.
    destruct (ocmp a c) eqn:E1, (ocmp c e) eqn:E2; try done.
    + apply ocmp_eq in E1 as ->, E2 as ->. rewrite (proj2 (ocmp_eq e e)) by done.
      apply ocmp_trans.
    + apply ocmp_eq in E1 as ->. by rewrite E2.
    + apply ocmp_eq in E2 as ->. by rewrite E1.
    + by rewrite (ocmp_trans _ _ _ E1 E2).
Defined.

Definition btree (K V : Type) : Type := list (K * V).

Section btree.
Context {K V : Type} `{Ord K}.
Implicit Types (m : list (K * V)) (k : K) (v : V).

Definition bt_keys m : list K := map fst m.
Definition bt_values m : list V := map snd m.

Fixpoint bt_get k m : option V :=
  match m with
  | [] => None
  | (k', v) :: m => match ocmp k k' with Eq => Some v | _ => bt_get k m end
  end.

(** [insert]: replaces the value of an existing key. *)
Fixpoint bt_insert k v m : list (K * V) :=
  match m with
  | [] => [(k, v)]
  | (k', v') :: m =>
      match ocmp k k' with
      | Lt => (k, v) :: (k', v') :: m
      | Eq => (k, v) :: m
      | Gt => (k', v') :: bt_insert k v m
      end
  end.

(** [*entry(k).or_insert(d) = f(...)]. *)
Definition bt_entry k (d : V) (f : V → V) m : list (K * V) :=
  bt_insert k (f (default d (bt_get k m))) m.

Fixpoint bt_remove k m : list (K * V) :=
  match m with
  | [] => []
  | (k', v) :: m => match ocmp k k' with Eq => m | _ => (k', v) :: bt_remove k m end
  end.

Definition bt_contains k m : bool :=
  match bt_get k m with Some _ => true | None => false end.

Definition bt_first m : option (K * V) := head m.
Definition bt_last m : option (K * V) := last m.

(** The representation invariant. *)
Definition bt_ok m : Prop := StronglySorted olt (bt_keys m).

End btree.
Arguments btree K V : clear implicits.

(** [sort_by_key] / [sort_unstable]: stable insertion by a comparison. *)
Fixpoint sort_insert {A} (leb : A → A → bool) (x : A) (l : list A) : list A :=
  match l with
  | [] => [x]
  | y :: l => if leb x y then x :: y :: l else y :: sort_insert leb x l
  end.
Definition sort_by {A} (leb : A → A → bool) (l : list A) : list A :=
  foldr (sort_insert leb) [] l.

(** ** The order *)

Section order.
Context {K : Type} `{Ord K}.
Implicit Types a b c : K.

Lemma ocmp_refl a : ocmp a a = Eq.
Proof. by apply ocmp_eq. Qed.

Lemma ocmp_Gt a b : ocmp a b = Gt ↔ olt b a.
Proof. unfold olt. rewrite (ocmp_opp a b). destruct (ocmp a b); naive_solver. Qed.

#[export] Instance olt_strict : StrictOrder olt.
Proof.
  split.
  - intros a Ha. unfold olt in Ha. by rewrite ocmp_refl in Ha.
  - intros a b c. apply ocmp_trans.
Qed.

Lemma olt_ne a b : olt a b → a ≠ b.
Proof. intros Hlt ->. by apply (irreflexivity olt b). Qed.

Lemma ocmp_cases a b : {olt a b} + {a = b} + {olt b a}.
Proof.
  destruct (ocmp a b) eqn:E.
  - left; right. by apply ocmp_eq.
  - by left; left.
  - right. by apply ocmp_Gt.
Defined.

Lemma oltb_spec a b : oltb a b = true ↔ olt a b.
Proof. unfold oltb, olt. destruct (ocmp a b); naive_solver. Qed.

Lemma oleb_spec a b : oleb a b = true ↔ olt a b ∨ a = b.
Proof. unfold oleb, olt. rewrite <-ocmp_eq. destruct (ocmp a b); naive_solver. Qed.

Lemma oleb_total a b : oleb a b = true ∨ oleb b a = true.
Proof. unfold oleb. rewrite (ocmp_opp a b). destruct (ocmp a b); naive_solver. Qed.

End order.

Lemma olt_Z (a b : Z) : olt a b ↔ a < b.
Proof. apply Z.compare_lt_iff. Qed.

Lemma olt_ZZ (a b c d : Z) : olt (a, b) (c, d) ↔ a < c ∨ (a = c ∧ b < d).
Proof.
  change (pair_cmp (a, b) (c, d) = Lt ↔ a < c ∨ (a = c ∧ b < d)). unfold pair_cmp; cbn [fst snd].
  rewrite <-(olt_Z a c), <-(olt_Z b d). unfold olt. rewrite <-(ocmp_eq a c).
  destruct (ocmp a c); naive_solver.
Qed.

(** ** Laws of the map operations *)

Section laws.
Context {K V : Type} `{Ord K}.
Implicit Types (m : list (K * V)) (k : K) (v : V).

Lemma bt_ok_cons k v m :
  bt_ok ((k, v) :: m) ↔ bt_ok m ∧ Forall (λ kv, olt k kv.1) m.
Proof.
  unfold bt_ok, bt_keys; simpl. rewrite <-Forall_map with (f := fst) (P := olt k).
  split; [by inversion 1|]. intros [??]; by constructor.
Qed.

Lemma bt_ok_app m1 m2 : bt_ok (m1 ++ m2) → bt_ok m1 ∧ bt_ok m2.
Proof.
  induction m1 as [|[k v] m1 IH]; simpl; [split; [constructor|done]|].
  rewrite !bt_ok_cons, Forall_app. naive_solver.
Qed.

Lemma bt_get_cons k k' v m :
  bt_get k ((k', v) :: m) = match ocmp k k' with Eq => Some v | _ => bt_get k m end.
Proof. done. Qed.

Lemma bt_get_elem k v m : bt_get k m = Some v → (k, v) ∈ m.
Proof.
  induction m as [|[k' v'] m IH]; simpl; [done|].
  destruct (ocmp k k') eqn:E; try (intros; right; auto; fail).
  apply ocmp_eq in E as ->. intros [= ->]. left.
Qed.

Lemma bt_get_lb k m : Forall (λ kv, olt k kv.1) m → bt_get k m = None.
Proof.
  induction 1 as [|[k' v'] m Hlt _ IH]; simpl in *; [done|].
  by unfold olt in Hlt; rewrite Hlt.
Qed.

Lemma bt_elem_get k v m : bt_ok m → (k, v) ∈ m → bt_get k m = Some v.
Proof.
  induction m as [|[k' v'] m IH]; [by intros _ ?%elem_of_nil|].
  rewrite bt_ok_cons, elem_of_cons. intros [Hm Hlb] [[= -> ->]|Hin]; simpl.
  { by rewrite ocmp_refl. }
  rewrite Forall_forall in Hlb. pose proof (Hlb _ Hin) as Hlt; simpl in Hlt.
  rewrite (proj2 (ocmp_Gt k k')) by done. auto.
Qed.

Lemma bt_insert_keys k v m kv : kv ∈ bt_insert k v m → kv = (k, v) ∨ kv ∈ m.
Proof.
  induction m as [|[k' v'] m IH]; simpl; [set_solver|].
  destruct (ocmp k k'); set_solver.
Qed.

Lemma bt_insert_ok k v m : bt_ok m → bt_ok (bt_insert k v m).
Proof.
  induction m as [|[k' v'] m IH]; simpl; [repeat constructor|].
  rewrite bt_ok_cons; intros [Hm Hlb].
  destruct (ocmp k k') eqn:E; rewrite bt_ok_cons.
  - by apply ocmp_eq in E as ->.
  - rewrite bt_ok_cons. split_and!; [done..|]. constructor; [done|].
    eapply Forall_impl; [done|]. intros kv ?. by etrans.
  - split; [by apply IH|]. apply Forall_forall. intros kv [->|Hin]%bt_insert_keys.
    + by apply ocmp_Gt.
    + rewrite Forall_forall in Hlb; auto.
Qed.

Lemma bt_get_insert k v m k' :
  bt_get k' (bt_insert k v m) = match ocmp k' k with Eq => Some v | _ => bt_get k' m end.
Proof.
  induction m as [|[k0 v0] m IH]; simpl; [done|].
  destruct (ocmp k k0) eqn:E; simpl.
  - apply ocmp_eq in E as ->. destruct (ocmp k' k0); done.
  - done.
  - rewrite IH. destruct (ocmp k' k0) eqn:E0; [|done..].
    apply ocmp_eq in E0 as ->. rewrite (ocmp_opp k k0), E; done.
Qed.

Lemma bt_get_insert_eq k v m : bt_get k (bt_insert k v m) = Some v.
Proof. by rewrite bt_get_insert, ocmp_refl. Qed.

Lemma bt_get_insert_ne k k' v m : k ≠ k' → bt_get k' (bt_insert k v m) = bt_get k' m.
Proof.
  intros Hne. rewrite bt_get_insert. destruct (ocmp k' k) eqn:E; [|done..].
  apply ocmp_eq in E; congruence.
Qed.

Lemma bt_remove_elem k m kv : kv ∈ bt_remove k m → kv ∈ m.
Proof.
  induction m as [|[k' v'] m IH]; simpl; [done|].
  destruct (ocmp k k'); set_solver.
Qed.

Lemma bt_remove_ok k m : bt_ok m → bt_ok (bt_remove k m).
Proof.
  induction m as [|[k' v'] m IH]; simpl; [done|].
  rewrite bt_ok_cons; intros [Hm Hlb].
  destruct (ocmp k k') eqn:E; [done| |];
    (rewrite bt_ok_cons; split; [by apply IH|]; rewrite Forall_forall in *;
     intros kv ?%bt_remove_elem; auto).
Qed.

Lemma bt_get_remove_eq k m : bt_ok m → bt_get k (bt_remove k m) = None.
Proof.
  induction m as [|[k' v'] m IH]; simpl; [done|].
  rewrite bt_ok_cons; intros [Hm Hlb]. destruct (ocmp k k') eqn:E; simpl.
  - apply ocmp_eq in E as ->. by apply bt_get_lb.
  - rewrite E; auto.
  - rewrite E; auto.
Qed.

Lemma bt_get_remove_ne k k' m : k ≠ k' → bt_get k' (bt_remove k m) = bt_get k' m.
Proof.
  intros Hne. induction m as [|[k0 v0] m IH]; simpl; [done|].
  destruct (ocmp k k0) eqn:E; simpl; [|by rewrite IH..].
  apply ocmp_eq in E as <-. destruct (ocmp k' k) eqn:E; [|done..].
  apply ocmp_eq in E; congruence.
Qed.

Lemma bt_ok_NoDup m : bt_ok m → NoDup (bt_keys m).
Proof.
  unfold bt_ok. induction 1 as [|k l Hl IH Hlb]; constructor; [|done].
  rewrite Forall_forall in Hlb. intros Hin. by apply (irreflexivity olt k), Hlb.
Qed.

(** Replacing the value under a present key keeps the position of the entry. *)
Lemma bt_insert_split k v v' m1 m2 :
  bt_ok (m1 ++ (k, v) :: m2) →
  bt_insert k v' (m1 ++ (k, v) :: m2) = m1 ++ (k, v') :: m2.
Proof.
  induction m1 as [|[k0 v0] m1 IH]; simpl; [by rewrite ocmp_refl|].
  rewrite bt_ok_cons, Forall_app, Forall_cons. intros (Hok & _ & Hlt & _); simpl in Hlt.
  rewrite (proj2 (ocmp_Gt k k0)) by done. by rewrite IH.
Qed.

Lemma bt_get_split k v m :
  bt_get k m = Some v → ∃ m1 m2, m = m1 ++ (k, v) :: m2.
Proof. intros ?%bt_get_elem. by apply list_elem_of_split. Qed.

(** A fresh key lands between the smaller and the larger ones. *)
Lemma bt_insert_fresh k v m :
  bt_ok m → bt_get k m = None →
  ∃ m1 m2, m = m1 ++ m2 ∧ bt_insert k v m = m1 ++ (k, v) :: m2 ∧
    Forall (λ kv, olt kv.1 k) m1 ∧ Forall (λ kv, olt k kv.1) m2.
Proof.
  induction m as [|[k0 v0] m IH]; simpl.
  { intros _ _. by exists [], []. }
  rewrite bt_ok_cons; intros [Hm Hlb] Hget. destruct (ocmp k k0) eqn:E; [done| |].
  - exists [], ((k0, v0) :: m). split_and!; [done..|].
    constructor; [done|]. eapply Forall_impl; [done|]. intros kv ?. by etrans.
  - destruct IH as (m1 & m2 & -> & -> & H1 & H2); [done..|].
    exists ((k0, v0) :: m1), m2. split_and!; [done..| |done].
    constructor; [|done]. by apply ocmp_Gt.
Qed.

Lemma bt_insert_values_fresh k v m :
  bt_ok m → bt_get k m = None → bt_values (bt_insert k v m) ≡ₚ v :: bt_values m.
Proof.
  intros Hm Hk. destruct (bt_insert_fresh k v m Hm Hk) as (m1 & m2 & -> & -> & _).
  unfold bt_values. rewrite !map_app; simpl. by rewrite Permutation_middle.
Qed.

(** A sum over the values after an update or the insertion of a fresh key. *)
Lemma bt_sum_update (f : V → Z) k v v' m :
  bt_ok m → bt_get k m = Some v →
  sumZ (map f (bt_values (bt_insert k v' m))) = sumZ (map f (bt_values m)) - f v + f v'.
Proof.
  intros Hm (m1 & m2 & ->)%bt_get_split. rewrite bt_insert_split by done.
  unfold bt_values. rewrite !map_app, !sumZ_app; simpl. lia.
Qed.

Lemma bt_sum_fresh (f : V → Z) k v m :
  bt_ok m → bt_get k m = None →
  sumZ (map f (bt_values (bt_insert k v m))) = f v + sumZ (map f (bt_values m)).
Proof.
  intros Hm Hk. pose proof (bt_insert_values_fresh k v m Hm Hk) as Hp.
  by rewrite (Permutation_map f Hp).
Qed.

Lemma bt_value_get v m :
  bt_ok m → v ∈ bt_values m ↔ ∃ k, bt_get k m = Some v.
Proof.
  intros Hm. unfold bt_values. rewrite list_elem_of_In, in_map_iff. split.
  - intros ([k v'] & <- & Hin). exists k. apply bt_elem_get; [done|]. by apply list_elem_of_In.
  - intros [k Hk%bt_get_elem]. exists (k, v). split; [done|]. by apply list_elem_of_In.
Qed.

End laws.

#[export] Hint Resolve bt_insert_ok bt_remove_ok : oclob.

(** ** Sorting *)

Section sorting.
Context {A : Type} (leb : A → A → bool).
Implicit Types (x y : A) (l : list A).

Lemma sort_insert_perm x l : sort_insert leb x l ≡ₚ x :: l.
Proof.
  induction l as [|y l IH]; simpl; [done|]. destruct (leb x y); [done|].
  rewrite IH. apply Permutation_swap.
Qed.

Lemma sort_by_perm l : sort_by leb l ≡ₚ l.
Proof. induction l as [|x l IH]; simpl; [done|]. by rewrite sort_insert_perm, IH. Qed.

Lemma sort_insert_sorted (Htotal : ∀ x y, leb x y = true ∨ leb y x = true)
    (Htrans : ∀ x y z, leb x y = true → leb y z = true → leb x z = true) x l :
  StronglySorted (λ x y, leb x y = true) l →
  StronglySorted (λ x y, leb x y = true) (sort_insert leb x l).
Proof.
  induction 1 as [|y l Hl IH Hlb]; simpl; [by repeat constructor|].
  destruct (leb x y) eqn:E.
  - constructor; [by constructor|]. constructor; [done|].
    eapply Forall_impl; [done|]. simpl. eauto.
  - constructor; [done|]. rewrite sort_insert_perm. constructor; [|done].
    destruct (Htotal x y); congruence.
Qed.

Lemma sort_by_sorted (Htotal : ∀ x y, leb x y = true ∨ leb y x = true)
    (Htrans : ∀ x y z, leb x y = true → leb y z = true → leb x z = true) l :
  StronglySorted (λ x y, leb x y = true) (sort_by leb l).
Proof.
  induction l as [|x l IH]; simpl; [constructor|]. by apply sort_insert_sorted.
Qed.

End sorting.

Lemma oleb_trans {K} `{Ord K} (a b c : K) :
  oleb a b = true → oleb b c = true → oleb a c = true.
Proof.
  rewrite !oleb_spec. intros [Hab| ->] [Hbc| ->]; auto. left. by etrans.
Qed.
