(* ===== verification/Bytes.v ===== *)
(** * Bytes, digests and the cryptographic boundary

    Big-endian integers ([to_be_bytes]/[from_be_bytes]), 32-byte digests with
    their lexicographic order, UTF-8 validity of [str], and the interface to
    the primitives the repository takes from other crates: SHA-256 and the
    hybrid Ed25519 + ML-DSA-65 signer. *)

From S2P Require Import Prelude BTree.
From Stdlib Require Import Strings.Byte.
From Stdlib Require String.

Abbreviation byte := Init.Byte.byte.
Abbreviation bytes := (list Init.Byte.byte).

Definition byte_val (b : byte) : Z := Z.of_N (Byte.to_N b).
Definition byte_of (z : Z) : byte := default x00 (Byte.of_N (Z.to_N (z mod 256))).

(** [to_be_bytes] of an [n]-byte unsigned integer and [from_be_bytes]. *)
Fixpoint be_bytes (n : nat) (z : Z) : bytes :=
  match n with
  | O => []
  | S n => byte_of (z / 2 ^ (8 * Z.of_nat n)) :: be_bytes n z
  end.
Definition be_val (l : bytes) : Z := foldl (λ a b, a * 256 + byte_val b) 0 l.

Definition u16_be (z : Z) : bytes := be_bytes 2 z.
Definition u64_be (z : Z) : bytes := be_bytes 8 z.

(** [usize as u64] then [to_be_bytes], followed by the bytes themselves: the
    length-prefixed field written by every [put_bytes] of the source. *)
Definition put_bytes (b : bytes) : bytes := u64_be (Z.of_nat (length b)) ++ b.

Definition ascii_bytes (s : string) : bytes := String.list_byte_of_string s.

#[export] Instance byte_eq_dec : EqDecision byte := byte_eq_dec.

#[export] Instance byte_countable : Countable byte.
Proof.
  apply (inj_countable Byte.to_N Byte.of_N). intros b. apply Byte.of_to_N.
Defined.

Definition list_cmp {A} `{Ord A} : list A → list A → comparison :=
  fix go l k :=
    match l, k with
    | [], [] => Eq
    | [], _ :: _ => Lt
    | _ :: _, [] => Gt
    | a :: l, b :: k => match ocmp a b with Eq => go l k | c => c end
    end.

#[export] Instance byte_ord : Ord byte.
Proof.
  apply (Build_Ord _ (λ a b, Z.compare (byte_val a) (byte_val b))).
  - intros a b. rewrite Z.compare_eq_iff. unfold byte_val. split; [|by intros ->].
    intros Hab%N2Z.inj. pose proof (Byte.of_to_N a). pose proof (Byte.of_to_N b). congruence.
  - intros a b. apply Z.compare_antisym.
  - intros a b c. rewrite !Z.compare_lt_iff. lia.
Defined.

#[export] Instance list_ord A `{Ord A} : Ord (list A).
Proof.
  apply (Build_Ord _ list_cmp).
  - intros l; induction l as [|a l IH]; intros [|b k]; simpl; [naive_solver..|].
    destruct (ocmp a b) eqn:E; [apply ocmp_eq in E as ->; rewrite IH; naive_solver| |];
      (split; [done|]; intros [= -> ->]; by rewrite ocmp_refl in E).
  - intros l; induction l as [|a l IH]; intros [|b k]; simpl; [done..|].
    rewrite (ocmp_opp a b). destruct (ocmp a b); simpl; auto.
  - intros l; induction l as [|a l IH]; intros [|b k] [|c j]; simpl; try done.
    destruct (ocmp a b) eqn:E1, (ocmp b c) eqn:E2; try done.
    + apply ocmp_eq in E1 as ->, E2 as ->. rewrite ocmp_refl. apply IH.
    + apply ocmp_eq in E1 as ->. by rewrite E2.
    + apply ocmp_eq in E2 as ->. by rewrite E1.
    + by rewrite (ocmp_trans _ _ _ E1 E2).
Defined.

(** ** 32-byte digests *)

(** [type Digest32 = [u8; 32]]. *)
Record Digest32 := mk_digest {
  d_bytes : bytes;
  d_len : Is_true (Nat.eqb (length d_bytes) 32)
}.

(** [<[u8; 32]>::try_from(&[u8])]. *)
Definition digest_of (b : bytes) : option Digest32 :=
  match decide (Is_true (Nat.eqb (length b) 32)) with
  | left H => Some (mk_digest b H)
  | right _ => None
  end.

Definition digest_fill (b : byte) : Digest32 := mk_digest (replicate 32 b) I.
Definition zero_digest : Digest32 := digest_fill x00.

Lemma digest_eq (a b : Digest32) : d_bytes a = d_bytes b → a = b.
Proof.
  destruct a as [a Ha], b as [b Hb]; simpl. intros ->. f_equal. apply proof_irrel.
Qed.

#[export] Instance digest_eq_dec : EqDecision Digest32.
Proof.
  intros a b. destruct (decide (d_bytes a = d_bytes b)) as [E|E].
  - left. by apply digest_eq.
  - right. congruence.
Defined.

Lemma digest_of_bytes (d : Digest32) : digest_of (d_bytes d) = Some d.
Proof.
  unfold digest_of. case_decide as E; [f_equal; by apply digest_eq|].
  by destruct E; destruct d.
Qed.

#[export] Instance digest_countable : Countable Digest32.
Proof. apply (inj_countable d_bytes digest_of). apply digest_of_bytes. Defined.

#[export] Instance digest_ord : Ord Digest32.
Proof.
  apply (Build_Ord _ (λ a b, ocmp (d_bytes a) (d_bytes b))).
  - intros a b. rewrite ocmp_eq. split; [apply digest_eq|by intros ->].
  - intros a b. apply ocmp_opp.
  - intros a b c. apply ocmp_trans.
Defined.

(** ** UTF-8

    [std::str::from_utf8] accepts exactly the well-formed sequences of
    RFC 3629 (no overlong forms, no surrogates, nothing above U+10FFFF). *)
Definition in_range (lo hi : Z) (b : byte) : bool :=
  (lo <=? byte_val b) && (byte_val b <=? hi).

Fixpoint from_utf8 (l : bytes) : bool :=
  match l with
  | [] => true
  | b :: l =>
    if in_range 0x00 0x7F b then from_utf8 l else
    match l with
    | [] => false
    | c :: l =>
      if in_range 0xC2 0xDF b then in_range 0x80 0xBF c && from_utf8 l else
      match l with
      | [] => false
      | d :: l =>
        if in_range 0xE0 0xE0 b then
          in_range 0xA0 0xBF c && in_range 0x80 0xBF d && from_utf8 l
        else if in_range 0xED 0xED b then
          in_range 0x80 0x9F c && in_range 0x80 0xBF d && from_utf8 l
        else if in_range 0xE1 0xEF b then
          in_range 0x80 0xBF c && in_range 0x80 0xBF d && from_utf8 l
        else
        match l with
        | [] => false
        | e :: l =>
          if in_range 0xF0 0xF0 b then
            in_range 0x90 0xBF c && in_range 0x80 0xBF d && in_range 0x80 0xBF e && from_utf8 l
          else if in_range 0xF1 0xF3 b then
            in_range 0x80 0xBF c && in_range 0x80 0xBF d && in_range 0x80 0xBF e && from_utf8 l
          else if in_range 0xF4 0xF4 b then
            in_range 0x80 0x8F c && in_range 0x80 0xBF d && in_range 0x80 0xBF e && from_utf8 l
          else false
        end
      end
    end
  end.

(** ** Primitives of other crates

    [sha2] and [zkfmi-crypto] are not part of the repository: the functions
    the source calls are the fields of this class and every definition that
    hashes or signs takes it as an argument. *)
Class Crypto := {
  sha256 : bytes → Digest32;                              (* sha2::Sha256 *)
  hybrid_public_key : bytes → bytes;                      (* HybridSigner::public_key *)
  hybrid_sign : bytes → Z → bytes → option bytes;         (* HybridSigner::sign *)
  hybrid_verify : Z → bytes → bytes → bytes → bool;       (* HybridVerifier::verify *)
  suite_encode : bytes;                                   (* SUITE.encode() *)
  purpose_code : Z                                        (* PURPOSE.code() *)
}.

(** What the repository relies on: the fixed encodings and that a signature
    made with a key verifies under its public key.  No unforgeability and no
    collision freedom is assumed here. *)
Class CryptoLaws `{Crypto} := {
  suite_encode_length : length suite_encode = 4%nat;
  hybrid_public_key_length : ∀ seeds, length (hybrid_public_key seeds) = 1984%nat;
  hybrid_sign_length : ∀ seeds p m s, hybrid_sign seeds p m = Some s → length s = 3373%nat;
  hybrid_sign_total : ∀ seeds p m, is_Some (hybrid_sign seeds p m);
  hybrid_sign_verify : ∀ seeds p m s,
    hybrid_sign seeds p m = Some s → hybrid_verify p (hybrid_public_key seeds) m s = true
}.

(** Two inputs with the same hash: the alternative left open by statements
    about digests. *)
Definition collision `{Crypto} (x y : bytes) : Prop := x ≠ y ∧ sha256 x = sha256 y.

(** ** Lemmas on integers as bytes *)

Lemma byte_val_range b : 0 ≤ byte_val b < 256.
Proof. unfold byte_val. pose proof (Byte.to_N_bounded b). lia. Qed.

Lemma byte_val_of z : byte_val (byte_of z) = z mod 256.
Proof.
  unfold byte_val, byte_of. pose proof (Z.mod_pos_bound z 256 ltac:(lia)).
  destruct (Byte.of_N _) as [b|] eqn:E; simpl.
  - apply Byte.to_of_N in E. lia.
  - apply Byte.of_N_None_iff in E. lia.
Qed.

Lemma byte_of_val b : byte_of (byte_val b) = b.
Proof.
  apply (ocmp_eq (K := byte)). simpl. apply Z.compare_eq_iff.
  rewrite byte_val_of. pose proof (byte_val_range b). by apply Z.mod_small.
Qed.

Lemma length_be_bytes n z : length (be_bytes n z) = n.
Proof. induction n; simpl; auto. Qed.

Lemma be_val_acc a l : foldl (λ a b, a * 256 + byte_val b) a l
  = a * 2 ^ (8 * Z.of_nat (length l)) + be_val l.
Proof.
  unfold be_val. revert a. induction l as [|b l IH]; intros a; simpl.
  { lia. }
  rewrite IH, (IH (0 * 256 + _)).
  replace (8 * Z.of_nat (S (length l))) with (8 + 8 * Z.of_nat (length l)) by lia.
  rewrite Z.pow_add_r by lia. change (2 ^ 8) with 256. lia.
Qed.

Lemma be_val_cons b l :
  be_val (b :: l) = byte_val b * 2 ^ (8 * Z.of_nat (length l)) + be_val l.
Proof. unfold be_val at 1; simpl. by rewrite be_val_acc. Qed.

Lemma be_val_range l : 0 ≤ be_val l < 2 ^ (8 * Z.of_nat (length l)).
Proof.
  induction l as [|b l IH]; [simpl; unfold be_val; simpl; lia|].
  rewrite be_val_cons. pose proof (byte_val_range b). simpl length.
  replace (8 * Z.of_nat (S (length l))) with (8 + 8 * Z.of_nat (length l)) by lia.
  rewrite Z.pow_add_r by lia. change (2 ^ 8) with 256. nia.
Qed.

Lemma be_val_be_bytes n z : be_val (be_bytes n z) = z mod 2 ^ (8 * Z.of_nat n).
Proof.
  induction n as [|n IH]; [by rewrite Z.mod_1_r|].
  simpl be_bytes. rewrite be_val_cons, IH, byte_val_of, length_be_bytes.
  replace (8 * Z.of_nat (S n)) with (8 * Z.of_nat n + 8) by lia.
  rewrite Z.pow_add_r by lia. change (2 ^ 8) with 256.
  assert (0 < 2 ^ (8 * Z.of_nat n)) by (apply Z.pow_pos_nonneg; lia).
  rewrite Z.rem_mul_r by lia. lia.
Qed.

Lemma digit_split p a b u v :
  0 ≤ a < p → 0 ≤ b < p → a + p * u = b + p * v → a = b ∧ u = v.
Proof.
  intros Ha Hb E. assert (u = v) as -> by nia. lia.
Qed.

Lemma be_bytes_ext n x y :
  x mod 2 ^ (8 * Z.of_nat n) = y mod 2 ^ (8 * Z.of_nat n) → be_bytes n x = be_bytes n y.
Proof.
  induction n as [|n IH]; intros Hxy; [done|]. simpl.
  replace (8 * Z.of_nat (S n)) with (8 * Z.of_nat n + 8) in Hxy by lia.
  rewrite Z.pow_add_r in Hxy by lia. change (2 ^ 8) with 256 in Hxy.
  assert (0 < 2 ^ (8 * Z.of_nat n)) by (apply Z.pow_pos_nonneg; lia).
  rewrite !Z.rem_mul_r in Hxy by lia.
  pose proof (Z.mod_pos_bound x (2 ^ (8 * Z.of_nat n)) ltac:(lia)).
  pose proof (Z.mod_pos_bound y (2 ^ (8 * Z.of_nat n)) ltac:(lia)).
  assert (x mod 2 ^ (8 * Z.of_nat n) = y mod 2 ^ (8 * Z.of_nat n)
    ∧ (x / 2 ^ (8 * Z.of_nat n)) mod 256 = (y / 2 ^ (8 * Z.of_nat n)) mod 256) as [??].
  { by apply digit_split in Hxy. }
  f_equal; [|by apply IH]. unfold byte_of. by do 3 f_equal.
Qed.

Lemma be_bytes_val l : be_bytes (length l) (be_val l) = l.
Proof.
  induction l as [|b l IH]; [done|]. simpl be_bytes. rewrite be_val_cons.
  assert (0 < 2 ^ (8 * Z.of_nat (length l))) by (apply Z.pow_pos_nonneg; lia).
  pose proof (be_val_range l). f_equal.
  - rewrite Z.div_add_l by lia. rewrite Z.div_small by lia.
    rewrite Z.add_0_r. apply byte_of_val.
  - etrans; [|exact IH]. apply be_bytes_ext. rewrite Z.add_comm, Z.mod_add by lia. done.
Qed.

Lemma be_val_u64 z : 0 ≤ z ≤ u64_max → be_val (u64_be z) = z.
Proof.
  intros. unfold u64_be, u64_max in *. rewrite be_val_be_bytes. apply Z.mod_small.
  change (8 * Z.of_nat 8) with 64. lia.
Qed.

Lemma length_u64_be z : length (u64_be z) = 8%nat.
Proof. apply length_be_bytes. Qed.

Lemma u64_be_inj x y : 0 ≤ x ≤ u64_max → 0 ≤ y ≤ u64_max → u64_be x = u64_be y → x = y.
Proof. intros Hx Hy E. rewrite <-(be_val_u64 x), <-(be_val_u64 y), E; done. Qed.

Lemma u64_be_val l : length l = 8%nat → u64_be (be_val l) = l.
Proof. intros E. unfold u64_be. rewrite <-E. apply be_bytes_val. Qed.

Lemma be_val_u64_range l : length l = 8%nat → 0 ≤ be_val l ≤ u64_max.
Proof. intros E. pose proof (be_val_range l). rewrite E in *. unfold u64_max. lia. Qed.

Lemma length_digest (d : Digest32) : length (d_bytes d) = 32%nat.
Proof. destruct d as [b Hb]; simpl. apply Is_true_true in Hb. by apply Nat.eqb_eq. Qed.

Lemma digest_of_Some b d : digest_of b = Some d ↔ d_bytes d = b.
Proof.
  split; [|intros <-; apply digest_of_bytes].
  unfold digest_of. case_decide; [|done]. by intros [= <-].
Qed.

Lemma length_put_bytes b : length (put_bytes b) = (8 + length b)%nat.
Proof. unfold put_bytes. by rewrite length_app, length_u64_be. Qed.

Lemma app_inj_l {A} (l1 l2 k1 k2 : list A) :
  length l1 = length k1 → l1 ++ l2 = k1 ++ k2 → l1 = k1 ∧ l2 = k2.
Proof. intros. by apply app_inj_1. Qed.

Lemma put_bytes_inj a b x y :
  Z.of_nat (length a) ≤ u64_max → Z.of_nat (length b) ≤ u64_max →
  put_bytes a ++ x = put_bytes b ++ y → a = b ∧ x = y.
Proof.
  intros Ha Hb. unfold put_bytes. rewrite <-!app_assoc. intros E.
  apply app_inj_l in E as [El E]; [|by rewrite !length_u64_be].
  apply u64_be_inj in El; [|lia..]. apply app_inj_l in E; [done|lia].
Qed.

Lemma u64_app_inj a b x y :
  0 ≤ a ≤ u64_max → 0 ≤ b ≤ u64_max → u64_be a ++ x = u64_be b ++ y → a = b ∧ x = y.
Proof.
  intros Ha Hb E. apply app_inj_l in E as [El E]; [|by rewrite !length_u64_be].
  apply u64_be_inj in El; done.
Qed.

Lemma digest_app_inj (a b : Digest32) x y : d_bytes a ++ x = d_bytes b ++ y → a = b ∧ x = y.
Proof.
  intros E. apply app_inj_l in E as [El E]; [|by rewrite !length_digest].
  split; [by apply digest_eq|done].
Qed.

Lemma sha256_or_collision `{Crypto} x y : sha256 x = sha256 y → x = y ∨ collision x y.
Proof. intros E. destruct (decide (x = y)); [by left|by right]. Qed.

Arguments be_bytes : simpl never.
Arguments be_val : simpl never.
Arguments u16_be : simpl never.
Arguments u64_be : simpl never.
Arguments put_bytes : simpl never.
Arguments byte_of : simpl never.
Arguments from_utf8 : simpl never.
