(* ===== verification/AppCrypto.v ===== *)
(** * Application signatures

    [oclob-core/src/application_crypto.rs]: verification keys are 32-byte
    fingerprints of the complete hybrid public key, and every signature is a
    closed envelope carrying suite, purpose, the full public key and both
    signature components. *)

From S2P Require Import Prelude BTree Bytes.

Definition MAGIC : bytes := ascii_bytes "OCLSIG02".
Definition PUBLIC_KEY_BYTES : nat := 1984.
Definition SIGNATURE_BYTES : nat := 8 + 4 + 2 + PUBLIC_KEY_BYTES + 3373.
Definition KEY_OFFSET : nat := 14.

Inductive SignatureError := mk_signature_error.

(** [struct SigningKey]: the two seed halves; the signer is derived. *)
Record SigningKey := mk_signing_key { seeds : bytes }.

(** [struct VerifyingKey([u8; 32])]. *)
Record VerifyingKey := mk_verifying_key { vk_fingerprint : Digest32 }.

(** [struct Signature(Vec<u8>)]. *)
Record Signature := mk_signature { sig_bytes : bytes }.

#[export] Instance verifying_key_eq_dec : EqDecision VerifyingKey.
Proof. solve_decision. Defined.

Section app_crypto.
Context `{Crypto}.

Definition fingerprint (public : bytes) : Digest32 :=
  sha256 (ascii_bytes "OCLOB:APPLICATION-KEY-FINGERPRINT:v2"
    ++ suite_encode ++ u16_be purpose_code ++ public).

Definition verifying_key (k : SigningKey) : VerifyingKey :=
  mk_verifying_key (fingerprint (hybrid_public_key (seeds k))).

Definition try_sign (k : SigningKey) (message : bytes) : result SignatureError Signature :=
  let encoded := MAGIC ++ suite_encode ++ u16_be purpose_code
    ++ hybrid_public_key (seeds k) in
  s ← ok_or (hybrid_sign (seeds k) purpose_code message) mk_signature_error;
  Ok (mk_signature (encoded ++ s)).

Definition vk_from_bytes (f : Digest32) : result SignatureError VerifyingKey :=
  if bool_decide (f = zero_digest) then Err mk_signature_error
  else Ok (mk_verifying_key f).

(** [Signature::validate]. *)
Definition sig_validate (s : Signature) : result SignatureError () :=
  let b := sig_bytes s in
  fail_if (negb (Nat.eqb (length b) SIGNATURE_BYTES)
    || negb (bool_decide (take 8 b = MAGIC))
    || negb (bool_decide (take 4 (drop 8 b) = suite_encode))
    || negb (bool_decide (take 2 (drop 12 b) = u16_be purpose_code)))
    mk_signature_error.

(** [TryFrom<&[u8]> for Signature]. *)
Definition sig_try_from (b : bytes) : result SignatureError Signature :=
  let value := mk_signature b in
  _ ← sig_validate value;
  Ok value.

Definition verify_strict (k : VerifyingKey) (message : bytes) (s : Signature) :
    result SignatureError () :=
  _ ← sig_validate s;
  let public := take PUBLIC_KEY_BYTES (drop KEY_OFFSET (sig_bytes s)) in
  _ ← fail_if (negb (bool_decide (fingerprint public = vk_fingerprint k))) mk_signature_error;
  fail_if (negb (hybrid_verify purpose_code public message
    (drop (KEY_OFFSET + PUBLIC_KEY_BYTES) (sig_bytes s)))) mk_signature_error.

(** The check every verifier of the repository performs on raw signature
    bytes: [Signature::try_from(bytes)] then [key.verify_strict]. *)
Definition signature_ok (k : VerifyingKey) (message raw : bytes) : bool :=
  match sig_try_from raw with
  | Ok s => is_ok (verify_strict k message s)
  | Err _ => false
  end.

End app_crypto.

(** ** Lemmas *)

Section lemmas.
Context `{Crypto} `{!CryptoLaws}.

Lemma signed_layout k m s :
  try_sign k m = Ok s →
  ∃ raw, hybrid_sign (seeds k) purpose_code m = Some raw ∧
    sig_bytes s = MAGIC ++ suite_encode ++ u16_be purpose_code
      ++ hybrid_public_key (seeds k) ++ raw.
Proof.
  unfold try_sign. intros Hs. autorewrite with result in Hs.
  destruct Hs as (raw & Hraw & [= <-]). autorewrite with result in Hraw.
  exists raw. split; [done|]. simpl. by rewrite <-!app_assoc.
Qed.

Lemma signed_validates k m s : try_sign k m = Ok s → sig_validate s = Ok ().
Proof.
  intros (raw & Hraw & Hs)%signed_layout. unfold sig_validate.
  rewrite fail_if_Ok, Hs. pose proof suite_encode_length as Hsu.
  pose proof (hybrid_public_key_length (seeds k)) as Hpk.
  pose proof (hybrid_sign_length _ _ _ _ Hraw) as Hr.
  rewrite !orb_false_iff, !negb_false_iff, !bool_decide_eq_true, Nat.eqb_eq.
  split_and!.
  - rewrite !length_app, Hsu, Hpk, Hr. done.
  - done.
  - change (drop 8 (MAGIC ++ ?l)) with l. by rewrite take_app_length'.
  - change (drop 12 (MAGIC ++ ?l)) with (drop 4 l). rewrite drop_app_length' by done.
    by rewrite take_app_length'.
Qed.

(** A signature made with a key is accepted under that key's fingerprint. *)
Lemma sign_then_verify k m s :
  try_sign k m = Ok s → verify_strict (verifying_key k) m s = Ok ().
Proof.
  intros Hs. unfold verify_strict. rewrite (signed_validates _ _ _ Hs).
  cbn [mbind result_mbind]. destruct (signed_layout _ _ _ Hs) as (raw & Hraw & ->).
  pose proof suite_encode_length as Hsu.
  pose proof (hybrid_public_key_length (seeds k)) as Hpk.
  assert (∀ l, drop KEY_OFFSET (MAGIC ++ suite_encode ++ u16_be purpose_code ++ l) = l)
    as Hdrop.
  { intros l. change (drop KEY_OFFSET (MAGIC ++ ?k)) with (drop 6 k).
    rewrite app_assoc. by rewrite drop_app_length' by (rewrite length_app, Hsu; done). }
  rewrite Hdrop, take_app_length' by done.
  rewrite <-drop_drop, Hdrop, drop_app_length' by done.
  rewrite bool_decide_eq_true_2 by done; simpl.
  by rewrite (hybrid_sign_verify _ _ _ _ Hraw).
Qed.

Lemma try_sign_total k m : ∃ s, try_sign k m = Ok s.
Proof.
  unfold try_sign. destruct (hybrid_sign_total (seeds k) purpose_code m) as [s ->].
  simpl. eauto.
Qed.

(** The bytes a signer publishes pass the check of every verifier. *)
Lemma signature_ok_signed k m s :
  try_sign k m = Ok s → signature_ok (verifying_key k) m (sig_bytes s) = true.
Proof.
  intros Hs. unfold signature_ok, sig_try_from.
  replace (mk_signature (sig_bytes s)) with s by (by destruct s).
  rewrite (signed_validates _ _ _ Hs); simpl. by rewrite (sign_then_verify _ _ _ Hs).
Qed.

End lemmas.
