(* ===== verification/Orders.v ===== *)
(** * Orders

    The order half of [oclob-core/src/lib.rs]: sides, time in force, secret
    orders with their validation, the private wire format, market rules,
    commitments, pre-trade authority and cancellation requests. *)

From S2P Require Import Prelude BTree Bytes AppCrypto.
Open Scope string_scope.
Open Scope list_scope.
Open Scope Z_scope.

Definition ORDER_COMMITMENT_DOMAIN : bytes := ascii_bytes "OCLOB:ORDER-COMMITMENT:v2".
Definition ORDER_AUTHORITY_DOMAIN : bytes := ascii_bytes "OCLOB:ORDER-AUTHORITY:v2".
Definition ORDER_CONTROL_DOMAIN : bytes := ascii_bytes "OCLOB:ORDER-CONTROL:v2".
Definition CANCELLATION_DOMAIN : bytes := ascii_bytes "OCLOB:CANCELLATION:v2".
Definition CANCELLATION_COMMITMENT_DOMAIN : bytes :=
  ascii_bytes "OCLOB:CANCELLATION-COMMITMENT:v2".
Definition SECRET_ORDER_WIRE_MAGIC : bytes := ascii_bytes "OCLOBOR2".
Definition MAX_SECRET_ORDER_WIRE_BYTES : nat := 512.
Definition MAX_MATCH_SLOTS : nat := 8.

Inductive Side := Buy | Sell.

Definition side_wire (s : Side) : Z := match s with Buy => 0 | Sell => 1 end.
Definition opposite (s : Side) : Side := match s with Buy => Sell | Sell => Buy end.

Inductive TimeInForce := GoodTilCancelled | ImmediateOrCancel.

Definition tif_wire (t : TimeInForce) : Z :=
  match t with GoodTilCancelled => 1 | ImmediateOrCancel => 2 end.

#[export] Instance side_eq_dec : EqDecision Side.
Proof. solve_decision. Defined.
#[export] Instance tif_eq_dec : EqDecision TimeInForce.
Proof. solve_decision. Defined.

(** [struct OrderCommitment(Digest32)]. *)
Abbreviation OrderCommitment := Digest32.

Inductive OrderError :=
| Invalid (reason : string)
| Authority
| Replay
| InvalidMpcResult
| WrongMarket
| UnknownOrder
| InvalidCancellation.

#[export] Instance order_error_eq_dec : EqDecision OrderError.
Proof. solve_decision. Defined.

Record OrderControls := mk_controls {
  c_order_id : Digest32;
  c_ephemeral_public_key : Digest32;
  c_dekyx_nullifier : Digest32;
  c_reservation_id : Digest32;
  c_reservation_limit : Z;
  c_minimum_lot : Z;
  c_max_fee : Z;
  c_cancellation_secret_digest : Digest32
}.

Record SecretOrder := mk_order {
  o_version : Z;
  o_order_id : Digest32;
  o_ephemeral_public_key : Digest32;
  o_market_id : bytes;
  o_side : Side;
  o_limit_price : Z;
  o_quantity : Z;
  o_time_in_force : TimeInForce;
  o_expires_at : Z;
  o_participant_handle : Digest32;
  o_dekyx_nullifier : Digest32;
  o_reservation_id : Digest32;
  o_reservation_limit : Z;
  o_minimum_lot : Z;
  o_max_fee : Z;
  o_cancellation_secret_digest : Digest32;
  o_client_nonce : Digest32;
  o_salt : Digest32
}.

#[export] Instance secret_order_eq_dec : EqDecision SecretOrder.
Proof. solve_decision. Defined.

Definition is_zero (d : Digest32) : bool := bool_decide (d = zero_digest).

(** [market_id.is_empty() || market_id.len() > 64]. *)
Definition bad_market_id (m : bytes) : bool :=
  Nat.eqb (length m) 0 || Nat.ltb 64 (length m).

(** The worst-case reserve of an order, [None] when it overflows [u64]. *)
Definition required_reserve (side : Side) (limit_price quantity max_fee : Z) : option Z :=
  match side with
  | Buy => v ← checked_mul limit_price quantity; checked_add v max_fee
  | Sell => Some quantity
  end.

Definition new_with_controls (market_id : bytes) (side : Side)
    (limit_price quantity : Z) (time_in_force : TimeInForce) (expires_at : Z)
    (participant_handle client_nonce salt : Digest32) (controls : OrderControls) :
    result OrderError SecretOrder :=
  _ ← fail_if (bad_market_id market_id) (Invalid "market id must contain 1-64 bytes");
  _ ← fail_if ((limit_price =? 0) || (quantity =? 0) || (expires_at =? 0))
    (Invalid "price, quantity and expiry must all be positive");
  _ ← fail_if (is_zero participant_handle || is_zero client_nonce || is_zero salt
      || is_zero (c_order_id controls) || is_zero (c_ephemeral_public_key controls)
      || is_zero (c_dekyx_nullifier controls) || is_zero (c_reservation_id controls)
      || is_zero (c_cancellation_secret_digest controls)
      || (c_minimum_lot controls =? 0)
      || negb (is_multiple_of quantity (c_minimum_lot controls)))
    (Invalid "order controls, participant handle, nonce and commitment salt are required");
  required ← ok_or (required_reserve side limit_price quantity (c_max_fee controls))
    (Invalid "reservation limit overflows");
  _ ← fail_if (c_reservation_limit controls <? required)
    (Invalid "reservation does not cover the worst permitted fill");
  Ok {| o_version := 2;
        o_order_id := c_order_id controls;
        o_ephemeral_public_key := c_ephemeral_public_key controls;
        o_market_id := market_id;
        o_side := side;
        o_limit_price := limit_price;
        o_quantity := quantity;
        o_time_in_force := time_in_force;
        o_expires_at := expires_at;
        o_participant_handle := participant_handle;
        o_dekyx_nullifier := c_dekyx_nullifier controls;
        o_reservation_id := c_reservation_id controls;
        o_reservation_limit := c_reservation_limit controls;
        o_minimum_lot := c_minimum_lot controls;
        o_max_fee := c_max_fee controls;
        o_cancellation_secret_digest := c_cancellation_secret_digest controls;
        o_client_nonce := client_nonce;
        o_salt := salt |}.

(** What the constructors guarantee of an order and, as [SecretOrder] has no
    public fields, what holds of every order in the program: the machine
    widths of its fields and the checks of [new_with_controls]. *)
Definition order_valid (o : SecretOrder) : bool :=
  (o_version o =? 2)
  && negb (bad_market_id (o_market_id o)) && from_utf8 (o_market_id o)
  && is_u64 (o_limit_price o) && is_u64 (o_quantity o) && is_u64 (o_expires_at o)
  && is_u64 (o_reservation_limit o) && is_u64 (o_minimum_lot o) && is_u64 (o_max_fee o)
  && negb ((o_limit_price o =? 0) || (o_quantity o =? 0) || (o_expires_at o =? 0))
  && negb (is_zero (o_participant_handle o) || is_zero (o_client_nonce o)
           || is_zero (o_salt o) || is_zero (o_order_id o)
           || is_zero (o_ephemeral_public_key o) || is_zero (o_dekyx_nullifier o)
           || is_zero (o_reservation_id o) || is_zero (o_cancellation_secret_digest o)
           || (o_minimum_lot o =? 0)
           || negb (is_multiple_of (o_quantity o) (o_minimum_lot o)))
  && match required_reserve (o_side o) (o_limit_price o) (o_quantity o) (o_max_fee o) with
     | Some required => required <=? o_reservation_limit o
     | None => false
     end.

(** The controls an order was built from. *)
Definition controls_of (o : SecretOrder) : OrderControls := {|
  c_order_id := o_order_id o;
  c_ephemeral_public_key := o_ephemeral_public_key o;
  c_dekyx_nullifier := o_dekyx_nullifier o;
  c_reservation_id := o_reservation_id o;
  c_reservation_limit := o_reservation_limit o;
  c_minimum_lot := o_minimum_lot o;
  c_max_fee := o_max_fee o;
  c_cancellation_secret_digest := o_cancellation_secret_digest o |}.

(** ** Market rules *)

Record MarketRules := mk_rules {
  tick_size : Z;
  lot_size : Z;
  maximum_fee : Z;
  max_match_slots : Z
}.

Definition p1 : MarketRules := {|
  tick_size := 1; lot_size := 1; maximum_fee := 0;
  max_match_slots := Z.of_nat MAX_MATCH_SLOTS |}.

Definition rules_validate (r : MarketRules) : result OrderError () :=
  fail_if ((tick_size r =? 0) || (lot_size r =? 0)
      || negb (max_match_slots r =? Z.of_nat MAX_MATCH_SLOTS))
    (Invalid "tick, lot, and fixed matching capacity must be valid").

Definition validate_market_rules (o : SecretOrder) (rules : MarketRules) :
    result OrderError () :=
  _ ← rules_validate rules;
  fail_if (negb (is_multiple_of (o_limit_price o) (tick_size rules))
      || negb (is_multiple_of (o_quantity o) (lot_size rules))
      || negb (o_minimum_lot o =? lot_size rules)
      || (maximum_fee rules <? o_max_fee o))
    (Invalid "order violates tick, lot, or fee rules").

(** ** The private wire format *)

Definition canonical_payload (o : SecretOrder) : bytes :=
  u16_be (o_version o)
  ++ d_bytes (o_order_id o)
  ++ d_bytes (o_ephemeral_public_key o)
  ++ put_bytes (o_market_id o)
  ++ [byte_of (side_wire (o_side o))]
  ++ u64_be (o_limit_price o)
  ++ u64_be (o_quantity o)
  ++ [byte_of (tif_wire (o_time_in_force o))]
  ++ u64_be (o_expires_at o)
  ++ d_bytes (o_participant_handle o)
  ++ d_bytes (o_dekyx_nullifier o)
  ++ d_bytes (o_reservation_id o)
  ++ u64_be (o_reservation_limit o)
  ++ u64_be (o_minimum_lot o)
  ++ u64_be (o_max_fee o)
  ++ d_bytes (o_cancellation_secret_digest o)
  ++ d_bytes (o_client_nonce o).

Definition to_secret_wire (o : SecretOrder) : bytes :=
  SECRET_ORDER_WIRE_MAGIC ++ put_bytes (canonical_payload o) ++ d_bytes (o_salt o).

Definition malformed : OrderError := Invalid "secret order wire is malformed".

(** [struct SecretWireCursor]. *)
Record SecretWireCursor := mk_cursor { cur_bytes : bytes; cur_offset : Z }.

Definition cursor_new (b : bytes) : SecretWireCursor := mk_cursor b 0.

(** [slice.get(a..b)]. *)
Definition get_range (l : bytes) (a b : Z) : option bytes :=
  if (a <=? b) && (b <=? Z.of_nat (length l))
  then Some (take (Z.to_nat (b - a)) (drop (Z.to_nat a) l)) else None.

Definition cursor_bytes (len : Z) : method SecretWireCursor OrderError bytes := λ c,
  match checked_add (cur_offset c) len with
  | None => (c, Err malformed)
  | Some stop =>
      match get_range (cur_bytes c) (cur_offset c) stop with
      | None => (c, Err malformed)
      | Some value => (mk_cursor (cur_bytes c) stop, Ok value)
      end
  end.

Definition cursor_u8 : method SecretWireCursor OrderError Z :=
  b ← cursor_bytes 1; try (match b with [x] => Ok (byte_val x) | _ => Err malformed end).
Definition cursor_u16 : method SecretWireCursor OrderError Z :=
  b ← cursor_bytes 2; mret (be_val b).
Definition cursor_u64 : method SecretWireCursor OrderError Z :=
  b ← cursor_bytes 8; mret (be_val b).
Definition cursor_digest : method SecretWireCursor OrderError Digest32 :=
  b ← cursor_bytes 32; try (ok_or (digest_of b) malformed).
Definition cursor_finish : method SecretWireCursor OrderError () := λ c,
  (c, fail_if (negb (cur_offset c =? Z.of_nat (length (cur_bytes c))))
        (Invalid "secret order wire contains trailing bytes")).

Definition side_of_wire (z : Z) : result OrderError Side :=
  if z =? 0 then Ok Buy else if z =? 1 then Ok Sell
  else Err (Invalid "secret order side is invalid").
Definition tif_of_wire (z : Z) : result OrderError TimeInForce :=
  if z =? 1 then Ok GoodTilCancelled else if z =? 2 then Ok ImmediateOrCancel
  else Err (Invalid "secret order time-in-force is invalid").

(** The frame: payload length, payload, salt and nothing after it. *)
Definition parse_frame : method SecretWireCursor OrderError (bytes * Digest32) :=
  payload_len ← cursor_u64;
  payload ← cursor_bytes payload_len;
  salt ← cursor_digest;
  _ ← cursor_finish;
  mret (payload, salt).

(** The payload fields in order, then the checks of [new_with_controls]. *)
Definition parse_payload (salt : Digest32) : method SecretWireCursor OrderError SecretOrder :=
  version ← cursor_u16;
  _ ← try (fail_if (negb (version =? 2)) (Invalid "secret order wire version is unsupported"));
  order_id ← cursor_digest;
  ephemeral_public_key ← cursor_digest;
  market_len ← cursor_u64;
  market_id ← cursor_bytes market_len;
  _ ← try (fail_if (negb (from_utf8 market_id)) (Invalid "secret order market is not UTF-8"));
  side_byte ← cursor_u8;
  side ← try (side_of_wire side_byte);
  limit_price ← cursor_u64;
  quantity ← cursor_u64;
  tif_byte ← cursor_u8;
  time_in_force ← try (tif_of_wire tif_byte);
  expires_at ← cursor_u64;
  participant_handle ← cursor_digest;
  dekyx_nullifier ← cursor_digest;
  reservation_id ← cursor_digest;
  reservation_limit ← cursor_u64;
  minimum_lot ← cursor_u64;
  max_fee ← cursor_u64;
  cancellation_secret_digest ← cursor_digest;
  client_nonce ← cursor_digest;
  _ ← cursor_finish;
  try (new_with_controls market_id side limit_price quantity time_in_force expires_at
    participant_handle client_nonce salt
    (mk_controls order_id ephemeral_public_key dekyx_nullifier reservation_id
       reservation_limit minimum_lot max_fee cancellation_secret_digest)).

Definition from_secret_wire (b : bytes) : result OrderError SecretOrder :=
  if Nat.ltb MAX_SECRET_ORDER_WIRE_BYTES (length b)
     || Nat.ltb (length b) (length SECRET_ORDER_WIRE_MAGIC + 8 + 32)
     || negb (bool_decide (take (length SECRET_ORDER_WIRE_MAGIC) b = SECRET_ORDER_WIRE_MAGIC))
  then Err malformed
  else
    let wire := cursor_new (drop (length SECRET_ORDER_WIRE_MAGIC) b) in
    '(payload, salt) ← (parse_frame wire).2;
    (parse_payload salt (cursor_new payload)).2.

(** ** Commitments and authority *)

Section commitments.
Context `{Crypto}.

Definition commitment_preimage (o : SecretOrder) : bytes :=
  ORDER_COMMITMENT_DOMAIN ++ d_bytes (o_salt o) ++ canonical_payload o.

Definition commitment (o : SecretOrder) : OrderCommitment :=
  sha256 (commitment_preimage o).

Definition control_digest (label : bytes) (participant nonce : Digest32) : Digest32 :=
  sha256 (ORDER_CONTROL_DOMAIN ++ put_bytes label ++ d_bytes participant ++ d_bytes nonce).

Definition entity_scope_digest (participant : Digest32) : Digest32 :=
  sha256 (ORDER_CONTROL_DOMAIN ++ ascii_bytes "dekyx-entity-scope" ++ d_bytes participant).

Definition cancellation_digest (secret : Digest32) : Digest32 :=
  sha256 (CANCELLATION_DOMAIN ++ d_bytes secret).

Definition new_with_dekyx_nullifier (market_id : bytes) (side : Side)
    (limit_price quantity : Z) (time_in_force : TimeInForce) (expires_at : Z)
    (participant_handle dekyx_nullifier client_nonce salt : Digest32) :
    result OrderError SecretOrder :=
  reservation_limit ← match side with
    | Buy => ok_or (checked_mul limit_price quantity) (Invalid "reservation limit overflows")
    | Sell => Ok quantity
    end;
  let controls := {|
    c_order_id := control_digest (ascii_bytes "order-id") participant_handle client_nonce;
    c_ephemeral_public_key :=
      control_digest (ascii_bytes "ephemeral-key") participant_handle client_nonce;
    c_dekyx_nullifier := dekyx_nullifier;
    c_reservation_id :=
      control_digest (ascii_bytes "reservation") participant_handle client_nonce;
    c_reservation_limit := reservation_limit;
    c_minimum_lot := 1;
    c_max_fee := 0;
    c_cancellation_secret_digest := cancellation_digest salt |} in
  new_with_controls market_id side limit_price quantity time_in_force expires_at
    participant_handle client_nonce salt controls.

Definition order_new (market_id : bytes) (side : Side)
    (limit_price quantity : Z) (time_in_force : TimeInForce) (expires_at : Z)
    (participant_handle client_nonce salt : Digest32) : result OrderError SecretOrder :=
  new_with_dekyx_nullifier market_id side limit_price quantity time_in_force expires_at
    participant_handle (entity_scope_digest participant_handle) client_nonce salt.

Record OrderAuthority := mk_authority {
  a_commitment : OrderCommitment;
  a_authorization_deadline : Z;
  a_verifying_key : Digest32;
  a_signature : bytes
}.

Definition authority_body (c : OrderCommitment) (deadline : Z) : bytes :=
  d_bytes (sha256 (ORDER_AUTHORITY_DOMAIN ++ d_bytes c ++ u64_be deadline)).

Definition authorize_order (o : SecretOrder) (authorization_deadline : Z)
    (signing_key : SigningKey) : result OrderError OrderAuthority :=
  _ ← fail_if (authorization_deadline <? o_expires_at o)
    (Invalid "authorization expires before the order");
  let c := commitment o in
  let body := authority_body c authorization_deadline in
  signature ← map_err (λ _, Authority) (try_sign signing_key body);
  Ok {| a_commitment := c;
        a_authorization_deadline := authorization_deadline;
        a_verifying_key := vk_fingerprint (verifying_key signing_key);
        a_signature := sig_bytes signature |}.

(** [OrderAuthority::verify]. *)
Definition authority_verify (a : OrderAuthority) (o : SecretOrder) (now : Z) :
    result OrderError () :=
  _ ← fail_if ((a_authorization_deadline a <? now) || (o_expires_at o <? now)
      || negb (bool_decide (a_commitment a = commitment o))) Authority;
  key ← map_err (λ _, Authority) (vk_from_bytes (a_verifying_key a));
  signature ← map_err (λ _, Authority) (sig_try_from (a_signature a));
  map_err (λ _, Authority)
    (verify_strict key (authority_body (a_commitment a) (a_authorization_deadline a)) signature).

(** ** Cancellation requests *)

Record SecretCancellation := mk_cancellation {
  x_target : OrderCommitment;
  x_secret : Digest32;
  x_nonce : Digest32;
  x_salt : Digest32
}.

Definition cancellation_new (target secret nonce salt : Digest32) :
    result OrderError SecretCancellation :=
  _ ← fail_if (is_zero target || is_zero secret || is_zero nonce || is_zero salt)
    (Invalid "cancellation fields are required");
  Ok (mk_cancellation target secret nonce salt).

Definition cancellation_commitment (x : SecretCancellation) : OrderCommitment :=
  sha256 (CANCELLATION_COMMITMENT_DOMAIN ++ d_bytes (x_salt x) ++ d_bytes (x_target x)
    ++ d_bytes (x_secret x) ++ d_bytes (x_nonce x)).

End commitments.

#[export] Instance authority_eq_dec : EqDecision OrderAuthority.
Proof. solve_decision. Defined.

Arguments bad_market_id : simpl never.
Arguments required_reserve : simpl never.
Arguments is_multiple_of : simpl never.
Arguments is_zero : simpl never.
Arguments is_u64 : simpl never.
Arguments from_utf8 : simpl never.
Arguments Z.mul : simpl never.

(** ** Validation *)

Lemma order_valid_rebuild o :
  order_valid o = true →
  new_with_controls (o_market_id o) (o_side o) (o_limit_price o) (o_quantity o)
    (o_time_in_force o) (o_expires_at o) (o_participant_handle o) (o_client_nonce o)
    (o_salt o) (controls_of o) = Ok o.
Proof.
  unfold order_valid, new_with_controls. intros Hv.
  repeat match goal with H : _ && _ = true |- _ => apply andb_true_iff in H as [H ?] end.
  repeat match goal with H : negb _ = true |- _ => apply negb_true_iff in H end.
  destruct (required_reserve _ _ _ _) as [r|] eqn:Hr; [|done].
  destruct o; simpl in *.
  repeat match goal with H : _ = false |- _ => rewrite H; clear H; simpl end.
  rewrite ?Hr; simpl. bool_hyps. subst.
  rewrite (proj2 (Z.ltb_ge _ _)) by lia. done.
Qed.

Lemma new_with_controls_valid m sd p q t e ph cn salt c o :
  from_utf8 m = true → is_u64 p = true → is_u64 q = true → is_u64 e = true →
  is_u64 (c_reservation_limit c) = true → is_u64 (c_minimum_lot c) = true →
  is_u64 (c_max_fee c) = true →
  new_with_controls m sd p q t e ph cn salt c = Ok o →
  order_valid o = true ∧ c = controls_of o ∧
  o = mk_order 2 (c_order_id c) (c_ephemeral_public_key c) m sd p q t e ph
    (c_dekyx_nullifier c) (c_reservation_id c) (c_reservation_limit c) (c_minimum_lot c)
    (c_max_fee c) (c_cancellation_secret_digest c) cn salt.
Proof.
  intros Hm Hp Hq He Hl Hlot Hfee. unfold new_with_controls. intros Hn.
  do 3 (apply bind_Ok in Hn as (? & ?%fail_if_Ok & Hn)).
  apply bind_Ok in Hn as (r & Hr%ok_or_Ok & Hn).
  apply bind_Ok in Hn as (? & ?%fail_if_Ok & Hn). injection Hn as <-.
  split; [|by destruct c]. unfold order_valid; simpl.
  rewrite Hm, Hp, Hq, He, Hl, Hlot, Hfee, Hr; simpl.
  repeat match goal with H : _ = false |- _ => rewrite H; clear H; simpl end.
  bool_hyps. by apply Z.leb_le.
Qed.

(** The reserve of a valid order covers its worst permitted fill: [price * quantity]
    plus the fee for a buyer, the whole quantity for a seller. *)
Lemma order_valid_reserve o :
  order_valid o = true →
  match o_side o with
  | Buy => o_limit_price o * o_quantity o + o_max_fee o ≤ o_reservation_limit o
  | Sell => o_quantity o ≤ o_reservation_limit o
  end ∧ 0 < o_limit_price o ≤ u64_max ∧ 0 < o_quantity o ≤ u64_max ∧ 0 < o_expires_at o
  ∧ o_reservation_limit o ≤ u64_max.
Proof.
  unfold order_valid, required_reserve. intros Hv.
  repeat match goal with H : _ && _ = true |- _ => apply andb_true_iff in H as [H ?] end.
  repeat match goal with H : is_u64 _ = true |- _ => apply is_u64_spec in H end.
  bool_hyps. split; [|lia].
  destruct (o_side o); [|bool_hyps; lia].
  destruct (checked_mul _ _) as [v|] eqn:Hv'; simpl in *; [|done].
  destruct (checked_add _ _) as [w|] eqn:Hw; [|done].
  apply checked_mul_Some in Hv'. apply checked_add_Some in Hw. bool_hyps. lia.
Qed.

(** ** Cursor reading

    [cur_at c pre rest]: the cursor stands between the two parts. *)
Definition cur_at (c : SecretWireCursor) (pre rest : bytes) : Prop :=
  cur_bytes c = pre ++ rest ∧ cur_offset c = Z.of_nat (length pre)
  ∧ Z.of_nat (length (cur_bytes c)) ≤ u64_max.

(** [m] reads exactly the bytes [x], returning [v]. *)
Definition reads {A} (m : method SecretWireCursor OrderError A) (x : bytes) (v : A) : Prop :=
  ∀ c pre rest, cur_at c pre (x ++ rest) → ∃ c', m c = (c', Ok v) ∧ cur_at c' (pre ++ x) rest.

(** Whenever [m] succeeds, the bytes it consumed and its result satisfy [P]. *)
Definition parses {A} (m : method SecretWireCursor OrderError A) (P : A → bytes → Prop) : Prop :=
  ∀ c pre rest c' v, cur_at c pre rest → m c = (c', Ok v) →
    ∃ x rest', rest = x ++ rest' ∧ P v x ∧ cur_at c' (pre ++ x) rest'.

Lemma reads_bind {A B} (m : method SecretWireCursor OrderError A)
    (f : A → method SecretWireCursor OrderError B) x y v w :
  reads m x v → reads (f v) y w → reads (m ≫= f) (x ++ y) w.
Proof.
  intros Hm Hf c pre rest Hc. rewrite <-app_assoc in Hc.
  destruct (Hm _ _ _ Hc) as (c1 & E1 & H1).
  destruct (Hf _ _ _ H1) as (c2 & E2 & H2). exists c2.
  unfold mbind, method_mbind. rewrite E1, E2, (app_assoc pre x y). done.
Qed.

Lemma reads_try {A} (r : result OrderError A) v : r = Ok v → reads (try r) [] v.
Proof. intros -> c pre rest Hc. exists c. by rewrite app_nil_r. Qed.

Lemma reads_try_bind {A B} (r : result OrderError A) (f : A → method SecretWireCursor OrderError B)
    y v w : r = Ok v → reads (f v) y w → reads (try r ≫= f) y w.
Proof. intros Hr Hf. change y with ([] ++ y). eapply reads_bind; [by apply reads_try|done]. Qed.

Lemma cursor_bytes_at c pre rest n :
  cur_at c pre rest → 0 ≤ n →
  cursor_bytes n c =
    if n <=? Z.of_nat (length rest)
    then (mk_cursor (cur_bytes c) (cur_offset c + n), Ok (take (Z.to_nat n) rest))
    else (c, Err malformed).
Proof.
  intros (Hb & Ho & Hl) Hn. unfold cursor_bytes, checked_add, get_range.
  rewrite Hb, length_app in Hl. rewrite Hb, Ho, length_app.
  destruct (Z.leb_spec n (Z.of_nat (length rest))) as [Hle|Hgt].
  - rewrite (proj2 (Z.leb_le _ _)) by lia.
    rewrite (proj2 (Z.leb_le _ (_ + n))), (proj2 (Z.leb_le (_ + n) _)) by lia; simpl.
    rewrite Nat2Z.id, drop_app_length.
    by replace (Z.of_nat (length pre) + n - Z.of_nat (length pre)) with n by lia.
  - destruct (_ <=? u64_max); [|done].
    rewrite (proj2 (Z.leb_gt (_ + n) _)) by lia. by rewrite andb_false_r.
Qed.

Lemma reads_bytes x : reads (cursor_bytes (Z.of_nat (length x))) x x.
Proof.
  intros c pre rest Hc. rewrite (cursor_bytes_at _ _ _ _ Hc) by lia.
  rewrite (proj2 (Z.leb_le _ _)) by (rewrite length_app; lia).
  eexists; split; [rewrite Nat2Z.id, take_app_length; done|].
  destruct Hc as (Hb & Ho & Hl). unfold cur_at; simpl.
  rewrite Hb, length_app, <-app_assoc. rewrite Hb in Hl. split_and!; [done|lia|done].
Qed.

Lemma parses_bytes n : 0 ≤ n →
  parses (cursor_bytes n) (λ v x, v = x ∧ Z.of_nat (length x) = n).
Proof.
  intros Hn c pre rest c' v Hc. rewrite (cursor_bytes_at _ _ _ _ Hc) by lia.
  destruct (Z.leb_spec n (Z.of_nat (length rest))) as [Hle|]; [|done]. intros [= <- <-].
  exists (take (Z.to_nat n) rest), (drop (Z.to_nat n) rest).
  assert (Z.of_nat (length (take (Z.to_nat n) rest)) = n) as Hlen.
  { rewrite length_take. lia. }
  rewrite take_drop. split_and!; [done..|]. destruct Hc as (Hb & Ho & Hl).
  unfold cur_at; simpl. rewrite <-app_assoc, take_drop, length_app.
  split_and!; [done|lia|done].
Qed.

Lemma parses_bind {A B} (m : method SecretWireCursor OrderError A)
    (f : A → method SecretWireCursor OrderError B) P Q :
  parses m P → (∀ v, (∃ x, P v x) → parses (f v) (Q v)) →
  parses (m ≫= f) (λ w z, ∃ v x y, P v x ∧ Q v w y ∧ z = x ++ y).
Proof.
  intros Hm Hf c pre rest c' w Hc. unfold mbind, method_mbind.
  destruct (m c) as [c1 [v|e]] eqn:E; [|done]. intros Hw.
  destruct (Hm _ _ _ _ _ Hc E) as (x & rest1 & -> & HP & H1).
  destruct (Hf v (ex_intro _ _ HP) _ _ _ _ _ H1 Hw) as (y & rest2 & -> & HQ & H2).
  exists (x ++ y), rest2. rewrite <-app_assoc, (app_assoc pre). eauto 10.
Qed.

Lemma parses_try {A} (r : result OrderError A) : parses (try r) (λ v x, r = Ok v ∧ x = []).
Proof. intros c pre rest c' v Hc [= <- ->]. exists [], rest. by rewrite app_nil_r. Qed.

(** The same two judgements for a parser that must consume all the input. *)
Definition ends {A} (m : method SecretWireCursor OrderError A) (x : bytes) (v : A) : Prop :=
  ∀ c pre, cur_at c pre x → (m c).2 = Ok v.
Definition parses_all {A} (m : method SecretWireCursor OrderError A) (P : A → bytes → Prop) : Prop :=
  ∀ c pre rest v, cur_at c pre rest → (m c).2 = Ok v → P v rest.

Lemma ends_bind {A B} (m : method SecretWireCursor OrderError A)
    (f : A → method SecretWireCursor OrderError B) x y v w :
  reads m x v → ends (f v) y w → ends (m ≫= f) (x ++ y) w.
Proof.
  intros Hm Hf c pre Hc. destruct (Hm _ _ _ Hc) as (c1 & E1 & H1).
  unfold mbind, method_mbind. rewrite E1. by eapply Hf.
Qed.

Lemma ends_try_bind {A B} (r : result OrderError A) (f : A → method SecretWireCursor OrderError B)
    y v w : r = Ok v → ends (f v) y w → ends (try r ≫= f) y w.
Proof. intros Hr Hf. change y with ([] ++ y). eapply ends_bind; [by apply reads_try|done]. Qed.

Lemma ends_finish {A} (r : result OrderError A) v :
  r = Ok v → ends (cursor_finish ≫= λ _, try r) [] v.
Proof.
  intros -> c pre (Hb & Ho & _). unfold mbind, method_mbind, cursor_finish.
  rewrite Hb, Ho, app_nil_r, Z.eqb_refl. done.
Qed.

Lemma parses_all_bind {A B} (m : method SecretWireCursor OrderError A)
    (f : A → method SecretWireCursor OrderError B) P Q :
  parses m P → (∀ v, (∃ x, P v x) → parses_all (f v) (Q v)) →
  parses_all (m ≫= f) (λ w z, ∃ v x y, P v x ∧ Q v w y ∧ z = x ++ y).
Proof.
  intros Hm Hf c pre rest w Hc. unfold mbind, method_mbind.
  destruct (m c) as [c1 [v|e]] eqn:E; [|done]. intros Hw.
  destruct (Hm _ _ _ _ _ Hc E) as (x & rest1 & -> & HP & H1).
  exists v, x, rest1. split_and!; [done| |done]. by eapply Hf; eauto.
Qed.

Lemma parses_all_finish {A} (r : result OrderError A) :
  parses_all (cursor_finish ≫= λ _, try r) (λ v x, r = Ok v ∧ x = []).
Proof.
  intros c pre rest v (Hb & Ho & _). unfold mbind, method_mbind, cursor_finish.
  rewrite Hb, Ho, length_app.
  destruct (Z.eqb_spec (Z.of_nat (length pre)) (Z.of_nat (length pre + length rest)))
    as [E|]; [|done]. simpl. intros ->. split; [done|]. apply nil_length_inv. lia.
Qed.

Lemma reads_u64 z : 0 ≤ z ≤ u64_max → reads cursor_u64 (u64_be z) z.
Proof.
  intros Hz. unfold cursor_u64. rewrite <-(app_nil_r (u64_be z)).
  eapply reads_bind; [|apply reads_try; by f_equal; apply be_val_u64].
  change 8 with (Z.of_nat 8). rewrite <-(length_u64_be z). apply (reads_bytes (u64_be z)).
Qed.

Lemma reads_u16_version : reads cursor_u16 (u16_be 2) 2.
Proof.
  unfold cursor_u16. rewrite <-(app_nil_r (u16_be 2)).
  eapply reads_bind; [apply (reads_bytes (u16_be 2))|by apply reads_try].
Qed.

Lemma reads_u8 b : reads cursor_u8 [b] (byte_val b).
Proof.
  unfold cursor_u8. rewrite <-(app_nil_r [b]).
  eapply reads_bind; [apply (reads_bytes [b])|by apply reads_try].
Qed.

Lemma reads_digest d : reads cursor_digest (d_bytes d) d.
Proof.
  unfold cursor_digest. rewrite <-(app_nil_r (d_bytes d)).
  eapply reads_bind; [|apply reads_try; apply ok_or_Ok, digest_of_bytes].
  change 32 with (Z.of_nat 32). rewrite <-(length_digest d). apply (reads_bytes (d_bytes d)).
Qed.

Lemma parses_u64 : parses cursor_u64 (λ z x, u64_be z = x ∧ 0 ≤ z ≤ u64_max).
Proof.
  unfold cursor_u64. intros c pre rest c' v Hc Hm.
  destruct (parses_bind _ _ _ _ (parses_bytes 8 ltac:(lia))
    (λ b _, parses_try (Ok (be_val b))) _ _ _ _ _ Hc Hm)
    as (x & rest' & -> & (b & x1 & y & [-> Hl] & [[= <-] ->] & ->) & Hc').
  rewrite app_nil_r in *. exists x1, rest'. split; [done|]. split; [split|done].
  - apply u64_be_val. lia.
  - apply be_val_u64_range. lia.
Qed.

Lemma parses_u16 : parses cursor_u16 (λ z x, u16_be z = x).
Proof.
  unfold cursor_u16. intros c pre rest c' v Hc Hm.
  destruct (parses_bind _ _ _ _ (parses_bytes 2 ltac:(lia))
    (λ b _, parses_try (Ok (be_val b))) _ _ _ _ _ Hc Hm)
    as (x & rest' & -> & (b & x1 & y & [-> Hl] & [[= <-] ->] & ->) & Hc').
  rewrite app_nil_r in *. exists x1, rest'. split_and!; [done| |done].
  unfold u16_be. replace 2%nat with (length x1) by lia. apply be_bytes_val.
Qed.

Lemma parses_u8 : parses cursor_u8 (λ z x, [byte_of z] = x).
Proof.
  unfold cursor_u8. intros c pre rest c' v Hc Hm.
  destruct (parses_bind _ _ _ _ (parses_bytes 1 ltac:(lia))
    (λ b _, parses_try (match b with [x] => Ok (byte_val x) | _ => Err malformed end))
    _ _ _ _ _ Hc Hm)
    as (x & rest' & -> & (b & x1 & y & [-> Hl] & [Hv ->] & ->) & Hc').
  rewrite app_nil_r in *. exists x1, rest'. split_and!; [done| |done].
  destruct x1 as [|b [|]]; simplify_eq. by rewrite byte_of_val.
Qed.

Lemma parses_digest : parses cursor_digest (λ d x, d_bytes d = x).
Proof.
  unfold cursor_digest. intros c pre rest c' v Hc Hm.
  destruct (parses_bind _ _ _ _ (parses_bytes 32 ltac:(lia))
    (λ b _, parses_try (ok_or (digest_of b) malformed)) _ _ _ _ _ Hc Hm)
    as (x & rest' & -> & (b & x1 & y & [-> Hl] & [Hv ->] & ->) & Hc').
  rewrite app_nil_r in *. exists x1, rest'. split_and!; [done| |done].
  apply ok_or_Ok, digest_of_Some in Hv. done.
Qed.

#[export] Hint Resolve reads_u64 reads_u16_version reads_u8 reads_digest reads_bytes : oclob.
#[export] Hint Resolve parses_u64 parses_u16 parses_u8 parses_digest parses_try : oclob.

Lemma cur_at_new b : Z.of_nat (length b) ≤ u64_max → cur_at (cursor_new b) [] b.
Proof. by intros. Qed.

Lemma length_canonical_payload o :
  length (canonical_payload o) = (284 + length (o_market_id o))%nat.
Proof.
  unfold canonical_payload, u16_be.
  rewrite !length_app, !length_digest, !length_u64_be, length_be_bytes, length_put_bytes.
  simpl. lia.
Qed.

Lemma side_of_wire_wire s : side_of_wire (byte_val (byte_of (side_wire s))) = Ok s.
Proof. by destruct s. Qed.
Lemma tif_of_wire_wire t : tif_of_wire (byte_val (byte_of (tif_wire t))) = Ok t.
Proof. by destruct t. Qed.

Lemma valid_market o :
  order_valid o = true →
  o_version o = 2 ∧ from_utf8 (o_market_id o) = true ∧ (length (o_market_id o) ≤ 64)%nat
  ∧ Forall (λ z, 0 ≤ z ≤ u64_max) [o_limit_price o; o_quantity o; o_expires_at o;
      o_reservation_limit o; o_minimum_lot o; o_max_fee o].
Proof.
  unfold order_valid, bad_market_id. intros Hv.
  repeat match goal with H : _ && _ = true |- _ => apply andb_true_iff in H as [H ?] end.
  repeat match goal with H : is_u64 _ = true |- _ => apply is_u64_spec in H end.
  bool_hyps. split_and!; [done..|by apply Nat.ltb_ge|by rewrite !Forall_cons, Forall_nil].
Qed.

Lemma payload_reads o :
  order_valid o = true → ends (parse_payload (o_salt o)) (canonical_payload o) o.
Proof.
  intros Hv. pose proof (order_valid_rebuild o Hv) as Hnew.
  destruct (valid_market o Hv) as (Hver & Hutf & Hlen & Hu).
  rewrite !Forall_cons in Hu. destruct Hu as (Hp & Hq & He & Hrl & Hml & Hmf & _).
  unfold parse_payload, canonical_payload, put_bytes. rewrite Hver, <-!app_assoc.
  eapply ends_bind; [apply reads_u16_version|]. eapply ends_try_bind; [done|].
  do 2 (eapply ends_bind; [apply reads_digest|]).
  eapply ends_bind; [apply reads_u64; unfold u64_max; lia|].
  eapply ends_bind; [apply reads_bytes|]. eapply ends_try_bind; [by rewrite Hutf|].
  eapply ends_bind; [apply reads_u8|]. eapply ends_try_bind; [apply side_of_wire_wire|].
  do 2 (eapply ends_bind; [by apply reads_u64|]).
  eapply ends_bind; [apply reads_u8|]. eapply ends_try_bind; [apply tif_of_wire_wire|].
  eapply ends_bind; [by apply reads_u64|].
  do 3 (eapply ends_bind; [apply reads_digest|]).
  do 3 (eapply ends_bind; [by apply reads_u64|]).
  eapply ends_bind; [apply reads_digest|].
  rewrite <-(app_nil_r (d_bytes (o_client_nonce o))).
  eapply ends_bind; [apply reads_digest|]. by apply ends_finish.
Qed.

Lemma from_to_secret_wire o :
  order_valid o = true → from_secret_wire (to_secret_wire o) = Ok o.
Proof.
  intros Hv. destruct (valid_market o Hv) as (_ & _ & Hlen & _).
  pose proof (length_canonical_payload o) as Hpl.
  unfold from_secret_wire, to_secret_wire.
  assert (length (SECRET_ORDER_WIRE_MAGIC ++ put_bytes (canonical_payload o)
    ++ d_bytes (o_salt o)) = (332 + length (o_market_id o))%nat) as ->.
  { rewrite !length_app, length_put_bytes, length_digest, Hpl. simpl. lia. }
  rewrite take_app_length, drop_app_length, bool_decide_eq_true_2 by done.
  unfold MAX_SECRET_ORDER_WIRE_BYTES.
  rewrite !(proj2 (Nat.ltb_ge _ _)) by (simpl; lia).
  set (w := put_bytes _ ++ _).
  assert (ends parse_frame w (canonical_payload o, o_salt o)) as Hframe.
  { unfold parse_frame, w, put_bytes. rewrite <-app_assoc.
    eapply ends_bind; [apply reads_u64; unfold u64_max; lia|].
    eapply ends_bind; [apply reads_bytes|].
    rewrite <-(app_nil_r (d_bytes (o_salt o))).
    eapply ends_bind; [apply reads_digest|]. by apply ends_finish. }
  cbn [orb negb]. rewrite (Hframe (cursor_new w) []).
  - cbn [mbind result_mbind]. apply (payload_reads o Hv _ []), cur_at_new.
    unfold u64_max; lia.
  - apply cur_at_new. unfold w, u64_max.
    rewrite length_app, length_put_bytes, length_digest. lia.
Qed.

(** C32: Decoding the private wire form of any valid order returns exactly that
    order: nothing is lost and the 512-byte limit is never hit. *)
Theorem wire_roundtrip o :
  order_valid o = true → from_secret_wire (to_secret_wire o) = Ok o.
Proof. apply from_to_secret_wire. Qed.

Lemma side_of_wire_Ok z s : side_of_wire z = Ok s → z = side_wire s.
Proof. unfold side_of_wire. intros Hs. run Hs; bool_hyps; done. Qed.
Lemma tif_of_wire_Ok z t : tif_of_wire z = Ok t → z = tif_wire t.
Proof. unfold tif_of_wire. intros Ht. run Ht; bool_hyps; done. Qed.

(** One step of a sequential parse: split off the first reader. *)
Lemma step_parse {A B} (m : method SecretWireCursor OrderError A)
    (f : A → method SecretWireCursor OrderError B) P c pre rest w :
  parses m P → cur_at c pre rest → ((m ≫= f) c).2 = Ok w →
  ∃ c' v x rest', rest = x ++ rest' ∧ P v x ∧ cur_at c' (pre ++ x) rest' ∧ (f v c').2 = Ok w.
Proof.
  intros Hm Hc. unfold mbind, method_mbind.
  destruct (m c) as [c1 [v|e]] eqn:E; [|done]. intros Hw.
  destruct (Hm _ _ _ _ _ Hc E) as (x & rest1 & -> & HP & H1). eauto 10.
Qed.

Ltac parse_step H Hc v Hv :=
  let Hc' := fresh "Hc" in
  eapply step_parse in H; [|solve [eauto with oclob]|exact Hc];
  destruct H as (? & v & ? & ? & -> & Hv & Hc' & H); clear Hc; rename Hc' into Hc.

(** The bytes consumed by a successful payload parse are the canonical payload
    of the order it returns. *)
Lemma payload_parses salt :
  parses_all (parse_payload salt)
    (λ o x, canonical_payload o = x ∧ o_salt o = salt ∧ order_valid o = true).
Proof.
  intros c pre rest o Hc Ho. unfold parse_payload in Ho.
  parse_step Ho Hc version Hversion. parse_step Ho Hc u1 Hu1.
  parse_step Ho Hc oid Hoid. parse_step Ho Hc eph Heph.
  parse_step Ho Hc mlen Hmlen. eapply step_parse in Ho; [|apply parses_bytes; lia|exact Hc].
  destruct Ho as (? & mid & ? & ? & -> & Hmid & Hc1 & Ho).
  parse_step Ho Hc1 u2 Hu2. parse_step Ho Hc1 sb Hsb. parse_step Ho Hc1 sd Hsd.
  parse_step Ho Hc1 lp Hlp. parse_step Ho Hc1 q Hq. parse_step Ho Hc1 tb Htb.
  parse_step Ho Hc1 tf Htf. parse_step Ho Hc1 exat Hex.
  parse_step Ho Hc1 ph Hph. parse_step Ho Hc1 dn Hdn. parse_step Ho Hc1 ri Hri.
  parse_step Ho Hc1 rl Hrl. parse_step Ho Hc1 ml Hml. parse_step Ho Hc1 mf Hmf.
  parse_step Ho Hc1 cd Hcd. parse_step Ho Hc1 cn Hcn.
  apply (parses_all_finish _ _ _ _ _ Hc1) in Ho as [Ho ->].
  destruct Hu1 as [Hu1 ->], Hu2 as [Hu2 ->], Hsd as [Hsd ->], Htf as [Htf ->].
  destruct Hmlen as [<- ?], Hmid as [-> Hmid], Hlp as [<- ?], Hq as [<- ?],
    Hex as [<- ?], Hrl as [<- ?], Hml as [<- ?], Hmf as [<- ?].
  apply fail_if_Ok in Hu1, Hu2. bool_hyps. apply side_of_wire_Ok in Hsd. apply tif_of_wire_Ok in Htf.
  apply new_with_controls_valid in Ho as (Hval & _ & ->);
    [|done|by apply is_u64_spec..].
  split; [|done]. subst. unfold canonical_payload, put_bytes; simpl.
  by rewrite ?app_nil_r, <-?app_assoc.
Qed.

Lemma frame_parses :
  parses_all parse_frame (λ '(payload, salt) x, put_bytes payload ++ d_bytes salt = x).
Proof.
  intros c pre rest [payload salt] Hc Ho. unfold parse_frame in Ho.
  parse_step Ho Hc plen Hplen. eapply step_parse in Ho; [|apply parses_bytes; lia|exact Hc].
  destruct Ho as (? & pl & ? & ? & -> & [-> Hpl] & Hc1 & Ho).
  parse_step Ho Hc1 sl Hsl. apply (parses_all_finish (Ok _) _ _ _ _ Hc1) in Ho as [[= -> ->] ->].
  destruct Hplen as [<- ?]. unfold put_bytes. by rewrite Hpl, Hsl, app_nil_r, <-app_assoc.
Qed.

(** The private wire format is canonical: bytes that decode are exactly the
    encoding of the order they decode to, and that order passed every check of
    [new_with_controls].  In particular no two byte strings decode to the same
    order, and trailing or re-encoded bytes are rejected. *)
Theorem wire_canonical b o :
  from_secret_wire b = Ok o → to_secret_wire o = b ∧ order_valid o = true.
Proof.
  unfold from_secret_wire, to_secret_wire.
  destruct (_ || _ || _) eqn:E; [done|]. intros Ho.
  apply orb_false_iff in E as [[E1 _]%orb_false_iff E3].
  apply negb_false_iff, bool_decide_eq_true in E3.
  apply Nat.ltb_ge in E1. unfold MAX_SECRET_ORDER_WIRE_BYTES in E1.
  apply bind_Ok in Ho as ([payload salt] & Hf & Ho).
  assert (length (drop (length SECRET_ORDER_WIRE_MAGIC) b) ≤ 512)%nat.
  { rewrite length_drop. lia. }
  eapply frame_parses in Hf; [|apply cur_at_new; unfold u64_max; lia].
  assert (length payload ≤ 512)%nat.
  { apply (f_equal length) in Hf. rewrite length_app, length_put_bytes in Hf. lia. }
  eapply payload_parses in Ho; [|apply cur_at_new; unfold u64_max; lia].
  destruct Ho as (-> & -> & Hv). split; [|done].
  rewrite Hf. rewrite <-E3 at 1. apply take_drop.
Qed.

(** ** Commitments and authority *)

Section authority.
Context `{Crypto}.

(** A commitment binds every field of the order, salt included: two valid
    orders with the same commitment are equal, or exhibit a SHA-256 collision
    on the two preimages. *)
Theorem commitment_binding o1 o2 :
  order_valid o1 = true → order_valid o2 = true → commitment o1 = commitment o2 →
  o1 = o2 ∨ collision (commitment_preimage o1) (commitment_preimage o2).
Proof.
  intros Hv1 Hv2 [E|Hc]%sha256_or_collision; [left|by right].
  unfold commitment_preimage in E. apply app_inv_head in E.
  apply app_inj_l in E as [Esalt%digest_eq Epay]; [|by rewrite !length_digest].
  pose proof (length_canonical_payload o1) as Hl.
  destruct (valid_market o1 Hv1) as (_ & _ & Hm & _).
  assert (cur_at (cursor_new (canonical_payload o1)) [] (canonical_payload o1)) as Hc1.
  { apply cur_at_new. unfold u64_max; lia. }
  pose proof (payload_reads o1 Hv1 _ _ Hc1) as R1.
  rewrite Epay in Hc1. pose proof (payload_reads o2 Hv2 _ _ Hc1) as R2.
  rewrite Epay, Esalt, R2 in R1. congruence.
Qed.

(** What an accepted authority establishes, as an exact characterization. *)
Lemma authority_verify_Ok a o now :
  authority_verify a o now = Ok () ↔
    now ≤ a_authorization_deadline a ∧ now ≤ o_expires_at o
    ∧ a_commitment a = commitment o ∧ a_verifying_key a ≠ zero_digest
    ∧ signature_ok (mk_verifying_key (a_verifying_key a))
        (authority_body (a_commitment a) (a_authorization_deadline a)) (a_signature a) = true.
Proof.
  unfold authority_verify, signature_ok, vk_from_bytes.
  destruct (_ || _ || _) eqn:E; cbn [mbind result_mbind fail_if].
  { split; [done|]. intros (? & ? & Hc & _). rewrite bool_decide_eq_true_2 in E by done.
    rewrite !(proj2 (Z.ltb_ge _ _)) in E by lia. done. }
  bool_hyps. case_bool_decide as Hz; cbn [mbind result_mbind map_err]; [naive_solver|].
  destruct (sig_try_from _) as [sg|[]]; cbn [mbind result_mbind map_err]; [|naive_solver].
  destruct (verify_strict _ _ _) as [[]|[]]; cbn; naive_solver.
Qed.

Lemma authority_verify_commitment a o now :
  authority_verify a o now = Ok () → a_commitment a = commitment o.
Proof. intros Hv. by apply authority_verify_Ok in Hv as (_ & _ & ? & _). Qed.

(** An order authorized by its signing key is accepted by [verify] exactly
    until the order expires: the authorization deadline, which [authorize_order]
    requires to lie at or after the expiry, never ends it earlier. *)
Theorem authorize_then_verify `{!CryptoLaws} o deadline k a now :
  vk_fingerprint (verifying_key k) ≠ zero_digest →
  authorize_order o deadline k = Ok a →
  authority_verify a o now = Ok () ↔ now ≤ o_expires_at o.
Proof.
  intros Hk. unfold authorize_order. intros Ha.
  apply bind_Ok in Ha as (? & Hd%fail_if_Ok & Ha).
  apply bind_Ok in Ha as (s & Hs%map_err_Ok & [= <-]). bool_hyps.
  rewrite authority_verify_Ok; simpl.
  pose proof (signature_ok_signed k _ _ Hs) as Hok. unfold verifying_key in Hok.
  split; [naive_solver|]. intros Hnow. split_and!; [lia|done..].
Qed.

End authority.
