(* ===== verification/Toy.v ===== *)
(** * A concrete instance of the primitives

    [sha2] and [zkfmi-crypto] are parameters of the development.  This file
    gives executable functions with the assumed laws, so that every theorem
    with hypotheses can be applied to concrete data. They are test doubles
    with no security. *)

From S2P Require Import Prelude BTree Bytes AppCrypto.

(** A 40-bit polynomial checksum after a one, padded to 32 bytes. *)
Definition toy_sha256 (b : bytes) : Digest32 :=
  default zero_digest (digest_of (be_bytes 32
    (2 ^ 40 + foldl (λ a x, Z.land (a * 257 + byte_val x + 1) (Z.ones 40)) 7 b))).

Definition toy_public_key (seeds : bytes) : bytes := take 1984 (seeds ++ replicate 1984 Byte.x00).

(** The toy signature is a checksum of public key, purpose and message. *)
Definition toy_tag (p : Z) (public message : bytes) : bytes :=
  d_bytes (toy_sha256 (be_bytes 2 p ++ take 64 public ++ message)) ++ replicate 3341 Byte.x00.

#[export] Instance toy_crypto : Crypto := {|
  sha256 := toy_sha256;
  hybrid_public_key := toy_public_key;
  hybrid_sign seeds p m := Some (toy_tag p (toy_public_key seeds) m);
  hybrid_verify p public m s := bool_decide (s = toy_tag p public m);
  suite_encode := [Byte.x00; Byte.x01; Byte.x00; Byte.x02];
  purpose_code := 3
|}.

#[export] Instance toy_laws : CryptoLaws.
Proof.
  split.
  - done.
  - intros seeds. simpl. unfold toy_public_key.
    rewrite length_take, length_app, length_replicate. lia.
  - intros seeds p m s [= <-]. unfold toy_tag.
    rewrite length_app, length_digest, length_replicate. done.
  - intros seeds p m. simpl. eauto.
  - intros seeds p m s [= <-]. simpl. by apply bool_decide_eq_true.
Qed.

(** Its digests are never zero. *)
Lemma toy_sha256_nonzero b : toy_sha256 b ≠ zero_digest.
Proof.
  unfold toy_sha256. set (z := foldl _ _ b).
  assert (0 ≤ z < 2 ^ 40) as Hz.
  { assert (∀ a, 0 ≤ a < 2 ^ 40 → 0 ≤ foldl (λ a x, Z.land (a * 257 + byte_val x + 1) (Z.ones 40)) a b
      < 2 ^ 40) as H; [|apply H; lia].
    induction b as [|x b IH]; intros a Ha; simpl; [done|]. apply IH.
    rewrite Z.land_ones by lia. apply Z.mod_pos_bound. lia. }
  unfold digest_of. case_decide as Hlen.
  - intros E%(f_equal d_bytes).
    assert (be_val (be_bytes 32 (2 ^ 40 + z)) = be_val (d_bytes zero_digest)) as E' by exact (f_equal be_val E).
    clear E. rename E' into E. rewrite be_val_be_bytes in E. change (be_val (d_bytes zero_digest)) with 0 in E.
    change (8 * Z.of_nat 32) with 256 in E. rewrite Z.mod_small in E; lia.
  - exfalso. apply Hlen. by rewrite length_be_bytes.
Qed.
