(* ===== verification/Matching.v ===== *)
(** * The canonical price-time match

    [expected_batch] of [oclob-core/src/lib.rs]: the reference result of
    matching one arriving order against at most eight resting orders given in
    price-time order, together with the aggregate public depth it publishes
    and the check [validate_public_levels] applied to any published depth. *)

From S2P Require Import Prelude BTree Bytes AppCrypto Orders.
Open Scope string_scope.
Open Scope list_scope.
Open Scope Z_scope.

Record PrivateRestingInput := mk_resting_input {
  ri_commitment : OrderCommitment;
  ri_side : Side;
  ri_price : Z;
  ri_quantity : Z
}.

Record PrivateMatchBatch := mk_batch {
  pb_resting : list PrivateRestingInput;
  pb_arriving_side : Side;
  pb_arriving_price : Z;
  pb_arriving_quantity : Z;
  pb_arriving_can_rest : bool
}.

Record MpcSlotResult := mk_slot {
  slot_matched : bool;
  slot_trade_price : Z;
  slot_trade_quantity : Z
}.

Record MpcPriceLevel := mk_level {
  pl_side : Side;
  pl_price : Z;
  pl_quantity : Z
}.

Record MpcBatchResult := mk_batch_result {
  br_slots : list MpcSlotResult;
  br_arriving_remaining : Z;
  br_public_levels : option (list MpcPriceLevel)
}.

#[export] Instance slot_eq_dec : EqDecision MpcSlotResult.
Proof. solve_decision. Defined.
#[export] Instance level_eq_dec : EqDecision MpcPriceLevel.
Proof. solve_decision. Defined.
#[export] Instance batch_result_eq_dec : EqDecision MpcBatchResult.
Proof. solve_decision. Defined.

(** The limit test: a buyer crosses prices at or below its limit, a seller
    prices at or above it. *)
Definition price_crosses (arriving_side : Side) (arriving_price resting_price : Z) : bool :=
  match arriving_side with
  | Buy => resting_price <=? arriving_price
  | Sell => arriving_price <=? resting_price
  end.

(** The loop over resting orders: each slot and the quantity left over. *)
Fixpoint match_slots (side : Side) (price remaining : Z) (l : list PrivateRestingInput) :
    list MpcSlotResult * Z :=
  match l with
  | [] => ([], remaining)
  | r :: l =>
      let crossed := negb (bool_decide (ri_side r = side))
        && price_crosses side price (ri_price r)
        && (0 <? remaining) && (0 <? ri_quantity r) in
      let trade_quantity := if crossed then Z.min remaining (ri_quantity r) else 0 in
      let '(slots, rest) := match_slots side price (remaining - trade_quantity) l in
      (mk_slot crossed (if crossed then ri_price r else 0) trade_quantity :: slots, rest)
  end.

(** [(side.wire(), if Buy { u64::MAX - price } else { price })]. *)
Definition level_key (l : MpcPriceLevel) : Z * Z :=
  (side_wire (pl_side l),
   match pl_side l with Buy => u64_max - pl_price l | Sell => pl_price l end).

(** Adds one quantity to its price level, [*entry(..).or_default() += q]. *)
Definition add_level (levels : btree (Z * Z) Z) (side : Side) (price quantity : Z) :
    btree (Z * Z) Z :=
  bt_entry (side_wire side, price) 0 (λ q, wrapping_add q quantity) levels.

Definition resting_levels (l : list (PrivateRestingInput * MpcSlotResult)) : btree (Z * Z) Z :=
  foldl (λ levels '(r, fill),
    let quantity := ri_quantity r - slot_trade_quantity fill in
    if 0 <? quantity then add_level levels (ri_side r) (ri_price r) quantity else levels) [] l.

Definition level_of_entry (e : (Z * Z) * Z) : MpcPriceLevel :=
  let '((side, price), quantity) := e in
  mk_level (if side =? 0 then Buy else Sell) price quantity.

Definition expected_batch (batch : PrivateMatchBatch) : MpcBatchResult :=
  let '(slots, arriving_remaining) :=
    match_slots (pb_arriving_side batch) (pb_arriving_price batch)
      (pb_arriving_quantity batch) (pb_resting batch) in
  let remaining := if pb_arriving_can_rest batch then arriving_remaining else 0 in
  let levels := resting_levels (zip (pb_resting batch) slots) in
  let levels := if 0 <? remaining
    then add_level levels (pb_arriving_side batch) (pb_arriving_price batch) remaining
    else levels in
  let public_levels := sort_by (λ a b, oleb (level_key a) (level_key b))
    (map level_of_entry levels) in
  mk_batch_result slots remaining (Some public_levels).

(** The loop of [validate_public_levels], carrying the previous key. *)
Fixpoint validate_levels_from (previous : option (Z * Z)) (l : list MpcPriceLevel) :
    result string () :=
  match l with
  | [] => Ok ()
  | level :: l =>
      if (pl_price level =? 0) || (u32_max <? pl_price level)
         || (pl_quantity level =? 0)
         || (u32_max * (Z.of_nat MAX_MATCH_SLOTS + 1) <? pl_quantity level)
      then Err "public depth is outside circuit bounds"
      else
        let key := level_key level in
        if match previous with Some p => oleb key p | None => false end
        then Err "public depth has duplicate or unordered levels"
        else validate_levels_from (Some key) l
  end.

Definition validate_public_levels (levels : list MpcPriceLevel) : result string () :=
  if Nat.ltb (MAX_MATCH_SLOTS + 1) (length levels)
  then Err "public depth exceeds circuit capacity"
  else validate_levels_from None levels.

(** ** Specification notions *)

Definition traded (slots : list MpcSlotResult) : Z := sumZ (map slot_trade_quantity slots).

(** [better side p q]: at price [p] a resting order serves the arriving [side]
    no worse than at price [q]. *)
Definition at_least_as_good (arriving : Side) (p q : Z) : Prop :=
  match arriving with Buy => p ≤ q | Sell => q ≤ p end.

(** Opposite-side resting orders, best price first. *)
Definition price_sorted (arriving : Side) (l : list PrivateRestingInput) : Prop :=
  StronglySorted (λ a b, at_least_as_good arriving (ri_price a) (ri_price b)) l.

(** The quantity published for one side and price. *)
Definition depth_at (side : Side) (price : Z) (l : list MpcPriceLevel) : Z :=
  sumZ (map pl_quantity
    (filter (λ v, pl_side v = side ∧ pl_price v = price) l)).

(** What remains on the book after the match, one entry per order. *)
Definition remainders (batch : PrivateMatchBatch) : list MpcPriceLevel :=
  let r := expected_batch batch in
  map (λ '(o, s), mk_level (ri_side o) (ri_price o) (ri_quantity o - slot_trade_quantity s))
    (zip (pb_resting batch) (br_slots r))
  ++ [mk_level (pb_arriving_side batch) (pb_arriving_price batch) (br_arriving_remaining r)].

(** ** The matching loop *)

Section loop.
Implicit Types (l : list PrivateRestingInput).

Lemma match_slots_length side price rem l :
  length (match_slots side price rem l).1 = length l.
Proof.
  revert rem; induction l as [|r l IH]; intros rem; simpl; [done|].
  match goal with |- context [match_slots side price ?x l] => specialize (IH x) end.
  destruct (match_slots _ _ _ _); simpl in *. by rewrite IH.
Qed.

(** One slot: a match trades a positive amount at the resting price and within
    both quantities; no match trades nothing. *)
Definition slot_sound (side : Side) (price rem : Z) (r : PrivateRestingInput)
    (s : MpcSlotResult) : Prop :=
  if slot_matched s
  then ri_side r ≠ side ∧ price_crosses side price (ri_price r) = true
       ∧ slot_trade_price s = ri_price r
       ∧ slot_trade_quantity s = Z.min rem (ri_quantity r) ∧ 0 < slot_trade_quantity s
  else slot_trade_price s = 0 ∧ slot_trade_quantity s = 0
       ∧ (ri_side r ≠ side → price_crosses side price (ri_price r) = true →
          0 < ri_quantity r → rem ≤ 0).

Lemma match_slots_cons side price rem r l :
  ∃ s, slot_sound side price rem r s ∧
    match_slots side price rem (r :: l) =
      (s :: (match_slots side price (rem - slot_trade_quantity s) l).1,
       (match_slots side price (rem - slot_trade_quantity s) l).2).
Proof.
  simpl. set (crossed := _ && _ && _ && _).
  exists (mk_slot crossed (if crossed then ri_price r else 0)
    (if crossed then Z.min rem (ri_quantity r) else 0)). split.
  - unfold slot_sound; simpl. destruct crossed eqn:E; unfold crossed in E.
    + bool_hyps. split_and!; [done..|lia].
    + split_and!; [done..|]. intros Hs Hp Hq.
      rewrite bool_decide_eq_false_2, Hp, (proj2 (Z.ltb_lt 0 (ri_quantity r))) in E by done.
      simpl in E. rewrite andb_true_r in E. by apply Z.ltb_ge in E.
  - simpl. by destruct (match_slots _ _ _ l).
Qed.

Lemma slot_sound_range side price rem r s :
  0 ≤ rem → 0 ≤ ri_quantity r → slot_sound side price rem r s →
  0 ≤ slot_trade_quantity s ≤ rem ∧ slot_trade_quantity s ≤ ri_quantity r
  ∧ (slot_matched s = true ↔ 0 < slot_trade_quantity s).
Proof. unfold slot_sound. destruct (slot_matched s); naive_solver lia. Qed.

(** Conservation: what is traded and what is left add up. *)
Lemma match_slots_conserve side price rem l :
  traded (match_slots side price rem l).1 + (match_slots side price rem l).2 = rem.
Proof.
  revert rem; induction l as [|r l IH]; intros rem; [unfold traded; simpl; lia|].
  destruct (match_slots_cons side price rem r l) as (s & _ & ->). simpl.
  unfold traded in *; simpl. specialize (IH (rem - slot_trade_quantity s)). lia.
Qed.

Lemma match_slots_range side price rem l :
  0 ≤ rem → Forall (λ r, 0 ≤ ri_quantity r) l →
  0 ≤ (match_slots side price rem l).2 ≤ rem
  ∧ Forall2 (λ r s, 0 ≤ slot_trade_quantity s ≤ ri_quantity r
      ∧ (slot_matched s = true ↔ 0 < slot_trade_quantity s)
      ∧ (slot_matched s = true → ri_side r ≠ side
           ∧ price_crosses side price (ri_price r) = true ∧ slot_trade_price s = ri_price r)
      ∧ (slot_matched s = false → slot_trade_price s = 0))
    l (match_slots side price rem l).1.
Proof.
  intros Hrem Hl; revert rem Hrem; induction Hl as [|r l Hr Hl IH]; intros rem Hrem.
  { simpl. split; [lia|constructor]. }
  destruct (match_slots_cons side price rem r l) as (s & Hs & ->); simpl.
  pose proof (slot_sound_range _ _ _ _ _ Hrem Hr Hs) as (Hq & Hqr & Hm).
  destruct (IH (rem - slot_trade_quantity s)) as [Hleft HF]; [lia|].
  split; [lia|]. constructor; [|done]. split_and!; [lia..|done| |].
  - intros E. unfold slot_sound in Hs. rewrite E in Hs. naive_solver.
  - intros E. unfold slot_sound in Hs. rewrite E in Hs. naive_solver.
Qed.

Lemma traded_nonneg side price rem l :
  0 ≤ rem → Forall (λ r, 0 ≤ ri_quantity r) l →
  0 ≤ traded (match_slots side price rem l).1.
Proof.
  intros Hrem Hl. pose proof (match_slots_conserve side price rem l).
  destruct (match_slots_range side price rem l Hrem Hl). lia.
Qed.

(** Once the arriving order is exhausted nothing trades any more. *)
Lemma match_slots_exhausted side price l :
  Forall (λ s, slot_trade_quantity s = 0) (match_slots side price 0 l).1.
Proof.
  induction l as [|r l IH]; [constructor|].
  destruct (match_slots_cons side price 0 r l) as (s & Hs & ->); simpl.
  assert (slot_trade_quantity s = 0) as Hz.
  { unfold slot_sound in Hs. destruct (slot_matched s); [lia|by destruct Hs as (_ & ? & _)]. }
  rewrite Hz. by constructor.
Qed.

(** A slot that could have traded more ends the match. *)
Lemma match_slots_priority side price rem l i j ri rj si sj :
  0 ≤ rem → Forall (λ r, 0 ≤ ri_quantity r) l → (i < j)%nat →
  l !! i = Some ri → l !! j = Some rj →
  (match_slots side price rem l).1 !! i = Some si →
  (match_slots side price rem l).1 !! j = Some sj →
  ri_side ri ≠ side → price_crosses side price (ri_price ri) = true →
  0 < slot_trade_quantity sj → slot_trade_quantity si = ri_quantity ri.
Proof.
  intros Hrem Hl; revert rem i j Hrem.
  induction Hl as [|r l Hr Hl IH]; intros rem i j Hrem Hij Hi Hj Hsi Hsj Hside Hcross Htrade.
  { by rewrite lookup_nil in Hi. }
  destruct (match_slots_cons side price rem r l) as (s & Hs & Heq).
  rewrite Heq in Hsi, Hsj; simpl in *. destruct j as [|j]; [lia|]; simpl in Hj, Hsj.
  pose proof (slot_sound_range _ _ _ _ _ Hrem Hr Hs) as (Hq & Hqr & Hm).
  destruct i as [|i]; simpl in *.
  - simplify_eq. destruct (decide (slot_trade_quantity si = rem)) as [E|E].
    + rewrite E, Z.sub_diag in Hsj.
      pose proof (match_slots_exhausted side price l) as Hz. rewrite Forall_lookup in Hz.
      rewrite (Hz _ _ Hsj) in Htrade. lia.
    + unfold slot_sound in Hs. destruct (slot_matched si); [lia|].
      destruct Hs as (_ & Hz & Hno). destruct (decide (0 < ri_quantity ri)); [|lia].
      specialize (Hno Hside Hcross ltac:(done)). lia.
  - eapply (IH (rem - slot_trade_quantity s) i j); eauto; lia.
Qed.

(** A crossing order with something left over means the arriving order is done. *)
Lemma match_slots_filled_or_done side price rem l i r s :
  0 ≤ rem → Forall (λ r, 0 ≤ ri_quantity r) l →
  l !! i = Some r → (match_slots side price rem l).1 !! i = Some s →
  ri_side r ≠ side → price_crosses side price (ri_price r) = true →
  slot_trade_quantity s < ri_quantity r → (match_slots side price rem l).2 = 0.
Proof.
  intros Hrem Hl; revert rem i Hrem.
  induction Hl as [|r0 l Hr Hl IH]; intros rem i Hrem Hi Hsi Hside Hcross Hlt.
  { by rewrite lookup_nil in Hi. }
  destruct (match_slots_cons side price rem r0 l) as (s0 & Hs & Heq).
  rewrite Heq in *; simpl in *.
  pose proof (slot_sound_range _ _ _ _ _ Hrem Hr Hs) as (Hq & Hqr & Hm).
  destruct i as [|i]; simpl in *; [|eapply IH; eauto; lia]. simplify_eq.
  assert (rem - slot_trade_quantity s = 0) as ->.
  { unfold slot_sound in Hs. destruct (slot_matched s); [lia|].
    destruct Hs as (_ & ? & Hno). specialize (Hno Hside Hcross ltac:(lia)). lia. }
  destruct (match_slots_range side price 0 l ltac:(lia) Hl). lia.
Qed.

(** Splitting the resting orders splits the match. *)
Lemma match_slots_app side price rem l k :
  match_slots side price rem (l ++ k) =
    ((match_slots side price rem l).1
       ++ (match_slots side price (match_slots side price rem l).2 k).1,
     (match_slots side price (match_slots side price rem l).2 k).2).
Proof.
  revert rem; induction l as [|r l IH]; intros rem; simpl.
  { by destruct (match_slots _ _ _ k). }
  rewrite IH. by destruct (match_slots _ _ _ l).
Qed.

End loop.

Lemma expected_batch_slots b :
  br_slots (expected_batch b) = (match_slots (pb_arriving_side b) (pb_arriving_price b)
    (pb_arriving_quantity b) (pb_resting b)).1.
Proof. unfold expected_batch. by destruct (match_slots _ _ _ _). Qed.

Lemma expected_batch_remaining b :
  br_arriving_remaining (expected_batch b) =
    if pb_arriving_can_rest b
    then (match_slots (pb_arriving_side b) (pb_arriving_price b)
            (pb_arriving_quantity b) (pb_resting b)).2
    else 0.
Proof. unfold expected_batch. by destruct (match_slots _ _ _ _). Qed.

(** A price the owner of a limit order accepts. *)
Definition within_limit (side : Side) (limit price : Z) : Prop :=
  match side with
  | Buy => price ≤ limit
  | Sell => limit ≤ price
  end.

Lemma price_crosses_within side limit price :
  price_crosses side limit price = true ↔ within_limit side limit price.
Proof. destruct side; simpl; lia. Qed.

(** C24: Price-time priority within the limits.  In a batch whose resting orders
    are on the other side and sorted best price first (time order within a
    price), a traded slot has a positive quantity, at most its order's, at that
    order's own price, which the arriving order's limit accepts; an order is
    traded only if every order ahead of it, at a price at least as good, was
    filled completely; and an acceptable order is left incompletely filled only
    when the whole arriving quantity has been traded. *)
Theorem expected_batch_priority b :
  0 ≤ pb_arriving_quantity b →
  Forall (λ r, 0 ≤ ri_quantity r ∧ ri_side r ≠ pb_arriving_side b) (pb_resting b) →
  price_sorted (pb_arriving_side b) (pb_resting b) →
  (∀ j rj sj, pb_resting b !! j = Some rj → br_slots (expected_batch b) !! j = Some sj →
     slot_matched sj = true →
     0 < slot_trade_quantity sj ≤ ri_quantity rj ∧ slot_trade_price sj = ri_price rj
     ∧ within_limit (pb_arriving_side b) (pb_arriving_price b) (slot_trade_price sj)
     ∧ ∀ i ri si, (i < j)%nat → pb_resting b !! i = Some ri →
         br_slots (expected_batch b) !! i = Some si →
         slot_trade_quantity si = ri_quantity ri
         ∧ at_least_as_good (pb_arriving_side b) (ri_price ri) (slot_trade_price sj))
  ∧ (∀ i ri si, pb_resting b !! i = Some ri → br_slots (expected_batch b) !! i = Some si →
       within_limit (pb_arriving_side b) (pb_arriving_price b) (ri_price ri) →
       slot_trade_quantity si < ri_quantity ri →
       traded (br_slots (expected_batch b)) = pb_arriving_quantity b).
Proof.
  intros Hq Hl Hsorted. rewrite !expected_batch_slots. apply Forall_and in Hl as [Hl Hopp].
  destruct (match_slots_range (pb_arriving_side b) (pb_arriving_price b) _ _ Hq Hl) as [_ HF].
  rewrite Forall_lookup in Hopp. split.
  - intros j rj sj Hj Hsj Hm.
    destruct (Forall2_lookup_lr _ _ _ _ _ _ HF Hj Hsj) as (Hle & Hpos & Hmatch & _).
    destruct (Hmatch Hm) as (_ & Hcross & Hprice). apply Hpos in Hm. rewrite Hprice.
    split_and!; [lia..|done|by apply price_crosses_within|]. intros i ri si Hij Hi Hsi.
    assert (at_least_as_good (pb_arriving_side b) (ri_price ri) (ri_price rj)) as Hgood.
    { by eapply (StronglySorted_lookup_lt _ _ i j _ _ Hsorted). }
    split; [|done]. eapply match_slots_priority; [done..|by eapply Hopp| |done].
    apply price_crosses_within in Hcross. apply price_crosses_within.
    unfold at_least_as_good, within_limit in *. destruct (pb_arriving_side b); lia.
  - intros i ri si Hi Hsi Hin%price_crosses_within Hlt.
    pose proof (match_slots_conserve (pb_arriving_side b) (pb_arriving_price b)
      (pb_arriving_quantity b) (pb_resting b)) as Hc.
    rewrite (match_slots_filled_or_done _ _ _ _ i ri si Hq Hl Hi Hsi (Hopp _ _ Hi) Hin Hlt) in Hc.
    lia.
Qed.

(** What [expected_batch] promises of its fills and its remainder. *)
Definition batch_balanced (b : PrivateMatchBatch) (res : MpcBatchResult) : Prop :=
  0 ≤ traded (br_slots res) ≤ pb_arriving_quantity b
  ∧ br_arriving_remaining res =
      (if pb_arriving_can_rest b then pb_arriving_quantity b - traded (br_slots res) else 0)
  ∧ Forall2 (λ r s, 0 ≤ slot_trade_quantity s ≤ ri_quantity r
      ∧ (slot_matched s = true ↔ 0 < slot_trade_quantity s)
      ∧ (slot_matched s = true → ri_side r ≠ pb_arriving_side b
           ∧ price_crosses (pb_arriving_side b) (pb_arriving_price b) (ri_price r) = true
           ∧ slot_trade_price s = ri_price r)
      ∧ (slot_matched s = false → slot_trade_price s = 0))
    (pb_resting b) (br_slots res).

Lemma expected_batch_balanced b :
  0 ≤ pb_arriving_quantity b → Forall (λ r, 0 ≤ ri_quantity r) (pb_resting b) →
  batch_balanced b (expected_batch b).
Proof.
  intros Hq Hl; unfold batch_balanced. rewrite expected_batch_remaining, expected_batch_slots.
  destruct (match_slots_range (pb_arriving_side b) (pb_arriving_price b) _ _ Hq Hl) as [Hr HF].
  pose proof (match_slots_conserve (pb_arriving_side b) (pb_arriving_price b)
    (pb_arriving_quantity b) (pb_resting b)).
  split_and!; [lia..| |done]. destruct (pb_arriving_can_rest b); lia.
Qed.

(** Conservation.  Fills and remainder account for the whole arriving
    quantity; every fill is positive, at the resting price, within the limit of
    the arriving order and within the resting quantity; an immediate-or-cancel
    order never leaves a remainder. *)
Theorem expected_batch_conserves b :
  0 ≤ pb_arriving_quantity b → Forall (λ r, 0 ≤ ri_quantity r) (pb_resting b) →
  let res := expected_batch b in
  0 ≤ traded (br_slots res) ≤ pb_arriving_quantity b
  ∧ br_arriving_remaining res =
      (if pb_arriving_can_rest b then pb_arriving_quantity b - traded (br_slots res) else 0)
  ∧ Forall2 (λ r s, 0 ≤ slot_trade_quantity s ≤ ri_quantity r
      ∧ (slot_matched s = true ↔ 0 < slot_trade_quantity s)
      ∧ (slot_matched s = true → ri_side r ≠ pb_arriving_side b
           ∧ price_crosses (pb_arriving_side b) (pb_arriving_price b) (ri_price r) = true
           ∧ slot_trade_price s = ri_price r)
      ∧ (slot_matched s = false → slot_trade_price s = 0))
    (pb_resting b) (br_slots res).
Proof. apply expected_batch_balanced. Qed.

(** ** Public depth *)

Section depth.
Implicit Types (m : list ((Z * Z) * Z)) (s : Side) (p q : Z).

Definition level_get m s p : Z := default 0 (bt_get (side_wire s, p) m).

Definition levels_ok m : Prop :=
  bt_ok m ∧ Forall (λ e, (e.1.1 = 0 ∨ e.1.1 = 1) ∧ 0 < e.2) m.

Lemma side_wire_01 s : side_wire s = 0 ∨ side_wire s = 1.
Proof. destruct s; simpl; auto. Qed.

Lemma side_wire_inj s t : side_wire s = side_wire t → s = t.
Proof. by destruct s, t. Qed.

Lemma add_level_get m s p q s' p' :
  0 < q → 0 ≤ level_get m s p → level_get m s p + q ≤ u64_max →
  level_get (add_level m s p q) s' p' =
    level_get m s' p' + (if bool_decide (s = s' ∧ p = p') then q else 0).
Proof.
  intros Hq Hnn Hmax. unfold level_get, add_level, bt_entry in *.
  rewrite bt_get_insert. case_bool_decide as E.
  - destruct E as [<- <-]. rewrite ocmp_refl; simpl.
    unfold wrapping_add. rewrite Z.mod_small; unfold u64_max in *; lia.
  - destruct (ocmp _ _) eqn:Ec; [|lia..]. apply ocmp_eq in Ec.
    destruct E. split; [apply side_wire_inj|]; congruence.
Qed.

Lemma add_level_ok m s p q :
  levels_ok m → 0 < q → level_get m s p + q ≤ u64_max → levels_ok (add_level m s p q).
Proof.
  intros [Hok HF] Hq Hmax. unfold add_level, bt_entry. split; [by apply bt_insert_ok|].
  apply Forall_forall. intros e [->|Hin]%bt_insert_keys; simpl.
  - split; [apply side_wire_01|]. unfold level_get in Hmax.
    assert (0 ≤ default 0 (bt_get (side_wire s, p) m)).
    { destruct (bt_get _ m) as [v|] eqn:E; simpl; [|lia].
      apply bt_get_elem in E. rewrite Forall_forall in HF.
      destruct (HF _ E); simpl in *; lia. }
    unfold wrapping_add. rewrite Z.mod_small; unfold u64_max in *; lia.
  - rewrite Forall_forall in HF; auto.
Qed.

Lemma level_get_nonneg m s p : levels_ok m → 0 ≤ level_get m s p.
Proof.
  intros [_ HF]. unfold level_get. destruct (bt_get _ m) as [v|] eqn:E; simpl; [|lia].
  apply bt_get_elem in E. rewrite Forall_forall in HF. destruct (HF _ E); simpl in *; lia.
Qed.

Lemma depth_at_cons s p v l :
  depth_at s p (v :: l) =
    (if bool_decide (pl_side v = s ∧ pl_price v = p) then pl_quantity v else 0)
    + depth_at s p l.
Proof.
  unfold depth_at. rewrite filter_cons. case_decide as E.
  - rewrite bool_decide_eq_true_2 by done. done.
  - rewrite bool_decide_eq_false_2 by done. lia.
Qed.

Lemma depth_at_app s p l k : depth_at s p (l ++ k) = depth_at s p l + depth_at s p k.
Proof. unfold depth_at. by rewrite filter_app, map_app, sumZ_app. Qed.

#[export] Instance depth_at_perm s p : Proper ((≡ₚ) ==> (=)) (depth_at s p).
Proof. intros l k Hlk. unfold depth_at. by rewrite Hlk. Qed.

Lemma depth_at_nonneg s p l : Forall (λ v, 0 ≤ pl_quantity v) l → 0 ≤ depth_at s p l.
Proof.
  induction 1 as [|v l Hv Hl IH]; [done|]. rewrite depth_at_cons. case_bool_decide; lia.
Qed.

Lemma depth_at_le s p l :
  Forall (λ v, 0 ≤ pl_quantity v) l → depth_at s p l ≤ sumZ (map pl_quantity l).
Proof.
  induction 1 as [|v l Hv Hl IH]; [done|]. rewrite depth_at_cons; simpl. case_bool_decide; lia.
Qed.

(** The published list carries exactly the map's totals. *)
Lemma depth_at_levels m s p :
  levels_ok m → depth_at s p (map level_of_entry m) = level_get m s p.
Proof.
  intros [Hok HF]. induction m as [|[[w pr] q] m IH]; [done|].
  apply bt_ok_cons in Hok as [Hok Hlb]. apply Forall_cons in HF as [[Hw Hq] HF].
  simpl map. rewrite depth_at_cons, (IH Hok HF). unfold level_get, level_of_entry; simpl in *.
  destruct (ocmp (side_wire s, p) (w, pr)) eqn:Ec.
  - apply ocmp_eq in Ec as [= Es <-].
    rewrite bool_decide_eq_true_2; [|by split; [destruct s, Hw as [->| ->]|]].
    rewrite <-Es in Hlb. rewrite (bt_get_lb (K := Z * Z)) by done. simpl. lia.
  - rewrite bool_decide_eq_false_2; [lia|]. intros [Es <-].
    assert ((side_wire s, pr) = (w, pr)) as Heq by (f_equal; destruct Hw as [->| ->], s; done).
    rewrite Heq in Ec. by rewrite (ocmp_refl (K := Z * Z) (w, pr)) in Ec.
  - rewrite bool_decide_eq_false_2; [lia|]. intros [Es <-].
    assert ((side_wire s, pr) = (w, pr)) as Heq by (f_equal; destruct Hw as [->| ->], s; done).
    rewrite Heq in Ec. by rewrite (ocmp_refl (K := Z * Z) (w, pr)) in Ec.
Qed.

End depth.

Section expected_depth.
Implicit Types (m : list ((Z * Z) * Z)) (l : list (PrivateRestingInput * MpcSlotResult)).

Definition left_qty (rf : PrivateRestingInput * MpcSlotResult) : Z :=
  ri_quantity rf.1 - slot_trade_quantity rf.2.
Arguments left_qty : simpl never.

Definition left_over (rf : PrivateRestingInput * MpcSlotResult) : MpcPriceLevel :=
  mk_level (ri_side rf.1) (ri_price rf.1) (left_qty rf).

Definition level_bounded (p q : Z) : Prop := 0 < p ≤ u32_max ∧ 0 ≤ q.

Definition add_left_over m (rf : PrivateRestingInput * MpcSlotResult) : list ((Z * Z) * Z) :=
  if 0 <? left_qty rf then add_level m (ri_side rf.1) (ri_price rf.1) (left_qty rf) else m.

Lemma resting_levels_fold l : resting_levels l = foldl add_left_over [] l.
Proof.
  unfold resting_levels. generalize (@nil ((Z * Z) * Z)) as m.
  induction l as [|[r f] l IH]; intros m; simpl; [done|]. apply IH.
Qed.

Lemma add_level_prices m s p q :
  Forall (λ e : (Z * Z) * Z, 0 < e.1.2 ≤ u32_max) m → 0 < p ≤ u32_max →
  Forall (λ e : (Z * Z) * Z, 0 < e.1.2 ≤ u32_max) (add_level m s p q)
  ∧ (length (add_level m s p q) ≤ S (length m))%nat.
Proof.
  intros HF Hp. unfold add_level, bt_entry. split.
  - apply Forall_forall. intros e [->|Hin]%bt_insert_keys; simpl; [done|].
    rewrite Forall_forall in HF; auto.
  - generalize (wrapping_add (default 0 (bt_get (side_wire s, p) m)) q) as v.
    intros v. induction m as [|[k' v'] m IH]; simpl; [lia|].
    apply Forall_cons in HF as [_ HF]. destruct (ocmp _ _); simpl; try lia.
    specialize (IH HF). lia.
Qed.

(** The accumulator after folding a list of leftovers into [m]. *)
Lemma fold_left_over l m :
  levels_ok m → Forall (λ e : (Z * Z) * Z, 0 < e.1.2 ≤ u32_max) m →
  Forall (λ rf, level_bounded (ri_price rf.1) (left_qty rf)) l →
  (∀ s p, level_get m s p + sumZ (map left_qty l) ≤ u64_max) →
  let m' := foldl add_left_over m l in
  levels_ok m' ∧ Forall (λ e : (Z * Z) * Z, 0 < e.1.2 ≤ u32_max) m'
  ∧ (length m' ≤ length m + length l)%nat
  ∧ ∀ s p, level_get m' s p = level_get m s p + depth_at s p (map left_over l).
Proof.
  intros Hok Hpr Hl; revert m Hok Hpr.
  induction Hl as [|rf l Hrf Hl IH]; intros m Hok Hpr Hmax; simpl.
  { split_and!; [done..|lia|]. intros s p. unfold depth_at; simpl. lia. }
  destruct Hrf as [Hp Hq]; simpl in Hq, Hmax.
  assert (0 ≤ sumZ (map left_qty l)) as Hnn.
  { apply sumZ_nonneg, Forall_map. eapply Forall_impl; [done|]. by intros ? [_ ?]. }
  destruct (Z.ltb_spec 0 (left_qty rf)) as [Hpos|Hz].
  - set (m1 := add_level m (ri_side rf.1) (ri_price rf.1)
      (left_qty rf)).
    assert (add_left_over m rf = m1) as ->.
    { unfold add_left_over. by rewrite (proj2 (Z.ltb_lt _ _)). }
    assert (∀ s p, level_get m1 s p = level_get m s p +
      (if bool_decide (ri_side rf.1 = s ∧ ri_price rf.1 = p)
       then left_qty rf else 0)) as Hget.
    { intros s p. apply add_level_get; [done|by apply level_get_nonneg|].
      specialize (Hmax (ri_side rf.1) (ri_price rf.1)). lia. }
    destruct (add_level_prices m (ri_side rf.1) (ri_price rf.1)
      (left_qty rf) Hpr Hp) as [Hpr1 Hlen1].
    destruct (IH m1) as (H1 & H2 & H3 & H4).
    + apply add_level_ok; [done..|].
      specialize (Hmax (ri_side rf.1) (ri_price rf.1)). lia.
    + done.
    + intros s p. rewrite Hget. specialize (Hmax s p). case_bool_decide; lia.
    + fold m1 in Hlen1. split_and!; [done..|lia|]. intros s p.
      rewrite H4, Hget, depth_at_cons; simpl. lia.
  - assert (add_left_over m rf = m) as ->.
    { unfold add_left_over. by rewrite (proj2 (Z.ltb_ge _ _)). }
    destruct (IH m) as (H1 & H2 & H3 & H4); [done..| |].
    + intros s p. specialize (Hmax s p). lia.
    + split_and!; [done..|lia|]. intros s p. rewrite H4, depth_at_cons; simpl.
      case_bool_decide; lia.
Qed.

Lemma validate_levels_from_ok (prev : option (Z * Z)) (l : list MpcPriceLevel) :
  Forall (λ v, 0 < pl_price v ≤ u32_max ∧
    0 < pl_quantity v ≤ u32_max * (Z.of_nat MAX_MATCH_SLOTS + 1)) l →
  StronglySorted olt (map level_key l) →
  (∀ p, prev = Some p → Forall (olt p) (map level_key l)) →
  validate_levels_from prev l = Ok ().
Proof.
  intros Hl; revert prev; induction Hl as [|v l [Hp Hq] Hl IH]; intros prev Hs Hprev; [done|].
  cbn [validate_levels_from]. rewrite !(proj2 (Z.eqb_neq _ 0)) by lia.
  rewrite !(proj2 (Z.ltb_ge _ _)) by lia. cbn [orb]. inversion Hs as [|?? Hs' Hlb]; subst.
  assert (match prev with Some p => oleb (level_key v) p | None => false end = false) as ->.
  { destruct prev as [p|]; [|done]. specialize (Hprev p eq_refl).
    apply Forall_cons in Hprev as [Hlt _]. unfold oleb. by rewrite (proj2 (ocmp_Gt _ _)). }
  apply IH; [done|]. by intros p [= <-].
Qed.

Lemma level_key_of_entry_inj (a b : (Z * Z) * Z) :
  (a.1.1 = 0 ∨ a.1.1 = 1) → (b.1.1 = 0 ∨ b.1.1 = 1) →
  level_key (level_of_entry a) = level_key (level_of_entry b) → a.1 = b.1.
Proof.
  destruct a as [[s p] q], b as [[s' p'] q']; simpl.
  intros [->| ->] [->| ->]; unfold level_key; cbn; intros Heq; simplify_eq;
    f_equal; lia.
Qed.

(** Sorting the map entries by publication key gives strictly increasing keys. *)
Lemma sorted_levels_strict m :
  levels_ok m →
  StronglySorted olt (map level_key
    (sort_by (λ a b, oleb (level_key a) (level_key b)) (map level_of_entry m))).
Proof.
  intros [Hok HF].
  assert (NoDup (map level_key (map level_of_entry m))) as Hnd.
  { pose proof (bt_ok_NoDup m Hok) as Hk. clear Hok. unfold bt_keys in Hk.
    induction m as [|e m IH]; simpl; [constructor|].
    apply Forall_cons in HF as [[He _] HF]. inversion Hk as [|?? Hn Hk']; subst.
    constructor; [|auto]. rewrite map_map, list_elem_of_In, in_map_iff.
    intros (e' & Hkey & Hin%list_elem_of_In). rewrite Forall_forall in HF.
    apply Hn. rewrite list_elem_of_In. apply in_map_iff. exists e'.
    split; [|by apply list_elem_of_In]. apply level_key_of_entry_inj; [|done..].
    by destruct (HF _ Hin). }
  pose proof (sort_by_sorted (λ a b, oleb (level_key a) (level_key b))
    (λ _ _, oleb_total _ _) (λ _ _ _, oleb_trans _ _ _) (map level_of_entry m)) as Hs.
  pose proof (sort_by_perm (λ a b, oleb (level_key a) (level_key b)) (map level_of_entry m)) as Hp.
  set (k := sort_by _ _) in *. rewrite <-Hp in Hnd. clear Hp.
  induction Hs as [|v k Hk IH Hlb]; simpl; [constructor|].
  simpl in Hnd. inversion Hnd as [|?? Hn Hnd']; subst. constructor; [auto|].
  apply Forall_map. rewrite Forall_forall in *. intros w Hw.
  specialize (Hlb w Hw). simpl in Hlb. apply oleb_spec in Hlb as [|E]; [done|].
  destruct Hn. rewrite E. apply list_elem_of_In, in_map. by apply list_elem_of_In.
Qed.

(** Circuit-sized inputs: 32-bit prices and quantities, at most eight slots. *)
Definition batch_bounded (b : PrivateMatchBatch) : Prop :=
  (length (pb_resting b) ≤ MAX_MATCH_SLOTS)%nat
  ∧ Forall (λ r, 0 < ri_price r ≤ u32_max ∧ 0 ≤ ri_quantity r ≤ u32_max) (pb_resting b)
  ∧ 0 < pb_arriving_price b ≤ u32_max ∧ 0 ≤ pb_arriving_quantity b ≤ u32_max.

(** The level map of [expected_batch] before sorting. *)
Definition level_map (b : PrivateMatchBatch) : list ((Z * Z) * Z) :=
  let r := expected_batch b in
  let levels := resting_levels (zip (pb_resting b) (br_slots r)) in
  if 0 <? br_arriving_remaining r
  then add_level levels (pb_arriving_side b) (pb_arriving_price b) (br_arriving_remaining r)
  else levels.

Lemma expected_batch_levels b :
  br_public_levels (expected_batch b) =
    Some (sort_by (λ a b, oleb (level_key a) (level_key b)) (map level_of_entry (level_map b))).
Proof.
  unfold level_map, expected_batch. by destruct (match_slots _ _ _ _) as [slots rest].
Qed.

Lemma sumZ_le_bound (f : PrivateRestingInput * MpcSlotResult → Z) l c :
  Forall (λ x, 0 ≤ f x ≤ c) l → 0 ≤ sumZ (map f l) ≤ c * Z.of_nat (length l).
Proof. induction 1; cbn [map sumZ length foldr]; unfold sumZ in *; lia. Qed.

Lemma level_map_spec b :
  batch_bounded b →
  levels_ok (level_map b)
  ∧ Forall (λ e : (Z * Z) * Z, 0 < e.1.2 ≤ u32_max) (level_map b)
  ∧ (length (level_map b) ≤ MAX_MATCH_SLOTS + 1)%nat
  ∧ ∀ s p, level_get (level_map b) s p = depth_at s p (remainders b)
      ∧ depth_at s p (remainders b) ≤ u32_max * (Z.of_nat MAX_MATCH_SLOTS + 1).
Proof.
  intros (Hlen & Hl & Hp & Hq).
  assert (Forall (λ r, 0 ≤ ri_quantity r) (pb_resting b)) as Hl0.
  { eapply Forall_impl; [done|]. simpl; lia. }
  destruct (expected_batch_balanced b ltac:(lia) Hl0) as (Ht & Hrem & HF). simpl in *.
  unfold level_map, remainders. set (rs := zip _ _). set (rem := br_arriving_remaining _) in *.
  assert (Forall (λ rf, level_bounded (ri_price rf.1) (left_qty rf)
      ∧ 0 ≤ left_qty rf ≤ u32_max) rs) as Hrs.
  { apply Forall_forall. intros [r f] Hin. apply elem_of_lookup_zip_with in Hin
      as (i & r' & f' & [= <- <-] & Hr & Hf).
    rewrite Forall_lookup in Hl. specialize (Hl _ _ Hr).
    destruct (Forall2_lookup_lr _ _ _ _ _ _ HF Hr Hf) as (Hf' & _).
    unfold level_bounded, left_qty; simpl. lia. }
  apply Forall_and in Hrs as [Hrs1 Hrs2].
  apply sumZ_le_bound in Hrs2. assert (length rs ≤ 8)%nat as Hrl.
  { unfold rs. rewrite length_zip_with. unfold MAX_MATCH_SLOTS in Hlen. lia. }
  destruct (fold_left_over rs []) as (Hok & Hpr & Hcount & Hget).
  { split; constructor. } { constructor. } { done. }
  { intros s p. unfold level_get; simpl. unfold u32_max, u64_max in *. lia. }
  rewrite <-resting_levels_fold in *.
  assert (map (λ '(o, s), mk_level (ri_side o) (ri_price o)
    (ri_quantity o - slot_trade_quantity s)) rs = map left_over rs) as ->.
  { apply map_ext. by intros []. }
  assert (0 ≤ rem ≤ u32_max) as Hrem'.
  { rewrite Hrem. destruct (pb_arriving_can_rest b); unfold u32_max in *; lia. }
  assert (∀ s p, 0 ≤ depth_at s p (map left_over rs) ≤ u32_max * 8) as Hd.
  { intros s p. assert (Forall (λ v, 0 ≤ pl_quantity v) (map left_over rs)) as Hnn.
    { apply Forall_map. eapply Forall_impl; [apply Hrs1|]. by intros ? [_ ?]. }
    split; [by apply depth_at_nonneg|]. etrans; [by apply depth_at_le|].
    rewrite map_map. etrans; [apply Hrs2|]. unfold u32_max in *. lia. }
  simpl in Hcount. unfold MAX_MATCH_SLOTS. change (Z.of_nat 8 + 1) with 9.
  destruct (Z.ltb_spec 0 rem) as [Hpos|Hz].
  - destruct (add_level_prices (resting_levels rs) (pb_arriving_side b) (pb_arriving_price b)
      rem Hpr Hp) as [Hpr' Hlen'].
    split_and!; [|done|lia|].
    + apply add_level_ok; [done..|]. rewrite Hget. unfold level_get at 1; simpl.
      specialize (Hd (pb_arriving_side b) (pb_arriving_price b)).
      unfold u32_max, u64_max in *. lia.
    + intros s p. rewrite depth_at_app, depth_at_cons; simpl.
      rewrite add_level_get; [|done|by apply level_get_nonneg|].
      * rewrite Hget. unfold level_get at 1, depth_at at 3; simpl.
        specialize (Hd s p). split; [lia|]. unfold depth_at at 2; simpl.
        case_bool_decide; unfold u32_max in *; lia.
      * rewrite Hget. unfold level_get at 1; simpl.
        specialize (Hd (pb_arriving_side b) (pb_arriving_price b)).
        unfold u32_max, u64_max in *. lia.
  - assert (rem = 0) as -> by lia. split_and!; [done..|lia|]. intros s p.
    rewrite depth_at_app, depth_at_cons; simpl. rewrite Hget.
    unfold level_get at 1; simpl. specialize (Hd s p).
    replace (depth_at s p []) with 0 by done.
    case_bool_decide; unfold u32_max in *; lia.
Qed.

(** The published levels: strictly ordered, within bounds, and exact. *)
Lemma public_levels_spec b :
  batch_bounded b →
  ∃ levels, br_public_levels (expected_batch b) = Some levels
    ∧ StronglySorted olt (map level_key levels)
    ∧ Forall (λ v, 0 < pl_price v ≤ u32_max ∧
        0 < pl_quantity v ≤ u32_max * (Z.of_nat MAX_MATCH_SLOTS + 1)) levels
    ∧ (length levels ≤ MAX_MATCH_SLOTS + 1)%nat
    ∧ ∀ s p, depth_at s p levels = depth_at s p (remainders b).
Proof.
  intros Hb. destruct (level_map_spec b Hb) as (Hok & Hpr & Hlen & Hget).
  eexists; split; [apply expected_batch_levels|]. set (levels := sort_by _ _).
  assert (levels ≡ₚ map level_of_entry (level_map b)) as Hperm by apply sort_by_perm.
  split_and!; [by apply sorted_levels_strict| |by rewrite Hperm, length_map|].
  - rewrite Hperm. apply Forall_map, Forall_forall. intros [[w p] q] Hin; simpl.
    destruct Hok as [Hbt HF]. rewrite Forall_forall in HF, Hpr.
    destruct (HF _ Hin) as [Hw Hq]; simpl in *. specialize (Hpr _ Hin); simpl in Hpr.
    split; [done|]. split; [done|].
    assert (∃ s, side_wire s = w) as [s <-] by (destruct Hw as [->| ->]; [by exists Buy|by exists Sell]).
    destruct (Hget s p) as [Hg Hle]. unfold level_get in Hg.
    rewrite (bt_elem_get _ _ _ Hbt Hin) in Hg. simpl in Hg. lia.
  - intros s p. rewrite Hperm, depth_at_levels by done. apply Hget.
Qed.

(** C35: The public depth of a match is exact and canonical: it passes
    [validate_public_levels], and at every side and price it shows precisely
    the quantity the batch leaves behind there. *)
Theorem expected_depth_canonical b :
  batch_bounded b →
  ∃ levels, br_public_levels (expected_batch b) = Some levels
    ∧ validate_public_levels levels = Ok ()
    ∧ ∀ s p, depth_at s p levels = depth_at s p (remainders b).
Proof.
  intros Hb. destruct (public_levels_spec b Hb) as (levels & Hl & Hs & HF & Hlen & Hd).
  exists levels. split_and!; [done| |done]. unfold validate_public_levels.
  rewrite (proj2 (Nat.ltb_ge _ _)) by done. by apply validate_levels_from_ok.
Qed.

End expected_depth.
