(* ===== verification/Circuit.v ===== *)
(** * The oblivious matching circuit

    [matching_program_parts] of [oclob-mpc/src/lib.rs] emits a straight-line
    program over secret integers: eight resting slots and one arriving order,
    each slot finding by a secret prefix sum how much of the arriving order
    reaches it, then the aggregate depth of what remains.  The public part of
    the program is evaluated here over the integers (the declared inputs have
    at most 32 bits, all intermediate values stay below the 64-bit length the
    program sets, far below the 253-bit field), and proved equal to the
    canonical [expected_batch].  The sorting network of the upstream compiler
    is a parameter with the law that it sorts. *)

From S2P Require Import Prelude BTree Bytes AppCrypto Orders Matching.
Open Scope list_scope.
Open Scope Z_scope.

Definition b2z (b : bool) : Z := if b then 1 else 0.

(** [c.if_else(a, b)] on a secret bit. *)
Definition if_else (c a b : Z) : Z := c * (a - b) + b.

(** The public-path input wires of one resting slot. *)
Record wire := mk_wire { w_active : Z; w_side : Z; w_price : Z; w_quantity : Z }.

Definition empty_wire : wire := mk_wire 0 0 0 0.

Definition wire_of (r : PrivateRestingInput) : wire :=
  mk_wire 1 (side_wire (ri_side r)) (ri_price r) (ri_quantity r).

(** The eight slots: the batch, then inactive padding. *)
Definition slot_wires (batch : PrivateMatchBatch) : list wire :=
  map wire_of (pb_resting batch)
  ++ replicate (MAX_MATCH_SLOTS - length (pb_resting batch)) empty_wire.

Section circuit.
Context (arriving_side arriving_price arriving_quantity : Z).

(** [arriving_side.if_else(p >= arriving_price, arriving_price >= p)]. *)
Definition price_cross (p : Z) : Z :=
  if_else arriving_side (b2z (arriving_price <=? p)) (b2z (p <=? arriving_price)).

Definition eligible (w : wire) : Z :=
  w_active w * b2z (negb (w_side w =? arriving_side)) * price_cross (w_price w)
  * b2z (0 <? w_quantity w).

(** [better_{slot}_{other}]: a better price, or an equal price in an earlier slot. *)
Definition better (slot other : nat) (ws wo : wire) : Z :=
  if_else arriving_side (b2z (w_price ws <? w_price wo)) (b2z (w_price wo <? w_price ws))
  + b2z (w_price wo =? w_price ws) * b2z (Nat.ltb other slot).

Definition higher_quantity (slot : nat) (ws : wire) (slots : list wire) : Z :=
  sumZ (imap (λ other wo, if Nat.eqb other slot then 0
    else eligible wo * better slot other ws wo * w_quantity wo) slots).

Definition available (slot : nat) (w : wire) (slots : list wire) : Z :=
  if_else (b2z (higher_quantity slot w slots <? arriving_quantity))
    (arriving_quantity - higher_quantity slot w slots) 0.

Record slot_wiring := mk_slot_wiring {
  sw_matched : Z;
  sw_trade_price : Z;
  sw_trade_quantity : Z;
  sw_resting_remaining : Z;
  sw_active_next : Z
}.

Definition slot_circuit (slots : list wire) (slot : nat) (w : wire) : slot_wiring :=
  let opposite := b2z (negb (w_side w =? arriving_side)) in
  let positive := b2z (0 <? w_quantity w) * b2z (0 <? available slot w slots) in
  let matched := w_active w * opposite * price_cross (w_price w) * positive in
  let minimum := if_else (b2z (w_quantity w <=? available slot w slots))
    (w_quantity w) (available slot w slots) in
  let trade_quantity := matched * minimum in
  let resting_remaining := w_quantity w - trade_quantity in
  {| sw_matched := matched;
     sw_trade_price := matched * w_price w;
     sw_trade_quantity := trade_quantity;
     sw_resting_remaining := resting_remaining;
     sw_active_next := w_active w * b2z (0 <? resting_remaining) |}.

Definition circuit_slots (slots : list wire) : list slot_wiring := imap (slot_circuit slots) slots.

Definition published_remaining (arriving_can_rest : Z) (slots : list wire) : Z :=
  (arriving_quantity - sumZ (map sw_trade_quantity (circuit_slots slots))) * arriving_can_rest.

(** One row of [private_book_wires], the fields the depth computation reads:
    active, side, price, quantity. *)
Definition book_rows (arriving_can_rest : Z) (slots : list wire) : list wire :=
  zip_with (λ w s, mk_wire (sw_active_next s) (w_side w) (w_price w) (sw_resting_remaining s))
    slots (circuit_slots slots)
  ++ [mk_wire (arriving_can_rest * b2z (0 <? published_remaining arriving_can_rest slots))
        arriving_side arriving_price (published_remaining arriving_can_rest slots)].

End circuit.

(** ** Aggregate depth *)

Definition depth_active (r : wire) : Z := w_active r * b2z (0 <? w_quantity r).

(** [depth_same_{i}_{j}]. *)
Definition depth_same (ri rj : wire) : Z :=
  depth_active rj * b2z (w_side ri =? w_side rj) * b2z (w_price ri =? w_price rj).

Definition depth_quantity (rows : list wire) (r : wire) : Z :=
  sumZ (map (λ rj, depth_same r rj * w_quantity rj) rows).

(** [depth_first_i]: active and no earlier active row at the same level. *)
Definition depth_first (before : list wire) (r : wire) : Z :=
  foldl (λ acc rj, acc * (1 - depth_same r rj)) (depth_active r) before.

(** A row of the sorted matrix: key, side, price, quantity. *)
Record depth_row := mk_row { dr_key : Z; dr_side : Z; dr_price : Z; dr_quantity : Z }.

Definition depth_entry (rows : list wire) (i : nat) (r : wire) : depth_row :=
  let first := depth_first (take i rows) r in
  let side := first * w_side r in
  let price := first * w_price r in
  let quantity := first * depth_quantity rows r in
  mk_row ((1 - first) * 2 ^ 34 + side * 2 ^ 33 + if_else side price (2 ^ 32 - 1 - price))
    side price quantity.

Definition padding_row : depth_row := mk_row (2 ^ 34 + 2 ^ 32 - 1) 0 0 0.

(** The 16-row matrix handed to the sorting network. *)
Definition depth_matrix (rows : list wire) : list depth_row :=
  imap (depth_entry rows) rows ++ replicate (16 - length rows) padding_row.

(** The public output: eight slots, the remainder and nine depth rows. *)
Record circuit_output := mk_output {
  co_slots : list slot_wiring;
  co_remaining : Z;
  co_levels : list depth_row
}.

Definition run_circuit (sort : list depth_row → list depth_row) (batch : PrivateMatchBatch) :
    circuit_output :=
  let side := side_wire (pb_arriving_side batch) in
  let price := pb_arriving_price batch in
  let quantity := pb_arriving_quantity batch in
  let can_rest := b2z (pb_arriving_can_rest batch) in
  let slots := slot_wires batch in
  {| co_slots := circuit_slots side price quantity slots;
     co_remaining := published_remaining side price quantity can_rest slots;
     co_levels := take (MAX_MATCH_SLOTS + 1)
       (sort (depth_matrix (book_rows side price quantity can_rest slots))) |}.

(** The upstream network [loopy_odd_even_merge_sort]: a sorted permutation. *)
Definition sorting_network (sort : list depth_row → list depth_row) : Prop :=
  ∀ l, sort l ≡ₚ l ∧ StronglySorted (λ a b, dr_key a ≤ dr_key b) (sort l).

Arguments b2z : simpl never.
Arguments if_else : simpl never.

(** ** The slots *)

Lemma b2z_if b : b2z b = if b then 1 else 0.
Proof. done. Qed.

Lemma price_cross_spec side limit p :
  price_cross (side_wire side) limit p = b2z (price_crosses side limit p).
Proof. unfold price_cross, if_else, price_crosses. destruct side; simpl; unfold b2z; lia. Qed.

Lemma side_neq_spec s t : b2z (negb (side_wire s =? side_wire t)) = b2z (negb (bool_decide (s = t))).
Proof. by destruct s, t. Qed.

(** Quantity an order offers to the arriving side. *)
Definition offer (side : Side) (limit : Z) (r : PrivateRestingInput) : Z :=
  if negb (bool_decide (ri_side r = side)) && price_crosses side limit (ri_price r)
     && (0 <? ri_quantity r)
  then ri_quantity r else 0.

Lemma eligible_spec side limit r :
  0 ≤ ri_quantity r →
  eligible (side_wire side) limit (wire_of r) * ri_quantity r = offer side limit r
  ∧ (eligible (side_wire side) limit (wire_of r) = 0 ∨ eligible (side_wire side) limit (wire_of r) = 1).
Proof.
  intros Hq. unfold eligible, offer; simpl. rewrite side_neq_spec, price_cross_spec. unfold b2z.
  destruct (negb _), (price_crosses _ _ _), (Z.ltb_spec 0 (ri_quantity r)); simpl; split; auto; lia.
Qed.

Lemma eligible_empty side limit : eligible side limit empty_wire = 0.
Proof. unfold eligible; simpl. lia. Qed.

(** Between two slots in price-time order, the earlier one is better. *)
Lemma better_earlier side i j ri rj :
  at_least_as_good side (ri_price rj) (ri_price ri) → (j < i)%nat →
  better (side_wire side) i j (wire_of ri) (wire_of rj) = 1.
Proof.
  intros Hg Hji. unfold better, if_else, b2z; simpl. rewrite (proj2 (Nat.ltb_lt j i) Hji).
  destruct side; simpl in *; destruct (Z.ltb_spec (ri_price ri) (ri_price rj)),
    (Z.ltb_spec (ri_price rj) (ri_price ri)), (Z.eqb_spec (ri_price rj) (ri_price ri)); lia.
Qed.

Lemma better_later side i j ri rj :
  at_least_as_good side (ri_price ri) (ri_price rj) → (i < j)%nat →
  better (side_wire side) i j (wire_of ri) (wire_of rj) = 0.
Proof.
  intros Hg Hji. unfold better, if_else, b2z; simpl. rewrite (proj2 (Nat.ltb_ge j i)) by lia.
  destruct side; simpl in *; destruct (Z.ltb_spec (ri_price ri) (ri_price rj)),
    (Z.ltb_spec (ri_price rj) (ri_price ri)), (Z.eqb_spec (ri_price rj) (ri_price ri)); lia.
Qed.

Lemma sumZ_imap_zero {A} (f : nat → A → Z) l :
  (∀ i a, l !! i = Some a → f i a = 0) → sumZ (imap f l) = 0.
Proof.
  revert f; induction l as [|a l IH]; intros f Hf; simpl; [done|].
  rewrite (Hf 0%nat a), (IH (f ∘ S)) by (intros; (done || by apply Hf)). done.
Qed.

Lemma sumZ_imap_map {A} (f : nat → A → Z) (g : A → Z) l :
  (∀ i a, l !! i = Some a → f i a = g a) → sumZ (imap f l) = sumZ (map g l).
Proof.
  revert f; induction l as [|a l IH]; intros f Hf; simpl; [done|].
  rewrite (Hf 0%nat a), (IH (f ∘ S)) by (intros; (done || by apply Hf)). done.
Qed.

Section slots.
Context (side : Side) (limit quantity : Z) (l : list PrivateRestingInput) (k : nat).
Hypothesis Hquantity : 0 ≤ quantity.
Hypothesis Hnonneg : Forall (λ r, 0 ≤ ri_quantity r) l.
Hypothesis Hsorted : price_sorted side l.

Let slots : list wire := map wire_of l ++ replicate k empty_wire.

(** The secret prefix sum of a slot is what the orders ahead of it offer. *)
Lemma higher_split pre r post :
  l = pre ++ r :: post →
  higher_quantity (side_wire side) limit (length pre) (wire_of r) slots =
    sumZ (map (offer side limit) pre).
Proof.
  intros Hl. assert (∀ i x, l !! i = Some x → 0 ≤ ri_quantity x) as Hq.
  { intros i x Hx. by eapply Forall_lookup_1 in Hnonneg. }
  assert (∀ i j x y, (i < j)%nat → l !! i = Some x → l !! j = Some y →
    at_least_as_good side (ri_price x) (ri_price y)) as Hs.
  { intros i j x y Hij Hx Hy.
    by apply (StronglySorted_lookup_lt _ _ i j x y Hsorted Hij Hx Hy). }
  assert (l !! length pre = Some r) as Hr by (rewrite Hl; by apply list_lookup_middle).
  unfold higher_quantity, slots. rewrite imap_app, sumZ_app.
  rewrite (sumZ_imap_zero _ (replicate k empty_wire)).
  2:{ intros i w [-> _]%lookup_replicate. rewrite eligible_empty. by destruct (Nat.eqb _ _). }
  rewrite Z.add_0_r, Hl, map_app, imap_app, sumZ_app. simpl map. simpl imap. simpl sumZ.
  rewrite length_map, Nat.add_0_r, Nat.eqb_refl.
  rewrite (sumZ_imap_zero _ (map wire_of post)).
  - rewrite !Z.add_0_r.
    rewrite (sumZ_imap_map _ (λ w, eligible (side_wire side) limit w * w_quantity w)).
    + rewrite map_map. f_equal. apply map_ext_in. intros x Hx%list_elem_of_In.
      apply list_elem_of_lookup in Hx as [i Hi]. simpl. apply eligible_spec.
      eapply Hq. rewrite Hl. by apply lookup_app_l_Some.
    + intros i w Hw. rewrite list_lookup_fmap in Hw. apply fmap_Some in Hw as (x & Hx & ->).
      pose proof (lookup_lt_Some _ _ _ Hx). rewrite (proj2 (Nat.eqb_neq _ _)) by lia.
      rewrite better_earlier; [lia| |lia].
      apply (Hs i (length pre)); [lia| |done]. rewrite Hl. by apply lookup_app_l_Some.
  - intros i w Hw. simpl. rewrite list_lookup_fmap in Hw. apply fmap_Some in Hw as (x & Hx & ->).
    rewrite (proj2 (Nat.eqb_neq _ _)) by lia. rewrite better_later; [lia| |lia].
    apply (Hs (length pre) (length pre + S i)%nat); [lia|done|].
    rewrite Hl, lookup_app_r by lia. by replace (length pre + S i - length pre)%nat with (S i) by lia.
Qed.

(** The wires of one slot in terms of the canonical slot. *)
Definition wiring (r : PrivateRestingInput) (s : MpcSlotResult) : slot_wiring :=
  let left := ri_quantity r - slot_trade_quantity s in
  mk_slot_wiring (b2z (slot_matched s)) (slot_trade_price s) (slot_trade_quantity s)
    left (b2z (0 <? left)).

Definition crossing (rem : Z) (r : PrivateRestingInput) : bool :=
  negb (bool_decide (ri_side r = side)) && price_crosses side limit (ri_price r)
  && (0 <? rem) && (0 <? ri_quantity r).

Lemma slot_circuit_spec pre r post :
  l = pre ++ r :: post →
  let rem := Z.max 0 (quantity - sumZ (map (offer side limit) pre)) in
  let crossed := crossing rem r in
  slot_circuit (side_wire side) limit quantity slots (length pre) (wire_of r) =
    wiring r (mk_slot crossed (if crossed then ri_price r else 0)
      (if crossed then Z.min rem (ri_quantity r) else 0)).
Proof.
  intros Hl rem crossed.
  assert (available (side_wire side) limit quantity (length pre) (wire_of r) slots = rem) as Hav.
  { unfold available, if_else. rewrite (higher_split pre r post Hl). unfold b2z, rem.
    destruct (Z.ltb_spec (sumZ (map (offer side limit) pre)) quantity); lia. }
  unfold slot_circuit. rewrite Hav, price_cross_spec. simpl. rewrite side_neq_spec.
  assert (0 ≤ ri_quantity r) as Hq.
  { rewrite Hl in Hnonneg. by apply Forall_app in Hnonneg as [_ [? _]%Forall_cons]. }
  assert (0 ≤ rem) as Hrem by (unfold rem; lia). clearbody rem.
  assert (1 * b2z (negb (bool_decide (ri_side r = side))) * b2z (price_crosses side limit (ri_price r))
    * (b2z (0 <? ri_quantity r) * b2z (0 <? rem)) = b2z crossed) as ->.
  { unfold crossed, crossing, b2z. by destruct (negb _), (price_crosses _ _ _), (0 <? rem), (0 <? ri_quantity r). }
  assert (if_else (b2z (ri_quantity r <=? rem)) (ri_quantity r) rem = Z.min rem (ri_quantity r)) as ->.
  { unfold if_else, b2z. destruct (Z.leb_spec (ri_quantity r) rem); lia. }
  unfold wiring; simpl. destruct crossed; unfold b2z; f_equal; try lia;
    by rewrite ?Z.mul_1_l, ?Z.mul_0_l.
Qed.

Lemma rem_step rem r :
  0 ≤ ri_quantity r →
  Z.max 0 rem - (if crossing (Z.max 0 rem) r then Z.min (Z.max 0 rem) (ri_quantity r) else 0)
  = Z.max 0 (rem - offer side limit r).
Proof.
  intros Hq. unfold crossing, offer. destruct (negb _), (price_crosses _ _ _); simpl;
    try (rewrite ?andb_false_r; lia).
  destruct (Z.ltb_spec 0 (Z.max 0 rem)), (Z.ltb_spec 0 (ri_quantity r)); simpl; lia.
Qed.

Lemma circuit_slots_from pre post :
  l = pre ++ post →
  imap (λ n, slot_circuit (side_wire side) limit quantity slots (length pre + n)) (map wire_of post) =
    zip_with wiring post
      (match_slots side limit (Z.max 0 (quantity - sumZ (map (offer side limit) pre))) post).1.
Proof.
  revert pre; induction post as [|r post IH]; intros pre Hl; [done|].
  simpl. rewrite Nat.add_0_r, (slot_circuit_spec pre r post Hl). unfold crossing at 1 2 3.
  assert (0 ≤ ri_quantity r) as Hq.
  { rewrite Hl in Hnonneg. by apply Forall_app in Hnonneg as [_ [? _]%Forall_cons]. }
  specialize (IH (pre ++ [r])). rewrite <-app_assoc in IH. specialize (IH Hl).
  rewrite map_app, sumZ_app, length_app in IH; simpl in IH.
  set (rem := quantity - sumZ (map (offer side limit) pre)) in *.
  replace (quantity - (sumZ (map (offer side limit) pre) + (offer side limit r + 0)))
    with (rem - offer side limit r) in IH by lia.
  pose proof (rem_step rem r Hq) as Hstep. unfold crossing in Hstep. rewrite Hstep.
  destruct (match_slots _ _ _ post) as [ss rest]. simpl. f_equal.
  simpl in IH. rewrite <-IH. apply imap_ext. intros i x _. simpl. f_equal. lia.
Qed.

Lemma slot_circuit_empty i :
  slot_circuit (side_wire side) limit quantity slots i empty_wire = mk_slot_wiring 0 0 0 0 0.
Proof. unfold slot_circuit; simpl. unfold b2z. simpl. f_equal; lia. Qed.

Lemma circuit_slots_spec :
  circuit_slots (side_wire side) limit quantity slots =
    zip_with wiring l (match_slots side limit quantity l).1
    ++ replicate k (mk_slot_wiring 0 0 0 0 0).
Proof.
  unfold circuit_slots. unfold slots at 2. rewrite imap_app. f_equal.
  - pose proof (circuit_slots_from [] l eq_refl) as H0. simpl in H0.
    rewrite Z.sub_0_r, Z.max_r in H0 by lia. exact H0.
  - apply list_eq. intros i. rewrite list_lookup_imap.
    destruct (decide (i < k)%nat).
    + rewrite !lookup_replicate_2 by done. simpl. by rewrite slot_circuit_empty.
    + by rewrite !lookup_ge_None_2 by (rewrite length_replicate; lia).
Qed.

End slots.

(** ** The depth rows *)

Definition row_of (v : MpcPriceLevel) : wire :=
  mk_wire (b2z (0 <? pl_quantity v)) (side_wire (pl_side v)) (pl_price v) (pl_quantity v).

(** A published level as a row of the sorted matrix. *)
Definition level_row (v : MpcPriceLevel) : depth_row :=
  let side := side_wire (pl_side v) in
  mk_row (side * 2 ^ 33 + if_else side (pl_price v) (2 ^ 32 - 1 - pl_price v))
    side (pl_price v) (pl_quantity v).

(** [v] is the first positive entry of its level. *)
Definition is_first (before : list MpcPriceLevel) (v : MpcPriceLevel) : bool :=
  (0 <? pl_quantity v) && (depth_at (pl_side v) (pl_price v) before =? 0).

Definition aggregate (all : list MpcPriceLevel) (v : MpcPriceLevel) : MpcPriceLevel :=
  mk_level (pl_side v) (pl_price v) (depth_at (pl_side v) (pl_price v) all).

(** The distinct levels in order of first appearance, with their totals. *)
Fixpoint distinct (all before rest : list MpcPriceLevel) : list MpcPriceLevel :=
  match rest with
  | [] => []
  | v :: rest =>
      if is_first before v then aggregate all v :: distinct all (before ++ [v]) rest
      else distinct all (before ++ [v]) rest
  end.

Lemma depth_active_row v : depth_active (row_of v) = b2z (0 <? pl_quantity v).
Proof. unfold depth_active; simpl. by destruct (0 <? pl_quantity v). Qed.

Lemma depth_same_row v u :
  depth_same (row_of v) (row_of u) =
    b2z ((0 <? pl_quantity u) && bool_decide (pl_side u = pl_side v ∧ pl_price u = pl_price v)).
Proof.
  unfold depth_same. rewrite depth_active_row; simpl.
  destruct (Z.eqb_spec (side_wire (pl_side v)) (side_wire (pl_side u))) as [Hs|Hs],
    (Z.eqb_spec (pl_price v) (pl_price u)) as [Hp|Hp];
    [rewrite bool_decide_eq_true_2|rewrite bool_decide_eq_false_2..];
    try (destruct (0 <? pl_quantity u); reflexivity); try (intros [? ?]; congruence).
  split; [by apply side_wire_inj|done].
Qed.

Lemma depth_quantity_row all v :
  Forall (λ u, 0 ≤ pl_quantity u) all →
  depth_quantity (map row_of all) (row_of v) = depth_at (pl_side v) (pl_price v) all.
Proof.
  unfold depth_quantity. induction 1 as [|u all Hu HF IH]; [done|].
  cbn [map sumZ foldr]. rewrite depth_same_row, depth_at_cons. unfold sumZ in IH. rewrite IH.
  cbn [row_of w_quantity]. unfold b2z.
  destruct (Z.ltb_spec 0 (pl_quantity u)), (bool_decide _); simpl; lia.
Qed.

Lemma depth_first_row before v :
  Forall (λ u, 0 ≤ pl_quantity u) before →
  depth_first (map row_of before) (row_of v) = b2z (is_first before v).
Proof.
  intros HF. unfold depth_first. rewrite depth_active_row. unfold is_first.
  enough (∀ acc, foldl (λ acc rj, acc * (1 - depth_same (row_of v) rj)) acc (map row_of before)
    = acc * b2z (depth_at (pl_side v) (pl_price v) before =? 0)) as ->.
  { unfold b2z. destruct (0 <? pl_quantity v), (_ =? 0); done. }
  induction HF as [|u before Hu HF IH]; intros acc; simpl.
  { unfold depth_at, b2z; simpl. lia. }
  rewrite IH, depth_same_row, depth_at_cons.
  pose proof (depth_at_nonneg (pl_side v) (pl_price v) before HF).
  unfold b2z. destruct (bool_decide _); simpl.
  - rewrite andb_true_r. destruct (Z.ltb_spec 0 (pl_quantity u)),
      (Z.eqb_spec (depth_at (pl_side v) (pl_price v) before) 0),
      (Z.eqb_spec (pl_quantity u + depth_at (pl_side v) (pl_price v) before) 0); lia.
  - rewrite andb_false_r, Z.add_0_l. destruct (depth_at (pl_side v) (pl_price v) before =? 0); lia.
Qed.

Lemma depth_entry_row all i v :
  Forall (λ u, 0 ≤ pl_quantity u) all → all !! i = Some v →
  depth_entry (map row_of all) i (row_of v) =
    if is_first (take i all) v then level_row (aggregate all v) else padding_row.
Proof.
  intros HF Hi. unfold depth_entry. rewrite firstn_map, depth_quantity_row by done.
  rewrite depth_first_row by by apply Forall_take.
  unfold level_row, aggregate, padding_row; simpl.
  destruct (is_first _ _); unfold b2z; [|reflexivity].
  f_equal; [|lia..]. rewrite !Z.mul_1_l. lia.
Qed.

(** The matrix is the distinct levels and padding, up to order. *)
Lemma depth_rows_perm before rest :
  let all := before ++ rest in
  Forall (λ u, 0 ≤ pl_quantity u) all →
  (length (distinct all before rest) ≤ length rest)%nat
  ∧ imap (λ i, depth_entry (map row_of all) (length before + i)) (map row_of rest)
    ≡ₚ map level_row (distinct all before rest)
       ++ replicate (length rest - length (distinct all before rest)) padding_row.
Proof.
  intros all HF. revert before all HF. induction rest as [|v rest IH]; intros before all HF; [done|].
  specialize (IH (before ++ [v])). rewrite <-app_assoc in IH. simpl in IH.
  destruct (IH HF) as [Hlen Hp]. clear IH. fold all in Hlen, Hp.
  simpl. rewrite Nat.add_0_r, depth_entry_row; [|done|by apply list_lookup_middle].
  assert (take (length before) all = before) as -> by apply take_app_length.
  assert (imap ((λ i, depth_entry (map row_of all) (length before + i)) ∘ S) (map row_of rest)
    ≡ₚ map level_row (distinct all (before ++ [v]) rest)
       ++ replicate (length rest - length (distinct all (before ++ [v]) rest)) padding_row) as ->.
  { rewrite <-Hp. erewrite imap_ext; [done|]. intros i x _. simpl.
    rewrite length_app; simpl. f_equal. lia. }
  destruct (is_first before v); simpl; [split; [lia|done]|].
  split; [lia|]. rewrite Nat.sub_succ_l by done. simpl. by rewrite Permutation_middle.
Qed.

(** Membership: a level is listed once, with its total, when it is positive. *)
Lemma elem_of_distinct all before rest u :
  Forall (λ u, 0 ≤ pl_quantity u) (before ++ rest) →
  u ∈ distinct all before rest ↔
    pl_quantity u = depth_at (pl_side u) (pl_price u) all
    ∧ depth_at (pl_side u) (pl_price u) before = 0
    ∧ 0 < depth_at (pl_side u) (pl_price u) rest.
Proof.
  revert before; induction rest as [|v rest IH]; intros before HF.
  { simpl. unfold depth_at at 3; simpl. rewrite elem_of_nil. lia. }
  specialize (IH (before ++ [v])). rewrite <-app_assoc in IH. specialize (IH HF).
  apply Forall_app in HF as [HF1 [Hv HF2]%Forall_cons].
  pose proof (depth_at_nonneg (pl_side u) (pl_price u) rest HF2) as Hr.
  rewrite depth_at_app, depth_at_cons in IH. rewrite depth_at_cons.
  assert (depth_at (pl_side u) (pl_price u) [] = 0) as Hnil by done. rewrite Hnil in IH.
  simpl. unfold is_first.
  assert (pl_side v = pl_side u ∧ pl_price v = pl_price u →
    depth_at (pl_side v) (pl_price v) before = depth_at (pl_side u) (pl_price u) before) as Heq.
  { by intros [-> ->]. }
  pose proof (depth_at_nonneg (pl_side u) (pl_price u) before HF1) as Hb.
  destruct (Z.ltb_spec 0 (pl_quantity v)) as [Hpos|Hz]; cbn [andb].
  - destruct (Z.eqb_spec (depth_at (pl_side v) (pl_price v) before) 0) as [E|E].
    + rewrite elem_of_cons, IH. case_bool_decide as Hs.
      * rewrite (Heq Hs) in E. destruct Hs as [Hs1 Hs2].
        assert (u = aggregate all v ↔ pl_quantity u = depth_at (pl_side u) (pl_price u) all) as ->.
        { unfold aggregate. rewrite Hs1, Hs2. destruct u; simpl. split; [by intros [= Hq]|by intros <-]. }
        split; [intros [Hu|Hu]; (split_and!; [apply Hu|lia..])|]. intros (Hq & _ & _). by left.
      * split; [|lia]. intros [->|?]; [|lia]. by destruct Hs.
    + rewrite IH. case_bool_decide as Hs; [rewrite (Heq Hs) in E|]; lia.
  - rewrite IH. case_bool_decide; lia.
Qed.

Lemma distinct_NoDup all before rest :
  Forall (λ u, 0 ≤ pl_quantity u) (before ++ rest) → NoDup (distinct all before rest).
Proof.
  revert before; induction rest as [|v rest IH]; intros before HF; [constructor|].
  specialize (IH (before ++ [v])). rewrite <-app_assoc in IH. specialize (IH HF).
  simpl. destruct (is_first before v) eqn:E; [|done]. constructor; [|done].
  rewrite elem_of_distinct by by rewrite <-app_assoc. simpl. rewrite depth_at_app, depth_at_cons.
  rewrite bool_decide_eq_true_2 by done. unfold is_first in E. bool_hyps.
  assert (depth_at (pl_side v) (pl_price v) [] = 0) by done.
  apply Forall_app in HF as [HF _]. pose proof (depth_at_nonneg (pl_side v) (pl_price v) before HF). lia.
Qed.

(** ** The circuit computes the canonical result *)

Definition slot_public (s : slot_wiring) : Z * Z * Z :=
  (sw_matched s, sw_trade_price s, sw_trade_quantity s).
Definition slot_expected (s : MpcSlotResult) : Z * Z * Z :=
  (b2z (slot_matched s), slot_trade_price s, slot_trade_quantity s).

Definition zero_level : MpcPriceLevel := mk_level Buy 0 0.

(** What remains on all nine lines, padding included. *)
Definition padded_remainders (b : PrivateMatchBatch) : list MpcPriceLevel :=
  map left_over (zip (pb_resting b) (br_slots (expected_batch b)))
  ++ replicate (MAX_MATCH_SLOTS - length (pb_resting b)) zero_level
  ++ [mk_level (pb_arriving_side b) (pb_arriving_price b)
        (br_arriving_remaining (expected_batch b))].

Lemma zip_with_map_zip {A B C} (f : A → B → C) l k : zip_with f l k = map (λ p, f p.1 p.2) (zip l k).
Proof. revert k; induction l; intros [|]; simpl; f_equal; auto. Qed.

Section equivalence.
Context (b : PrivateMatchBatch).
Hypothesis Hbounded : batch_bounded b.
Hypothesis Hsorted : price_sorted (pb_arriving_side b) (pb_resting b).

Local Abbreviation side := (side_wire (pb_arriving_side b)).
Local Abbreviation price := (pb_arriving_price b).
Local Abbreviation qty := (pb_arriving_quantity b).
Local Abbreviation can_rest := (b2z (pb_arriving_can_rest b)).

Lemma batch_nonneg : Forall (λ r, 0 ≤ ri_quantity r) (pb_resting b).
Proof. destruct Hbounded as (_ & HF & _). eapply Forall_impl; [exact HF|]. simpl; lia. Qed.

Lemma batch_circuit_slots :
  circuit_slots side price qty (slot_wires b) =
    zip_with wiring (pb_resting b) (br_slots (expected_batch b))
    ++ replicate (MAX_MATCH_SLOTS - length (pb_resting b)) (mk_slot_wiring 0 0 0 0 0).
Proof.
  rewrite expected_batch_slots. destruct Hbounded as (_ & _ & _ & Hq).
  unfold slot_wires. apply circuit_slots_spec; [lia|apply batch_nonneg|done].
Qed.

Lemma batch_slots_length : length (br_slots (expected_batch b)) = length (pb_resting b).
Proof. rewrite expected_batch_slots. apply match_slots_length. Qed.

Lemma batch_remaining :
  published_remaining side price qty can_rest (slot_wires b) =
    br_arriving_remaining (expected_batch b).
Proof.
  unfold published_remaining. rewrite batch_circuit_slots.
  destruct (expected_batch_balanced b) as (_ & -> & _); [destruct Hbounded; lia|apply batch_nonneg|].
  rewrite map_app, sumZ_app, zip_with_map_zip, map_map. simpl.
  assert (sumZ (map sw_trade_quantity (replicate (MAX_MATCH_SLOTS - length (pb_resting b))
    (mk_slot_wiring 0 0 0 0 0))) = 0) as ->.
  { induction (MAX_MATCH_SLOTS - length (pb_resting b))%nat; simpl; auto. }
  assert (map (λ x, slot_trade_quantity x.2) (zip (pb_resting b) (br_slots (expected_batch b)))
    = map slot_trade_quantity (br_slots (expected_batch b))) as ->.
  { rewrite <-(snd_zip (pb_resting b) (br_slots (expected_batch b))) at 2.
    - by rewrite map_map.
    - by rewrite batch_slots_length. }
  unfold traded, b2z. destruct (pb_arriving_can_rest b); lia.
Qed.

Lemma batch_book_rows :
  book_rows side price qty can_rest (slot_wires b) = map row_of (padded_remainders b).
Proof.
  unfold book_rows, padded_remainders. rewrite batch_circuit_slots, batch_remaining, !map_app.
  unfold slot_wires. rewrite zip_with_app, <-app_assoc.
  2:{ rewrite length_map, length_zip_with, batch_slots_length. lia. }
  f_equal; [|f_equal].
  - rewrite map_map. generalize (br_slots (expected_batch b)) as ss. generalize (pb_resting b) as rs.
    induction rs as [|r rs IH]; intros [|s ss]; simpl; [done..|]. f_equal. apply IH.
  - induction (MAX_MATCH_SLOTS - length (pb_resting b))%nat; simpl; [done|]. by f_equal.
  - simpl. unfold row_of; simpl. do 2 f_equal.
    assert (br_arriving_remaining (expected_batch b) = if pb_arriving_can_rest b
      then br_arriving_remaining (expected_batch b) else 0) as E.
    { rewrite expected_batch_remaining. by destruct (pb_arriving_can_rest b). }
    destruct (pb_arriving_can_rest b); unfold b2z; [lia|]. by rewrite E.
Qed.

Lemma padded_nonneg : Forall (λ u, 0 ≤ pl_quantity u) (padded_remainders b).
Proof.
  destruct (expected_batch_balanced b) as (Ht & Hr & HF); [destruct Hbounded; lia|apply batch_nonneg|].
  unfold padded_remainders. rewrite !Forall_app. split_and!.
  - apply Forall_map, Forall_forall. intros [r s] Hin.
    apply elem_of_lookup_zip_with in Hin as (i & r' & s' & [= <- <-] & Hi & Hs).
    destruct (Forall2_lookup_lr _ _ _ _ _ _ HF Hi Hs) as (? & _). simpl. unfold left_qty; simpl. lia.
  - by apply Forall_replicate.
  - constructor; [|constructor]. simpl. rewrite Hr. destruct (pb_arriving_can_rest b); lia.
Qed.

Lemma padded_depth s p : depth_at s p (padded_remainders b) = depth_at s p (remainders b).
Proof.
  unfold padded_remainders, remainders. rewrite !depth_at_app.
  assert (depth_at s p (replicate (MAX_MATCH_SLOTS - length (pb_resting b)) zero_level) = 0) as ->.
  { induction (MAX_MATCH_SLOTS - length (pb_resting b))%nat as [|n IH]; [done|].
    simpl. rewrite depth_at_cons, IH. simpl. by destruct (bool_decide _). }
  rewrite Z.add_0_l. do 2 f_equal. apply map_ext. by intros [].
Qed.

End equivalence.

(** Strictly ordered levels are determined by the depth they show. *)
Lemma sorted_level_depth levels u :
  StronglySorted olt (map level_key levels) → u ∈ levels →
  depth_at (pl_side u) (pl_price u) levels = pl_quantity u.
Proof.
  assert (∀ v w, level_key v = level_key w → pl_side v = pl_side w ∧ pl_price v = pl_price w) as Hinj.
  { intros [s p q] [s' p' q'] E. unfold level_key in E; simpl in *.
    destruct s, s'; simplify_eq/=; split; (done || lia). }
  assert (∀ v l, Forall (olt (level_key v)) (map level_key l) →
    depth_at (pl_side v) (pl_price v) l = 0) as Hzero.
  { intros v l. induction l as [|w l IH]; [done|]. simpl. intros [Hw Hl]%Forall_cons.
    rewrite depth_at_cons, (IH Hl), bool_decide_eq_false_2; [done|]. intros [Hs Hp].
    assert (level_key v = level_key w) as E by (unfold level_key; by rewrite Hs, Hp).
    rewrite E in Hw. by apply (irreflexivity olt (level_key w)). }
  induction levels as [|v levels IH]; [by intros _ ?%elem_of_nil|]. simpl.
  intros Hs [->|Hin]%elem_of_cons; apply StronglySorted_inv in Hs as [Hs Hlb]; rewrite depth_at_cons.
  - rewrite bool_decide_eq_true_2, Hzero by done. lia.
  - rewrite (IH Hs Hin), bool_decide_eq_false_2; [done|]. intros [Hs' Hp].
    rewrite Forall_forall in Hlb. apply (irreflexivity olt (level_key u)).
    assert (level_key v = level_key u) as <- by (unfold level_key; by rewrite Hs', Hp).
    apply Hlb. apply list_elem_of_fmap. exists u. split; [|done].
    unfold level_key. by rewrite Hs', Hp.
Qed.

Lemma depth_at_pos_elem s p l :
  0 < depth_at s p l → ∃ u, u ∈ l ∧ pl_side u = s ∧ pl_price u = p.
Proof.
  induction l as [|v l IH]; [unfold depth_at; simpl; lia|]. rewrite depth_at_cons.
  case_bool_decide as E.
  - intros _. exists v. split; [left|done].
  - rewrite Z.add_0_l. intros (u & Hu & ?)%IH. exists u. split; [by right|done].
Qed.

(** The rows of strictly ordered levels, followed by padding, are sorted. *)
Lemma level_rows_sorted levels n :
  StronglySorted olt (map level_key levels) →
  Forall (λ v, 0 < pl_price v ≤ u32_max) levels →
  StronglySorted (λ a b, dr_key a ≤ dr_key b) (map level_row levels ++ replicate n padding_row)
  ∧ (∀ v w, v ∈ levels → w ∈ levels → dr_key (level_row v) = dr_key (level_row w) →
       pl_side v = pl_side w ∧ pl_price v = pl_price w)
  ∧ (∀ v, v ∈ levels → dr_key (level_row v) < dr_key padding_row).
Proof.
  intros Hs HF. assert (∀ v, v ∈ levels → 0 < pl_price v ≤ 4294967295) as Hp.
  { rewrite Forall_forall in HF. exact HF. }
  assert (∀ v, v ∈ levels → dr_key (level_row v) < dr_key padding_row) as Hpad.
  { intros [[] p q] Hv; specialize (Hp _ Hv); unfold level_row, padding_row, if_else; simpl in *; lia. }
  split_and!; [|..|done].
  - apply StronglySorted_app. split_and!.
    + intros x y (v & -> & Hv)%list_elem_of_fmap [-> _]%elem_of_replicate. apply Z.lt_le_incl, Hpad, Hv.
    + clear Hpad HF. induction levels as [|v levels IH]; simpl in *; [constructor|].
      apply StronglySorted_inv in Hs as [Hs Hlb]. constructor.
      * apply IH; [done|]. intros w Hw. apply Hp. by right.
      * apply Forall_map. rewrite Forall_map in Hlb. rewrite Forall_forall in *. intros w Hw.
        specialize (Hlb w Hw). pose proof (Hp v ltac:(left)). pose proof (Hp w ltac:(by right)).
        unfold level_key in Hlb. apply olt_ZZ in Hlb.
        destruct v as [[] pv qv], w as [[] pw qw]; unfold level_row, if_else; simpl in *; lia.
    + induction n; simpl; constructor; [done|]. apply Forall_replicate. done.
  - intros [[] pv qv] [[] pw qw] Hv Hw; specialize (Hp _ Hv) as Hpv; specialize (Hp _ Hw) as Hpw;
      unfold level_row, if_else; simpl in *; intros E; split; (done || lia).
Qed.

(** The distinct levels of what remains are the published levels. *)
Lemma distinct_levels b levels :
  batch_bounded b → StronglySorted olt (map level_key levels) →
  Forall (λ v, 0 < pl_quantity v) levels →
  (∀ s p, depth_at s p levels = depth_at s p (remainders b)) →
  distinct (padded_remainders b) [] (padded_remainders b) ≡ₚ levels.
Proof.
  intros Hb Hst HF Hd. apply NoDup_Permutation; [by apply distinct_NoDup, padded_nonneg| |].
  - assert (NoDup (map level_key levels)) as Hnd; [|by apply NoDup_fmap_1 in Hnd].
    clear -Hst. induction Hst as [|k l Hst IH Hlb]; constructor; [|done].
    rewrite Forall_forall in Hlb. intros Hin. by apply (irreflexivity olt k), Hlb.
  - intros u. rewrite elem_of_distinct by by apply padded_nonneg. rewrite padded_depth, <-Hd. split.
    + intros (Hq & _ & Hpos). destruct (depth_at_pos_elem _ _ _ Hpos) as (w & Hw & Hsw & Hpw).
      pose proof (sorted_level_depth levels w Hst Hw) as Hdw. rewrite Hsw, Hpw in Hdw.
      assert (u = w) as ->; [|done]. destruct u, w; simpl in *. congruence.
    + intros Hu. rewrite (sorted_level_depth levels u Hst Hu). rewrite Forall_forall in HF.
      specialize (HF u Hu). by split_and!.
Qed.

Lemma padded_length b : batch_bounded b → length (padded_remainders b) = 9%nat.
Proof.
  intros (Hn & _). unfold padded_remainders.
  rewrite !length_app, length_map, length_zip_with, length_replicate, batch_slots_length.
  unfold MAX_MATCH_SLOTS in *. simpl. lia.
Qed.

Lemma matrix_perm b levels :
  batch_bounded b → (length levels ≤ MAX_MATCH_SLOTS + 1)%nat →
  distinct (padded_remainders b) [] (padded_remainders b) ≡ₚ levels →
  depth_matrix (map row_of (padded_remainders b)) ≡ₚ
    map level_row levels ++ replicate (16 - length levels) padding_row.
Proof.
  intros Hb Hlen Hdp.
  destruct (depth_rows_perm [] _ (padded_nonneg b Hb)) as [_ Hperm]. simpl in Hperm.
  unfold depth_matrix. rewrite Hperm, (Permutation_length Hdp), (Permutation_map level_row Hdp).
  rewrite length_map, (padded_length b Hb), <-app_assoc, <-replicate_add.
  unfold MAX_MATCH_SLOTS in Hlen.
  by replace (9 - length levels + (16 - 9))%nat with (16 - length levels)%nat by lia.
Qed.

(** Sorting by key leaves no choice: equal keys mean equal rows. *)
Lemma sorted_rows sort rows levels n :
  sorting_network sort → StronglySorted olt (map level_key levels) →
  Forall (λ v, 0 < pl_price v ≤ u32_max) levels →
  rows ≡ₚ map level_row levels ++ replicate n padding_row →
  sort rows = map level_row levels ++ replicate n padding_row.
Proof.
  intros Hsort Hst HF Hp2. destruct (level_rows_sorted levels n Hst HF) as (Hsorted & Hinj & Hpad).
  destruct (Hsort rows) as [Hp1 Hs1].
  eapply (StronglySorted_unique_strong (λ a b, dr_key a ≤ dr_key b)); [|done|done|by rewrite Hp1].
  intros x y Hx Hy Hxy Hyx. assert (dr_key x = dr_key y) as E by lia. clear Hxy Hyx.
  rewrite Hp1, Hp2 in Hx. rewrite !elem_of_app, !list_elem_of_fmap, !elem_of_replicate in Hx, Hy.
  destruct Hx as [(v & -> & Hv)|[-> _]], Hy as [(w & -> & Hw)|[-> _]].
  - destruct (Hinj v w Hv Hw E) as [E1 E2].
    pose proof (sorted_level_depth levels v Hst Hv) as D1.
    pose proof (sorted_level_depth levels w Hst Hw) as D2. rewrite E1, E2 in D1.
    destruct v, w; simpl in *. congruence.
  - specialize (Hpad v Hv). lia.
  - specialize (Hpad w Hw). lia.
  - done.
Qed.

Lemma circuit_slots_public b :
  batch_bounded b → price_sorted (pb_arriving_side b) (pb_resting b) →
  map slot_public (circuit_slots (side_wire (pb_arriving_side b)) (pb_arriving_price b)
    (pb_arriving_quantity b) (slot_wires b)) =
  map slot_expected (br_slots (expected_batch b))
  ++ replicate (MAX_MATCH_SLOTS - length (pb_resting b)) (0, 0, 0).
Proof.
  intros Hb Hs. rewrite batch_circuit_slots by done.
  rewrite map_app, zip_with_map_zip, map_map, fmap_replicate. simpl. f_equal.
  trans (map slot_expected (map snd (zip (pb_resting b) (br_slots (expected_batch b))))).
  - by rewrite map_map.
  - f_equal. apply snd_zip. by rewrite batch_slots_length.
Qed.

Lemma circuit_levels sort b :
  sorting_network sort → batch_bounded b → price_sorted (pb_arriving_side b) (pb_resting b) →
  ∃ levels, br_public_levels (expected_batch b) = Some levels
    ∧ co_levels (run_circuit sort b) = map level_row levels
        ++ replicate (MAX_MATCH_SLOTS + 1 - length levels) padding_row.
Proof.
  intros Hsort Hb Hs. destruct (public_levels_spec b Hb) as (levels & Hl & Hst & HF & Hlen & Hd).
  apply Forall_and in HF as [HFp HFq].
  exists levels. split; [done|]. unfold run_circuit; cbn [co_levels].
  rewrite batch_book_rows by done. rewrite (sorted_rows _ _ levels (16 - length levels) Hsort Hst HFp).
  - rewrite take_app, length_map, take_ge by (rewrite length_map; lia).
    rewrite take_replicate. do 2 f_equal. unfold MAX_MATCH_SLOTS in *. lia.
  - apply matrix_perm; [done..|]. apply distinct_levels; [done..| |done].
    eapply Forall_impl; [exact HFq|]. simpl. lia.
Qed.

(** C2: The circuit is the reference match.  For every batch in price-time
    order within the circuit's 32-bit bounds, and whatever sorting network is
    used for the depth, the oblivious circuit reveals exactly the slots, the
    remainder and the public depth that [expected_batch] defines, followed by
    canonical padding. *)
Theorem circuit_is_expected sort b :
  sorting_network sort → batch_bounded b → price_sorted (pb_arriving_side b) (pb_resting b) →
  let out := run_circuit sort b in
  let res := expected_batch b in
  map slot_public (co_slots out) =
    map slot_expected (br_slots res)
    ++ replicate (MAX_MATCH_SLOTS - length (pb_resting b)) (0, 0, 0)
  ∧ co_remaining out = br_arriving_remaining res
  ∧ ∃ levels, br_public_levels res = Some levels
      ∧ co_levels out = map level_row levels
          ++ replicate (MAX_MATCH_SLOTS + 1 - length levels) padding_row.
Proof.
  intros Hsort Hb Hs out res. split_and!.
  - by apply circuit_slots_public.
  - by apply batch_remaining.
  - by apply circuit_levels.
Qed.
