(* ===== verification/MpcRunner.v ===== *)
(** * Running the matching circuit

    [oclob-mpc/src/lib.rs]: the private input vector handed to the sharing
    layer, the parser of the parties' public output and the round driver
    [execute_batch].  Process handling, secret sharing and the engine pin are
    parameters: their results are arguments of the driver. *)

From S2P Require Import Prelude BTree Bytes AppCrypto Orders Matching Circuit.
Open Scope string_scope.
Open Scope list_scope.
Open Scope Z_scope.

Definition MPC_PARTIES : nat := 7.
Definition PRIVATE_ORDER_WIRES : nat := 8.
Definition PRIVATE_BOOK_WIRES : nat := (MAX_MATCH_SLOTS + 1) * PRIVATE_ORDER_WIRES.

(** ** Text *)

(** A [str] as the list of its Unicode scalar values. *)
Abbreviation text := (list Z).

Definition chars (s : string) : text :=
  map (λ c, Z.of_N (Ascii.N_of_ascii c)) (String.list_ascii_of_string s).

(** [char::is_whitespace], the Unicode property White_Space. *)
Definition is_whitespace (c : Z) : bool :=
  ((9 <=? c) && (c <=? 13)) || (c =? 32) || (c =? 0x85) || (c =? 0xA0) || (c =? 0x1680)
  || ((0x2000 <=? c) && (c <=? 0x200A)) || (c =? 0x2028) || (c =? 0x2029) || (c =? 0x202F)
  || (c =? 0x205F) || (c =? 0x3000).

Fixpoint trim_start (s : text) : text :=
  match s with
  | [] => []
  | c :: s' => if is_whitespace c then trim_start s' else s
  end.

Definition trim (s : text) : text := rev (trim_start (rev (trim_start s))).

(** [str::lines]: split at line feeds, a carriage return before one dropped. *)
Definition strip_cr (s : text) : text :=
  match rev s with
  | c :: r => if c =? 13 then rev r else s
  | [] => []
  end.

Fixpoint lines_from (acc : text) (s : text) : list text :=
  match s with
  | [] => match acc with [] => [] | _ => [rev acc] end
  | c :: s => if c =? 10 then strip_cr (rev acc) :: lines_from [] s else lines_from (c :: acc) s
  end.

Definition lines (s : text) : list text := lines_from [] s.

Fixpoint strip_prefix (prefix s : text) : option text :=
  match prefix, s with
  | [], _ => Some s
  | p :: prefix, c :: s => if p =? c then strip_prefix prefix s else None
  | _ :: _, [] => None
  end.

(** [u64::from_str]. *)
Fixpoint parse_digits (acc : Z) (s : text) : option Z :=
  match s with
  | [] => Some acc
  | c :: s =>
      if (48 <=? c) && (c <=? 57)
      then let v := acc * 10 + (c - 48) in
           if v <=? u64_max then parse_digits v s else None
      else None
  end.

Definition parse_u64 (s : text) : option Z :=
  match s with
  | [] => None
  | c :: s' => if c =? 43 then match s' with [] => None | _ => parse_digits 0 s' end
               else parse_digits 0 s
  end.

(** Decimal printing of an integer of at most twenty digits. *)
Fixpoint dec_from (fuel : nat) (z : Z) : text :=
  match fuel with
  | O => [48 + z mod 10]
  | S fuel => if z <? 10 then [48 + z] else dec_from fuel (z / 10) ++ [48 + z mod 10]
  end.

Definition dec (z : Z) : text := dec_from 20 z.

(** ** The public output *)

Definition slot_name (slot : nat) (field : string) : text :=
  chars "OCLOB_SLOT_" ++ dec (Z.of_nat slot) ++ chars field.
Definition level_name (index : nat) (field : string) : text :=
  chars "OCLOB_LEVEL_" ++ dec (Z.of_nat index) ++ chars field.
Definition remaining_name : text := chars "OCLOB_ARRIVING_REMAINING".
Definition ROUND_END_MARKER : text := chars "OCLOB_ROUND_END".

Inductive ParseError :=
| Missing (name : text)
| Duplicate (name : text)
| InvalidNumber (name : text)
| MatchBit (slot : nat)
| NoncanonicalPadding
| ActiveAfterPadding
| InvalidSide
| Depth (why : string).

(** [MpcError]; [PartyOutput] is its [Party] with the message of [parse_result]. *)
Inductive MpcError :=
| Setup (why : string)
| MpcCompile (why : string)
| MpcInput (why : string)
| Party (party : nat) (why : string)
| PartyOutput (party : nat) (why : ParseError)
| NoOutput
| Disagreement
| Timeout
| MpcIo (why : string).

(** The closure [value] of [parse_result]. *)
Definition value (output : text) (name : text) : result ParseError Z :=
  match omap (λ line, strip_prefix (name ++ chars "=") (trim line)) (lines output) with
  | [] => Err (Missing name)
  | [item] => ok_or (parse_u64 (trim item)) (InvalidNumber name)
  | _ :: _ :: _ => Err (Duplicate name)
  end.

Definition parse_slot (output : text) (slot : nat) : result ParseError MpcSlotResult :=
  matched ← value output (slot_name slot "_MATCHED");
  _ ← fail_if (1 <? matched) (MatchBit slot);
  trade_price ← value output (slot_name slot "_PRICE");
  trade_quantity ← value output (slot_name slot "_QUANTITY");
  Ok (mk_slot (matched =? 1) trade_price trade_quantity).

(** One turn of the depth loop: levels read so far and the padding flag. *)
Definition parse_level (output : text) (st : list MpcPriceLevel * bool) (index : nat) :
    result ParseError (list MpcPriceLevel * bool) :=
  let '(levels, padding) := st in
  side ← value output (level_name index "_SIDE");
  price ← value output (level_name index "_PRICE");
  quantity ← value output (level_name index "_QUANTITY");
  if quantity =? 0 then
    _ ← fail_if (negb (side =? 0) || negb (price =? 0)) NoncanonicalPadding;
    Ok (levels, true)
  else
    _ ← fail_if padding ActiveAfterPadding;
    side ← (if side =? 0 then Ok Buy else if side =? 1 then Ok Sell else Err InvalidSide);
    Ok (levels ++ [mk_level side price quantity], padding).

Definition parse_result (output : text) : result ParseError MpcBatchResult :=
  slots ← collect (parse_slot output) (seq 0 MAX_MATCH_SLOTS);
  '(levels, _) ← for_each (parse_level output) ([], false) (seq 0 (MAX_MATCH_SLOTS + 1));
  _ ← map_err Depth (validate_public_levels levels);
  arriving_remaining ← value output remaining_name;
  Ok (mk_batch_result slots arriving_remaining (Some levels)).

(** What one party prints for a round: the revealed values, then the marker. *)
Definition print_ln (name : text) (v : Z) : text := name ++ chars "=" ++ dec v ++ [10].

Definition slot_entries (i : nat) (s : slot_wiring) : list (text * Z) :=
  [(slot_name i "_MATCHED", sw_matched s);
   (slot_name i "_PRICE", sw_trade_price s);
   (slot_name i "_QUANTITY", sw_trade_quantity s)].

Definition level_entries (i : nat) (r : depth_row) : list (text * Z) :=
  [(level_name i "_SIDE", dr_side r);
   (level_name i "_PRICE", dr_price r);
   (level_name i "_QUANTITY", dr_quantity r)].

Definition entries (out : circuit_output) : list (text * Z) :=
  concat (imap slot_entries (co_slots out))
  ++ [(remaining_name, co_remaining out)]
  ++ concat (imap level_entries (co_levels out)).

Definition print_output (out : circuit_output) : text :=
  concat (map (λ '(n, v), print_ln n v) (entries out)) ++ ROUND_END_MARKER ++ [10].

(** ** The round driver *)

(** [compatibility_private_values]: eight wires per order. *)
Definition compatibility_reserve (side : Side) (price quantity : Z) : result MpcError Z :=
  match side with
  | Sell => Ok quantity
  | Buy => ok_or (checked_mul price quantity) (MpcInput "compatibility reserve overflowed")
  end.

Definition resting_wires (input : PrivateMatchBatch) (slot : nat) : result MpcError (list Z) :=
  match pb_resting input !! slot with
  | Some r =>
      reserve ← compatibility_reserve (ri_side r) (ri_price r) (ri_quantity r);
      Ok [1; side_wire (ri_side r); ri_price r; ri_quantity r; 0; reserve; 0; Z.of_nat slot + 1]
  | None => Ok (replicate PRIVATE_ORDER_WIRES 0)
  end.

Definition compatibility_private_values (input : PrivateMatchBatch) : result MpcError (list Z) :=
  rows ← collect (resting_wires input) (seq 0 MAX_MATCH_SLOTS);
  reserve ← compatibility_reserve (pb_arriving_side input) (pb_arriving_price input)
    (pb_arriving_quantity input);
  let values := concat rows
    ++ [side_wire (pb_arriving_side input); pb_arriving_price input; pb_arriving_quantity input;
        b2z (pb_arriving_can_rest input); 0; reserve; 0; Z.of_nat MAX_MATCH_SLOTS + 1] in
  _ ← fail_if (negb (Nat.eqb (length values) PRIVATE_BOOK_WIRES))
    (MpcInput "compatibility input does not match the canonical circuit width");
  Ok values.

Section runner.
Context `{Crypto}.

Definition public_depth_digest (levels : list MpcPriceLevel) : Digest32 :=
  sha256 (ascii_bytes "OCLOB:PUBLIC-PRICE-LEVELS:v1" ++ u64_be (Z.of_nat (length levels))
    ++ concat (map (λ l, byte_of (side_wire (pl_side l)) :: u64_be (pl_price l)
         ++ u64_be (pl_quantity l)) levels)).

Definition slot_bytes (s : MpcSlotResult) : bytes :=
  byte_of (b2z (slot_matched s)) :: u64_be (slot_trade_price s) ++ u64_be (slot_trade_quantity s).

Definition public_output_digest (r : MpcBatchResult) : Digest32 :=
  sha256 (match br_public_levels r with
          | Some _ => ascii_bytes "OCLOB:MPC-PUBLIC-OUTPUT:v2"
          | None => ascii_bytes "OCLOB:MPC-PUBLIC-OUTPUT:v1"
          end
    ++ concat (map slot_bytes (br_slots r)) ++ u64_be (br_arriving_remaining r)
    ++ match br_public_levels r with
       | Some levels => d_bytes (public_depth_digest levels)
       | None => []
       end).

Record MpcBatchReceipt := mk_receipt {
  rc_parties : nat;
  rc_program_sha256 : Digest32;
  rc_public_output_sha256 : Digest32;
  rc_all_parties_agreed : bool;
  rc_result : MpcBatchResult
}.

(** The runner: the compiled program and whether a mesh of parties is up. *)
Record MpcRunner := mk_runner {
  mp_program_sha256 : Digest32;
  mp_rounds : Z;
  mp_mesh : bool;
  mp_meshes : Z
}.

Definition set_mesh (up : bool) (m : MpcRunner) : MpcRunner :=
  mk_runner (mp_program_sha256 m) (mp_rounds m) up (mp_meshes m).

(** The outside world during one round: the engine check, the share files
    for the private values, whether the parties start, and what they print. *)
Record round_io := mk_io {
  io_recheck : result string ();
  io_share : list Z → result string (list text);
  io_spawn : result MpcError ();
  io_serve : list text → result MpcError (list text)
}.

Fixpoint parse_parties (party : nat) (outputs : list text) :
    result MpcError (list MpcBatchResult) :=
  match outputs with
  | [] => Ok []
  | output :: outputs =>
      r ← map_err (PartyOutput party) (parse_result output);
      rs ← parse_parties (S party) outputs;
      Ok (r :: rs)
  end.

(** [first.slots.truncate(n)]. *)
Definition truncate_slots (n : nat) (r : MpcBatchResult) : MpcBatchResult :=
  mk_batch_result (take n (br_slots r)) (br_arriving_remaining r) (br_public_levels r).

Definition execute_batch (io : round_io) (input : PrivateMatchBatch) :
    method MpcRunner MpcError MpcBatchReceipt := λ m,
  match map_err Setup (io_recheck io) with
  | Err e => (m, Err e)
  | Ok _ =>
  if Nat.ltb MAX_MATCH_SLOTS (length (pb_resting input))
  then (m, Err (MpcInput "a batch supports at most 8 resting slots")) else
  match compatibility_private_values input with
  | Err e => (m, Err e)
  | Ok values =>
  match map_err MpcInput (io_share io values) with
  | Err e => (m, Err e)
  | Ok party_files =>
  let '(m, spawned) :=
    if mp_mesh m then (m, Ok ())
    else let m := mk_runner (mp_program_sha256 m) (mp_rounds m) false (wrapping_add (mp_meshes m) 1) in
         match io_spawn io with
         | Ok _ => (set_mesh true m, Ok ())
         | Err e => (m, Err e)
         end in
  match spawned with
  | Err e => (m, Err e)
  | Ok _ =>
  match io_serve io party_files with
  | Err e => (set_mesh false m, Err e)
  | Ok outputs =>
  match parse_parties 0 outputs with
  | Err e => (set_mesh false m, Err e)
  | Ok parsed =>
  match parsed with
  | [] => (m, Err NoOutput)
  | first :: _ =>
      if existsb (λ r, negb (bool_decide (r = first))) parsed
      then (set_mesh false m, Err Disagreement)
      else
        let first := truncate_slots (length (pb_resting input)) first in
        (mk_runner (mp_program_sha256 m) (wrapping_add (mp_rounds m) 1) (mp_mesh m) (mp_meshes m),
         Ok {| rc_parties := MPC_PARTIES;
               rc_program_sha256 := mp_program_sha256 m;
               rc_public_output_sha256 := public_output_digest first;
               rc_all_parties_agreed := true;
               rc_result := first |})
  end end end end end end end.

End runner.

(** ** Reading back what was printed *)

Definition is_digit (c : Z) : Prop := 48 ≤ c ≤ 57.

Lemma dec_from_digits fuel z : 0 ≤ z → Forall is_digit (dec_from fuel z) ∧ dec_from fuel z ≠ [].
Proof.
  revert z; induction fuel as [|fuel IH]; intros z Hz; simpl.
  - pose proof (Z.mod_pos_bound z 10). split; [|done]. constructor; [unfold is_digit; lia|constructor].
  - pose proof (Z.mod_pos_bound z 10). destruct (Z.ltb_spec z 10).
    + split; [|done]. constructor; [unfold is_digit; lia|constructor].
    + destruct (IH (z / 10)) as [HF _]; [by apply Z.div_pos|]. split; [|by destruct (dec_from _ _)].
      apply Forall_app. split; [done|]. constructor; [unfold is_digit; lia|constructor].
Qed.

Lemma parse_digits_app acc a b :
  parse_digits acc (a ++ b) = match parse_digits acc a with Some v => parse_digits v b | None => None end.
Proof.
  revert acc; induction a as [|c a IH]; intros acc; simpl; [done|].
  destruct (_ && _); [|done]. destruct (_ <=? u64_max); [apply IH|done].
Qed.

Lemma parse_digits_one acc d :
  0 ≤ d < 10 → acc * 10 + d ≤ u64_max → parse_digits acc [48 + d] = Some (acc * 10 + d).
Proof.
  intros Hd Hmax. simpl. rewrite !(proj2 (Z.leb_le _ _)) by lia. simpl. f_equal. lia.
Qed.

Lemma parse_dec_from fuel z :
  0 ≤ z < 10 ^ (Z.of_nat fuel + 1) → z ≤ u64_max → parse_digits 0 (dec_from fuel z) = Some z.
Proof.
  revert z; induction fuel as [|fuel IH]; intros z Hz Hmax; cbn [dec_from].
  - change (10 ^ (Z.of_nat 0 + 1)) with 10 in Hz. rewrite Z.mod_small by lia.
    rewrite parse_digits_one; [f_equal; lia|lia|lia].
  - destruct (Z.ltb_spec z 10).
    + rewrite parse_digits_one; [f_equal; lia|lia|lia].
    + pose proof (Z.div_mod z 10 ltac:(lia)). pose proof (Z.mod_pos_bound z 10 ltac:(lia)).
      rewrite parse_digits_app, IH.
      * rewrite parse_digits_one; [f_equal; lia|lia|lia].
      * split; [apply Z.div_pos; lia|]. apply Z.div_lt_upper_bound; [lia|].
        rewrite <-Z.pow_succ_r by lia.
        replace (Z.succ (Z.of_nat fuel + 1)) with (Z.of_nat (S fuel) + 1) by lia. apply Hz.
      * etrans; [|exact Hmax]. apply Z.div_le_upper_bound; lia.
Qed.

(** Text without whitespace. *)
Definition solid (s : text) : Prop := Forall (λ c, is_whitespace c = false) s.

Lemma digit_solid c : is_digit c → is_whitespace c = false ∧ c ≠ 61 ∧ c ≠ 43.
Proof.
  unfold is_digit. intros Hc. split; [|lia].
  assert (c = 48 ∨ c = 49 ∨ c = 50 ∨ c = 51 ∨ c = 52 ∨ c = 53 ∨ c = 54 ∨ c = 55 ∨ c = 56 ∨ c = 57)
    as Hcs by lia.
  by repeat (destruct Hcs as [->|Hcs]; [done|]); subst.
Qed.

Lemma dec_solid z : 0 ≤ z → solid (dec z).
Proof.
  intros Hz. eapply Forall_impl; [by apply (dec_from_digits 20)|]. by intros c [? _]%digit_solid.
Qed.

Lemma parse_u64_dec z : 0 ≤ z ≤ u64_max → parse_u64 (dec z) = Some z.
Proof.
  intros Hz. unfold dec. pose proof (parse_dec_from 20 z) as Hp.
  destruct (dec_from_digits 20 z) as [HF Hne]; [lia|].
  destruct (dec_from 20 z) as [|c s]; [done|]. unfold parse_u64.
  apply Forall_cons in HF as [(_ & _ & Hc)%digit_solid _].
  rewrite (proj2 (Z.eqb_neq c 43)) by done. apply Hp; [|lia].
  change (10 ^ (Z.of_nat 20 + 1)) with 1000000000000000000000. unfold u64_max in Hz. lia.
Qed.

Lemma trim_start_solid s : solid s → trim_start s = s.
Proof. intros [|c s' Hc _]; simpl; [done|]. by rewrite Hc. Qed.

Lemma trim_solid s : solid s → trim s = s.
Proof.
  intros Hs. unfold trim. rewrite (trim_start_solid s Hs), trim_start_solid; [apply rev_involutive|].
  unfold solid in *. by apply Forall_rev.
Qed.

Lemma strip_cr_solid s : solid s → strip_cr s = s.
Proof.
  intros Hs. unfold strip_cr. destruct (rev s) as [|c r] eqn:E.
  { apply (f_equal (@rev Z)) in E. by rewrite rev_involutive in E. }
  assert (solid (rev s)) as Hr by by apply Forall_rev. rewrite E in Hr.
  apply Forall_cons in Hr as [Hc _].
  destruct (Z.eqb_spec c 13) as [->|]; [done|done].
Qed.

Lemma lines_from_solid acc s rest :
  solid s → lines_from acc (s ++ 10 :: rest) = strip_cr (rev acc ++ s) :: lines_from [] rest.
Proof.
  intros Hs; revert acc; induction Hs as [|c s Hc Hs IH]; intros acc; simpl.
  - by rewrite app_nil_r.
  - destruct (Z.eqb_spec c 10) as [->|]; [done|]. rewrite IH. simpl. by rewrite <-app_assoc.
Qed.

Lemma lines_print (ls : list text) :
  Forall solid ls → lines (concat (map (λ s, s ++ [10]) ls)) = ls.
Proof.
  unfold lines. induction 1 as [|s ls Hs HF IH]; [done|]. simpl. rewrite <-app_assoc. simpl.
  rewrite lines_from_solid by done. simpl. by rewrite strip_cr_solid, IH.
Qed.

Lemma strip_prefix_name n n' s :
  61 ∉ n → 61 ∉ n' →
  strip_prefix (n ++ [61]) (n' ++ [61] ++ s) = if decide (n = n') then Some s else None.
Proof.
  revert n'; induction n as [|c n IH]; intros [|c' n'] Hn Hn'; cbn [app strip_prefix].
  - done.
  - apply not_elem_of_cons in Hn' as [Hc _]. by rewrite (proj2 (Z.eqb_neq 61 c')).
  - apply not_elem_of_cons in Hn as [Hc _]. by rewrite (proj2 (Z.eqb_neq c 61)).
  - apply not_elem_of_cons in Hn as [Hc Hn], Hn' as [Hc' Hn'].
    destruct (Z.eqb_spec c c') as [->|Hne].
    + rewrite IH by done. destruct (decide (n = n')) as [->|Hne]; [by rewrite decide_True|].
      rewrite decide_False; [done|]. congruence.
    + rewrite decide_False; [done|]. congruence.
Qed.

Lemma strip_prefix_no_eq n s : 61 ∉ s → strip_prefix (n ++ [61]) s = None.
Proof.
  revert s; induction n as [|c n IH]; intros [|c' s] Hs; cbn [app strip_prefix]; try done.
  - apply not_elem_of_cons in Hs as [Hc _]. by rewrite (proj2 (Z.eqb_neq 61 c')).
  - apply not_elem_of_cons in Hs as [_ Hs]. destruct (c =? c'); [by apply IH|done].
Qed.

(** Names usable as keys. *)
Definition key_name (n : text) : Prop := solid n ∧ 61 ∉ n.

Definition entry_line (e : text * Z) : text := e.1 ++ [61] ++ dec e.2.
Definition field_of (n : text) (line : text) : option text := strip_prefix (n ++ [61]) (trim line).
Definition entry_ok (e : text * Z) : Prop := key_name e.1 ∧ 0 ≤ e.2 ≤ u64_max.

Lemma entry_line_solid e : entry_ok e → solid (entry_line e).
Proof.
  intros [[Hm _] Hw]. unfold solid, entry_line in *. apply Forall_app; split; [done|].
  constructor; [done|]. apply dec_solid. lia.
Qed.

Lemma field_of_entry n e :
  61 ∉ n → entry_ok e → field_of n (entry_line e) = if decide (n = e.1) then Some (dec e.2) else None.
Proof.
  intros Hn He. unfold field_of. rewrite trim_solid by by apply entry_line_solid.
  apply strip_prefix_name; [done|]. by destruct He as [[_ ?] _].
Qed.

Lemma fields_absent n es :
  61 ∉ n → Forall entry_ok es → n ∉ map fst es → omap (field_of n) (map entry_line es) = [].
Proof.
  intros Hn. induction 1 as [|e es He HF IH]; intros Hnot; [done|]. cbn [map] in *.
  apply not_elem_of_cons in Hnot as [Hne Hnot]. cbn. rewrite field_of_entry, decide_False by done.
  by apply IH.
Qed.

Lemma fields_unique n v es :
  61 ∉ n → Forall entry_ok es → NoDup (map fst es) → (n, v) ∈ es →
  omap (field_of n) (map entry_line es) = [dec v].
Proof.
  intros Hn. induction 1 as [|e es He HF IH]; intros Hnd Hin; [by apply elem_of_nil in Hin|].
  cbn [map] in *. apply NoDup_cons in Hnd as [Hne Hnd]. cbn. rewrite field_of_entry by done.
  apply elem_of_cons in Hin as [<-|Hin]; simpl in *.
  - rewrite decide_True by done. f_equal. by apply fields_absent.
  - rewrite decide_False; [by apply IH|]. intros ->. apply Hne. apply list_elem_of_fmap. by exists (e.1, v).
Qed.

(** A printed field is read back. *)
Lemma value_found (es : list (text * Z)) extra n v :
  NoDup (map fst es) → Forall entry_ok es → solid extra → 61 ∉ extra → (n, v) ∈ es →
  value (concat (map (λ '(n, v), print_ln n v) es) ++ extra ++ [10]) n = Ok v.
Proof.
  intros Hnd HF Hex Hex61 Hin. unfold value. change (chars "=") with [61].
  assert (lines (concat (map (λ '(n, v), print_ln n v) es) ++ extra ++ [10])
    = map entry_line es ++ [extra]) as ->.
  { rewrite <-lines_print.
    - f_equal. rewrite map_app, concat_app, map_map. simpl. rewrite app_nil_r. do 2 f_equal.
      apply map_ext. intros [m w]. unfold print_ln, entry_line; simpl. by rewrite <-!app_assoc.
    - apply Forall_app; split; [|by constructor]. apply Forall_map. eapply Forall_impl; [exact HF|].
      apply entry_line_solid. }
  assert (entry_ok (n, v)) as [[_ Hn61] Hv] by (rewrite Forall_forall in HF; by apply HF).
  fold (field_of n). rewrite omap_app, (fields_unique n v) by done.
  assert (omap (field_of n) [extra] = []) as ->.
  { cbn. unfold field_of. by rewrite trim_solid, strip_prefix_no_eq. }
  simpl in *. rewrite trim_solid by (apply dec_solid; lia). by rewrite parse_u64_dec.
Qed.

(** ** The output as a whole *)

Definition slot_names (i : nat) : list text :=
  [slot_name i "_MATCHED"; slot_name i "_PRICE"; slot_name i "_QUANTITY"].
Definition level_names (i : nat) : list text :=
  [level_name i "_SIDE"; level_name i "_PRICE"; level_name i "_QUANTITY"].
Definition all_names : list text :=
  concat (map slot_names (seq 0 MAX_MATCH_SLOTS)) ++ [remaining_name]
  ++ concat (map level_names (seq 0 (MAX_MATCH_SLOTS + 1))).

Lemma all_names_ok : NoDup all_names ∧ Forall key_name all_names ∧ key_name ROUND_END_MARKER.
Proof.
  assert (∀ P (d : Decision P), bool_decide P = true → P) as Hdec.
  { intros P d. apply bool_decide_eq_true_1. }
  split_and!; [apply (Hdec _ _); vm_compute; reflexivity| |].
  - unfold key_name, solid. apply (Hdec _ _). vm_compute. reflexivity.
  - unfold key_name, solid. apply (Hdec _ _). vm_compute. reflexivity.
Qed.

Lemma names_imap {A} (f : nat → A → list (text * Z)) (g : nat → list text) k l :
  (∀ i a, map fst (f i a) = g i) →
  map fst (concat (imap (λ i, f (k + i)%nat) l)) = concat (map g (seq k (length l))).
Proof.
  intros Hfg. revert k; induction l as [|a l IH]; intros k; [done|]. simpl.
  rewrite map_app, Hfg, Nat.add_0_r. f_equal. rewrite <-(IH (S k)). do 2 f_equal.
  apply imap_ext. intros i x _. simpl. f_equal. lia.
Qed.

Lemma elem_of_concat_imap {A B} (f : nat → A → list B) l i a e :
  l !! i = Some a → e ∈ f i a → e ∈ concat (imap f l).
Proof.
  intros Hi He. rewrite list_elem_of_In, in_concat. exists (f i a).
  rewrite <-!list_elem_of_In. split; [|done].
  apply list_elem_of_lookup. exists i. by rewrite list_lookup_imap, Hi.
Qed.

Lemma Forall_concat_imap {A B} (P : B → Prop) (f : nat → A → list B) l :
  (∀ i a, l !! i = Some a → Forall P (f i a)) → Forall P (concat (imap f l)).
Proof.
  intros Hf. apply Forall_forall. intros e He. rewrite list_elem_of_In, in_concat in He.
  destruct He as (x & Hx & He). rewrite <-!list_elem_of_In in *.
  apply list_elem_of_lookup in Hx as [i Hi]. rewrite list_lookup_imap in Hi.
  apply fmap_Some in Hi as (a & Ha & ->). specialize (Hf i a Ha). rewrite Forall_forall in Hf. auto.
Qed.

Definition slot_of (s : slot_wiring) : MpcSlotResult :=
  mk_slot (sw_matched s =? 1) (sw_trade_price s) (sw_trade_quantity s).

(** An output that can be printed and read back as [levels]. *)
Definition output_ok (out : circuit_output) (levels : list MpcPriceLevel) : Prop :=
  length (co_slots out) = MAX_MATCH_SLOTS
  ∧ Forall (λ s, 0 ≤ sw_matched s ≤ 1 ∧ 0 ≤ sw_trade_price s ≤ u64_max
      ∧ 0 ≤ sw_trade_quantity s ≤ u64_max) (co_slots out)
  ∧ 0 ≤ co_remaining out ≤ u64_max
  ∧ co_levels out = map level_row levels
      ++ replicate (MAX_MATCH_SLOTS + 1 - length levels) padding_row
  ∧ (length levels ≤ MAX_MATCH_SLOTS + 1)%nat
  ∧ Forall (λ v, 0 ≤ pl_price v ≤ u64_max ∧ 0 < pl_quantity v ≤ u64_max) levels
  ∧ validate_public_levels levels = Ok ().

Section roundtrip.
Context (out : circuit_output) (levels : list MpcPriceLevel).
Hypothesis Hout : output_ok out levels.

Lemma levels_length : length (co_levels out) = (MAX_MATCH_SLOTS + 1)%nat.
Proof.
  destruct Hout as (_ & _ & _ & -> & Hlen & _). rewrite length_app, length_map, length_replicate. lia.
Qed.

Lemma entries_names : map fst (entries out) = all_names.
Proof.
  unfold entries, all_names. rewrite !map_app. f_equal; [|f_equal].
  - rewrite <-(proj1 Hout). by apply (names_imap slot_entries slot_names 0).
  - rewrite <-levels_length. by apply (names_imap level_entries level_names 0).
Qed.

Lemma rows_range r : r ∈ co_levels out →
  (0 ≤ dr_side r ≤ u64_max) ∧ (0 ≤ dr_price r ≤ u64_max) ∧ (0 ≤ dr_quantity r ≤ u64_max).
Proof.
  destruct Hout as (_ & _ & _ & -> & _ & HF & _).
  rewrite elem_of_app, list_elem_of_fmap, elem_of_replicate. rewrite Forall_forall in HF.
  intros [(v & -> & Hv)|[-> _]]; simpl.
  - specialize (HF v Hv). unfold u64_max in *. destruct (pl_side v); simpl; lia.
  - unfold u64_max. lia.
Qed.

Lemma entries_ok : Forall entry_ok (entries out).
Proof.
  assert (Forall (λ e : text * Z, 0 ≤ e.2 ≤ u64_max) (entries out)) as Hr.
  { unfold entries. rewrite !Forall_app. split_and!.
    - apply Forall_concat_imap. intros i s Hs. destruct Hout as (_ & HF & _).
      eapply Forall_lookup_1 in HF as (? & ? & ?); [|exact Hs].
      unfold slot_entries. repeat constructor; simpl; unfold u64_max in *; lia.
    - constructor; [|constructor]. simpl. apply Hout.
    - apply Forall_concat_imap. intros i r Hi.
      destruct (rows_range r) as (? & ? & ?); [by eapply list_elem_of_lookup_2|].
      unfold level_entries. repeat constructor; simpl; lia. }
  destruct all_names_ok as (_ & Hk & _). rewrite <-entries_names in Hk.
  rewrite Forall_map in Hk. apply Forall_forall. intros e He. rewrite Forall_forall in Hr, Hk.
  split; auto.
Qed.

Lemma read_entry n v : (n, v) ∈ entries out → value (print_output out) n = Ok v.
Proof.
  destruct all_names_ok as (Hnd & _ & Hm & Hm61). intros Hin. unfold print_output.
  apply value_found; [by rewrite entries_names|apply entries_ok|done|done|done].
Qed.

Lemma read_slot i s : co_slots out !! i = Some s → parse_slot (print_output out) i = Ok (slot_of s).
Proof.
  intros Hi. assert (∀ e, e ∈ slot_entries i s → e ∈ entries out) as Hin.
  { intros e He. unfold entries. rewrite elem_of_app. left. by eapply elem_of_concat_imap. }
  unfold slot_entries in Hin. unfold parse_slot.
  rewrite (read_entry (slot_name i "_MATCHED") (sw_matched s)) by (apply Hin; left).
  rewrite (read_entry (slot_name i "_PRICE") (sw_trade_price s)) by (apply Hin; right; left).
  rewrite (read_entry (slot_name i "_QUANTITY") (sw_trade_quantity s))
    by (apply Hin; right; right; left).
  destruct Hout as (_ & HF & _). eapply Forall_lookup_1 in HF as (Hm & _); [|exact Hi].
  simpl. unfold fail_if. by rewrite (proj2 (Z.ltb_ge _ _)) by lia.
Qed.

Lemma read_row i r : co_levels out !! i = Some r →
  value (print_output out) (level_name i "_SIDE") = Ok (dr_side r)
  ∧ value (print_output out) (level_name i "_PRICE") = Ok (dr_price r)
  ∧ value (print_output out) (level_name i "_QUANTITY") = Ok (dr_quantity r).
Proof.
  intros Hi. assert (∀ e, e ∈ level_entries i r → e ∈ entries out) as Hin.
  { intros e He. unfold entries. rewrite !elem_of_app. do 2 right. by eapply elem_of_concat_imap. }
  unfold level_entries in Hin.
  split_and!; apply read_entry, Hin; [left|right; left|right; right; left].
Qed.

(** The depth loop over the rows from index [k] on. *)
Lemma read_levels_from ls m k acc :
  (∀ i r, (map level_row ls ++ replicate m padding_row) !! i = Some r →
     co_levels out !! (k + i)%nat = Some r) →
  Forall (λ v, 0 < pl_quantity v) ls →
  ∃ pad, for_each (parse_level (print_output out)) (acc, false) (seq k (length ls + m))
    = Ok (acc ++ ls, pad).
Proof.
  revert k acc; induction ls as [|v ls IH]; intros k acc Hrows Hpos; simpl.
  - rewrite app_nil_r. assert (∀ pad, ∃ pad', for_each (parse_level (print_output out)) (acc, pad)
      (seq k m) = Ok (acc, pad')) as Hpad; [|apply Hpad].
    simpl in Hrows. revert k Hrows. induction m as [|m IHm]; intros k Hrows pad; [by eexists|].
    destruct (read_row k padding_row) as (Hs & Hp & Hq).
    { specialize (Hrows 0%nat padding_row eq_refl). by rewrite Nat.add_0_r in Hrows. }
    simpl. rewrite Hs, Hp, Hq. simpl. apply IHm. intros i r Hi.
    replace (S k + i)%nat with (k + S i)%nat by lia. by apply Hrows.
  - apply Forall_cons in Hpos as [Hv Hpos].
    destruct (read_row k (level_row v)) as (Hs & Hp & Hq).
    { specialize (Hrows 0%nat (level_row v) eq_refl). by rewrite Nat.add_0_r in Hrows. }
    rewrite Hs, Hp, Hq. simpl. rewrite (proj2 (Z.eqb_neq _ 0)) by lia.
    destruct (IH (S k) (acc ++ [v])) as [pad Hpad]; [|done|].
    + intros i r Hi. replace (S k + i)%nat with (k + S i)%nat by lia. by apply Hrows.
    + exists pad. rewrite <-app_assoc in Hpad. simpl in Hpad.
      by destruct v as [[] p q]; simpl in *; rewrite Hpad.
Qed.

Lemma parse_print :
  parse_result (print_output out) =
    Ok (mk_batch_result (map slot_of (co_slots out)) (co_remaining out) (Some levels)).
Proof.
  pose proof Hout as (Hlen & _ & _ & Hrows & Hll & HF & Hval). unfold parse_result.
  assert (collect (parse_slot (print_output out)) (seq 0 MAX_MATCH_SLOTS) =
    Ok (map slot_of (co_slots out))) as ->.
  { apply collect_Ok. rewrite <-Hlen. apply Forall2_same_length_lookup_2.
    - by rewrite length_seq, length_map.
    - intros i j s Hj Hs. apply lookup_seq in Hj as [-> _]. rewrite list_lookup_fmap in Hs.
      apply fmap_Some in Hs as (w & Hw & ->). by apply read_slot. }
  rewrite Ok_bind.
  destruct (read_levels_from levels (MAX_MATCH_SLOTS + 1 - length levels) 0 []) as [pad Hpad].
  { intros i r. by rewrite Hrows. }
  { eapply Forall_impl; [exact HF|]. simpl; lia. }
  replace (length levels + (MAX_MATCH_SLOTS + 1 - length levels))%nat
    with (MAX_MATCH_SLOTS + 1)%nat in Hpad by lia.
  rewrite Hpad, Ok_bind. cbn [app]. rewrite Hval. cbn [map_err]. rewrite Ok_bind.
  rewrite (read_entry _ (co_remaining out)); [done|].
  unfold entries. rewrite !elem_of_app. right; left. left.
Qed.

End roundtrip.


(** ** A round with honest parties *)

Lemma map_eq_Forall2 {A B C} (f : A → C) (g : B → C) l k :
  map f l = map g k → Forall2 (λ a b, f a = g b) l k.
Proof.
  revert k; induction l as [|a l IH]; intros [|b k] E; simpl in *; simplify_eq; constructor; auto.
Qed.

Lemma circuit_output_ok sort b :
  sorting_network sort → batch_bounded b → price_sorted (pb_arriving_side b) (pb_resting b) →
  ∃ levels, br_public_levels (expected_batch b) = Some levels
    ∧ output_ok (run_circuit sort b) levels
    ∧ map slot_of (co_slots (run_circuit sort b)) = br_slots (expected_batch b)
        ++ replicate (MAX_MATCH_SLOTS - length (pb_resting b)) (mk_slot false 0 0).
Proof.
  intros Hsort Hb Hs. pose proof Hb as (Hlen & HFr & _ & Hq).
  destruct (expected_batch_balanced b ltac:(lia) (batch_nonneg b Hb)) as (Ht & Hr & HF).
  destruct (circuit_levels sort b Hsort Hb Hs) as (levels & Hl & Hrows).
  destruct (public_levels_spec b Hb) as (levels' & Hl' & Hst & HFl & Hll & _). simplify_eq.
  pose proof (circuit_slots_public b Hb Hs) as Hsp.
  set (pad := replicate _ (mk_slot false 0 0)).
  assert (map slot_expected (br_slots (expected_batch b)) ++ replicate (MAX_MATCH_SLOTS
    - length (pb_resting b)) (0, 0, 0) = map slot_expected (br_slots (expected_batch b) ++ pad)) as Epad.
  { rewrite map_app. f_equal. unfold pad. by rewrite fmap_replicate. }
  rewrite Epad in Hsp. apply map_eq_Forall2 in Hsp.
  assert (Forall (λ s, 0 ≤ slot_trade_price s ≤ u32_max ∧ 0 ≤ slot_trade_quantity s ≤ u32_max)
    (br_slots (expected_batch b) ++ pad)) as Hrange.
  { apply Forall_app. split; [|by apply Forall_replicate].
    apply Forall_lookup. intros i s Hi. destruct (Forall2_lookup_r _ _ _ _ _ HF Hi)
      as (r & Hri & Htq & _ & Hm & Hn). eapply Forall_lookup_1 in HFr; [|exact Hri].
    split; [|lia]. destruct (slot_matched s); [|rewrite Hn by done; unfold u32_max; lia].
    destruct (Hm eq_refl) as (_ & _ & ->). lia. }
  exists levels. split_and!; [done|split_and!|].
  - etrans; [exact (Forall2_length _ _ _ Hsp)|]. unfold pad.
    rewrite length_app, length_replicate, batch_slots_length. lia.
  - apply Forall_lookup. intros i s Hi. destruct (Forall2_lookup_l _ _ _ _ _ Hsp Hi) as (s' & Hi' & E).
    eapply Forall_lookup_1 in Hrange; [|exact Hi']. unfold slot_public, slot_expected in E.
    injection E as -> -> ->. unfold b2z, u32_max, u64_max in *. destruct (slot_matched s'); lia.
  - unfold run_circuit; simpl. rewrite batch_remaining, Hr by done.
    unfold u32_max, u64_max in *. destruct (pb_arriving_can_rest b); lia.
  - unfold run_circuit; simpl. rewrite batch_remaining, Hr by done.
    unfold u32_max, u64_max in *. destruct (pb_arriving_can_rest b); lia.
  - done.
  - done.
  - eapply Forall_impl; [exact HFl|]. intros v. unfold u32_max, u64_max, MAX_MATCH_SLOTS. simpl. lia.
  - unfold validate_public_levels. rewrite (proj2 (Nat.ltb_ge _ _)) by done.
    by apply validate_levels_from_ok.
  - apply list_eq_Forall2. rewrite Forall2_fmap_l. eapply Forall2_impl; [exact Hsp|].
    intros w s E. change (slot_of w = s). unfold slot_public, slot_expected, slot_of in *.
    injection E as -> -> ->. by destruct s as [[] p q].
Qed.

Section rounds.
Context `{Crypto}.

Lemma compatibility_ok b :
  batch_bounded b → ∃ values, compatibility_private_values b = Ok values ∧ length values = PRIVATE_BOOK_WIRES.
Proof.
  intros (Hlen & HFr & Hp & Hq).
  assert (∀ s p q, 0 ≤ p ≤ u32_max → 0 ≤ q ≤ u32_max → ∃ v, compatibility_reserve s p q = Ok v) as Hres.
  { intros [] p q Hp' Hq'; simpl; [|eauto]. unfold checked_mul. rewrite (proj2 (Z.leb_le _ _)); [by eexists|].
    unfold u32_max, u64_max in *. nia. }
  assert (∀ l, ∃ rows, collect (resting_wires b) l = Ok rows
    ∧ length (concat rows) = (length l * PRIVATE_ORDER_WIRES)%nat) as Hrows.
  { assert (∀ i, ∃ row, resting_wires b i = Ok row ∧ length row = PRIVATE_ORDER_WIRES) as Hrow.
    { intros i. unfold resting_wires. destruct (pb_resting b !! i) as [r|] eqn:Ei; [|by eexists].
      eapply Forall_lookup_1 in HFr; [|exact Ei].
      destruct (Hres (ri_side r) (ri_price r) (ri_quantity r)) as [v ->]; [lia..|]. by eexists. }
    induction l as [|i l (rows & IH & Hl)]; [by exists []|]. destruct (Hrow i) as (row & Hi & Hlr).
    exists (row :: rows). cbn [collect]. rewrite Hi, Ok_bind, IH, Ok_bind. split; [done|].
    cbn [concat length]. rewrite length_app, Hlr, Hl. lia. }
  destruct (Hrows (seq 0 MAX_MATCH_SLOTS)) as (rows & Hc & Hl). unfold compatibility_private_values.
  rewrite Hc, Ok_bind. destruct (Hres (pb_arriving_side b) (pb_arriving_price b)
    (pb_arriving_quantity b)) as [v ->]; [lia..|]. rewrite Ok_bind.
  set (values := concat rows ++ _).
  assert (length values = PRIVATE_BOOK_WIRES) as Hv.
  { unfold values. rewrite length_app, Hl, length_seq. done. }
  rewrite Hv, Nat.eqb_refl. simpl. eauto.
Qed.

Lemma compatibility_no_disagreement b : compatibility_private_values b ≠ Err Disagreement.
Proof.
  assert (∀ s p q, compatibility_reserve s p q ≠ Err Disagreement) as Hres.
  { intros [] p q; simpl; [|done]. by destruct (checked_mul p q). }
  assert (∀ l, collect (resting_wires b) l ≠ Err Disagreement) as Hrows.
  { assert (∀ i, resting_wires b i ≠ Err Disagreement) as Hrow.
    { intros i. unfold resting_wires. destruct (pb_resting b !! i) as [r|]; [|done].
      specialize (Hres (ri_side r) (ri_price r) (ri_quantity r)).
      destruct (compatibility_reserve _ _ _); cbn; congruence. }
    induction l as [|i l IH]; [done|]. cbn [collect]. specialize (Hrow i).
    destruct (resting_wires b i); [rewrite Ok_bind; destruct (collect _ l)|]; cbn; congruence. }
  unfold compatibility_private_values. specialize (Hrows (seq 0 MAX_MATCH_SLOTS)).
  destruct (collect _ _); [|cbn; congruence]. rewrite Ok_bind.
  specialize (Hres (pb_arriving_side b) (pb_arriving_price b) (pb_arriving_quantity b)).
  destruct (compatibility_reserve _ _ _); [|cbn; congruence]. rewrite Ok_bind.
  by destruct (negb _).
Qed.

Lemma parse_parties_same k n s r :
  parse_result s = Ok r → parse_parties k (replicate n s) = Ok (replicate n r).
Proof. intros Hs. revert k; induction n as [|n IH]; intros k; simpl; [done|]. by rewrite Hs, IH. Qed.

(** C34: An honest round returns the canonical match.  When the engine, the
    sharing layer and the seven parties do their part and each party prints
    what the circuit reveals, [execute_batch] succeeds and its receipt holds
    exactly [expected_batch] of the input, for every price-time ordered batch
    within the 32-bit bounds and every sorting network. *)
Theorem honest_round sort io b m :
  sorting_network sort → batch_bounded b → price_sorted (pb_arriving_side b) (pb_resting b) →
  io_recheck io = Ok () → (∀ values, is_ok (io_share io values) = true) → io_spawn io = Ok () →
  (∀ files, io_serve io files = Ok (replicate MPC_PARTIES (print_output (run_circuit sort b)))) →
  ∃ m' receipt, execute_batch io b m = (m', Ok receipt)
    ∧ rc_result receipt = expected_batch b
    ∧ rc_public_output_sha256 receipt = public_output_digest (expected_batch b)
    ∧ rc_program_sha256 receipt = mp_program_sha256 m
    ∧ mp_rounds m' = wrapping_add (mp_rounds m) 1 ∧ mp_mesh m' = true.
Proof.
  intros Hsort Hb Hs Hre Hsh Hsp Hsv.
  destruct (circuit_output_ok sort b Hsort Hb Hs) as (levels & Hl & Hok & Hslots).
  destruct (compatibility_ok b Hb) as (values & Hval & _). specialize (Hsh values).
  unfold execute_batch. rewrite Hre. cbn [map_err]. pose proof Hb as (Hlen & _).
  rewrite (proj2 (Nat.ltb_ge _ _)) by done. rewrite Hval.
  destruct (io_share io values) as [files|]; [|done]. cbn [map_err]. rewrite Hsp, !Hsv.
  rewrite (parse_parties_same _ _ _ _ (parse_print _ _ Hok)). rewrite Hslots.
  assert (truncate_slots (length (pb_resting b)) (mk_batch_result
    (br_slots (expected_batch b) ++ replicate (MAX_MATCH_SLOTS - length (pb_resting b)) (mk_slot false 0 0))
    (co_remaining (run_circuit sort b)) (Some levels)) = expected_batch b) as Htr.
  { unfold truncate_slots. cbn [br_slots br_arriving_remaining br_public_levels].
    rewrite <-(batch_slots_length b), take_app_length.
    unfold run_circuit; cbn [co_remaining]. rewrite batch_remaining by done.
    rewrite <-Hl. by destruct (expected_batch b). }
  set (first := mk_batch_result _ _ _) in *. unfold MPC_PARTIES. cbn [replicate existsb].
  rewrite !bool_decide_eq_true_2 by done. cbn [negb orb]. rewrite Htr.
  destruct (mp_mesh m) eqn:Em; (do 2 eexists; split; [reflexivity|]; by split_and!).
Qed.

Lemma parse_parties_Ok k outputs rs :
  parse_parties k outputs = Ok rs → Forall2 (λ out r, parse_result out = Ok r) outputs rs.
Proof.
  revert k rs; induction outputs as [|out outputs IH]; intros k rs; simpl.
  { intros [= <-]. constructor. }
  intros (r & Hr%map_err_Ok & (rs' & Hrs & [= <-])%bind_Ok)%bind_Ok. constructor; eauto.
Qed.

(** A receipt means unanimity.  Whatever the parties print, a receipt is
    returned only if every party's output parses and all of them carry the very
    result in the receipt; a failed round is not counted, and a disagreement
    takes the mesh of parties down. *)
Theorem round_unanimous io b m m' r :
  execute_batch io b m = (m', r) →
  match r with
  | Ok receipt => ∃ files outputs res, io_serve io files = Ok outputs ∧ outputs ≠ []
      ∧ Forall (λ out, parse_result out = Ok res) outputs
      ∧ rc_result receipt = truncate_slots (length (pb_resting b)) res
      ∧ mp_rounds m' = wrapping_add (mp_rounds m) 1
  | Err e => mp_rounds m' = mp_rounds m ∧ (e = Disagreement → mp_mesh m' = false)
  end.
Proof.
  unfold execute_batch. destruct (io_recheck io); [|by intros [= <- <-]]. cbn [map_err].
  destruct (Nat.ltb _ _); [by intros [= <- <-]|].
  destruct (compatibility_private_values b) as [values|e] eqn:Ev.
  2:{ intros [= <- <-]. split; [done|]. intros ->. by apply compatibility_no_disagreement in Ev. }
  destruct (io_share io values) as [files|]; [|by intros [= <- <-]]. cbn [map_err].
  destruct (mp_mesh m) eqn:Em; [|destruct (io_spawn io) as [[]|e] eqn:Es; [|intros [= <- <-]; done]].
  all: destruct (io_serve io files) as [outputs|e] eqn:Ev'; [|by intros [= <- <-]].
  all: destruct (parse_parties 0 outputs) as [parsed|e] eqn:Ep; [|by intros [= <- <-]].
  all: destruct parsed as [|first parsed]; [by intros [= <- <-]|].
  all: destruct (existsb _ _) eqn:Ex; [by intros [= <- <-]|]; intros [= <- <-].
  all: exists files, outputs, first; apply parse_parties_Ok in Ep; split_and!; try done.
  all: try (intros ->; by inversion Ep).
  all: eapply Forall2_Forall_l; [exact Ep|]; apply Forall_forall; intros r Hr out Hout.
  all: destruct (decide (r = first)) as [->|Hne]; [done|].
  all: assert (existsb (λ r, negb (bool_decide (r = first))) (first :: parsed) = true) as E'.
  all: try (apply existsb_exists; exists r; rewrite <-list_elem_of_In; split; [done|]);
    try (by rewrite bool_decide_eq_false_2); congruence.
Qed.

End rounds.
