(* ===== verification/Book.v ===== *)
(** * The private book

    [PrivateBook] of [oclob-core/src/lib.rs]: two price-indexed maps of
    first-in-first-out queues, the set of admitted commitments and the
    sequence number of the last certified command, with every transition of
    the source: resting insertion, the one-slot and the eight-slot match
    application, cancellation and expiry. *)

From S2P Require Import Prelude BTree Bytes AppCrypto Orders Matching.
Open Scope string_scope.
Open Scope list_scope.
Open Scope Z_scope.

Definition PRIVATE_BOOK_DOMAIN : bytes := ascii_bytes "OCLOB:PRIVATE-BOOK:v2".
Definition PUBLIC_BOOK_DOMAIN : bytes := ascii_bytes "OCLOB:PUBLIC-BOOK:v2".
Definition EXPIRY_COMMITMENT_DOMAIN : bytes := ascii_bytes "OCLOB:EXPIRY-COMMITMENT:v2".

Record MpcMatchResult := mk_match_result {
  mr_matched : bool;
  mr_trade_price : Z;
  mr_trade_quantity : Z;
  mr_resting_remaining : Z;
  mr_arriving_remaining : Z
}.

Record PrivateMatchInput := mk_match_input {
  mi_resting_side : Side;
  mi_resting_price : Z;
  mi_resting_quantity : Z;
  mi_arriving_side : Side;
  mi_arriving_price : Z;
  mi_arriving_quantity : Z
}.

Record PublicFill := mk_fill {
  f_maker_order : OrderCommitment;
  f_taker_order : OrderCommitment;
  f_price : Z;
  f_quantity : Z
}.

Record PublicLevel := mk_public_level {
  lv_side : Side;
  lv_price : Z;
  lv_quantity : Z
}.

Record PublicBookSnapshot := mk_snapshot {
  ps_market_id : bytes;
  ps_sequence : Z;
  ps_levels : list PublicLevel;
  ps_state_root : Digest32
}.

Record BookTransition := mk_transition {
  bt_sequence : Z;
  bt_private_before_root : Digest32;
  bt_private_after_root : Digest32;
  bt_public_before_root : Digest32;
  bt_public_after : PublicBookSnapshot;
  bt_fill : option PublicFill;
  bt_fills : list PublicFill;
  bt_arriving_remaining : Z
}.

Record CancellationTransition := mk_cancellation_transition {
  ct_sequence : Z;
  ct_cancellation_commitment : OrderCommitment;
  ct_target_commitment : OrderCommitment;
  ct_released_quantity : Z;
  ct_private_before_root : Digest32;
  ct_private_after_root : Digest32;
  ct_public_before_root : Digest32;
  ct_public_after : PublicBookSnapshot
}.

Record ExpiryTransition := mk_expiry_transition {
  et_sequence : Z;
  et_expiry_commitment : OrderCommitment;
  et_cutoff : Z;
  et_expired_orders : list OrderCommitment;
  et_released_quantity : Z;
  et_private_before_root : Digest32;
  et_private_after_root : Digest32;
  et_public_before_root : Digest32;
  et_public_after : PublicBookSnapshot
}.

Record RestingOrder := mk_resting {
  ro_secret : SecretOrder;
  ro_authority : OrderAuthority;
  ro_remaining : Z;
  ro_sequence : Z
}.

(** The commitment a record is addressed by. *)
Definition ro_id (o : RestingOrder) : OrderCommitment := a_commitment (ro_authority o).

Definition with_remaining (o : RestingOrder) (r : Z) : RestingOrder :=
  mk_resting (ro_secret o) (ro_authority o) r (ro_sequence o).

(** [BTreeMap<u64, VecDeque<RestingOrder>>]. *)
Abbreviation BookSide := (list (Z * list RestingOrder)).

Record PrivateBook := mk_book {
  bk_market_id : bytes;
  bk_sequence : Z;
  bk_bids : BookSide;
  bk_asks : BookSide;
  bk_admitted : gset OrderCommitment
}.

#[export] Instance match_result_eq_dec : EqDecision MpcMatchResult.
Proof. solve_decision. Defined.
#[export] Instance fill_eq_dec : EqDecision PublicFill.
Proof. solve_decision. Defined.

(** [bids] and [asks] replaced, everything else kept. *)
Definition set_sides (bids asks : BookSide) (b : PrivateBook) : PrivateBook :=
  mk_book (bk_market_id b) (bk_sequence b) bids asks (bk_admitted b).

(** [self.admitted.insert(c); self.sequence = s;]. *)
Definition admit_command (c : OrderCommitment) (s : Z) (b : PrivateBook) : PrivateBook :=
  mk_book (bk_market_id b) s (bk_bids b) (bk_asks b) ({[c]} ∪ bk_admitted b).

(** ** Queries *)

Definition flat (l : BookSide) : list RestingOrder := concat (map snd l).

Definition book_new (market_id : bytes) : result OrderError PrivateBook :=
  _ ← fail_if (bad_market_id market_id) (Invalid "market id must contain 1-64 bytes");
  Ok (mk_book market_id 0 [] [] ∅).

(** The orders an arriving order may meet: asks from the lowest price, bids
    from the highest, each price in queue order. *)
Definition ordered_opposite (b : PrivateBook) (arriving : SecretOrder) : list RestingOrder :=
  match o_side arriving with
  | Buy => concat (map snd (bk_asks b))
  | Sell => concat (map snd (rev (bk_bids b)))
  end.

Definition live (now : Z) (o : RestingOrder) : bool := now <=? o_expires_at (ro_secret o).

Definition resting_input (o : RestingOrder) : PrivateRestingInput := {|
  ri_commitment := ro_id o;
  ri_side := o_side (ro_secret o);
  ri_price := o_limit_price (ro_secret o);
  ri_quantity := ro_remaining o |}.

Definition private_match_batch (b : PrivateBook) (arriving : SecretOrder) (now : Z) :
    result OrderError PrivateMatchBatch :=
  _ ← fail_if (negb (bool_decide (o_market_id arriving = bk_market_id b))) WrongMarket;
  let ordered := ordered_opposite b arriving in
  let resting := map resting_input
    (take MAX_MATCH_SLOTS (List.filter (live now) ordered)) in
  Ok {| pb_resting := resting;
        pb_arriving_side := o_side arriving;
        pb_arriving_price := o_limit_price arriving;
        pb_arriving_quantity := o_quantity arriving;
        pb_arriving_can_rest := bool_decide (o_time_in_force arriving = GoodTilCancelled) |}.

(** The loop of [exceeds_fixed_match_capacity]; [matches] counts the orders met. *)
Fixpoint exceeds_loop (side : Side) (limit remaining : Z) (matches : nat)
    (l : list RestingOrder) : bool :=
  match l with
  | [] => false
  | resting :: l =>
      let crossed := price_crosses side limit (o_limit_price (ro_secret resting)) in
      if negb crossed || (remaining =? 0) then false
      else
        let remaining := remaining - Z.min remaining (ro_remaining resting) in
        let matches := S matches in
        if Nat.ltb MAX_MATCH_SLOTS matches then true
        else exceeds_loop side limit remaining matches l
  end.

Definition exceeds_fixed_match_capacity (b : PrivateBook) (arriving : SecretOrder) (now : Z) :
    bool :=
  exceeds_loop (o_side arriving) (o_limit_price arriving) (o_quantity arriving) 0
    (List.filter (live now) (ordered_opposite b arriving)).

Definition best_opposite (b : PrivateBook) (arriving : SecretOrder) : option RestingOrder :=
  match o_side arriving with
  | Buy => '(_, queue) ← bt_first (bk_asks b); head queue
  | Sell => '(_, queue) ← bt_last (bk_bids b); head queue
  end.

Definition private_match_input (b : PrivateBook) (arriving : SecretOrder) :
    result OrderError (option PrivateMatchInput) :=
  _ ← fail_if (negb (bool_decide (o_market_id arriving = bk_market_id b))) WrongMarket;
  Ok (resting ← best_opposite b arriving;
      Some {| mi_resting_side := o_side (ro_secret resting);
              mi_resting_price := o_limit_price (ro_secret resting);
              mi_resting_quantity := ro_remaining resting;
              mi_arriving_side := o_side arriving;
              mi_arriving_price := o_limit_price arriving;
              mi_arriving_quantity := o_quantity arriving |}).

Definition expected_result (b : PrivateBook) (arriving : SecretOrder) : MpcMatchResult :=
  match best_opposite b arriving with
  | None => mk_match_result false 0 0 0 (o_quantity arriving)
  | Some resting =>
      let crossed := price_crosses (o_side arriving) (o_limit_price arriving)
        (o_limit_price (ro_secret resting)) in
      let quantity := if crossed then Z.min (o_quantity arriving) (ro_remaining resting) else 0 in
      {| mr_matched := crossed;
         mr_trade_price := if crossed then o_limit_price (ro_secret resting) else 0;
         mr_trade_quantity := quantity;
         mr_resting_remaining := ro_remaining resting - quantity;
         mr_arriving_remaining := o_quantity arriving - quantity |}
  end.

Definition level (side : Side) (price : Z) (queue : list RestingOrder) : PublicLevel :=
  mk_public_level side price (wrapping_sum (map ro_remaining queue)).

Definition check_admission (b : PrivateBook) (order : SecretOrder) (c : OrderCommitment)
    (certificate_sequence : Z) : result OrderError () :=
  _ ← fail_if (negb (bool_decide (o_market_id order = bk_market_id b))) WrongMarket;
  _ ← fail_if (bool_decide (c ∈ bk_admitted b)) Replay;
  fail_if (negb (certificate_sequence =? wrapping_add (bk_sequence b) 1))
    (Invalid "certificate sequence is not next").

Definition find_record (bids asks : BookSide) (c : OrderCommitment) : option RestingOrder :=
  snd <$> list_find (λ o, ro_id o = c) (flat bids ++ flat asks).

Definition expired_commitments (b : PrivateBook) (cutoff : Z) : list OrderCommitment :=
  sort_by oleb (map ro_id
    (List.filter (λ o, o_expires_at (ro_secret o) <? cutoff)
      (flat (bk_bids b) ++ flat (bk_asks b)))).

(** ** Updates *)

(** [book.entry(price).or_default().push_back(record)] on the record's side. *)
Definition insert_record (record : RestingOrder) (b : PrivateBook) : PrivateBook :=
  let push := bt_entry (o_limit_price (ro_secret record)) [] (λ queue, queue ++ [record]) in
  match o_side (ro_secret record) with
  | Buy => set_sides (push (bk_bids b)) (bk_asks b) b
  | Sell => set_sides (bk_bids b) (push (bk_asks b)) b
  end.

(** The queue holding [c], with its record removed or its remainder replaced. *)
Fixpoint queue_update (c : OrderCommitment) (remaining : Z) (queue : list RestingOrder) :
    option (list RestingOrder) :=
  match queue with
  | [] => None
  | o :: queue =>
      if decide (ro_id o = c)
      then Some (if remaining =? 0 then queue else with_remaining o remaining :: queue)
      else cons o <$> queue_update c remaining queue
  end.

(** One side: the first queue that holds [c]; an emptied queue is removed. *)
Fixpoint update_side (c : OrderCommitment) (remaining : Z) (l : BookSide) : option BookSide :=
  match l with
  | [] => None
  | (price, queue) :: l =>
      match queue_update c remaining queue with
      | Some [] => Some l
      | Some queue => Some ((price, queue) :: l)
      | None => cons (price, queue) <$> update_side c remaining l
      end
  end.

Definition update_remainder (c : OrderCommitment) (remaining : Z) :
    method PrivateBook OrderError () := λ b,
  match update_side c remaining (bk_bids b) with
  | Some bids => (set_sides bids (bk_asks b) b, Ok ())
  | None =>
      match update_side c remaining (bk_asks b) with
      | Some asks => (set_sides (bk_bids b) asks b, Ok ())
      | None => (b, Err InvalidMpcResult)
      end
  end.

Definition remove_by_commitment (c : OrderCommitment) : method PrivateBook OrderError () := λ b,
  match update_remainder c 0 b with
  | (b', Ok u) => (b', Ok u)
  | (b', Err _) => (b', Err UnknownOrder)
  end.

(** [queue.pop_front()], dropping an emptied queue. *)
Definition pop_at (price : Z) (l : BookSide) : BookSide :=
  match bt_get price l with
  | None => l
  | Some queue =>
      match tail queue with
      | [] => bt_remove price l
      | queue => bt_insert price queue l
      end
  end.

Definition remove_best (arriving : SecretOrder) (b : PrivateBook) : PrivateBook :=
  match o_side arriving with
  | Buy => match bt_first (bk_asks b) with
           | Some (price, _) => set_sides (bk_bids b) (pop_at price (bk_asks b)) b
           | None => b
           end
  | Sell => match bt_last (bk_bids b) with
            | Some (price, _) => set_sides (pop_at price (bk_bids b)) (bk_asks b) b
            | None => b
            end
  end.

(** [best_opposite_mut(arriving).remaining = r]. *)
Definition set_front (r : Z) (queue : list RestingOrder) : list RestingOrder :=
  match queue with [] => [] | o :: queue => with_remaining o r :: queue end.

Definition set_best (arriving : SecretOrder) (r : Z) (b : PrivateBook) : PrivateBook :=
  match o_side arriving with
  | Buy => match bt_first (bk_asks b) with
           | Some (price, q) => set_sides (bk_bids b) (bt_insert price (set_front r q) (bk_asks b)) b
           | None => b
           end
  | Sell => match bt_last (bk_bids b) with
            | Some (price, q) => set_sides (bt_insert price (set_front r q) (bk_bids b)) (bk_asks b) b
            | None => b
            end
  end.

(** ** Commitments to the book and the transitions *)

Section book.
Context `{Crypto}.

Definition private_root (b : PrivateBook) : Digest32 :=
  sha256 (PRIVATE_BOOK_DOMAIN ++ put_bytes (bk_market_id b) ++ u64_be (bk_sequence b)
    ++ concat (map (λ l : BookSide, concat (map (λ '(price, queue),
         u64_be price ++ concat (map (λ o,
           d_bytes (ro_id o) ++ u64_be (ro_remaining o) ++ u64_be (ro_sequence o)) queue)) l))
       [bk_bids b; bk_asks b])).

Definition public_root (market_id : bytes) (sequence : Z) (levels : list PublicLevel) : Digest32 :=
  sha256 (PUBLIC_BOOK_DOMAIN ++ put_bytes market_id ++ u64_be sequence
    ++ concat (map (λ l, byte_of (side_wire (lv_side l)) :: u64_be (lv_price l)
         ++ u64_be (lv_quantity l)) levels)).

Definition public_snapshot (b : PrivateBook) : PublicBookSnapshot :=
  let levels := map (λ '(price, queue), level Buy price queue) (rev (bk_bids b))
    ++ map (λ '(price, queue), level Sell price queue) (bk_asks b) in
  {| ps_market_id := bk_market_id b;
     ps_sequence := bk_sequence b;
     ps_levels := levels;
     ps_state_root := public_root (bk_market_id b) (bk_sequence b) levels |}.

Definition expiry_commitment (market_id : bytes) (cutoff : Z)
    (expired_orders : list OrderCommitment) : OrderCommitment :=
  let orders := sort_by oleb expired_orders in
  sha256 (EXPIRY_COMMITMENT_DOMAIN ++ put_bytes market_id ++ u64_be cutoff
    ++ u64_be (Z.of_nat (length orders)) ++ concat (map d_bytes orders)).

Definition insert_resting (order : SecretOrder) (authority : OrderAuthority)
    (certificate_sequence now : Z) : method PrivateBook OrderError () :=
  b ← self;
  _ ← try (authority_verify authority order now);
  _ ← try (check_admission b order (a_commitment authority) certificate_sequence);
  _ ← try (fail_if (negb (bool_decide (o_time_in_force order = GoodTilCancelled)))
    (Invalid "only GTC orders can rest"));
  set_self (admit_command (a_commitment authority) certificate_sequence
    (insert_record (mk_resting order authority (o_quantity order) certificate_sequence) b)).

(** The remainder of an arriving order rests when it is good-til-cancelled. *)
Definition rest_arriving (arriving : SecretOrder) (authority : OrderAuthority)
    (certificate_sequence remaining : Z) (b : PrivateBook) : PrivateBook :=
  if (0 <? remaining) && bool_decide (o_time_in_force arriving = GoodTilCancelled)
  then insert_record (mk_resting arriving authority remaining certificate_sequence) b
  else b.

Definition apply_mpc_result (arriving : SecretOrder) (authority : OrderAuthority)
    (certificate_sequence now : Z) (result : MpcMatchResult) :
    method PrivateBook OrderError BookTransition :=
  b ← self;
  _ ← try (authority_verify authority arriving now);
  _ ← try (check_admission b arriving (a_commitment authority) certificate_sequence);
  let private_before_root := private_root b in
  let public_before_root := ps_state_root (public_snapshot b) in
  _ ← try (fail_if (negb (bool_decide (result = expected_result b arriving))) InvalidMpcResult);
  fill ← (if mr_matched result then
      resting ← try (ok_or (best_opposite b arriving) InvalidMpcResult);
      _ ← set_self (if mr_resting_remaining result =? 0 then remove_best arriving b
        else set_best arriving (mr_resting_remaining result) b);
      mret (Some {| f_maker_order := ro_id resting;
                    f_taker_order := a_commitment authority;
                    f_price := mr_trade_price result;
                    f_quantity := mr_trade_quantity result |})
    else mret None);
  b ← self;
  let b := admit_command (a_commitment authority) certificate_sequence
    (rest_arriving arriving authority certificate_sequence (mr_arriving_remaining result) b) in
  _ ← set_self b;
  mret {| bt_sequence := certificate_sequence;
          bt_private_before_root := private_before_root;
          bt_private_after_root := private_root b;
          bt_public_before_root := public_before_root;
          bt_public_after := public_snapshot b;
          bt_fill := fill;
          bt_fills := option_list fill;
          bt_arriving_remaining := mr_arriving_remaining result |}.

(** The loop of [apply_mpc_batch_result] over resting orders and their slots. *)
Fixpoint apply_slots (taker : OrderCommitment)
    (l : list (PrivateRestingInput * MpcSlotResult)) :
    method PrivateBook OrderError (list PublicFill) :=
  match l with
  | [] => mret []
  | (resting, slot) :: l =>
      if slot_matched slot then
        resting_remaining ← try (ok_or
          (checked_sub (ri_quantity resting) (slot_trade_quantity slot)) InvalidMpcResult);
        _ ← update_remainder (ri_commitment resting) resting_remaining;
        fills ← apply_slots taker l;
        mret ({| f_maker_order := ri_commitment resting;
                 f_taker_order := taker;
                 f_price := slot_trade_price slot;
                 f_quantity := slot_trade_quantity slot |} :: fills)
      else apply_slots taker l
  end.

Definition apply_mpc_batch_result (arriving : SecretOrder) (authority : OrderAuthority)
    (certificate_sequence now : Z) (result : MpcBatchResult) :
    method PrivateBook OrderError BookTransition :=
  b ← self;
  _ ← try (authority_verify authority arriving now);
  _ ← try (check_admission b arriving (a_commitment authority) certificate_sequence);
  batch ← try (private_match_batch b arriving now);
  _ ← try (fail_if (negb (bool_decide (result = expected_batch batch))) InvalidMpcResult);
  let private_before_root := private_root b in
  let public_before_root := ps_state_root (public_snapshot b) in
  fills ← apply_slots (a_commitment authority) (zip (pb_resting batch) (br_slots result));
  b ← self;
  let b := admit_command (a_commitment authority) certificate_sequence
    (rest_arriving arriving authority certificate_sequence (br_arriving_remaining result) b) in
  _ ← set_self b;
  mret {| bt_sequence := certificate_sequence;
          bt_private_before_root := private_before_root;
          bt_private_after_root := private_root b;
          bt_public_before_root := public_before_root;
          bt_public_after := public_snapshot b;
          bt_fill := head fills;
          bt_fills := fills;
          bt_arriving_remaining := br_arriving_remaining result |}.

Definition apply_cancellation (cancellation : SecretCancellation) (certificate_sequence : Z) :
    method PrivateBook OrderError CancellationTransition :=
  b ← self;
  _ ← try (fail_if (negb (certificate_sequence =? wrapping_add (bk_sequence b) 1))
    (Invalid "certificate sequence is not next"));
  let command := cancellation_commitment cancellation in
  _ ← try (fail_if (bool_decide (command ∈ bk_admitted b)) Replay);
  record ← try (ok_or (find_record (bk_bids b) (bk_asks b) (x_target cancellation)) UnknownOrder);
  _ ← try (fail_if (negb (bool_decide (o_cancellation_secret_digest (ro_secret record)
      = cancellation_digest (x_secret cancellation)))) InvalidCancellation);
  let private_before_root := private_root b in
  let public_before_root := ps_state_root (public_snapshot b) in
  _ ← remove_by_commitment (x_target cancellation);
  b ← self;
  let b := admit_command command certificate_sequence b in
  _ ← set_self b;
  mret {| ct_sequence := certificate_sequence;
          ct_cancellation_commitment := command;
          ct_target_commitment := x_target cancellation;
          ct_released_quantity := ro_remaining record;
          ct_private_before_root := private_before_root;
          ct_private_after_root := private_root b;
          ct_public_before_root := public_before_root;
          ct_public_after := public_snapshot b |}.

(** The loop of [apply_expiry], accumulating the released quantity. *)
Fixpoint expire_loop (released_quantity : Z) (l : list OrderCommitment) :
    method PrivateBook OrderError Z :=
  match l with
  | [] => mret released_quantity
  | c :: l =>
      b ← self;
      record ← try (ok_or (find_record (bk_bids b) (bk_asks b) c) UnknownOrder);
      released_quantity ← try (ok_or (checked_add released_quantity (ro_remaining record))
        (Invalid "expired quantity overflowed"));
      _ ← remove_by_commitment c;
      expire_loop released_quantity l
  end.

Definition apply_expiry (cutoff : Z) (command : OrderCommitment) (certificate_sequence : Z) :
    method PrivateBook OrderError ExpiryTransition :=
  b ← self;
  _ ← try (fail_if (negb (certificate_sequence =? wrapping_add (bk_sequence b) 1))
    (Invalid "certificate sequence is not next"));
  _ ← try (fail_if (bool_decide (command ∈ bk_admitted b)) Replay);
  let expired_orders := expired_commitments b cutoff in
  _ ← try (fail_if (Nat.eqb (length expired_orders) 0
      || negb (bool_decide (command = expiry_commitment (bk_market_id b) cutoff expired_orders)))
    (Invalid "expiry command is empty or non-canonical"));
  let private_before_root := private_root b in
  let public_before_root := ps_state_root (public_snapshot b) in
  released_quantity ← expire_loop 0 expired_orders;
  b ← self;
  let b := admit_command command certificate_sequence b in
  _ ← set_self b;
  mret {| et_sequence := certificate_sequence;
          et_expiry_commitment := command;
          et_cutoff := cutoff;
          et_expired_orders := expired_orders;
          et_released_quantity := released_quantity;
          et_private_before_root := private_before_root;
          et_private_after_root := private_root b;
          et_public_before_root := public_before_root;
          et_public_after := public_snapshot b |}.

End book.
