(* ===== verification/BookInv.v ===== *)
(** * Invariant and abstraction of the private book

    [book_wf] is the invariant of [PrivateBook]; [book_map] is its abstraction,
    the finite map from commitments to resting records.  The queues of a
    well-formed book are determined by that map (price, then sequence), so the
    transitions are specified on it.  This file relates the concrete updates
    ([update_remainder], [insert_record], [remove_best], ...) to map updates. *)

From S2P Require Import Prelude BTree Bytes AppCrypto Orders Matching Book.
Open Scope string_scope.
Open Scope list_scope.
Open Scope Z_scope.

Definition book_orders (b : PrivateBook) : list RestingOrder :=
  flat (bk_bids b) ++ flat (bk_asks b).

Definition ids (l : list RestingOrder) : list OrderCommitment := map ro_id l.

(** The abstraction function. *)
Definition to_map (l : list RestingOrder) : gmap OrderCommitment RestingOrder :=
  list_to_map (map (λ o, (ro_id o, o)) l).

Definition book_map (b : PrivateBook) : gmap OrderCommitment RestingOrder :=
  to_map (book_orders b).

(** One price level: a non-empty queue in arrival order. *)
Definition level_ok (P : Z → RestingOrder → Prop) (e : Z * list RestingOrder) : Prop :=
  e.2 ≠ [] ∧ Forall (P e.1) e.2
  ∧ StronglySorted (λ a c, ro_sequence a < ro_sequence c) e.2.

Definition side_ok (P : Z → RestingOrder → Prop) (l : BookSide) : Prop :=
  bt_ok l ∧ Forall (level_ok P) l.

Section invariant.
Context `{Crypto}.

(** A record resting at price [p] of side [s] in a book with the given market
    and last sequence. *)
Definition resting_ok (market : bytes) (sequence : Z) (s : Side) (p : Z) (o : RestingOrder) :
    Prop :=
  order_valid (ro_secret o) = true
  ∧ o_side (ro_secret o) = s ∧ o_limit_price (ro_secret o) = p
  ∧ o_market_id (ro_secret o) = market
  ∧ o_time_in_force (ro_secret o) = GoodTilCancelled
  ∧ ro_id o = commitment (ro_secret o)
  ∧ 0 < ro_remaining o ≤ o_quantity (ro_secret o)
  ∧ 0 < ro_sequence o ≤ sequence.

Record book_wf (b : PrivateBook) : Prop := {
  wf_bids : side_ok (resting_ok (bk_market_id b) (bk_sequence b) Buy) (bk_bids b);
  wf_asks : side_ok (resting_ok (bk_market_id b) (bk_sequence b) Sell) (bk_asks b);
  wf_unique : NoDup (ids (book_orders b));
  wf_admitted : ∀ c, c ∈ ids (book_orders b) → c ∈ bk_admitted b;
  wf_sequence : 0 ≤ bk_sequence b ≤ u64_max
}.

End invariant.

(** ** Records by commitment *)

Section by_id.
Implicit Types (l q : list RestingOrder) (o : RestingOrder) (c : OrderCommitment).

Lemma with_remaining_id o r : ro_id (with_remaining o r) = ro_id o.
Proof. done. Qed.

Lemma elem_of_ids l c : c ∈ ids l ↔ ∃ o, o ∈ l ∧ ro_id o = c.
Proof. unfold ids. rewrite list_elem_of_fmap. naive_solver. Qed.

Lemma ids_app l k : ids (l ++ k) = ids l ++ ids k.
Proof. apply map_app. Qed.

Lemma to_map_cons o l : to_map (o :: l) = <[ro_id o := o]> (to_map l).
Proof. done. Qed.

Lemma to_map_None l c : to_map l !! c = None ↔ c ∉ ids l.
Proof.
  induction l as [|o l IH]; [unfold to_map; simpl; rewrite lookup_empty; set_solver|].
  rewrite to_map_cons, lookup_insert_None, IH. simpl. rewrite not_elem_of_cons. naive_solver.
Qed.

Lemma to_map_Some l c o : NoDup (ids l) → to_map l !! c = Some o ↔ o ∈ l ∧ ro_id o = c.
Proof.
  induction l as [|o' l IH]; simpl; [unfold to_map; simpl; rewrite lookup_empty; set_solver|].
  rewrite NoDup_cons. intros [Hn Hl]. rewrite to_map_cons, lookup_insert_Some, IH, elem_of_cons by done.
  split; [naive_solver|]. intros [[->|Hin] <-]; [by left|right].
  split; [|done]. intros E. apply Hn. rewrite E. by apply list_elem_of_fmap_2.
Qed.

Lemma to_map_in l c o : to_map l !! c = Some o → o ∈ l ∧ ro_id o = c.
Proof.
  induction l as [|o' l IH]; simpl; [unfold to_map; simpl; by rewrite lookup_empty|].
  rewrite to_map_cons, lookup_insert_Some, elem_of_cons. naive_solver.
Qed.

Lemma to_map_perm l k : NoDup (ids l) → l ≡ₚ k → to_map l = to_map k.
Proof.
  intros Hl Hp. apply map_eq; intros c. apply option_eq; intros o.
  rewrite !to_map_Some; [by rewrite Hp|by unfold ids; rewrite <-Hp|done].
Qed.

Lemma find_record_map b c : find_record (bk_bids b) (bk_asks b) c = book_map b !! c.
Proof.
  unfold find_record, book_map, book_orders. generalize (flat (bk_bids b) ++ flat (bk_asks b)) as l.
  induction l as [|o l IH]; [done|]. rewrite to_map_cons; simpl. case_decide as E; simpl.
  - by rewrite E, lookup_insert_eq.
  - rewrite lookup_insert_ne, <-IH by done. by destruct (list_find _ l) as [[]|].
Qed.

Lemma queue_update_Some c r q q' :
  queue_update c r q = Some q' →
  ∃ q1 o q2, q = q1 ++ o :: q2 ∧ ro_id o = c
    ∧ q' = q1 ++ (if r =? 0 then [] else [with_remaining o r]) ++ q2.
Proof.
  revert q'; induction q as [|o q IH]; intros q'; simpl; [done|]. case_decide as E.
  - intros [= <-]. exists [], o, q. split_and!; [done..|]. by destruct (r =? 0).
  - intros (q'' & Hq & ->)%fmap_Some. destruct (IH _ Hq) as (q1 & o' & q2 & -> & ? & ->).
    by exists (o :: q1), o', q2.
Qed.

Lemma queue_update_None c r q : queue_update c r q = None ↔ c ∉ ids q.
Proof.
  induction q as [|o q IH]; simpl; [set_solver|]. case_decide as E.
  - split; [done|]. set_solver.
  - rewrite fmap_None, IH, not_elem_of_cons. naive_solver.
Qed.

Lemma queue_update_app c r q1 q2 :
  queue_update c r (q1 ++ q2) =
    match queue_update c r q1 with
    | Some q' => Some (q' ++ q2)
    | None => app q1 <$> queue_update c r q2
    end.
Proof.
  induction q1 as [|o q1 IH]; simpl; [by destruct (queue_update c r q2)|].
  case_decide; [by destruct (r =? 0)|]. rewrite IH.
  destruct (queue_update c r q1); simpl; [done|]. by destruct (queue_update c r q2).
Qed.

Lemma flat_cons p q (l : BookSide) : flat ((p, q) :: l) = q ++ flat l.
Proof. done. Qed.

Lemma flat_app (l1 l2 : BookSide) : flat (l1 ++ l2) = flat l1 ++ flat l2.
Proof. unfold flat. by rewrite map_app, concat_app. Qed.

(** Updating a side is updating the concatenation of its queues. *)
Lemma flat_update_side c r (l : BookSide) : flat <$> update_side c r l = queue_update c r (flat l).
Proof.
  induction l as [|[p q] l IH]; [done|]. rewrite flat_cons, queue_update_app; simpl.
  destruct (queue_update c r q) as [[|o q']|]; [done..|].
  rewrite <-IH. by destruct (update_side c r l).
Qed.

Lemma update_side_None c r (l : BookSide) : update_side c r l = None ↔ c ∉ ids (flat l).
Proof.
  rewrite <-(queue_update_None c r), <-flat_update_side.
  by destruct (update_side c r l).
Qed.

End by_id.

(** ** Sides *)

Section sides.
Implicit Types (P Q : Z → RestingOrder → Prop) (l : BookSide).

Lemma side_ok_impl P Q l :
  side_ok P l → (∀ p o, o ∈ flat l → P p o → Q p o) → side_ok Q l.
Proof.
  intros [Hok HF] HPQ; split; [done|]. clear Hok. revert HPQ.
  induction HF as [|[p q] l (Hne & Hq & Hs) HF IH]; intros HPQ; constructor.
  - split_and!; [done| |done]. simpl in *. rewrite Forall_forall in *.
    intros o Ho. apply HPQ; [|by apply Hq]. rewrite flat_cons, elem_of_app. by left.
  - apply IH. intros p' o Ho. apply HPQ. rewrite flat_cons, elem_of_app. by right.
Qed.

Lemma side_ok_flat P l o : side_ok P l → o ∈ flat l → ∃ p, P p o.
Proof.
  intros [_ HF]. induction HF as [|[p q] l (_ & Hq & _) HF IH]; [by intros ?%elem_of_nil|].
  rewrite flat_cons, elem_of_app. intros [Hin|]; [|by auto].
  rewrite Forall_forall in Hq. eauto.
Qed.

Lemma update_side_keys c r l l' :
  update_side c r l = Some l' → ∀ k, k ∈ bt_keys l' → k ∈ bt_keys l.
Proof.
  revert l'; induction l as [|[p q] l IH]; intros l'; simpl; [done|].
  destruct (queue_update c r q) as [[|o q']|].
  - intros [= <-]. set_solver.
  - intros [= <-]; simpl. set_solver.
  - intros (l'' & Hu & ->)%fmap_Some k; simpl. rewrite !elem_of_cons. naive_solver.
Qed.

Lemma sorted_update c r q q' :
  StronglySorted (λ a d, ro_sequence a < ro_sequence d) q → queue_update c r q = Some q' →
  StronglySorted (λ a d, ro_sequence a < ro_sequence d) q'.
Proof.
  intros Hs; revert q'; induction Hs as [|o q Hs IH Hlb]; intros q'; simpl; [done|].
  case_decide as E.
  - intros [= <-]. destruct (r =? 0); [done|]. by constructor.
  - intros (q'' & Hu & ->)%fmap_Some. constructor; [by apply IH|].
    apply queue_update_Some in Hu as (q1 & o' & q2 & -> & _ & ->).
    rewrite !Forall_app, Forall_cons in *. destruct Hlb as (? & ? & ?).
    split_and!; [done| |done]. destruct (r =? 0); [constructor|]. by repeat constructor.
Qed.

Lemma side_ok_update P c r l l' :
  side_ok P l → update_side c r l = Some l' →
  (∀ p o, o ∈ flat l → ro_id o = c → P p o → r ≠ 0 → P p (with_remaining o r)) →
  side_ok P l'.
Proof.
  intros [Hok HF] Hu HP. split.
  - clear HF HP. revert l' Hu. induction l as [|[p q] l IH]; intros l' Hu; simpl in Hu; [done|].
    apply bt_ok_cons in Hok as [Hok Hlb].
    destruct (queue_update c r q) as [[|o q']|].
    + by simplify_eq.
    + simplify_eq. by apply bt_ok_cons.
    + apply fmap_Some in Hu as (l'' & Hu & ->). apply bt_ok_cons. split; [by apply IH|].
      rewrite Forall_forall in *. intros [k v] Hin; simpl.
      assert (k ∈ bt_keys l) as ([k' v'] & -> & Hk)%list_elem_of_fmap.
      { apply (update_side_keys c r l l''); [done|].
        apply list_elem_of_fmap. by exists (k, v). }
      apply (Hlb _ Hk).
  - clear Hok. revert l' Hu HP.
    induction HF as [|[p q] l (Hne & Hq & Hs) HF IH]; intros l' Hu HP; simpl in *; [done|].
    destruct (queue_update c r q) as [q'|] eqn:Eq.
    + pose proof (sorted_update _ _ _ _ Hs Eq) as Hs'.
      apply queue_update_Some in Eq as (q1 & o & q2 & -> & Ho & ->).
      assert (Forall (P p) (q1 ++ (if r =? 0 then [] else [with_remaining o r]) ++ q2)) as Hq'.
      { rewrite !Forall_app, Forall_cons in *. destruct Hq as (? & ? & ?).
        split_and!; [done| |done]. destruct (Z.eqb_spec r 0) as [|Hr]; [constructor|].
        constructor; [|constructor]. apply HP; [|done..].
        rewrite flat_cons, !elem_of_app, elem_of_cons. auto. }
      remember (q1 ++ (if r =? 0 then [] else [with_remaining o r]) ++ q2) as q'.
      destruct q' as [|o' q']; injection Hu as <-; [done|].
      constructor; [|done]. by split_and!.
    + apply fmap_Some in Hu as (l'' & Hu & ->). constructor; [done|].
      apply IH; [done|]. intros p' o Ho. apply HP. rewrite flat_cons, elem_of_app. by right.
Qed.

(** Where a record lands when it is pushed at its price. *)
Lemma push_split p o l :
  bt_ok l → ∃ l1 q l2,
    bt_entry p [] (λ queue, queue ++ [o]) l = l1 ++ (p, q ++ [o]) :: l2
    ∧ (l = l1 ++ (p, q) :: l2 ∨ (q = [] ∧ l = l1 ++ l2)).
Proof.
  intros Hok. unfold bt_entry. destruct (bt_get p l) as [q|] eqn:E; simpl.
  - destruct (bt_get_split _ _ _ E) as (l1 & l2 & ->). exists l1, q, l2.
    split; [by apply bt_insert_split|by left].
  - destruct (bt_insert_fresh p [o] l Hok E) as (l1 & l2 & -> & -> & _).
    exists l1, [], l2. split; [done|by right].
Qed.

Lemma flat_push p o l : bt_ok l →
  flat (bt_entry p [] (λ queue, queue ++ [o]) l) ≡ₚ o :: flat l.
Proof.
  intros Hok. destruct (push_split p o l Hok) as (l1 & q & l2 & -> & [->|[-> ->]]);
    rewrite !flat_app, !flat_cons.
  - rewrite <-!app_assoc; simpl. rewrite <-!Permutation_middle. done.
  - simpl. by rewrite Permutation_middle.
Qed.

Lemma side_ok_push P p o l :
  side_ok P l → P p o → (∀ o', o' ∈ flat l → ro_sequence o' < ro_sequence o) →
  side_ok P (bt_entry p [] (λ queue, queue ++ [o]) l).
Proof.
  intros [Hok HF] HP Hseq. split; [by apply bt_insert_ok|].
  destruct (push_split p o l Hok) as (l1 & q & l2 & -> & Hl).
  assert (Forall (level_ok P) l1 ∧ Forall (level_ok P) l2 ∧ Forall (P p) q
    ∧ StronglySorted (λ a c, ro_sequence a < ro_sequence c) q
    ∧ ∀ o', o' ∈ q → o' ∈ flat l) as (H1 & H2 & Hq & Hs & Hin).
  { destruct Hl as [->|[-> ->]].
    - rewrite Forall_app, Forall_cons in HF. destruct HF as (? & (? & ? & ?) & ?).
      split_and!; [done..|]. intros o'. rewrite flat_app, flat_cons, !elem_of_app. auto.
    - rewrite Forall_app in HF. destruct HF. split_and!; [done..|constructor|constructor|].
      by intros o' ?%elem_of_nil. }
  rewrite Forall_app, Forall_cons. split_and!; [done| |done]. split_and!; simpl.
  - by destruct q.
  - rewrite Forall_app, Forall_singleton. done.
  - apply StronglySorted_app. split_and!; [|done|repeat constructor].
    intros x y Hx ->%list_elem_of_singleton. auto.
Qed.

End sides.

(** ** The book as a finite map *)

(** The record under [c] gets remainder [r]; a zero remainder removes it. *)
Definition set_left (c : OrderCommitment) (o : RestingOrder) (r : Z)
    (m : gmap OrderCommitment RestingOrder) : gmap OrderCommitment RestingOrder :=
  if r =? 0 then delete c m else <[c := with_remaining o r]> m.

Definition same_frame (b b' : PrivateBook) : Prop :=
  bk_market_id b' = bk_market_id b ∧ bk_sequence b' = bk_sequence b
  ∧ bk_admitted b' = bk_admitted b.

#[export] Instance same_frame_preorder : PreOrder same_frame.
Proof.
  split; [done|]. intros b1 b2 b3 (? & ? & ?) (? & ? & ?).
  split_and!; congruence.
Qed.

Lemma queue_update_map c r l l' :
  NoDup (ids l) → queue_update c r l = Some l' →
  ∃ o, to_map l !! c = Some o ∧ to_map l' = set_left c o r (to_map l)
    ∧ NoDup (ids l') ∧ ∀ d, d ∈ ids l' → d ∈ ids l.
Proof.
  intros Hnd (l1 & o & l2 & -> & <- & ->)%queue_update_Some.
  assert ((l1 ++ o :: l2) ≡ₚ (o :: l1 ++ l2)) as Hp by by rewrite Permutation_middle.
  assert ((ro_id o ∉ ids (l1 ++ l2)) ∧ NoDup (ids (l1 ++ l2))) as [Hn Hnd'].
  { unfold ids in *. rewrite Hp in Hnd. by apply NoDup_cons in Hnd. }
  exists o. rewrite (to_map_perm _ _ Hnd Hp), to_map_cons, lookup_insert_eq.
  pose proof (proj2 (to_map_None _ _) Hn) as HNone. unfold set_left.
  destruct (Z.eqb_spec r 0) as [->|Hr]; simpl.
  - rewrite delete_insert_id by done. split_and!; [done..|]. intros d. unfold ids. rewrite Hp. set_solver.
  - assert ((l1 ++ with_remaining o r :: l2) ≡ₚ (with_remaining o r :: l1 ++ l2)) as Hp'
      by by rewrite Permutation_middle.
    assert (NoDup (ids (l1 ++ with_remaining o r :: l2))) as Hnd2.
    { unfold ids in *. rewrite Hp'. by constructor. }
    rewrite (to_map_perm _ _ Hnd2 Hp'), to_map_cons, insert_insert_eq.
    split_and!; [done..|]. intros d. unfold ids. by rewrite Hp, Hp'.
Qed.

Lemma set_sides_id b : set_sides (bk_bids b) (bk_asks b) b = b.
Proof. by destruct b. Qed.

Lemma update_remainder_orders c r b :
  update_remainder c r b =
    match queue_update c r (book_orders b) with
    | Some _ => ((update_remainder c r b).1, Ok ())
    | None => (b, Err InvalidMpcResult)
    end
  ∧ (∀ l, queue_update c r (book_orders b) = Some l → book_orders (update_remainder c r b).1 = l).
Proof.
  unfold update_remainder, book_orders. rewrite queue_update_app, <-!flat_update_side.
  destruct (update_side c r (bk_bids b)) as [bids|] eqn:Eb; simpl; [naive_solver|].
  destruct (update_side c r (bk_asks b)) as [asks|] eqn:Ea; simpl; naive_solver.
Qed.

Lemma elem_of_book_orders b o :
  o ∈ book_orders b ↔ o ∈ flat (bk_bids b) ∨ o ∈ flat (bk_asks b).
Proof. unfold book_orders. apply elem_of_app. Qed.

Section updates.
Context `{Crypto}.
Implicit Types (b : PrivateBook).

Lemma book_map_Some b c o :
  book_wf b → book_map b !! c = Some o ↔ o ∈ book_orders b ∧ ro_id o = c.
Proof. intros Hwf. apply to_map_Some, Hwf. Qed.

Lemma wf_resting b o :
  book_wf b → o ∈ book_orders b →
  ∃ s p, resting_ok (bk_market_id b) (bk_sequence b) s p o.
Proof.
  intros Hwf [Ho|Ho]%elem_of_book_orders.
  - destruct (side_ok_flat _ _ _ (wf_bids b Hwf) Ho) as [p ?]. eauto.
  - destruct (side_ok_flat _ _ _ (wf_asks b Hwf) Ho) as [p ?]. eauto.
Qed.

(** Each record rests on its own side. *)
Lemma wf_side b o :
  book_wf b → o ∈ book_orders b →
  o ∈ flat (match o_side (ro_secret o) with Buy => bk_bids b | Sell => bk_asks b end).
Proof.
  intros Hwf [Ho|Ho]%elem_of_book_orders.
  - by destruct (side_ok_flat _ _ _ (wf_bids b Hwf) Ho) as (p & _ & -> & _).
  - by destruct (side_ok_flat _ _ _ (wf_asks b Hwf) Ho) as (p & _ & -> & _).
Qed.

Lemma resting_ok_left m s sd p o r :
  0 ≤ r ≤ o_quantity (ro_secret o) → resting_ok m s sd p o → r ≠ 0 →
  resting_ok m s sd p (with_remaining o r).
Proof.
  intros Hr (? & ? & ? & ? & ? & ? & ? & ?) ?. unfold resting_ok; simpl.
  split_and!; try done; lia.
Qed.

(** [update_remainder] changes exactly the record it names. *)
Lemma update_remainder_spec b c r o :
  book_wf b → book_map b !! c = Some o → 0 ≤ r ≤ o_quantity (ro_secret o) →
  ∃ b', update_remainder c r b = (b', Ok ()) ∧ book_wf b'
    ∧ book_map b' = set_left c o r (book_map b) ∧ same_frame b b'.
Proof.
  intros Hwf Hm Hr. destruct (update_remainder_orders c r b) as [Hres Hord].
  destruct (queue_update c r (book_orders b)) as [l|] eqn:Eq.
  2:{ apply queue_update_None, to_map_None in Eq. unfold book_map in Hm. congruence. }
  specialize (Hord l eq_refl). rewrite Hres. eexists; split; [done|].
  destruct (queue_update_map c r _ _ (wf_unique b Hwf) Eq) as (o' & Hm' & Hmap & Hnd & Hsub).
  assert (o' = o) as -> by (unfold book_map in Hm; congruence).
  unfold book_map at 2. rewrite <-Hmap, <-Hord in *. clear Hmap.
  assert (∀ s p o', o' ∈ book_orders b → ro_id o' = c →
    resting_ok (bk_market_id b) (bk_sequence b) s p o' → r ≠ 0 →
    resting_ok (bk_market_id b) (bk_sequence b) s p (with_remaining o' r)) as HP.
  { intros s p o' Ho' Hid Hok Hr0. apply resting_ok_left; [|done..].
    assert (book_map b !! c = Some o') as Ho2 by (by apply book_map_Some).
    assert (o' = o) as -> by congruence. done. }
  pose proof (wf_sequence b Hwf).
  revert Hord Hnd Hsub. unfold update_remainder.
  destruct (update_side c r (bk_bids b)) as [bids|] eqn:Eb; simpl.
  { intros Hord Hnd Hsub. split_and!; [|done..]. split; simpl.
    - eapply side_ok_update; [apply Hwf|done|]. intros. apply HP; [|done..].
      apply elem_of_book_orders; auto.
    - apply Hwf.
    - done.
    - intros d Hd. apply (wf_admitted b Hwf), Hsub. done.
    - done. }
  destruct (update_side c r (bk_asks b)) as [asks|] eqn:Ea; simpl.
  { intros Hord Hnd Hsub. split_and!; [|done..]. split; simpl.
    - apply Hwf.
    - eapply side_ok_update; [apply Hwf|done|]. intros. apply HP; [|done..].
      apply elem_of_book_orders; auto.
    - done.
    - intros d Hd. apply (wf_admitted b Hwf), Hsub. done.
    - done. }
  intros. by split_and!.
Qed.

Lemma remove_by_commitment_spec b c o :
  book_wf b → book_map b !! c = Some o →
  ∃ b', remove_by_commitment c b = (b', Ok ()) ∧ book_wf b'
    ∧ book_map b' = delete c (book_map b) ∧ same_frame b b'.
Proof.
  intros Hwf Hm.
  destruct (update_remainder_spec b c 0 o Hwf Hm) as (b' & Hu & Hwf' & Hmap & Hf).
  { apply book_map_Some in Hm as [Hin _]; [|done].
    destruct (wf_resting b o Hwf Hin) as (s & p & ? & ? & ? & ? & ? & ? & ? & ?). lia. }
  exists b'. unfold remove_by_commitment. by rewrite Hu.
Qed.

(** What must hold of a record that comes to rest. *)
Definition fresh_record (b : PrivateBook) (seq : Z) (o : RestingOrder) : Prop :=
  resting_ok (bk_market_id b) seq (o_side (ro_secret o)) (o_limit_price (ro_secret o)) o
  ∧ ro_sequence o = seq ∧ bk_sequence b < seq ≤ u64_max ∧ ro_id o ∉ ids (book_orders b).

Lemma resting_ok_later m s s' sd p o :
  s ≤ s' → resting_ok m s sd p o → resting_ok m s' sd p o.
Proof.
  intros Hs (? & ? & ? & ? & ? & ? & ? & ?). unfold resting_ok. split_and!; try done; lia.
Qed.

(** Admitting a command at the next sequence keeps the invariant. *)
Lemma admit_wf b c s :
  book_wf b → bk_sequence b ≤ s ≤ u64_max → book_wf (admit_command c s b).
Proof.
  intros [Hb Ha Hu Had Hs] Hle. split; simpl; [| |done| |lia].
  - eapply side_ok_impl; [done|]. intros p o _. apply resting_ok_later. lia.
  - eapply side_ok_impl; [done|]. intros p o _. apply resting_ok_later. lia.
  - intros d Hd. apply elem_of_union_r. auto.
Qed.

Lemma book_orders_insert b o :
  bt_ok (bk_bids b) → bt_ok (bk_asks b) →
  book_orders (insert_record o b) ≡ₚ o :: book_orders b.
Proof.
  intros Hb Ha. unfold insert_record, book_orders.
  destruct (o_side (ro_secret o)); simpl; rewrite flat_push by done.
  - done.
  - by rewrite Permutation_middle.
Qed.

(** A fresh record is pushed and admitted: one entry is added to the map. *)
Lemma insert_admit_spec b o s :
  book_wf b → fresh_record b s o →
  let b' := admit_command (ro_id o) s (insert_record o b) in
  book_wf b' ∧ book_map b' = <[ro_id o := o]> (book_map b)
  ∧ bk_market_id b' = bk_market_id b ∧ bk_sequence b' = s
  ∧ bk_admitted b' = {[ro_id o]} ∪ bk_admitted b.
Proof.
  intros Hwf (Hok & Hseq & Hlt & Hn) b'. pose proof Hwf as [Hb Ha Hu Had Hs].
  pose proof (book_orders_insert b o (proj1 Hb) (proj1 Ha)) as Hp.
  assert (book_orders b' = book_orders (insert_record o b)) as Hbo by done.
  assert (NoDup (ids (book_orders b'))) as Hnd.
  { rewrite Hbo. unfold ids in *. rewrite Hp. by constructor. }
  assert (∀ sd l, side_ok (resting_ok (bk_market_id b) (bk_sequence b) sd) l →
    side_ok (resting_ok (bk_market_id b) s sd) l) as Hlater.
  { intros sd l Hl. eapply side_ok_impl; [done|]. intros p o' _. apply resting_ok_later. lia. }
  assert (∀ sd l o', side_ok (resting_ok (bk_market_id b) (bk_sequence b) sd) l →
    o' ∈ flat l → ro_sequence o' < ro_sequence o) as Hseqs.
  { intros sd l o' Hl Ho'. destruct (side_ok_flat _ _ _ Hl Ho') as (p & ? & ? & ? & ? & ? & ? & ? & ?).
    lia. }
  assert (bk_admitted b' = {[ro_id o]} ∪ bk_admitted b) as HadE.
  { unfold b', insert_record. by destruct (o_side (ro_secret o)). }
  split_and!; [|..|done|done].
  - split; [| |done| |].
    + unfold b', insert_record. destruct (o_side (ro_secret o)) eqn:Es; simpl; [|by apply Hlater].
      apply side_ok_push; eauto.
    + unfold b', insert_record. destruct (o_side (ro_secret o)) eqn:Es; simpl; [by apply Hlater|].
      apply side_ok_push; eauto.
    + intros d. rewrite Hbo. unfold ids. rewrite Hp. simpl. rewrite elem_of_cons.
      fold b'. intros Hd. change (d ∈ bk_admitted b'). rewrite HadE.
      destruct Hd as [->|Hd]; [set_solver|]. apply elem_of_union_r, Had. done.
    + change (0 ≤ s ≤ u64_max). lia.
  - unfold book_map. rewrite (to_map_perm _ _ Hnd Hp). apply to_map_cons.
  - unfold b', insert_record. by destruct (o_side (ro_secret o)).
Qed.

End updates.
