(* ===== verification/BookMatch.v ===== *)
(** * Matching against the book

    The order in which a well-formed book offers its records
    ([private_match_batch]), the exactness of the capacity guard
    ([exceeds_fixed_match_capacity]) and the application of a match result
    ([apply_mpc_batch_result]) as an update of the abstract map. *)

From S2P Require Import Prelude BTree Bytes AppCrypto Orders Matching Book BookInv.
Open Scope string_scope.
Open Scope list_scope.
Open Scope Z_scope.

(** [ahead side a c]: an arriving order of [side] must meet [a] before [c],
    for a better price or, at the same price, for an earlier sequence. *)
Definition ahead (side : Side) (a c : RestingOrder) : Prop :=
  let p := o_limit_price (ro_secret a) in
  let q := o_limit_price (ro_secret c) in
  match side with Buy => p < q | Sell => q < p end
  ∨ (p = q ∧ ro_sequence a < ro_sequence c).

(** ** Sorted concatenations *)

Lemma elem_of_filter_list {A} (f : A → bool) l x : x ∈ List.filter f l ↔ x ∈ l ∧ f x = true.
Proof. by rewrite !list_elem_of_In, filter_In. Qed.

Section sorted.
Context {A : Type} (R : A → A → Prop).

Lemma sorted_concat (l : list (list A)) :
  Forall (StronglySorted R) l →
  StronglySorted (λ q1 q2, ∀ a c, a ∈ q1 → c ∈ q2 → R a c) l →
  StronglySorted R (concat l).
Proof.
  intros HF Hs; revert HF; induction Hs as [|q l Hs IH Hlb]; intros HF; [constructor|].
  apply Forall_cons in HF as [Hq HF]. simpl. apply StronglySorted_app. split_and!; [|done|auto].
  intros a c Ha (q' & Hc & Hq')%list_elem_of_In%in_concat.
  rewrite Forall_forall in Hlb. eapply Hlb; [|done|]; by apply list_elem_of_In.
Qed.

Lemma sorted_rev l : StronglySorted R l → StronglySorted (flip R) (rev l).
Proof.
  induction 1 as [|a l Hs IH Hlb]; simpl; [constructor|].
  apply StronglySorted_app. split_and!; [|done|repeat constructor].
  intros x y Hx ->%list_elem_of_singleton. rewrite Forall_forall in Hlb. apply Hlb.
  by rewrite list_elem_of_In, <-in_rev, <-list_elem_of_In in Hx.
Qed.

Lemma sorted_filter f l : StronglySorted R l → StronglySorted R (List.filter f l).
Proof.
  induction 1 as [|a l Hs IH Hlb]; simpl; [constructor|]. destruct (f a); [|done].
  constructor; [done|]. rewrite Forall_forall in *. intros x Hx. apply Hlb.
  by apply elem_of_filter_list in Hx as [? _].
Qed.

Lemma sorted_take n l : StronglySorted R l → StronglySorted R (take n l).
Proof.
  intros Hs; revert n; induction Hs as [|a l Hs IH Hlb]; intros [|n]; simpl; try constructor.
  - done.
  - by apply Forall_take.
Qed.

Lemma sorted_map {B} (S : B → B → Prop) (f : A → B) l :
  (∀ a c, R a c → S (f a) (f c)) → StronglySorted R l → StronglySorted S (map f l).
Proof.
  intros HRS. induction 1 as [|a l Hs IH Hlb]; simpl; constructor; [done|].
  apply Forall_map. eapply Forall_impl; [done|]. auto.
Qed.

End sorted.

Section offers.
Context `{Crypto}.
Implicit Types (b : PrivateBook) (o : RestingOrder).

Lemma elem_of_ordered b arriving o :
  o ∈ ordered_opposite b arriving ↔
  o ∈ flat (match o_side arriving with Buy => bk_asks b | Sell => bk_bids b end).
Proof.
  unfold ordered_opposite, flat. destruct (o_side arriving); [done|].
  rewrite !list_elem_of_In, map_rev.
  rewrite !in_concat. by setoid_rewrite <-in_rev.
Qed.

(** A level's queue is sorted, and distinct levels are sorted by price. *)
Lemma side_sorted (P : Z → RestingOrder → Prop) side (R : Z → Z → Prop) (l : BookSide) :
  (∀ p o, P p o → o_limit_price (ro_secret o) = p) →
  (∀ p q, R p q → match side with Buy => p < q | Sell => q < p end) →
  Forall (level_ok P) l → StronglySorted R (map fst l) →
  StronglySorted (ahead side) (concat (map snd l)).
Proof.
  intros HP HR HF Hs. apply sorted_concat.
  - clear Hs. induction HF as [|[p q] l (_ & Hq & Hs) HF IH]; simpl; constructor; [|done].
    simpl in *. clear IH HF. induction Hs as [|o q Hs IH Hlb]; constructor.
    + apply IH. by apply Forall_cons in Hq as [_ ?].
    + apply Forall_cons in Hq as [Ho Hq]. rewrite Forall_forall in *.
      intros o' Ho'. right. rewrite (HP p o), (HP p o') by auto. auto.
  - induction HF as [|[p q] l (_ & Hq & _) HF IH]; simpl in *; [constructor|].
    inversion Hs as [|?? Hs' Hlb]; subst. constructor; [auto|].
    apply Forall_map. rewrite Forall_map in Hlb. rewrite Forall_forall in Hlb, HF.
    apply Forall_forall. intros [p' q'] Hin a c Ha Hc; simpl in *.
    destruct (HF _ Hin) as (_ & Hq' & _). simpl in Hq'. rewrite Forall_forall in Hq, Hq'.
    unfold ahead. rewrite (HP p a (Hq a Ha)), (HP p' c (Hq' c Hc)).
    left. apply HR, (Hlb _ Hin).
Qed.

Lemma ordered_sorted b arriving :
  book_wf b → StronglySorted (ahead (o_side arriving)) (ordered_opposite b arriving).
Proof.
  intros Hwf. unfold ordered_opposite. destruct (o_side arriving).
  - destruct (wf_asks b Hwf) as [Hok HF].
    apply (side_sorted (resting_ok (bk_market_id b) (bk_sequence b) Sell) _ olt); [..|done|done].
    + by intros p o (_ & _ & ? & _).
    + intros p q. apply olt_Z.
  - destruct (wf_bids b Hwf) as [Hok HF].
    apply (side_sorted (resting_ok (bk_market_id b) (bk_sequence b) Buy) _ (flip olt)).
    + by intros p o (_ & _ & ? & _).
    + intros p q. apply olt_Z.
    + by apply Forall_rev.
    + rewrite map_rev. by apply sorted_rev.
Qed.

Lemma ordered_resting b arriving o :
  book_wf b → o ∈ ordered_opposite b arriving →
  o ∈ book_orders b ∧ o_side (ro_secret o) ≠ o_side arriving
  ∧ 0 < ro_remaining o ≤ o_quantity (ro_secret o) ∧ order_valid (ro_secret o) = true.
Proof.
  intros Hwf Ho%elem_of_ordered.
  assert (o ∈ book_orders b) as Hin by (apply elem_of_book_orders; destruct (o_side arriving); auto).
  split; [done|]. destruct (o_side arriving).
  - destruct (side_ok_flat _ _ _ (wf_asks b Hwf) Ho) as (p & ? & -> & ? & ? & ? & ? & ? & ?). done.
  - destruct (side_ok_flat _ _ _ (wf_bids b Hwf) Ho) as (p & ? & -> & ? & ? & ? & ? & ? & ?). done.
Qed.

(** Every opposite record is offered. *)
Lemma ordered_complete b arriving o :
  book_wf b → o ∈ book_orders b → o_side (ro_secret o) ≠ o_side arriving →
  o ∈ ordered_opposite b arriving.
Proof.
  intros Hwf Ho Hs. apply elem_of_ordered. pose proof (wf_side b o Hwf Ho) as Hf.
  by destruct (o_side (ro_secret o)), (o_side arriving).
Qed.

Lemma ordered_NoDup b arriving : book_wf b → NoDup (ids (ordered_opposite b arriving)).
Proof.
  intros Hwf. pose proof (wf_unique b Hwf) as Hu. unfold book_orders in Hu.
  rewrite ids_app, NoDup_app in Hu. destruct Hu as (Hb & _ & Ha).
  unfold ordered_opposite, ids in *. destruct (o_side arriving); [done|].
  assert (concat (map snd (rev (bk_bids b))) ≡ₚ flat (bk_bids b)) as ->; [|done].
  unfold flat. rewrite map_rev. clear.
  induction (map snd (bk_bids b)) as [|q l IH]; simpl; [done|].
  rewrite concat_app; simpl. rewrite app_nil_r, IH. apply Permutation_app_comm.
Qed.

(** The live opposite records in the order they are offered. *)
Definition offers (b : PrivateBook) (arriving : SecretOrder) (now : Z) : list RestingOrder :=
  List.filter (live now) (ordered_opposite b arriving).

Lemma offers_sorted b arriving now :
  book_wf b → StronglySorted (ahead (o_side arriving)) (offers b arriving now).
Proof. intros. by apply sorted_filter, ordered_sorted. Qed.

Lemma NoDup_ids_filter f l : NoDup (ids l) → NoDup (ids (List.filter f l)).
Proof.
  unfold ids. induction l as [|o l IH]; simpl; [done|]. rewrite NoDup_cons.
  intros [Hn Hl]. destruct (f o); simpl; [|auto]. constructor; [|auto].
  intros (o' & E & Hin)%list_elem_of_fmap. apply Hn, list_elem_of_fmap.
  exists o'. split; [done|]. by apply elem_of_filter_list in Hin as [? _].
Qed.

Lemma ahead_good side a c :
  ahead side a c → at_least_as_good side (o_limit_price (ro_secret a)) (o_limit_price (ro_secret c)).
Proof. unfold ahead, at_least_as_good. destruct side; lia. Qed.

Lemma price_crosses_mono side p q limit :
  at_least_as_good side p q → price_crosses side limit q = true → price_crosses side limit p = true.
Proof. unfold at_least_as_good, price_crosses. destruct side; rewrite !Z.leb_le; lia. Qed.

Lemma match_batch_Ok b arriving now batch :
  private_match_batch b arriving now = Ok batch ↔
  o_market_id arriving = bk_market_id b ∧
  batch = {| pb_resting := map resting_input (take MAX_MATCH_SLOTS (offers b arriving now));
             pb_arriving_side := o_side arriving;
             pb_arriving_price := o_limit_price arriving;
             pb_arriving_quantity := o_quantity arriving;
             pb_arriving_can_rest :=
               bool_decide (o_time_in_force arriving = GoodTilCancelled) |}.
Proof.
  unfold private_match_batch. rewrite bind_Ok. setoid_rewrite fail_if_Ok.
  rewrite <-(bool_decide_eq_true (o_market_id arriving = bk_market_id b)).
  destruct (bool_decide (o_market_id arriving = bk_market_id b)); simpl.
  - split; [by intros (? & _ & [= <-])|]. intros [_ ->]. by exists ().
  - split; [by intros (? & ? & _)|by intros [? _]].
Qed.

(** The match input is the head of the price-time queue.  For a
    well-formed book the eight-slot input lists live records of the opposite
    side only, strictly ordered by price and then by arrival sequence, and any
    live opposite record left out comes after all listed ones. *)
Theorem match_batch_price_time b arriving now batch :
  book_wf b → private_match_batch b arriving now = Ok batch →
  ∃ l rest, pb_resting batch = map resting_input l
    ∧ StronglySorted (ahead (o_side arriving)) (l ++ rest)
    ∧ (length l ≤ MAX_MATCH_SLOTS)%nat ∧ (rest ≠ [] → length l = MAX_MATCH_SLOTS)
    ∧ ∀ o, o ∈ l ++ rest ↔ o ∈ book_orders b ∧ o_side (ro_secret o) ≠ o_side arriving
        ∧ now ≤ o_expires_at (ro_secret o).
Proof.
  intros Hwf [_ ->]%match_batch_Ok. simpl.
  exists (take MAX_MATCH_SLOTS (offers b arriving now)), (drop MAX_MATCH_SLOTS (offers b arriving now)).
  rewrite take_drop. split_and!; [done|by apply offers_sorted|rewrite length_take; lia| |].
  - intros Hne. rewrite length_take. destruct (decide (length (offers b arriving now) ≤ MAX_MATCH_SLOTS)%nat).
    + destruct Hne. by apply drop_ge.
    + lia.
  - intros o. unfold offers, live. rewrite elem_of_filter_list, Z.leb_le. split.
    + intros [Ho ?]. destruct (ordered_resting b arriving o Hwf Ho) as (? & ? & _). done.
    + intros (? & ? & ?). split; [by apply ordered_complete|done].
Qed.

End offers.

(** ** The capacity guard *)

Section capacity.
Implicit Types (l : list RestingOrder).

(** Records an arriving order of [side] can meet, best first. *)
Definition offered (side : Side) l : Prop :=
  Forall (λ o, o_side (ro_secret o) ≠ side ∧ 0 < ro_remaining o) l
  ∧ StronglySorted (ahead side) l.

Lemma offered_inputs side l :
  offered side l →
  Forall (λ r, 0 ≤ ri_quantity r) (map resting_input l).
Proof. intros [HF _]. apply Forall_map. eapply Forall_impl; [done|]. simpl. lia. Qed.

Lemma no_cross_no_match side limit rem l :
  Forall (λ o, price_crosses side limit (o_limit_price (ro_secret o)) = false) l →
  Forall (λ s, slot_matched s = false) (match_slots side limit rem (map resting_input l)).1.
Proof.
  intros HF; revert rem; induction HF as [|o l Ho HF IH]; intros rem; simpl; [constructor|].
  rewrite Ho, andb_false_r; simpl. specialize (IH (rem - 0)).
  destruct (match_slots _ _ _ _); simpl in *. by constructor.
Qed.

Lemma nothing_left_no_match side limit l :
  Forall (λ s, slot_matched s = false) (match_slots side limit 0 (map resting_input l)).1.
Proof.
  induction l as [|o l IH]; simpl; [constructor|].
  rewrite !andb_false_r; simpl. destruct (match_slots _ _ _ _); simpl in *. by constructor.
Qed.

Lemma Forall_unmatched_lookup (l : list MpcSlotResult) i :
  Forall (λ s, slot_matched s = false) l →
  match l !! i with Some s => slot_matched s | None => false end = false.
Proof. intros HF. destruct (l !! i) eqn:E; [|done]. by eapply Forall_lookup_1 in HF. Qed.

(** The guard's loop looks at exactly one slot of the unbounded match. *)
Lemma exceeds_loop_spec side limit rem n l :
  0 ≤ rem → (n ≤ MAX_MATCH_SLOTS)%nat → offered side l →
  exceeds_loop side limit rem n l =
    match (match_slots side limit rem (map resting_input l)).1 !! (MAX_MATCH_SLOTS - n)%nat with
    | Some s => slot_matched s
    | None => false
    end.
Proof.
  intros Hrem Hn [HF Hs]; revert rem n Hrem Hn.
  induction Hs as [|o l Hs IH Hlb]; intros rem n Hrem Hn; [done|].
  apply Forall_cons in HF as [[Hside Hqty] HF].
  cbn [exceeds_loop map]. destruct (price_crosses _ _ _) eqn:Ec; cbn [negb orb].
  2:{ symmetry. apply Forall_unmatched_lookup. apply (no_cross_no_match side limit rem (o :: l)).
      constructor; [done|]. eapply Forall_impl; [done|]. intros o' Hgood%ahead_good; simpl.
      destruct (price_crosses side limit (o_limit_price (ro_secret o'))) eqn:Ec'; [|done].
      by rewrite (price_crosses_mono _ _ _ _ Hgood Ec') in Ec. }
  destruct (Z.eqb_spec rem 0) as [->|Hr0].
  { symmetry. apply Forall_unmatched_lookup, (nothing_left_no_match side limit (o :: l)). }
  cbn [match_slots resting_input ri_side ri_price ri_quantity].
  rewrite bool_decide_eq_false_2, Ec, !(proj2 (Z.ltb_lt 0 _)) by (done || lia).
  cbn [negb andb]. destruct (Nat.ltb_spec MAX_MATCH_SLOTS (S n)) as [Hlt|Hge].
  - replace (MAX_MATCH_SLOTS - n)%nat with 0%nat by lia.
    by destruct (match_slots _ _ _ _).
  - replace (MAX_MATCH_SLOTS - n)%nat with (S (MAX_MATCH_SLOTS - S n)) by lia.
    rewrite (IH HF) by lia. by destruct (match_slots _ _ _ _).
Qed.

(** Below an unmatched slot nothing is matched. *)
Lemma unmatched_tail side limit rem l i :
  0 ≤ rem → offered side l →
  match (match_slots side limit rem (map resting_input l)).1 !! i with
  | Some s => slot_matched s | None => false end = false →
  Forall (λ s, slot_matched s = false)
    (drop i (match_slots side limit rem (map resting_input l)).1).
Proof.
  intros Hrem Hoff Hi. pose proof (offered_inputs _ _ Hoff) as Hq. destruct Hoff as [HF Hs].
  apply Forall_lookup. intros j sj Hj. rewrite lookup_drop in Hj.
  destruct j as [|j]; [by rewrite Nat.add_0_r in Hj; rewrite Hj in Hi|].
  destruct (slot_matched sj) eqn:Em; [exfalso|done].
  destruct (match_slots_range side limit rem _ Hrem Hq) as [_ HR].
  destruct (Forall2_lookup_r _ _ _ _ _ HR Hj) as (rj & Hrj & _ & Hpos & Hmj & _).
  destruct (lookup_lt_is_Some_2 (map resting_input l) i) as [ri Hri].
  { apply lookup_lt_Some in Hrj. lia. }
  destruct (Forall2_lookup_l _ _ _ _ _ HR Hri) as (si & Hsi & _ & Hposi & _).
  rewrite Hsi in Hi.
  pose proof (Hmj Em) as (_ & Hc & _).
  rewrite list_lookup_fmap in Hri, Hrj.
  apply fmap_Some in Hri as (oi & Hoi & ->), Hrj as (oj & Hoj & ->). simpl in *.
  pose proof (StronglySorted_lookup_lt _ _ i (i + S j)%nat _ _ Hs ltac:(lia) Hoi Hoj) as Ha%ahead_good.
  destruct (Forall_lookup_1 _ _ _ _ HF Hoi) as [Hside Hqi].
  assert (slot_trade_quantity si = ro_remaining oi) as E.
  { eapply (match_slots_priority side limit rem (map resting_input l) i (i + S j)
      (resting_input oi) (resting_input oj)); [done|done|lia| | |done|done|done| |by apply Hpos].
    - rewrite list_lookup_fmap. by rewrite Hoi.
    - rewrite list_lookup_fmap. by rewrite Hoj.
    - by eapply price_crosses_mono. }
  assert (slot_matched si = true) by (apply Hposi; lia). congruence.
Qed.

End capacity.

Section guard.
Context `{Crypto}.

Lemma offers_offered b arriving now :
  book_wf b → offered (o_side arriving) (offers b arriving now).
Proof.
  intros Hwf. split; [|by apply offers_sorted]. apply Forall_forall. intros o Ho.
  apply elem_of_filter_list in Ho as [Ho _].
  destruct (ordered_resting b arriving o Hwf Ho) as (_ & ? & ? & _). split; [done|lia].
Qed.

(** The unbounded match and the eight-slot match of an arriving order. *)
Definition full_match b arriving now : list MpcSlotResult * Z :=
  match_slots (o_side arriving) (o_limit_price arriving) (o_quantity arriving)
    (map resting_input (offers b arriving now)).
Definition eight_slot_match b arriving now : list MpcSlotResult * Z :=
  match_slots (o_side arriving) (o_limit_price arriving) (o_quantity arriving)
    (map resting_input (take MAX_MATCH_SLOTS (offers b arriving now))).

Lemma exceeds_ninth b arriving now :
  book_wf b → 0 ≤ o_quantity arriving →
  exceeds_fixed_match_capacity b arriving now =
    match (full_match b arriving now).1 !! MAX_MATCH_SLOTS with
    | Some s => slot_matched s
    | None => false
    end.
Proof.
  intros Hwf Hq. unfold exceeds_fixed_match_capacity. fold (offers b arriving now).
  rewrite exceeds_loop_spec; [done|done|lia|by apply offers_offered].
Qed.

Lemma eight_slots_lossless b arriving now :
  book_wf b → 0 ≤ o_quantity arriving →
  exceeds_fixed_match_capacity b arriving now = false →
  (full_match b arriving now).2 = (eight_slot_match b arriving now).2
  ∧ traded (full_match b arriving now).1 = traded (eight_slot_match b arriving now).1
  ∧ ∃ late, (full_match b arriving now).1 = (eight_slot_match b arriving now).1 ++ late
      ∧ Forall (λ s, slot_matched s = false) late.
Proof.
  intros Hwf Hq Hno. pose proof (offers_offered b arriving now Hwf) as Hoff.
  rewrite exceeds_ninth in Hno by done. unfold full_match, eight_slot_match in *.
  set (full := match_slots _ _ _ (map resting_input (offers b arriving now))) in *.
  set (slots8 := match_slots _ _ _ _).
  pose proof (unmatched_tail _ _ _ _ MAX_MATCH_SLOTS Hq Hoff Hno) as Htail.
  pose proof (match_slots_app (o_side arriving) (o_limit_price arriving) (o_quantity arriving)
    (map resting_input (take MAX_MATCH_SLOTS (offers b arriving now)))
    (map resting_input (drop MAX_MATCH_SLOTS (offers b arriving now)))) as Happ.
  rewrite <-map_app, take_drop in Happ. fold full slots8 in Happ, Htail.
  set (late := match_slots _ _ slots8.2 _) in Happ.
  assert (Forall (λ s, slot_matched s = false) late.1) as Hlate.
  { destruct (decide (length (offers b arriving now) ≤ MAX_MATCH_SLOTS)%nat) as [Hle|Hgt].
    - unfold late. rewrite (drop_ge (offers b arriving now)) by done. constructor.
    - rewrite Happ in Htail; simpl in Htail.
      rewrite drop_app_length' in Htail; [done|]. unfold slots8.
      rewrite match_slots_length, length_map, length_take. lia. }
  assert (Forall (λ r, 0 ≤ ri_quantity r)
    (map resting_input (drop MAX_MATCH_SLOTS (offers b arriving now)))) as Hq'.
  { rewrite <-skipn_map. by eapply Forall_drop, offered_inputs. }
  assert (0 ≤ slots8.2) as H8.
  { apply match_slots_range; [done|]. rewrite <-firstn_map. by eapply Forall_take, offered_inputs. }
  destruct (match_slots_range (o_side arriving) (o_limit_price arriving) _ _ H8 Hq') as [Hr HR].
  fold late in Hr, HR.
  assert (traded late.1 = 0) as Hz.
  { unfold traded. clear -Hlate HR. induction HR as [|r s rs ss (Hs & Hp & _) HR IH]; [done|].
    apply Forall_cons in Hlate as [Hm Hlate]. simpl. rewrite (IH Hlate).
    rewrite Hm in Hp. destruct (decide (0 < slot_trade_quantity s)); [naive_solver|lia]. }
  pose proof (match_slots_conserve (o_side arriving) (o_limit_price arriving) slots8.2
    (map resting_input (drop MAX_MATCH_SLOTS (offers b arriving now)))) as Hc.
  fold late in Hc. rewrite Happ; simpl. split_and!; [lia| |by exists late.1].
  unfold traded in *. rewrite map_app, sumZ_app. lia.
Qed.

(** The capacity guard is exact.  [exceeds_fixed_match_capacity] holds
    just when an unbounded price-time match would trade with a ninth order;
    otherwise the eight-slot match loses nothing: all later orders would stay
    unmatched and the arriving remainder is the same. *)
Theorem capacity_guard_exact b arriving now :
  book_wf b → 0 ≤ o_quantity arriving →
  (exceeds_fixed_match_capacity b arriving now = true ↔
     ∃ s, (full_match b arriving now).1 !! MAX_MATCH_SLOTS = Some s ∧ slot_matched s = true)
  ∧ (exceeds_fixed_match_capacity b arriving now = false →
     (full_match b arriving now).2 = (eight_slot_match b arriving now).2
     ∧ traded (full_match b arriving now).1 = traded (eight_slot_match b arriving now).1
     ∧ ∃ late, (full_match b arriving now).1 = (eight_slot_match b arriving now).1 ++ late
         ∧ Forall (λ s, slot_matched s = false) late).
Proof.
  intros Hwf Hq. split; [|by apply eight_slots_lossless]. rewrite exceeds_ninth by done.
  destruct ((full_match b arriving now).1 !! MAX_MATCH_SLOTS); naive_solver.
Qed.

End guard.
