(* ===== verification/BookApply.v ===== *)
(** * Transitions of the book

    Functional behaviour of the book's transitions on the abstract map:
    matching, cancellation, expiry and resting insertion, with the error
    paths, conservation of open quantity and the uncrossed-book property. *)

From S2P Require Import Prelude BTree Bytes AppCrypto Orders Matching Book BookInv BookMatch.
Open Scope string_scope.
Open Scope list_scope.
Open Scope Z_scope.

Abbreviation Records := (gmap OrderCommitment RestingOrder).

(** ** The abstract transition *)

Definition slot_fill (taker : OrderCommitment) (rs : PrivateRestingInput * MpcSlotResult) :
    option PublicFill :=
  if slot_matched rs.2
  then Some (mk_fill (ri_commitment rs.1) taker (slot_trade_price rs.2) (slot_trade_quantity rs.2))
  else None.

Definition fills_of (taker : OrderCommitment) (l : list (PrivateRestingInput * MpcSlotResult)) :
    list PublicFill := omap (slot_fill taker) l.

(** One fill takes its quantity from the maker's record. *)
Definition spec_fill (m : Records) (f : PublicFill) : Records :=
  match m !! f_maker_order f with
  | Some o => set_left (f_maker_order f) o (ro_remaining o - f_quantity f) m
  | None => m
  end.

Definition spec_fills (m : Records) (fills : list PublicFill) : Records := foldl spec_fill m fills.

(** A positive remainder of a good-til-cancelled order becomes a record. *)
Definition spec_rest (arriving : SecretOrder) (authority : OrderAuthority) (seq rem : Z)
    (m : Records) : Records :=
  if (0 <? rem) && bool_decide (o_time_in_force arriving = GoodTilCancelled)
  then <[a_commitment authority := mk_resting arriving authority rem seq]> m else m.

Lemma fills_of_cons taker r s l :
  fills_of taker ((r, s) :: l) =
    if slot_matched s
    then mk_fill (ri_commitment r) taker (slot_trade_price s) (slot_trade_quantity s)
      :: fills_of taker l
    else fills_of taker l.
Proof. unfold fills_of; simpl. unfold slot_fill at 1; simpl. by destruct (slot_matched s). Qed.

Lemma spec_fills_cons m f fills : spec_fills m (f :: fills) = spec_fills (spec_fill m f) fills.
Proof. done. Qed.

Lemma elem_of_fills_of taker l f :
  f ∈ fills_of taker l → ∃ r s, (r, s) ∈ l ∧ slot_matched s = true
    ∧ f = mk_fill (ri_commitment r) taker (slot_trade_price s) (slot_trade_quantity s).
Proof.
  intros ([r s] & Hin & Hf)%list_elem_of_omap. unfold slot_fill in Hf; simpl in Hf.
  exists r, s. by destruct (slot_matched s); simplify_eq.
Qed.

(** ** Open quantity *)

Definition qty_on (s : Side) (o : RestingOrder) : Z :=
  if bool_decide (o_side (ro_secret o) = s) then ro_remaining o else 0.

Definition open_quantity (s : Side) (b : PrivateBook) : Z :=
  sumZ (map (qty_on s) (book_orders b)).

Definition map_qty (s : Side) (m : Records) : Z :=
  sumZ (map (λ e : OrderCommitment * RestingOrder, qty_on s e.2) (map_to_list m)).

Lemma map_qty_insert s m c o :
  m !! c = None → map_qty s (<[c := o]> m) = qty_on s o + map_qty s m.
Proof. intros Hc. unfold map_qty. by rewrite (map_to_list_insert m c o Hc). Qed.

Lemma map_qty_delete s m c o :
  m !! c = Some o → map_qty s (delete c m) = map_qty s m - qty_on s o.
Proof. intros Hc. unfold map_qty. rewrite <-(map_to_list_delete m c o Hc). simpl. lia. Qed.

Lemma map_qty_set_left s m c o r :
  m !! c = Some o →
  map_qty s (set_left c o r m) =
    map_qty s m - (if bool_decide (o_side (ro_secret o) = s) then ro_remaining o - r else 0).
Proof.
  intros Hc. unfold set_left. destruct (Z.eqb_spec r 0) as [->|Hr].
  - rewrite (map_qty_delete s m c o Hc). unfold qty_on. case_bool_decide; lia.
  - rewrite <-(insert_delete_eq m c), map_qty_insert by apply lookup_delete_eq.
    rewrite (map_qty_delete s m c o Hc). unfold qty_on; simpl. case_bool_decide; lia.
Qed.

Section apply.
Context `{Crypto}.
Implicit Types (b : PrivateBook).

Lemma book_map_qty b s : book_wf b → open_quantity s b = map_qty s (book_map b).
Proof.
  intros Hwf. unfold open_quantity, map_qty, book_map, to_map.
  rewrite map_to_list_to_map.
  - rewrite map_map. done.
  - change (NoDup (map fst (map (λ o, (ro_id o, o)) (book_orders b)))). rewrite map_map.
    apply (wf_unique b Hwf).
Qed.

(** What an order must satisfy to be admitted at [seq]. *)
Definition admissible b (arriving : SecretOrder) (authority : OrderAuthority) (seq now : Z) : Prop :=
  order_valid arriving = true
  ∧ authority_verify authority arriving now = Ok ()
  ∧ check_admission b arriving (a_commitment authority) seq = Ok ()
  ∧ bk_sequence b < u64_max.

Lemma next_sequence s : 0 ≤ s < u64_max → wrapping_add s 1 = s + 1.
Proof. intros. unfold wrapping_add. apply Z.mod_small. unfold u64_max in *. lia. Qed.

Lemma check_admission_Ok b order c seq :
  check_admission b order c seq = Ok () ↔
  o_market_id order = bk_market_id b ∧ (c ∉ bk_admitted b) ∧ seq = wrapping_add (bk_sequence b) 1.
Proof.
  unfold check_admission. split.
  - intros (? & Hm%fail_if_Ok & (? & Hr%fail_if_Ok & Hs%fail_if_Ok)%bind_Ok)%bind_Ok.
    by bool_hyps.
  - intros (Hm & Hn & ->).
    rewrite (bool_decide_eq_true_2 _ Hm), (bool_decide_eq_false_2 _ Hn), Z.eqb_refl. done.
Qed.

Lemma admissible_facts b arriving authority seq now :
  book_wf b → admissible b arriving authority seq now →
  seq = bk_sequence b + 1 ∧ bk_sequence b < seq ≤ u64_max
  ∧ o_market_id arriving = bk_market_id b
  ∧ (a_commitment authority ∉ bk_admitted b)
  ∧ a_commitment authority = commitment arriving
  ∧ 0 < o_quantity arriving.
Proof.
  intros Hwf (Hv & Ha & (Hm & Hn & Hs)%check_admission_Ok & Hmax).
  pose proof (wf_sequence b Hwf). rewrite next_sequence in Hs by lia.
  split_and!; try done; try lia.
  - by eapply authority_verify_commitment.
  - apply order_valid_reserve in Hv. lia.
Qed.

(** The slot loop performs exactly the abstract fills. *)
Lemma apply_slots_spec taker l b :
  book_wf b → NoDup (map (λ rs, ri_commitment rs.1) l) →
  Forall (λ rs, slot_matched rs.2 = true → ∃ o, book_map b !! ri_commitment rs.1 = Some o
    ∧ ri_quantity rs.1 = ro_remaining o
    ∧ 0 ≤ slot_trade_quantity rs.2 ≤ ri_quantity rs.1) l →
  ∃ b', apply_slots taker l b = (b', Ok (fills_of taker l)) ∧ book_wf b'
    ∧ book_map b' = spec_fills (book_map b) (fills_of taker l) ∧ same_frame b b'.
Proof.
  revert b; induction l as [|[r s] l IH]; intros b Hwf Hnd HF.
  { by exists b. }
  apply NoDup_cons in Hnd as [Hn Hnd]. apply Forall_cons in HF as [Hr HF]. simpl in Hr, Hn.
  unfold fills_of, slot_fill in *; simpl. destruct (slot_matched s) eqn:Em.
  2:{ destruct (IH b Hwf Hnd HF) as (b' & Hb & Hwf' & Hm & Hf). by exists b'. }
  destruct (Hr eq_refl) as (o & Hlook & Hqo & Hq).
  rewrite try_bind. unfold checked_sub. rewrite (proj2 (Z.leb_le _ _)) by lia. simpl.
  assert (0 ≤ ri_quantity r - slot_trade_quantity s ≤ o_quantity (ro_secret o)) as Hle.
  { apply book_map_Some in Hlook as [Hin _]; [|done].
    destruct (wf_resting b o Hwf Hin) as (? & ? & ? & ? & ? & ? & ? & ? & ? & ?). lia. }
  destruct (update_remainder_spec b _ _ o Hwf Hlook Hle) as (b1 & Hu & Hwf1 & Hm1 & Hf1).
  rewrite method_bind, Hu.
  destruct (IH b1 Hwf1 Hnd) as (b2 & Hb2 & Hwf2 & Hm2 & Hf2).
  { rewrite Forall_forall in *. intros rs Hin Hm. destruct (HF rs Hin Hm) as (o' & Ho' & ?).
    exists o'. split; [|done]. rewrite Hm1. unfold set_left.
    assert (ri_commitment r ≠ ri_commitment rs.1).
    { intros E. apply Hn. rewrite E. apply list_elem_of_fmap. by exists rs. }
    destruct (_ =? 0); [by rewrite lookup_delete_ne|by rewrite lookup_insert_ne]. }
  exists b2. rewrite method_bind, Hb2. simpl. split_and!; [done|done| |by etrans].
  rewrite Hm2, Hm1. unfold spec_fills; simpl. unfold spec_fill at 3; simpl.
  by rewrite Hlook, <-Hqo.
Qed.

Lemma spec_fills_other m fills c :
  (∀ f, f ∈ fills → f_maker_order f ≠ c) → spec_fills m fills !! c = m !! c.
Proof.
  revert m; induction fills as [|f fills IH]; intros m Hf; [done|]. unfold spec_fills in *; simpl.
  rewrite IH by (intros; apply Hf; by right). unfold spec_fill.
  destruct (m !! f_maker_order f); [|done]. unfold set_left.
  assert (f_maker_order f ≠ c) by (apply Hf; left).
  destruct (_ =? 0); [by rewrite lookup_delete_ne|by rewrite lookup_insert_ne].
Qed.

(** What a batch built from the book satisfies, in the form the slot loop needs. *)
Lemma batch_slots_ready b arriving now batch :
  book_wf b → 0 ≤ o_quantity arriving → private_match_batch b arriving now = Ok batch →
  let l := zip (pb_resting batch) (br_slots (expected_batch batch)) in
  NoDup (map (λ rs, ri_commitment rs.1) l)
  ∧ Forall (λ rs, slot_matched rs.2 = true → ∃ o, book_map b !! ri_commitment rs.1 = Some o
      ∧ ri_quantity rs.1 = ro_remaining o
      ∧ 0 ≤ slot_trade_quantity rs.2 ≤ ri_quantity rs.1) l
  ∧ batch_balanced batch (expected_batch batch)
  ∧ (∀ rs, rs ∈ l → ∃ o, o ∈ offers b arriving now ∧ rs.1 = resting_input o).
Proof.
  intros Hwf Hq [Hm Hb]%match_batch_Ok l.
  pose proof (offers_offered b arriving now Hwf) as Hoff.
  assert (batch_balanced batch (expected_batch batch)) as Hbal.
  { rewrite Hb. apply expected_batch_balanced; simpl; [done|].
    rewrite <-firstn_map. by eapply Forall_take, offered_inputs. }
  assert (∀ rs, rs ∈ l → ∃ o, o ∈ offers b arriving now ∧ rs.1 = resting_input o) as Hin.
  { intros [r s] Hrs. unfold l in Hrs. apply elem_of_zip_l in Hrs. rewrite Hb in Hrs; simpl in Hrs.
    apply list_elem_of_fmap in Hrs as (o & -> & Ho). exists o. split; [|done].
    rewrite <-(take_drop MAX_MATCH_SLOTS (offers b arriving now)). by apply elem_of_app; left. }
  split_and!; [| |done|done].
  - destruct Hbal as (_ & _ & HF). unfold l.
    assert (map (λ rs, ri_commitment rs.1) (zip (pb_resting batch) (br_slots (expected_batch batch)))
      = map ri_commitment (pb_resting batch)) as ->.
    { rewrite <-(fst_zip (pb_resting batch) (br_slots (expected_batch batch))) at 2.
      - by rewrite map_map.
      - by rewrite (Forall2_length _ _ _ HF). }
    rewrite Hb; simpl. rewrite map_map. simpl. unfold offers.
    assert (NoDup (ids (List.filter (live now) (ordered_opposite b arriving)))) as Hnd.
    { by apply NoDup_ids_filter, ordered_NoDup. }
    unfold ids in Hnd. rewrite <-(take_drop MAX_MATCH_SLOTS (List.filter _ _)), map_app in Hnd.
    by apply NoDup_app in Hnd as (? & _).
  - apply Forall_forall. intros [r s] Hrs Hmt. destruct (Hin _ Hrs) as (o & Ho & Hr). simpl in *. subst r.
    exists o. unfold offers in Ho. apply elem_of_filter_list in Ho as [Ho _].
    destruct (ordered_resting b arriving o Hwf Ho) as (Hbo & _ & _).
    split; [by apply book_map_Some|]. split; [done|].
    destruct Hbal as (_ & _ & HF). unfold l in Hrs.
    apply elem_of_lookup_zip_with in Hrs as (i & r' & s' & [= <- <-] & Hi & Hsi).
    by destruct (Forall2_lookup_lr _ _ _ _ _ _ HF Hi Hsi) as (? & _).
Qed.

(** ** Applying a match *)

(** Outcome of a match with fills [fills] and remainder [rem]. *)
Definition match_outcome b (arriving : SecretOrder) (authority : OrderAuthority) (seq : Z)
    (fills : list PublicFill) (rem : Z) (b' : PrivateBook) : Prop :=
  book_wf b'
  ∧ book_map b' = spec_rest arriving authority seq rem (spec_fills (book_map b) fills)
  ∧ bk_market_id b' = bk_market_id b ∧ bk_sequence b' = seq
  ∧ bk_admitted b' = {[a_commitment authority]} ∪ bk_admitted b.

(** Resting the remainder of an admitted order after its fills. *)
Lemma rest_admit_spec b b1 arriving authority seq now rem fills :
  book_wf b → admissible b arriving authority seq now →
  book_wf b1 → same_frame b b1 → book_map b1 = spec_fills (book_map b) fills →
  0 ≤ rem ≤ o_quantity arriving → a_commitment authority ∉ ids (book_orders b1) →
  match_outcome b arriving authority seq fills rem
    (admit_command (a_commitment authority) seq (rest_arriving arriving authority seq rem b1)).
Proof.
  intros Hwf Hadm Hwf1 (Hm1 & Hs1 & Ha1) Hmap Hrem Hfresh.
  destruct (admissible_facts _ _ _ _ _ Hwf Hadm) as (-> & Hseq & Hmk & Hn & Hc & Hq).
  unfold match_outcome, rest_arriving, spec_rest.
  destruct ((0 <? rem) && _) eqn:E; bool_hyps.
  - destruct (insert_admit_spec b1 (mk_resting arriving authority rem (bk_sequence b + 1))
      (bk_sequence b + 1)) as (Gwf & Gmap & Gmk & Gseq & Gad); [done| |].
    { unfold fresh_record, resting_ok, ro_id; simpl. pose proof (wf_sequence b Hwf).
      destruct Hadm as (Hv & _). split_and!; try done; try lia; congruence. }
    unfold ro_id in *; simpl in *. rewrite <-Hmap.
    split_and!; congruence.
  - split_and!; simpl; try done; [|congruence..]. apply admit_wf; [done|]. lia.
Qed.

Lemma apply_batch_spec b arriving authority seq now batch :
  book_wf b → admissible b arriving authority seq now →
  private_match_batch b arriving now = Ok batch →
  let res := expected_batch batch in
  let fills := fills_of (a_commitment authority) (zip (pb_resting batch) (br_slots res)) in
  ∃ b' t, apply_mpc_batch_result arriving authority seq now res b = (b', Ok t)
    ∧ match_outcome b arriving authority seq fills (br_arriving_remaining res) b'
    ∧ bt_fills t = fills ∧ bt_arriving_remaining t = br_arriving_remaining res
    ∧ bt_private_before_root t = private_root b ∧ bt_private_after_root t = private_root b'
    ∧ bt_public_after t = public_snapshot b'.
Proof.
  intros Hwf Hadm Hb; cbv zeta.
  destruct (admissible_facts _ _ _ _ _ Hwf Hadm) as (_ & Hseq & Hmk & Hn & Hc & Hq).
  destruct Hadm as (Hv & Ha & Hck & Hmax).
  destruct (batch_slots_ready b arriving now batch Hwf ltac:(lia) Hb) as (Hnd & Hready & Hbal & Hin).
  destruct (apply_slots_spec (a_commitment authority) _ b Hwf Hnd Hready)
    as (b1 & Hs & Hwf1 & Hm1 & Hf1).
  unfold apply_mpc_batch_result. rewrite self_bind, try_bind, Ha, try_bind, Hck, try_bind, Hb, try_bind.
  unfold fail_if. rewrite bool_decide_eq_true_2 by done. cbn [negb].
  rewrite method_bind, Hs, self_bind, set_self_bind. do 2 eexists; split; [reflexivity|].
  split; [|by split_and!]. eapply rest_admit_spec; [done| |done|done|done| |].
  - by split_and!.
  - assert (pb_arriving_quantity batch = o_quantity arriving) as Hqb.
    { by apply match_batch_Ok in Hb as [_ ->]. }
    destruct Hbal as (Ht & -> & _). rewrite Hqb in *. destruct (pb_arriving_can_rest batch); lia.
  - intros Hid. apply Hn. destruct Hf1 as (_ & _ & <-). by apply (wf_admitted b1 Hwf1).
Qed.

(** C1: Refinement of the match.  On a well-formed book an admissible order
    with the expected result is accepted; the book, seen as a map from
    commitments to records, changes by exactly the published fills and the
    resting remainder, and the invariant is kept. *)
Theorem book_match_refines b arriving authority seq now batch :
  book_wf b → admissible b arriving authority seq now →
  private_match_batch b arriving now = Ok batch →
  let res := expected_batch batch in
  let fills := fills_of (a_commitment authority) (zip (pb_resting batch) (br_slots res)) in
  ∃ b' t, apply_mpc_batch_result arriving authority seq now res b = (b', Ok t)
    ∧ book_wf b'
    ∧ book_map b' = spec_rest arriving authority seq (br_arriving_remaining res)
        (spec_fills (book_map b) fills)
    ∧ bk_sequence b' = seq ∧ bk_admitted b' = {[a_commitment authority]} ∪ bk_admitted b
    ∧ bt_fills t = fills ∧ bt_arriving_remaining t = br_arriving_remaining res.
Proof.
  intros Hwf Hadm Hb res fills.
  destruct (apply_batch_spec b arriving authority seq now batch Hwf Hadm Hb)
    as (b' & t & ? & (? & ? & ? & ? & ?) & ? & ? & _). exists b', t. by split_and!.
Qed.

(** The three ways an application can end. *)
Lemma apply_batch_cases b arriving authority seq now result b' r :
  book_wf b → order_valid arriving = true → bk_sequence b < u64_max →
  apply_mpc_batch_result arriving authority seq now result b = (b', r) →
  (∃ e, r = Err e ∧ b' = b)
  ∨ (admissible b arriving authority seq now ∧ ∃ t batch, r = Ok t
      ∧ private_match_batch b arriving now = Ok batch ∧ result = expected_batch batch).
Proof.
  intros Hwf Hv Hmax Happ. pose proof Happ as Happ'. revert Happ'.
  unfold apply_mpc_batch_result. rewrite self_bind, try_bind.
  destruct (authority_verify authority arriving now) as [[]|e] eqn:Ha; [|intros [= <- <-]; eauto].
  rewrite try_bind.
  destruct (check_admission b arriving (a_commitment authority) seq) as [[]|e] eqn:Hc;
    [|intros [= <- <-]; eauto].
  rewrite try_bind. destruct (private_match_batch b arriving now) as [batch|e] eqn:Hb;
    [|intros [= <- <-]; eauto].
  rewrite try_bind. unfold fail_if. destruct (decide (result = expected_batch batch)) as [->|Hne].
  2:{ rewrite bool_decide_eq_false_2 by done. intros [= <- <-]; eauto. }
  intros _. right. assert (admissible b arriving authority seq now) as Hadm by by split_and!.
  destruct (apply_batch_spec _ _ _ _ _ _ Hwf Hadm Hb) as (b1 & t & Hok & _).
  rewrite Hok in Happ. simplify_eq. eauto 10.
Qed.

(** A match result is all or nothing.  Whatever result is presented, the
    book either rejects it and is left exactly as it was, or the result is the
    canonical one for the book's own match input; in particular a forged fill,
    price, remainder or depth is refused. *)
Theorem book_match_atomic b arriving authority seq now result :
  book_wf b → order_valid arriving = true → bk_sequence b < u64_max →
  match apply_mpc_batch_result arriving authority seq now result b with
  | (b', Err _) => b' = b
  | (_, Ok _) => ∃ batch, private_match_batch b arriving now = Ok batch
      ∧ result = expected_batch batch ∧ authority_verify authority arriving now = Ok ()
  end.
Proof.
  intros Hwf Hv Hmax. destruct (apply_mpc_batch_result _ _ _ _ _ _) as [b' r] eqn:E.
  destruct (apply_batch_cases _ _ _ _ _ _ _ _ Hwf Hv Hmax E)
    as [(e & -> & ->)|((_ & Ha & _) & t & batch & -> & Hb & ->)]; [done|]. eauto.
Qed.

(** ** Fills and open quantity *)

Definition makers_on (s0 : Side) (m : Records) (l : list (PrivateRestingInput * MpcSlotResult)) : Prop :=
  NoDup (map (λ rs, ri_commitment rs.1) l)
  ∧ Forall (λ rs, slot_matched rs.2 = true → ∃ o, m !! ri_commitment rs.1 = Some o
      ∧ o_side (ro_secret o) = s0) l.

Lemma spec_fill_lookup_ne (m : Records) f c :
  f_maker_order f ≠ c → spec_fill m f !! c = m !! c.
Proof.
  intros Hne. unfold spec_fill, set_left. destruct (m !! f_maker_order f); [|done].
  destruct (_ =? 0); [by rewrite lookup_delete_ne|by rewrite lookup_insert_ne].
Qed.

Lemma makers_on_tail s0 m r s l :
  makers_on s0 m ((r, s) :: l) →
  makers_on s0 m l ∧ ∀ f, f_maker_order f = ri_commitment r → makers_on s0 (spec_fill m f) l.
Proof.
  intros [Hnd HF]. apply NoDup_cons in Hnd as [Hn Hnd]. apply Forall_cons in HF as [_ HF].
  split; [by split|]. intros f Hf. split; [done|]. rewrite Forall_forall in *.
  intros rs Hrs Hm. destruct (HF rs Hrs Hm) as (o & Ho & Hs). exists o. split; [|done].
  rewrite spec_fill_lookup_ne; [done|]. rewrite Hf. intros E. apply Hn. simpl. rewrite E.
  apply list_elem_of_fmap. by exists rs.
Qed.

Lemma spec_fills_qty taker s s0 m l :
  makers_on s0 m l →
  map_qty s (spec_fills m (fills_of taker l)) =
    map_qty s m - (if bool_decide (s0 = s) then sumZ (map f_quantity (fills_of taker l)) else 0).
Proof.
  revert m; induction l as [|[r sl] l IH]; intros m Hm.
  { unfold spec_fills, fills_of; simpl. case_bool_decide; lia. }
  destruct (makers_on_tail _ _ _ _ _ Hm) as [Htl Hstep].
  destruct Hm as [_ [Hr _]%Forall_cons]. simpl in Hr.
  rewrite fills_of_cons. destruct (slot_matched sl) eqn:Em; [|by apply IH].
  destruct (Hr eq_refl) as (o & Ho & Hs). rewrite spec_fills_cons, IH by by apply Hstep.
  unfold spec_fill; simpl. rewrite Ho, map_qty_set_left by done. rewrite Hs.
  case_bool_decide; lia.
Qed.

Lemma fills_quantity taker (rs : list PrivateRestingInput) ss :
  Forall2 (λ _ s, slot_matched s = false → slot_trade_quantity s = 0) rs ss →
  sumZ (map f_quantity (fills_of taker (zip rs ss))) = traded ss.
Proof.
  unfold traded. induction 1 as [|r s rs ss Hs HF IH]; [done|]. simpl zip.
  rewrite fills_of_cons. destruct (slot_matched s); simpl; [by rewrite IH|].
  rewrite IH, Hs by done. lia.
Qed.

(** A maker's record after the fills. *)
Lemma spec_fills_maker taker s0 m l r s o :
  makers_on s0 m l → (r, s) ∈ l → slot_matched s = true → m !! ri_commitment r = Some o →
  spec_fills m (fills_of taker l) !! ri_commitment r =
    if ro_remaining o - slot_trade_quantity s =? 0 then None
    else Some (with_remaining o (ro_remaining o - slot_trade_quantity s)).
Proof.
  revert m; induction l as [|[r' s'] l IH]; intros m Hm Hin Hs Ho; [by apply elem_of_nil in Hin|].
  destruct (makers_on_tail _ _ _ _ _ Hm) as [Htl Hstep].
  pose proof (proj1 Hm) as [Hn Hnd]%NoDup_cons. simpl in Hn.
  rewrite fills_of_cons. apply elem_of_cons in Hin as [[= <- <-]|Hin].
  - rewrite Hs, spec_fills_cons, spec_fills_other.
    + unfold spec_fill; simpl. rewrite Ho. unfold set_left.
      destruct (_ =? 0); [by rewrite lookup_delete_eq|by rewrite lookup_insert_eq].
    + intros f (r' & s' & Hin & _ & ->)%elem_of_fills_of. simpl. intros E. apply Hn. rewrite <-E.
      apply list_elem_of_fmap. by exists (r', s').
  - assert (ri_commitment r' ≠ ri_commitment r) as Hne.
    { intros E. apply Hn. rewrite E. apply list_elem_of_fmap. by exists (r, s). }
    destruct (slot_matched s'); [|by apply IH]. rewrite spec_fills_cons.
    apply IH; [by apply Hstep|done..|]. by rewrite spec_fill_lookup_ne.
Qed.

(** Fills never add records nor change an order. *)
Lemma spec_fills_inv fills (m : Records) c o :
  spec_fills m fills !! c = Some o → ∃ o0, m !! c = Some o0 ∧ ro_secret o = ro_secret o0.
Proof.
  revert m; induction fills as [|f fills IH]; intros m; unfold spec_fills in *; simpl; [eauto|].
  intros (o1 & Ho1 & ->)%IH. unfold spec_fill, set_left in Ho1.
  destruct (m !! f_maker_order f) as [o0|] eqn:E; [|eauto].
  destruct (_ =? 0); [apply lookup_delete_Some in Ho1 as [_ ?]; eauto|].
  apply lookup_insert_Some in Ho1 as [[<- <-]|[_ ?]]; eauto.
Qed.

Lemma batch_makers b arriving now batch :
  book_wf b → 0 ≤ o_quantity arriving → private_match_batch b arriving now = Ok batch →
  makers_on (opposite (o_side arriving)) (book_map b)
    (zip (pb_resting batch) (br_slots (expected_batch batch))).
Proof.
  intros Hwf Hq Hb. destruct (batch_slots_ready b arriving now batch Hwf Hq Hb) as (Hnd & _ & _ & Hin).
  split; [done|]. apply Forall_forall. intros rs Hrs _. destruct (Hin rs Hrs) as (o & Ho & ->).
  apply elem_of_filter_list in Ho as [Ho _].
  destruct (ordered_resting b arriving o Hwf Ho) as (Hbo & Hs & _). exists o.
  split; [by apply book_map_Some|]. by destruct (o_side (ro_secret o)), (o_side arriving).
Qed.

Lemma spec_rest_qty s arriving authority seq rem m :
  m !! a_commitment authority = None → 0 ≤ rem →
  (o_time_in_force arriving ≠ GoodTilCancelled → rem = 0) →
  map_qty s (spec_rest arriving authority seq rem m) =
    map_qty s m + (if bool_decide (o_side arriving = s) then rem else 0).
Proof.
  intros Hn Hrem Htif. unfold spec_rest. destruct (Z.ltb_spec 0 rem); simpl.
  - rewrite bool_decide_eq_true_2.
    + rewrite map_qty_insert by done. unfold qty_on; simpl. lia.
    + destruct (decide (o_time_in_force arriving = GoodTilCancelled)); [done|].
      specialize (Htif n). lia.
  - replace rem with 0 by lia. destruct (bool_decide _); lia.
Qed.

(** Conservation of open interest.  An accepted match takes from the
    opposite side exactly the sum of the published fills and adds to the
    order's own side exactly the remainder that rests; fills and remainder of a
    good-til-cancelled order add up to its quantity, an immediate-or-cancel
    order rests nothing. *)
Theorem book_match_conserves b arriving authority seq now result b' t :
  book_wf b → order_valid arriving = true → bk_sequence b < u64_max →
  apply_mpc_batch_result arriving authority seq now result b = (b', Ok t) →
  let filled := sumZ (map f_quantity (bt_fills t)) in
  open_quantity (opposite (o_side arriving)) b' =
    open_quantity (opposite (o_side arriving)) b - filled
  ∧ open_quantity (o_side arriving) b' =
    open_quantity (o_side arriving) b + bt_arriving_remaining t
  ∧ bt_arriving_remaining t =
    match o_time_in_force arriving with
    | GoodTilCancelled => o_quantity arriving - filled
    | ImmediateOrCancel => 0
    end.
Proof.
  intros Hwf Hv Hmax Happ filled.
  destruct (apply_batch_cases _ _ _ _ _ _ _ _ Hwf Hv Hmax Happ)
    as [(e & [=] & _)|(Hadm & t' & batch & [= <-] & Hb & ->)].
  destruct (apply_batch_spec _ _ _ _ _ _ Hwf Hadm Hb)
    as (b1 & t1 & Happ1 & (Hwf1 & Hmap & _ & _ & Had) & Hf & Hr & _).
  rewrite Happ in Happ1. simplify_eq.
  destruct (admissible_facts _ _ _ _ _ Hwf Hadm) as (_ & _ & _ & Hn & _ & Hq).
  pose proof (batch_makers b arriving now batch Hwf ltac:(lia) Hb) as Hmk.
  destruct (batch_slots_ready b arriving now batch Hwf ltac:(lia) Hb) as (_ & _ & (Ht & Hrem & HF) & _).
  assert (filled = traded (br_slots (expected_batch batch))) as Hfilled.
  { unfold filled. rewrite Hf. apply fills_quantity. eapply Forall2_impl; [done|].
    intros r s (Hs & Hp & _) Hm. destruct (decide (0 < slot_trade_quantity s)); [|lia].
    apply Hp in l. congruence. }
  assert (pb_arriving_quantity batch = o_quantity arriving
    ∧ pb_arriving_can_rest batch = bool_decide (o_time_in_force arriving = GoodTilCancelled))
    as [Hqb Hcr] by by apply match_batch_Ok in Hb as [_ ->].
  rewrite !book_map_qty, Hmap, Hr by done. set (rem := br_arriving_remaining _) in *.
  rewrite !spec_rest_qty, !(spec_fills_qty _ _ _ _ _ Hmk), <-!Hf; fold filled.
  2,5: apply eq_None_not_Some; intros [o (o0 & Ho & _)%spec_fills_inv]; apply Hn, (wf_admitted b Hwf);
    apply elem_of_ids; exists o0; by apply book_map_Some.
  all: try (rewrite Hrem, Hcr; case_bool_decide; first [lia|done]; fail).
  split_and!.
  - destruct (o_side arriving); simpl; lia.
  - destruct (o_side arriving); simpl; lia.
  - rewrite Hrem, Hcr, Hqb, Hfilled. by destruct (o_time_in_force arriving).
Qed.

(** ** The book never crosses *)

Definition uncrossed b : Prop :=
  ∀ bid ask, bid ∈ book_orders b → ask ∈ book_orders b →
    o_side (ro_secret bid) = Buy → o_side (ro_secret ask) = Sell →
    o_limit_price (ro_secret bid) < o_limit_price (ro_secret ask).

(** A live crossing record that an unbounded match leaves the arriving order
    with a remainder against was consumed completely. *)
Lemma full_match_consumes b arriving now o :
  book_wf b → 0 ≤ o_quantity arriving → o ∈ offers b arriving now →
  price_crosses (o_side arriving) (o_limit_price arriving) (o_limit_price (ro_secret o)) = true →
  0 < (full_match b arriving now).2 →
  ∃ i s, offers b arriving now !! i = Some o ∧ (full_match b arriving now).1 !! i = Some s
    ∧ slot_matched s = true ∧ slot_trade_quantity s = ro_remaining o.
Proof.
  intros Hwf Hq Ho Hc Hrem. pose proof (offers_offered b arriving now Hwf) as Hoff.
  pose proof (offered_inputs _ _ Hoff) as Hqs. destruct Hoff as [HF _].
  apply list_elem_of_lookup in Ho as [i Hi].
  assert (map resting_input (offers b arriving now) !! i = Some (resting_input o)) as Hi'.
  { by rewrite list_lookup_fmap, Hi. }
  destruct (match_slots_range (o_side arriving) (o_limit_price arriving) _ _ Hq Hqs) as [_ HR].
  destruct (Forall2_lookup_l _ _ _ _ _ HR Hi') as (s & Hs & Hle & Hpos & _).
  destruct (Forall_lookup_1 _ _ _ _ HF Hi) as [Hside Hqi].
  exists i, s. simpl in Hle. split_and!; [done..| |].
  - apply Hpos. destruct (decide (slot_trade_quantity s < ro_remaining o)) as [Hlt|]; [|lia].
    pose proof (match_slots_filled_or_done _ _ _ _ _ _ _ Hq Hqs Hi' Hs Hside Hc Hlt) as Hz.
    unfold full_match in Hrem. lia.
  - destruct (decide (slot_trade_quantity s < ro_remaining o)) as [Hlt|]; [|lia].
    pose proof (match_slots_filled_or_done _ _ _ _ _ _ _ Hq Hqs Hi' Hs Hside Hc Hlt) as Hz.
    unfold full_match in Hrem. lia.
Qed.

Lemma eight_slot_batch b arriving now batch :
  private_match_batch b arriving now = Ok batch →
  br_slots (expected_batch batch) = (eight_slot_match b arriving now).1
  ∧ (0 < br_arriving_remaining (expected_batch batch) →
     br_arriving_remaining (expected_batch batch) = (eight_slot_match b arriving now).2)
  ∧ pb_resting batch = map resting_input (take MAX_MATCH_SLOTS (offers b arriving now)).
Proof.
  intros [_ ->]%match_batch_Ok. rewrite expected_batch_slots, expected_batch_remaining. simpl.
  split_and!; [done| |done]. case_bool_decide; [done|lia].
Qed.

(** After a match within capacity no live record crosses the resting remainder. *)
Lemma remainder_does_not_cross b arriving authority now batch o c :
  book_wf b → 0 ≤ o_quantity arriving →
  private_match_batch b arriving now = Ok batch →
  exceeds_fixed_match_capacity b arriving now = false →
  0 < br_arriving_remaining (expected_batch batch) →
  book_map b !! c = Some o → o ∈ offers b arriving now →
  price_crosses (o_side arriving) (o_limit_price arriving) (o_limit_price (ro_secret o)) = true →
  spec_fills (book_map b) (fills_of (a_commitment authority)
    (zip (pb_resting batch) (br_slots (expected_batch batch)))) !! c = None.
Proof.
  intros Hwf Hq Hb Hcap Hrem Ho Hoff Hc.
  destruct (eight_slot_batch _ _ _ _ Hb) as (Hslots & Hr & Hpr). specialize (Hr Hrem).
  destruct (eight_slots_lossless b arriving now Hwf Hq Hcap) as (Hfull & _ & late & Happ & Hlate).
  destruct (full_match_consumes b arriving now o Hwf Hq Hoff Hc) as (i & s & Hi & Hs & Hm & Hqs); [lia|].
  pose proof (batch_makers b arriving now batch Hwf Hq Hb) as Hmk.
  assert ((resting_input o, s) ∈ zip (pb_resting batch) (br_slots (expected_batch batch))) as Hin.
  { rewrite Happ in Hs. apply lookup_app_Some in Hs as [Hs|[Hge Hs]].
    - apply elem_of_lookup_zip_with. exists i, (resting_input o), s. split_and!; [done| |by rewrite Hslots].
      rewrite Hpr, list_lookup_fmap, lookup_take_lt, Hi; [done|].
      apply lookup_lt_Some in Hs. unfold eight_slot_match in Hs.
      rewrite match_slots_length, length_map, length_take in Hs. lia.
    - rewrite Forall_lookup in Hlate. rewrite (Hlate _ _ Hs) in Hm. done. }
  assert (c = ro_id o) as -> by (by apply book_map_Some in Ho as [_ <-]).
  rewrite (spec_fills_maker _ _ _ _ (resting_input o) s o Hmk Hin Hm Ho), Hqs.
  by rewrite Z.sub_diag.
Qed.

Lemma uncrossed_map b :
  book_wf b → uncrossed b ↔ ∀ c d bid ask, book_map b !! c = Some bid → book_map b !! d = Some ask →
    o_side (ro_secret bid) = Buy → o_side (ro_secret ask) = Sell →
    o_limit_price (ro_secret bid) < o_limit_price (ro_secret ask).
Proof.
  intros Hwf. split.
  - intros Hu c d bid ask [Hc _]%book_map_Some [Hd _]%book_map_Some; auto.
  - intros Hu bid ask Hb Ha. apply (Hu (ro_id bid) (ro_id ask)); by apply book_map_Some.
Qed.

(** The book never crosses.  If every bid is below every ask, no record
    has expired and the capacity guard allows the order, then after the match
    is applied every bid is still below every ask. *)
Theorem book_stays_uncrossed b arriving authority seq now result b' t :
  book_wf b → order_valid arriving = true → bk_sequence b < u64_max →
  uncrossed b → Forall (λ o, now ≤ o_expires_at (ro_secret o)) (book_orders b) →
  exceeds_fixed_match_capacity b arriving now = false →
  apply_mpc_batch_result arriving authority seq now result b = (b', Ok t) →
  uncrossed b'.
Proof.
  intros Hwf Hv Hmax Hun Hlive Hcap Happ.
  destruct (apply_batch_cases _ _ _ _ _ _ _ _ Hwf Hv Hmax Happ)
    as [(e & [=] & _)|(Hadm & t' & batch & [= <-] & Hb & ->)].
  destruct (apply_batch_spec _ _ _ _ _ _ Hwf Hadm Hb) as (b1 & t1 & Happ1 & (Hwf1 & Hmap & _) & _).
  rewrite Happ in Happ1. simplify_eq.
  destruct (admissible_facts _ _ _ _ _ Hwf Hadm) as (_ & _ & _ & _ & _ & Hq).
  set (fills := fills_of _ _) in Hmap.
  assert (∀ c o0, book_map b !! c = Some o0 → is_Some (spec_fills (book_map b) fills !! c) →
    o_side (ro_secret o0) ≠ o_side arriving → 0 < br_arriving_remaining (expected_batch batch) →
    price_crosses (o_side arriving) (o_limit_price arriving) (o_limit_price (ro_secret o0)) = false)
    as Hnocross.
  { intros c o0 Ho0 [o1 Ho1] Hs Hrem. apply not_true_iff_false. intros Hc.
    pose proof Ho0 as [Hin Hid]%book_map_Some; [|done]. rewrite Forall_forall in Hlive.
    assert (spec_fills (book_map b) fills !! c = None); [|congruence].
    apply (remainder_does_not_cross b arriving authority now batch o0); try done; [lia|].
    apply elem_of_filter_list. split; [by apply ordered_complete|]. by apply Z.leb_le, Hlive. }
  rewrite uncrossed_map in * by done. intros c d bid ask. rewrite Hmap. unfold spec_rest.
  destruct (_ && _) eqn:E; bool_hyps.
  2:{ intros (bid0 & Hbid & ->)%spec_fills_inv (ask0 & Hask & ->)%spec_fills_inv. eauto. }
  rewrite !lookup_insert_Some.
  intros [[<- <-]|[_ Hc]] [[<- <-]|[_ Hd]]; simpl; [congruence| | |].
  - pose proof Hd as (ask0 & Hask & ->)%spec_fills_inv. intros Hb1 Ha1.
    specialize (Hnocross d ask0 Hask (mk_is_Some _ _ Hd) ltac:(congruence) ltac:(done)).
    rewrite Hb1 in Hnocross. unfold price_crosses in Hnocross. bool_hyps. lia.
  - pose proof Hc as (bid0 & Hbid & ->)%spec_fills_inv. intros Hb1 Ha1.
    specialize (Hnocross c bid0 Hbid (mk_is_Some _ _ Hc) ltac:(congruence) ltac:(done)).
    rewrite Ha1 in Hnocross. unfold price_crosses in Hnocross. bool_hyps. lia.
  - apply spec_fills_inv in Hc as (bid0 & Hbid & ->), Hd as (ask0 & Hask & ->). eauto.
Qed.

End apply.
