(* ===== verification/BookLife.v ===== *)
(** * The life of the book

    Resting insertion, the one-slot match, cancellation and expiry on the
    abstract map, and the invariant of every reachable book: a rule induction
    over all transitions of [PrivateBook]. *)

From S2P Require Import Prelude BTree Bytes AppCrypto Orders Matching Book BookInv BookMatch.
From S2P Require Import BookApply.
Open Scope string_scope.
Open Scope list_scope.
Open Scope Z_scope.

Lemma bt_remove_last {K V} `{Ord K} (l : list (K * V)) k v :
  bt_ok (l ++ [(k, v)]) → bt_remove k (l ++ [(k, v)]) = l.
Proof.
  induction l as [|[k' v'] l IH]; simpl; [by rewrite ocmp_refl|].
  rewrite bt_ok_cons, Forall_app, Forall_singleton. intros (Hok & _ & Hlt).
  rewrite (proj2 (ocmp_Gt k k') Hlt). by rewrite IH.
Qed.

Lemma update_side_last c r (l : BookSide) p q :
  c ∉ ids (flat l) →
  update_side c r (l ++ [(p, q)]) = app l <$> update_side c r [(p, q)].
Proof.
  intros Hn. induction l as [|[p' q'] l IH]; simpl.
  { by destruct (queue_update c r q) as [[|]|]. }
  rewrite flat_cons, ids_app, not_elem_of_app in Hn. destruct Hn as [Hn1 Hn2].
  rewrite (proj2 (queue_update_None c r q') Hn1), (IH Hn2); simpl.
  by destruct (queue_update c r q) as [[|]|].
Qed.

Section life.
Context `{Crypto}.
Implicit Types (b : PrivateBook).

(** The best opposite record is the first one offered. *)
Lemma best_opposite_head b arriving :
  book_wf b → best_opposite b arriving = head (ordered_opposite b arriving).
Proof.
  intros Hwf. unfold best_opposite, ordered_opposite. destruct (o_side arriving).
  - destruct (wf_asks b Hwf) as [_ HF]. destruct (bk_asks b) as [|[p q] l]; [done|].
    apply Forall_cons in HF as [(Hne & _) _]. simpl in *. by destruct q.
  - destruct (wf_bids b Hwf) as [_ HF]. destruct (bk_bids b) as [|e l _] using rev_ind; [done|].
    apply Forall_app in HF as [_ [(Hne & _) _]%Forall_cons]. destruct e as [p q]; simpl in *.
    unfold bt_last. rewrite last_snoc, rev_app_distr. simpl. by destruct q.
Qed.

(** Changing the front of the best queue is updating its record. *)
Definition take_best (arriving : SecretOrder) (r : Z) b : PrivateBook :=
  if r =? 0 then remove_best arriving b else set_best arriving r b.

Lemma take_best_update b arriving o r :
  book_wf b → best_opposite b arriving = Some o →
  update_remainder (ro_id o) r b = (take_best arriving r b, Ok ()).
Proof.
  intros Hwf Hbest. pose proof (wf_unique b Hwf) as Hu. unfold book_orders in Hu.
  rewrite ids_app, NoDup_app in Hu. destruct Hu as (Hub & Hdisj & Hua).
  unfold take_best, best_opposite, remove_best, set_best, update_remainder, pop_at in *.
  destruct (o_side arriving).
  - destruct (wf_asks b Hwf) as [Hok _]. destruct (bk_asks b) as [|[p [|o' q]] l] eqn:Ea; [done..|].
    simpl in Hbest. simplify_eq.
    assert (update_side (ro_id o) r (bk_bids b) = None) as ->.
    { apply update_side_None. intros Hin. apply (Hdisj _ Hin).
      rewrite flat_cons, ids_app, elem_of_app. left. simpl. left. }
    simpl. rewrite decide_True, ocmp_refl by done.
    destruct (r =? 0); [destruct q; simpl; by rewrite ?ocmp_refl|by rewrite ?ocmp_refl].
  - destruct (wf_bids b Hwf) as [Hok _].
    destruct (bk_bids b) as [|[p q] l _] eqn:Eb using rev_ind; [done|].
    unfold bt_last in *. rewrite last_snoc in *. simpl in Hbest.
    destruct q as [|o' q]; [done|]. simpl in Hbest. simplify_eq.
    rewrite flat_app, ids_app, NoDup_app in Hub. destruct Hub as (_ & Hub & _).
    rewrite update_side_last.
    2:{ intros Hin. apply (Hub _ Hin). rewrite flat_cons, ids_app, elem_of_app. left. simpl. left. }
    simpl. rewrite decide_True by done.
    assert (bt_get p (l ++ [(p, o :: q)]) = Some (o :: q)) as ->.
    { apply bt_elem_get; [done|]. apply elem_of_app. right. left. }
    destruct (r =? 0); simpl.
    + destruct q; simpl; [by rewrite bt_remove_last, app_nil_r by done|by rewrite bt_insert_split by done].
    + by rewrite bt_insert_split by done.
Qed.

(** ** Resting insertion *)

Lemma insert_resting_spec b order authority seq now :
  book_wf b → admissible b order authority seq now → o_time_in_force order = GoodTilCancelled →
  ∃ b', insert_resting order authority seq now b = (b', Ok ())
    ∧ match_outcome b order authority seq [] (o_quantity order) b'.
Proof.
  intros Hwf Hadm Htif. pose proof Hadm as (Hv & Ha & Hck & Hmax).
  unfold insert_resting. rewrite self_bind, try_bind, Ha, try_bind, Hck, try_bind.
  unfold fail_if. rewrite bool_decide_eq_true_2 by done. cbn [negb].
  eexists; split; [reflexivity|].
  destruct (admissible_facts _ _ _ _ _ Hwf Hadm) as (_ & _ & _ & Hn & _ & Hq).
  pose proof (rest_admit_spec b b order authority seq now (o_quantity order) [] Hwf Hadm Hwf
    ltac:(done) ltac:(done) ltac:(lia)) as Hout.
  unfold rest_arriving in Hout. rewrite (proj2 (Z.ltb_lt 0 _)), bool_decide_eq_true_2 in Hout by done.
  apply Hout. intros Hid. by apply Hn, (wf_admitted b Hwf).
Qed.

Lemma insert_resting_cases b order authority seq now b' r :
  book_wf b → order_valid order = true → bk_sequence b < u64_max →
  insert_resting order authority seq now b = (b', r) →
  (∃ e, r = Err e ∧ b' = b)
  ∨ (r = Ok () ∧ admissible b order authority seq now
     ∧ match_outcome b order authority seq [] (o_quantity order) b').
Proof.
  intros Hwf Hv Hmax Hins. pose proof Hins as Hins'. revert Hins'.
  unfold insert_resting. rewrite self_bind, try_bind.
  destruct (authority_verify authority order now) as [[]|e] eqn:Ha; [|intros [= <- <-]; eauto].
  rewrite try_bind. destruct (check_admission _ _ _ _) as [[]|e] eqn:Hc; [|intros [= <- <-]; eauto].
  rewrite try_bind. unfold fail_if.
  destruct (decide (o_time_in_force order = GoodTilCancelled)) as [Ht|Ht].
  2:{ rewrite bool_decide_eq_false_2 by done. intros [= <- <-]; eauto. }
  intros _. right. assert (admissible b order authority seq now) as Hadm by by split_and!.
  destruct (insert_resting_spec b order authority seq now Hwf Hadm Ht) as (b1 & Hok & Hout).
  rewrite Hok in Hins. by simplify_eq.
Qed.

(** ** The one-slot match *)

(** The single fill of a one-slot result. *)
Definition one_fill b (arriving : SecretOrder) (authority : OrderAuthority) : list PublicFill :=
  let res := expected_result b arriving in
  match best_opposite b arriving with
  | Some o => if mr_matched res
      then [mk_fill (ro_id o) (a_commitment authority) (mr_trade_price res) (mr_trade_quantity res)]
      else []
  | None => []
  end.

Lemma expected_result_range b arriving :
  book_wf b → 0 ≤ o_quantity arriving →
  let res := expected_result b arriving in
  0 ≤ mr_arriving_remaining res ≤ o_quantity arriving
  ∧ ∀ o, best_opposite b arriving = Some o →
      mr_resting_remaining res = ro_remaining o - mr_trade_quantity res
      ∧ 0 ≤ mr_resting_remaining res ≤ o_quantity (ro_secret o)
      ∧ book_map b !! ro_id o = Some o.
Proof.
  intros Hwf Hq res. unfold res, expected_result.
  destruct (best_opposite b arriving) as [o|] eqn:Eo; simpl; [|split; [lia|done]].
  assert (o ∈ ordered_opposite b arriving) as Ho.
  { rewrite best_opposite_head in Eo by done. by apply head_Some_elem_of. }
  destruct (ordered_resting b arriving o Hwf Ho) as (Hin & _ & Hrem & _).
  split; [destruct (price_crosses _ _ _); lia|]. intros o' [= <-].
  split; [done|]. split; [destruct (price_crosses _ _ _); lia|]. by apply book_map_Some.
Qed.

Lemma apply_mpc_result_spec b arriving authority seq now :
  book_wf b → admissible b arriving authority seq now →
  let res := expected_result b arriving in
  ∃ b' t, apply_mpc_result arriving authority seq now res b = (b', Ok t)
    ∧ match_outcome b arriving authority seq (one_fill b arriving authority)
        (mr_arriving_remaining res) b'
    ∧ bt_fills t = one_fill b arriving authority
    ∧ bt_arriving_remaining t = mr_arriving_remaining res.
Proof.
  intros Hwf Hadm; cbv zeta.
  destruct (admissible_facts _ _ _ _ _ Hwf Hadm) as (_ & _ & _ & Hn & _ & Hq).
  pose proof Hadm as (Hv & Ha & Hck & Hmax).
  destruct (expected_result_range b arriving Hwf ltac:(lia)) as [Hrem Hbest].
  assert (∀ b1, book_wf b1 → same_frame b b1 → a_commitment authority ∉ ids (book_orders b1)) as Hfresh.
  { intros b1 Hwf1 (_ & _ & Had) Hid. apply Hn. rewrite <-Had. by apply (wf_admitted b1 Hwf1). }
  unfold apply_mpc_result. rewrite self_bind, try_bind, Ha, try_bind, Hck, try_bind.
  unfold fail_if. rewrite bool_decide_eq_true_2 by done. cbn [negb]. unfold one_fill in *.
  destruct (mr_matched (expected_result b arriving)) eqn:Em.
  - destruct (best_opposite b arriving) as [o|] eqn:Eo.
    2:{ unfold expected_result in Em. by rewrite Eo in Em. }
    destruct (Hbest o eq_refl) as (Hrr & Hle & Hlook).
    rewrite method_bind, try_bind. cbn [ok_or]. rewrite set_self_bind.
    fold (take_best arriving (mr_resting_remaining (expected_result b arriving)) b).
    destruct (update_remainder_spec b _ _ o Hwf Hlook Hle) as (b1 & Hu & Hwf1 & Hm1 & Hf1).
    rewrite (take_best_update b arriving o _ Hwf Eo) in Hu. injection Hu as ->.
    cbn [mret method_mret]. rewrite self_bind, set_self_bind.
    do 2 eexists; split; [reflexivity|]. split; [|done].
    eapply rest_admit_spec; [done..| |lia|by apply Hfresh].
    rewrite Hm1. unfold spec_fills, spec_fill; simpl. by rewrite Hlook, Hrr.
  - rewrite method_bind. cbn [mret method_mret]. rewrite self_bind, set_self_bind.
    do 2 eexists; split; [reflexivity|].
    assert (match best_opposite b arriving with Some _ => @nil PublicFill | None => [] end = [])
      as -> by by destruct (best_opposite b arriving).
    split; [|done]. by eapply rest_admit_spec; [..|lia|apply Hfresh].
Qed.

Lemma apply_mpc_result_cases b arriving authority seq now result b' r :
  book_wf b → order_valid arriving = true → bk_sequence b < u64_max →
  apply_mpc_result arriving authority seq now result b = (b', r) →
  (∃ e, r = Err e ∧ b' = b)
  ∨ (admissible b arriving authority seq now ∧ result = expected_result b arriving
     ∧ ∃ t, r = Ok t
       ∧ match_outcome b arriving authority seq (one_fill b arriving authority)
           (mr_arriving_remaining result) b').
Proof.
  intros Hwf Hv Hmax Happ. pose proof Happ as Happ'. revert Happ'.
  unfold apply_mpc_result. rewrite self_bind, try_bind.
  destruct (authority_verify authority arriving now) as [[]|e] eqn:Ha; [|intros [= <- <-]; eauto].
  rewrite try_bind. destruct (check_admission _ _ _ _) as [[]|e] eqn:Hc; [|intros [= <- <-]; eauto].
  rewrite try_bind. unfold fail_if.
  destruct (decide (result = expected_result b arriving)) as [->|Hne].
  2:{ rewrite bool_decide_eq_false_2 by done. intros [= <- <-]; eauto. }
  intros _. right. assert (admissible b arriving authority seq now) as Hadm by by split_and!.
  destruct (apply_mpc_result_spec _ _ _ _ _ Hwf Hadm) as (b1 & t & Hok & Hout & _).
  rewrite Hok in Happ. simplify_eq. eauto 10.
Qed.

(** The one-slot match agrees with the eight-slot match.  When no record
    has expired, [expected_result] is the first slot of the batch result: same
    decision, price and quantity, and when the batch trades with one order at
    most the same arriving remainder. *)
Theorem one_slot_agrees b arriving now batch s slots :
  book_wf b → order_valid arriving = true →
  Forall (λ o, now ≤ o_expires_at (ro_secret o)) (book_orders b) →
  private_match_batch b arriving now = Ok batch →
  br_slots (expected_batch batch) = s :: slots →
  let one := expected_result b arriving in
  s = mk_slot (mr_matched one) (mr_trade_price one) (mr_trade_quantity one)
  ∧ (Forall (λ s, slot_matched s = false) slots → o_time_in_force arriving = GoodTilCancelled →
     br_arriving_remaining (expected_batch batch) = mr_arriving_remaining one).
Proof.
  intros Hwf Hv Hlive Hb Hslots one.
  pose proof (order_valid_reserve _ Hv) as (_ & _ & Hq & _).
  destruct (batch_slots_ready b arriving now batch Hwf ltac:(lia) Hb)
    as (_ & _ & (_ & Hrem & HF) & _).
  rewrite Hslots in HF, Hrem.
  pose proof Hb as [_ ->]%match_batch_Ok. simpl in *.
  assert (offers b arriving now = ordered_opposite b arriving) as Hall.
  { unfold offers. rewrite Forall_forall in Hlive.
    assert (∀ o, o ∈ ordered_opposite b arriving → live now o = true) as Hl.
    { intros o Ho. apply Z.leb_le, Hlive. by apply ordered_resting in Ho as [? _]. }
    revert Hl. generalize (ordered_opposite b arriving) as l. induction l as [|o l IH]; [done|].
    intros Hl; simpl. rewrite Hl, IH by (intros; try apply Hl; set_solver). done. }
  rewrite Hall in *. rewrite expected_batch_slots in Hslots. simpl in Hslots.
  unfold one, expected_result. rewrite best_opposite_head by done.
  destruct (ordered_opposite b arriving) as [|o l] eqn:El; [done|]. simpl in *.
  assert (o ∈ ordered_opposite b arriving) as Ho by (rewrite El; left).
  destruct (ordered_resting b arriving o Hwf Ho) as (_ & Hside & Hro & _).
  rewrite bool_decide_eq_false_2, !(proj2 (Z.ltb_lt 0 _)) in Hslots by (done || lia).
  rewrite !andb_true_r in Hslots. cbn [negb andb] in Hslots.
  destruct (match_slots _ _ _ _) as [ss rest]; simpl in Hslots. injection Hslots as <- <-.
  split; [done|]. intros Hno Htif. rewrite Hrem, Htif. simpl.
  inversion HF as [|? ? ? ? _ HF']; subst. unfold traded; simpl.
  enough (sumZ (map slot_trade_quantity ss) = 0) by lia.
  clear -Hno HF'. revert HF'. generalize (map resting_input (take 7 l)) as rs. revert Hno.
  induction 1 as [|s ss Hs Hno IH]; intros rs HF'; [done|].
  inversion HF' as [|r ? rs' ? (Hs1 & Hs2 & _) HF'']; subst. simpl. rewrite (IH _ HF'').
  destruct (decide (0 < slot_trade_quantity s)) as [Hp|]; [apply Hs2 in Hp; congruence|lia].
Qed.

(** ** Cancellation *)

Definition next_command b (seq : Z) (command : OrderCommitment) : Prop :=
  seq = wrapping_add (bk_sequence b) 1 ∧ command ∉ bk_admitted b.

Lemma fail_if_true {E} (c : bool) (e : E) : c = true → fail_if c e = Err e.
Proof. by intros ->. Qed.
Lemma fail_if_false {E} (c : bool) (e : E) : c = false → fail_if c e = Ok ().
Proof. by intros ->. Qed.

(** What a granted cancellation does. *)
Definition cancelled b (x : SecretCancellation) (seq : Z) (o : RestingOrder)
    (t : CancellationTransition) (b' : PrivateBook) : Prop :=
  book_wf b' ∧ book_map b' = delete (x_target x) (book_map b)
  ∧ ct_released_quantity t = ro_remaining o ∧ ct_target_commitment t = x_target x
  ∧ bk_market_id b' = bk_market_id b ∧ bk_sequence b' = seq
  ∧ bk_admitted b' = {[cancellation_commitment x]} ∪ bk_admitted b.

Lemma apply_cancellation_cases b x seq :
  book_wf b → bk_sequence b < u64_max →
  (∃ e, apply_cancellation x seq b = (b, Err e)
     ∧ ¬ (next_command b seq (cancellation_commitment x)
          ∧ ∃ o, book_map b !! x_target x = Some o
            ∧ o_cancellation_secret_digest (ro_secret o) = cancellation_digest (x_secret x)))
  ∨ (∃ b' t o, apply_cancellation x seq b = (b', Ok t)
     ∧ next_command b seq (cancellation_commitment x)
     ∧ book_map b !! x_target x = Some o
     ∧ o_cancellation_secret_digest (ro_secret o) = cancellation_digest (x_secret x)
     ∧ cancelled b x seq o t b').
Proof.
  intros Hwf Hmax. unfold apply_cancellation. rewrite self_bind, try_bind.
  destruct (Z.eqb_spec seq (wrapping_add (bk_sequence b) 1)) as [->|Hs].
  2:{ left. eexists; split; [reflexivity|]. by intros [[? _] _]. }
  cbn [negb fail_if]. rewrite try_bind.
  destruct (decide (cancellation_commitment x ∈ bk_admitted b)) as [Hin|Hn].
  { rewrite bool_decide_eq_true_2 by done. left. eexists; split; [reflexivity|]. by intros [[_ ?] _]. }
  rewrite bool_decide_eq_false_2 by done. cbn [fail_if]. rewrite try_bind, find_record_map.
  destruct (book_map b !! x_target x) as [o|] eqn:Eo; cbn [ok_or].
  2:{ left. eexists; split; [reflexivity|]. by intros (_ & o & ? & _). }
  rewrite try_bind.
  destruct (decide (o_cancellation_secret_digest (ro_secret o) = cancellation_digest (x_secret x)))
    as [Hd|Hd].
  2:{ rewrite bool_decide_eq_false_2 by done. left. eexists; split; [reflexivity|].
      by intros (_ & o' & [= <-] & ?). }
  rewrite bool_decide_eq_true_2 by done. cbn [negb fail_if].
  destruct (remove_by_commitment_spec b _ _ Hwf Eo) as (b1 & Hr & Hwf1 & Hm1 & Hmk & Hsq & Had).
  rewrite method_bind, Hr, self_bind, set_self_bind. right. do 3 eexists. split; [reflexivity|].
  pose proof (wf_sequence b Hwf). rewrite next_sequence by lia.
  split_and!; try done; simpl; try congruence.
  - split; [|done]. by rewrite next_sequence by lia.
  - split_and!; try done; simpl; try congruence. apply admit_wf; [done|lia].
Qed.

(** Cancellation is authorised and exact.  A cancellation succeeds if and
    only if it is the next command, was not used before and carries the secret
    behind the digest in the target's record; it then removes that record alone
    and releases exactly its open quantity.  Otherwise the book is unchanged. *)
Theorem cancellation_exact b x seq :
  book_wf b → bk_sequence b < u64_max →
  match apply_cancellation x seq b with
  | (b', Ok t) => ∃ o, book_map b !! x_target x = Some o
      ∧ o_cancellation_secret_digest (ro_secret o) = cancellation_digest (x_secret x)
      ∧ next_command b seq (cancellation_commitment x)
      ∧ book_wf b' ∧ book_map b' = delete (x_target x) (book_map b)
      ∧ ct_released_quantity t = ro_remaining o
      ∧ bk_admitted b' = {[cancellation_commitment x]} ∪ bk_admitted b
  | (b', Err _) => b' = b
      ∧ ¬ (next_command b seq (cancellation_commitment x)
           ∧ ∃ o, book_map b !! x_target x = Some o
             ∧ o_cancellation_secret_digest (ro_secret o) = cancellation_digest (x_secret x))
  end.
Proof.
  intros Hwf Hmax. destruct (apply_cancellation_cases b x seq Hwf Hmax)
    as [(e & -> & Hno)|(b' & t & o & -> & Hn & Ho & Hd & Hout)]; [done|].
  destruct Hout as (? & ? & ? & _ & _ & _ & ?). eauto 10.
Qed.

(** ** Expiry *)

Definition expired (cutoff : Z) (o : RestingOrder) : bool := o_expires_at (ro_secret o) <? cutoff.

Definition released (l : list RestingOrder) : Z := sumZ (map ro_remaining l).

#[export] Instance released_perm : Proper ((≡ₚ) ==> (=)) released.
Proof. intros l k Hlk. unfold released. by rewrite Hlk. Qed.

(** The records behind a list of commitments. *)
Fixpoint records_of (m : Records) (l : list OrderCommitment) : list RestingOrder :=
  match l with
  | [] => []
  | c :: l => match m !! c with Some o => o :: records_of m l | None => records_of m l end
  end.

Lemma records_of_ext m m' l :
  Forall (λ c, m !! c = m' !! c) l → records_of m l = records_of m' l.
Proof. induction 1 as [|c l Hc HF IH]; simpl; [done|]. by rewrite Hc, IH. Qed.

Lemma expire_loop_spec l b acc :
  book_wf b → NoDup l → Forall (λ c, is_Some (book_map b !! c)) l → 0 ≤ acc →
  let total := acc + released (records_of (book_map b) l) in
  0 ≤ released (records_of (book_map b) l)
  ∧ if total <=? u64_max
    then ∃ b', expire_loop acc l b = (b', Ok total) ∧ book_wf b' ∧ same_frame b b'
      ∧ ∀ c, book_map b' !! c = if decide (c ∈ l) then None else book_map b !! c
    else (expire_loop acc l b).2 = Err (Invalid "expired quantity overflowed") ∨ u64_max < acc.
Proof.
  revert b acc; induction l as [|c l IH]; intros b acc Hwf Hnd HF Hacc; simpl.
  { unfold released; simpl. rewrite Z.add_0_r. split; [lia|].
    destruct (Z.leb_spec acc u64_max); [|by right]. exists b. by split_and!. }
  apply NoDup_cons in Hnd as [Hn Hnd]. apply Forall_cons in HF as [[o Ho] HF].
  rewrite Ho. unfold released; simpl. fold (released (records_of (book_map b) l)).
  assert (0 < ro_remaining o) as Hpos.
  { pose proof Ho as [Hin _]%book_map_Some; [|done].
    destruct (wf_resting b o Hwf Hin) as (? & ? & ? & ? & ? & ? & ? & ? & ? & ?). lia. }
  destruct (remove_by_commitment_spec b c o Hwf Ho) as (b1 & Hr & Hwf1 & Hm1 & Hf1).
  assert (records_of (book_map b1) l = records_of (book_map b) l) as Hrec.
  { apply records_of_ext, Forall_forall. intros d Hd. rewrite Hm1, lookup_delete_ne; [done|].
    by intros ->. }
  destruct (IH b1 (acc + ro_remaining o) Hwf1 Hnd) as [Hnn Hcase].
  { rewrite Hm1. eapply Forall_impl; [apply Forall_and; split; [exact HF|]|].
    - apply (Forall_forall (λ d, d ≠ c)). intros d Hd ->. done.
    - intros d [Hd Hdc]. by rewrite lookup_delete_ne. }
  { lia. }
  rewrite Hrec in *. split; [lia|].
  replace (acc + (ro_remaining o + released (records_of (book_map b) l)))
    with (acc + ro_remaining o + released (records_of (book_map b) l)) by lia.
  rewrite self_bind, try_bind, find_record_map, Ho. cbn [ok_or]. rewrite try_bind.
  unfold checked_add. destruct (Z.leb_spec (acc + ro_remaining o) u64_max) as [Hle|Hgt]; cbn [ok_or].
  2:{ destruct (Z.leb_spec (acc + ro_remaining o + released (records_of (book_map b) l)) u64_max);
        [lia|by left]. }
  rewrite method_bind, Hr. destruct (_ <=? u64_max) eqn:Et.
  - destruct Hcase as (b2 & He & Hwf2 & Hf2 & Hget). exists b2. split_and!; [done|done|by etrans|].
    intros d. rewrite Hget, Hm1. destruct (decide (d = c)) as [->|Hne].
    + rewrite lookup_delete_eq, (decide_True _ _ (list_elem_of_here c l)).
      by destruct (decide (c ∈ l)).
    + rewrite lookup_delete_ne by done. destruct (decide (d ∈ l)) as [Hd|Hd].
      * by rewrite decide_True by by right.
      * rewrite decide_False; [done|]. by intros [->|?]%elem_of_cons.
  - destruct Hcase as [He|?]; [by left|lia].
Qed.


Lemma elem_of_expired b cutoff c :
  book_wf b → c ∈ expired_commitments b cutoff ↔
    ∃ o, book_map b !! c = Some o ∧ expired cutoff o = true.
Proof.
  intros Hwf. unfold expired_commitments. rewrite sort_by_perm, list_elem_of_fmap.
  setoid_rewrite elem_of_filter_list. setoid_rewrite book_map_Some; [|done].
  unfold expired, book_orders. naive_solver.
Qed.

Lemma expired_NoDup b cutoff : book_wf b → NoDup (expired_commitments b cutoff).
Proof.
  intros Hwf. unfold expired_commitments. rewrite sort_by_perm.
  apply NoDup_ids_filter, (wf_unique b Hwf).
Qed.

#[export] Instance records_of_perm m : Proper ((≡ₚ) ==> (≡ₚ)) (records_of m).
Proof.
  induction 1 as [|c l k Hp IH|c d l|l k j Hp1 IH1 Hp2 IH2]; simpl.
  - done.
  - destruct (m !! c); [by constructor|done].
  - destruct (m !! c), (m !! d); try done. apply Permutation_swap.
  - by etrans.
Qed.

Lemma records_of_ids b l :
  book_wf b → (∀ o, o ∈ l → o ∈ book_orders b) → records_of (book_map b) (ids l) = l.
Proof.
  intros Hwf Hl. induction l as [|o l IH]; simpl; [done|].
  assert (book_map b !! ro_id o = Some o) as ->.
  { apply book_map_Some; [done|]. split; [|done]. apply Hl. left. }
  rewrite IH; [done|]. intros. apply Hl. by right.
Qed.

Lemma released_expired b cutoff :
  book_wf b → released (records_of (book_map b) (expired_commitments b cutoff)) =
    released (List.filter (expired cutoff) (book_orders b)).
Proof.
  intros Hwf. unfold expired_commitments. rewrite sort_by_perm.
  fold (expired cutoff). change (map ro_id ?l) with (ids l). fold (book_orders b).
  rewrite records_of_ids; [done..|]. by intros o [? _]%elem_of_filter_list.
Qed.

(** The condition under which an expiry command is accepted. *)
Definition expiry_due b (cutoff : Z) (command : OrderCommitment) (seq : Z) : Prop :=
  next_command b seq command ∧ expired_commitments b cutoff ≠ []
  ∧ command = expiry_commitment (bk_market_id b) cutoff (expired_commitments b cutoff)
  ∧ released (List.filter (expired cutoff) (book_orders b)) ≤ u64_max.

Lemma apply_expiry_cases b cutoff command seq :
  book_wf b → bk_sequence b < u64_max →
  (∃ e, (apply_expiry cutoff command seq b).2 = Err e ∧ ¬ expiry_due b cutoff command seq)
  ∨ (expiry_due b cutoff command seq ∧ ∃ b' t, apply_expiry cutoff command seq b = (b', Ok t)
     ∧ book_wf b' ∧ book_map b' = filter (λ e, expired cutoff e.2 = false) (book_map b)
     ∧ et_released_quantity t = released (List.filter (expired cutoff) (book_orders b))
     ∧ et_expired_orders t = expired_commitments b cutoff
     ∧ bk_market_id b' = bk_market_id b ∧ bk_sequence b' = bk_sequence b + 1
     ∧ bk_admitted b' = {[command]} ∪ bk_admitted b).
Proof.
  intros Hwf Hmax. unfold apply_expiry, expiry_due, next_command.
  rewrite self_bind, try_bind.
  destruct (Z.eqb_spec seq (wrapping_add (bk_sequence b) 1)) as [->|Hs].
  2:{ left. eexists; split; [reflexivity|]. by intros [[? _] _]. }
  cbn [negb fail_if]. rewrite try_bind. destruct (decide (command ∈ bk_admitted b)) as [Hin|Hn].
  { rewrite bool_decide_eq_true_2 by done. left. eexists; split; [reflexivity|]. by intros [[_ ?] _]. }
  rewrite bool_decide_eq_false_2 by done. cbn [fail_if]. rewrite try_bind.
  destruct (decide (command = expiry_commitment (bk_market_id b) cutoff (expired_commitments b cutoff)))
    as [Hc|Hc].
  2:{ rewrite (bool_decide_eq_false_2 _ Hc), orb_true_r. left. eexists; split; [reflexivity|].
      by intros (_ & _ & ? & _). }
  rewrite (bool_decide_eq_true_2 _ Hc). cbn [negb]. rewrite orb_false_r.
  destruct (expired_commitments b cutoff) as [|c0 l0] eqn:El.
  { left. eexists; split; [reflexivity|]. by intros (_ & ? & _). }
  cbn [length Nat.eqb fail_if]. rewrite <-El in *. pose proof (wf_sequence b Hwf).
  rewrite method_bind, <-(released_expired b cutoff Hwf).
  destruct (expire_loop_spec (expired_commitments b cutoff) b 0 Hwf (expired_NoDup b cutoff Hwf))
    as [_ Hloop]; [|done|].
  { apply Forall_forall. intros c (o & Ho & _)%elem_of_expired; eauto. }
  rewrite Z.add_0_l in Hloop. destruct (Z.leb_spec (released
    (records_of (book_map b) (expired_commitments b cutoff))) u64_max) as [Hle|Hgt].
  - destruct Hloop as (b1 & Hl & Hwf1 & (Hmk & Hsq & Had) & Hget). right.
    split; [split_and!; try done; congruence|].
    rewrite Hl, self_bind, set_self_bind. do 2 eexists; split; [reflexivity|].
    rewrite next_sequence by lia. split_and!; try done; simpl; try congruence.
    + apply admit_wf; [done|lia].
    + apply map_eq. intros c. change (book_map b1 !! c = filter (λ e, expired cutoff e.2 = false)
        (book_map b) !! c). rewrite Hget, map_lookup_filter.
      destruct (book_map b !! c) as [o|] eqn:Eo; simpl; [|by destruct (decide _)].
      destruct (expired cutoff o) eqn:Ex.
      * rewrite decide_True; [|by apply elem_of_expired; eauto]. by rewrite option_guard_False.
      * rewrite decide_False; [by rewrite option_guard_True|].
        intros (o' & Ho' & ?)%elem_of_expired; [congruence|done].
  - destruct Hloop as [Hl|]; [|lia]. left.
    destruct (expire_loop _ _ _) as [b1 [z|e]]; simpl in Hl; [done|]. simplify_eq.
    eexists; split; [reflexivity|]. intros (_ & _ & _ & ?). lia.
Qed.

(** Expiry is exact.  An expiry command is accepted if and only if it is
    the next fresh command, names the canonical non-empty set of expired
    records and their quantity fits in [u64]; it then removes all records past
    the cutoff and no other, and reports exactly their open quantity. *)
Theorem expiry_exact b cutoff command seq :
  book_wf b → bk_sequence b < u64_max →
  match apply_expiry cutoff command seq b with
  | (b', Ok t) => expiry_due b cutoff command seq
      ∧ book_wf b' ∧ book_map b' = filter (λ e, expired cutoff e.2 = false) (book_map b)
      ∧ et_released_quantity t = released (List.filter (expired cutoff) (book_orders b))
      ∧ bk_admitted b' = {[command]} ∪ bk_admitted b
  | (_, Err _) => ¬ expiry_due b cutoff command seq
  end.
Proof.
  intros Hwf Hmax. destruct (apply_expiry_cases b cutoff command seq Hwf Hmax)
    as [(e & He & Hno)|(Hdue & b' & t & -> & ? & ? & ? & _ & _ & _ & ?)]; [|done].
  destruct (apply_expiry cutoff command seq b) as [b' r]. simpl in He. by subst.
Qed.

(** ** Reachable books *)

(** One accepted command, labelled with the commitment it consumes. *)
Inductive book_step : PrivateBook → OrderCommitment → PrivateBook → Prop :=
| step_insert b b' order authority seq now :
    order_valid order = true →
    insert_resting order authority seq now b = (b', Ok ()) →
    book_step b (a_commitment authority) b'
| step_match b b' arriving authority seq now result t :
    order_valid arriving = true →
    apply_mpc_batch_result arriving authority seq now result b = (b', Ok t) →
    book_step b (a_commitment authority) b'
| step_match_one b b' arriving authority seq now result t :
    order_valid arriving = true →
    apply_mpc_result arriving authority seq now result b = (b', Ok t) →
    book_step b (a_commitment authority) b'
| step_cancel b b' x seq t :
    apply_cancellation x seq b = (b', Ok t) →
    book_step b (cancellation_commitment x) b'
| step_expire b b' cutoff command seq t :
    apply_expiry cutoff command seq b = (b', Ok t) →
    book_step b command b'.

(** A run from a new book, with the commands it accepted, latest first; the
    sequence counter has not wrapped. *)
Inductive book_run (market : bytes) : list OrderCommitment → PrivateBook → Prop :=
| run_new b : book_new market = Ok b → book_run market [] b
| run_step l b c b' :
    book_run market l b → Z.of_nat (length l) < u64_max → book_step b c b' →
    book_run market (c :: l) b'.

Lemma outcome_step b arriving authority seq now fills rem b' :
  book_wf b → admissible b arriving authority seq now →
  match_outcome b arriving authority seq fills rem b' →
  book_wf b' ∧ (a_commitment authority ∉ bk_admitted b)
  ∧ bk_admitted b' = {[a_commitment authority]} ∪ bk_admitted b
  ∧ bk_sequence b' = bk_sequence b + 1.
Proof.
  intros Hwf Hadm (Hwf' & _ & _ & Hseq & Had).
  destruct (admissible_facts _ _ _ _ _ Hwf Hadm) as (Hs & _ & _ & Hn & _).
  split_and!; try done. congruence.
Qed.

Lemma book_step_spec b c b' :
  book_wf b → bk_sequence b < u64_max → book_step b c b' →
  book_wf b' ∧ (c ∉ bk_admitted b) ∧ bk_admitted b' = {[c]} ∪ bk_admitted b
  ∧ bk_sequence b' = bk_sequence b + 1.
Proof.
  intros Hwf Hmax Hstep. destruct Hstep as [b b' order authority seq now Hv Hop
    |b b' arriving authority seq now result t Hv Hop|b b' arriving authority seq now result t Hv Hop
    |b b' x seq t Hop|b b' cutoff command seq t Hop].
  - destruct (insert_resting_cases _ _ _ _ _ _ _ Hwf Hv Hmax Hop)
      as [(e & ? & _)|(_ & Hadm & Hout)]; [done|]. by eapply outcome_step.
  - destruct (apply_batch_cases _ _ _ _ _ _ _ _ Hwf Hv Hmax Hop)
      as [(e & ? & _)|(Hadm & t' & batch & _ & Hb & ->)]; [done|].
    destruct (apply_batch_spec _ _ _ _ _ _ Hwf Hadm Hb) as (b1 & t1 & Hop1 & Hout & _).
    rewrite Hop in Hop1. simplify_eq. by eapply outcome_step.
  - destruct (apply_mpc_result_cases _ _ _ _ _ _ _ _ Hwf Hv Hmax Hop)
      as [(e & ? & _)|(Hadm & _ & t' & _ & Hout)]; [done|]. by eapply outcome_step.
  - destruct (apply_cancellation_cases b x seq Hwf Hmax)
      as [(e & E & _)|(b1 & t1 & o & E & [Hs Hn] & _ & _ & Hwf1 & _ & _ & _ & _ & Hsq & Had)];
      rewrite Hop in E; simplify_eq.
    pose proof (wf_sequence b Hwf). rewrite next_sequence in Hsq by lia. done.
  - destruct (apply_expiry_cases b cutoff command seq Hwf Hmax)
      as [(e & E & _)|([[_ Hn] _] & b1 & t1 & E & Hwf1 & _ & _ & _ & _ & Hsq & Had)];
      rewrite Hop in E; by simplify_eq.
Qed.

Lemma book_new_wf market b : book_new market = Ok b → book_wf b ∧ b = mk_book market 0 [] [] ∅.
Proof.
  intros (? & _ & [= <-])%bind_Ok. split; [|done].
  split; simpl; [by split; constructor..|constructor|by intros c ?%elem_of_nil|].
  unfold u64_max. lia.
Qed.

(** C23: The book invariant and replay protection.  In every run from a new
    book, over any interleaving of insertions, matches, cancellations and
    expiries, the book stays well formed (sorted prices, no empty queue, records
    on their side and price, queues in arrival order, positive remainders within
    the order quantity, unique commitments), the sequence counts the accepted
    commands, and no command commitment is ever accepted twice. *)
Theorem book_invariant market l b :
  book_run market l b →
  book_wf b ∧ bk_sequence b = Z.of_nat (length l) ∧ NoDup l ∧ bk_admitted b = list_to_set l.
Proof.
  induction 1 as [b Hnew|l b c b' Hrun (Hwf & Hseq & Hnd & Had) Hlt Hstep].
  - destruct (book_new_wf _ _ Hnew) as [Hwf ->]. split_and!; [done..|constructor|done].
  - destruct (book_step_spec b c b' Hwf) as (Hwf' & Hn & Had' & Hseq'); [by rewrite Hseq|done|].
    split_and!; [done| | |].
    + rewrite Hseq', Hseq. simpl length. lia.
    + constructor; [|done]. rewrite Had, elem_of_list_to_set in Hn. done.
    + rewrite Had', Had. done.
Qed.


(** ** The public snapshot *)

Definition qty_at (s : Side) (p : Z) (o : RestingOrder) : Z :=
  if bool_decide (o_side (ro_secret o) = s ∧ o_limit_price (ro_secret o) = p)
  then ro_remaining o else 0.

(** Total open quantity at one side and price. *)
Definition book_depth b (s : Side) (p : Z) : Z := sumZ (map (qty_at s p) (book_orders b)).

Lemma qty_at_none s p l :
  Forall (λ o, ¬ (o_side (ro_secret o) = s ∧ o_limit_price (ro_secret o) = p)) l →
  sumZ (map (qty_at s p) l) = 0.
Proof.
  induction 1 as [|o l Ho HF IH]; simpl; [done|]. rewrite IH. unfold qty_at.
  by rewrite bool_decide_eq_false_2.
Qed.

Lemma qty_at_all s p l :
  Forall (λ o, o_side (ro_secret o) = s ∧ o_limit_price (ro_secret o) = p) l →
  sumZ (map (qty_at s p) l) = released l.
Proof.
  unfold released. induction 1 as [|o l Ho HF IH]; simpl; [done|]. rewrite IH. unfold qty_at.
  by rewrite bool_decide_eq_true_2.
Qed.

(** One side of the book contributes the queue stored at that price. *)
Lemma side_depth m n s (l : BookSide) p :
  side_ok (resting_ok m n s) l →
  sumZ (map (qty_at s p) (flat l)) = released (default [] (bt_get p l)).
Proof.
  intros [Hok HF]. induction l as [|[p' q] l IH]; [done|].
  apply bt_ok_cons in Hok as [Hok Hlb]. apply Forall_cons in HF as [(_ & Hq & _) HF]. simpl in Hq.
  rewrite flat_cons, map_app, sumZ_app, (IH Hok HF). simpl.
  destruct (ocmp p p') eqn:E.
  - apply ocmp_eq in E as <-. rewrite (bt_get_lb (K := Z)) by done. rewrite qty_at_all; simpl.
    + unfold released at 2; simpl. lia.
    + eapply Forall_impl; [exact Hq|]. by intros o (_ & ? & ? & _).
  - rewrite qty_at_none; [done|]. eapply Forall_impl; [exact Hq|].
    intros o (_ & _ & Hp & _) [_ Hp']. rewrite Hp in Hp'. subst. by rewrite ocmp_refl in E.
  - rewrite qty_at_none; [done|]. eapply Forall_impl; [exact Hq|].
    intros o (_ & _ & Hp & _) [_ Hp']. rewrite Hp in Hp'. subst. by rewrite ocmp_refl in E.
Qed.

Lemma book_depth_side b s p :
  book_wf b → book_depth b s p =
    released (default [] (bt_get p (match s with Buy => bk_bids b | Sell => bk_asks b end))).
Proof.
  intros Hwf. unfold book_depth, book_orders. rewrite map_app, sumZ_app.
  destruct s.
  - rewrite (side_depth _ _ _ _ _ (wf_bids b Hwf)), (qty_at_none _ _ (flat (bk_asks b))); [lia|].
    apply Forall_forall. intros o Ho.
    destruct (side_ok_flat _ _ _ (wf_asks b Hwf) Ho) as (? & _ & -> & _). naive_solver.
  - rewrite (side_depth _ _ _ _ _ (wf_asks b Hwf)), (qty_at_none _ _ (flat (bk_bids b))); [lia|].
    apply Forall_forall. intros o Ho.
    destruct (side_ok_flat _ _ _ (wf_bids b Hwf) Ho) as (? & _ & -> & _). naive_solver.
Qed.

Lemma elem_of_levels b v :
  v ∈ ps_levels (public_snapshot b) ↔
  ∃ q, (lv_price v, q) ∈ (match lv_side v with Buy => bk_bids b | Sell => bk_asks b end)
    ∧ v = level (lv_side v) (lv_price v) q.
Proof.
  unfold public_snapshot; simpl. rewrite elem_of_app, map_rev, !list_elem_of_fmap.
  rewrite list_elem_of_In, <-in_rev, <-list_elem_of_In, list_elem_of_fmap. split.
  - intros [([p q] & -> & Hin)|([p q] & -> & Hin)]; by exists q.
  - destruct v as [s p qty]; simpl. intros (q & Hin & Hv).
    destruct s; [left|right]; by exists (p, q).
Qed.

Lemma wf_level b s p q :
  book_wf b → (p, q) ∈ (match s with Buy => bk_bids b | Sell => bk_asks b end) →
  bt_get p (match s with Buy => bk_bids b | Sell => bk_asks b end) = Some q ∧ q ≠ []
  ∧ Forall (resting_ok (bk_market_id b) (bk_sequence b) s p) q.
Proof.
  intros Hwf Hin. destruct s.
  - destruct (wf_bids b Hwf) as [Hok HF]. split; [by apply bt_elem_get|].
    rewrite Forall_forall in HF. by destruct (HF _ Hin) as (? & ? & _).
  - destruct (wf_asks b Hwf) as [Hok HF]. split; [by apply bt_elem_get|].
    rewrite Forall_forall in HF. by destruct (HF _ Hin) as (? & ? & _).
Qed.

(** The queue a resting record waits in. *)
Lemma wf_queue b o :
  book_wf b → o ∈ book_orders b →
  ∃ q, (o_limit_price (ro_secret o), q) ∈
    (match o_side (ro_secret o) with Buy => bk_bids b | Sell => bk_asks b end).
Proof.
  intros Hwf Ho. pose proof (wf_side b o Hwf Ho) as Hf. unfold flat in Hf.
  rewrite list_elem_of_In, in_concat in Hf.
  destruct Hf as (q & ([p q'] & <- & Hin)%in_map_iff & Hoq). exists q'. simpl in Hoq.
  rewrite <-!list_elem_of_In in *. destruct (wf_level _ _ _ _ Hwf Hin) as (_ & _ & Hq).
  rewrite Forall_forall in Hq. by destruct (Hq _ Hoq) as (_ & _ & -> & _).
Qed.

(** The published book is exact.  As long as no level exceeds [u64], the
    snapshot lists each side and price at most once, in canonical order (bids
    from the highest, asks from the lowest), shows for each the exact positive
    open quantity, and omits no resting order. *)
Theorem snapshot_exact b :
  book_wf b → (∀ s p, book_depth b s p ≤ u64_max) →
  let levels := ps_levels (public_snapshot b) in
  (∀ v, v ∈ levels → lv_quantity v = book_depth b (lv_side v) (lv_price v) ∧ 0 < lv_quantity v)
  ∧ (∀ o, o ∈ book_orders b → ∃ v, v ∈ levels ∧ lv_side v = o_side (ro_secret o)
       ∧ lv_price v = o_limit_price (ro_secret o))
  ∧ StronglySorted (λ v w, match lv_side v, lv_side w with
      | Buy, Buy => lv_price w < lv_price v
      | Sell, Sell => lv_price v < lv_price w
      | Buy, Sell => True
      | Sell, Buy => False
      end) levels.
Proof.
  intros Hwf Hmax levels. destruct (wf_bids b Hwf) as [Hokb _], (wf_asks b Hwf) as [Hoka _].
  split_and!.
  - intros v (q & Hin & Hv)%elem_of_levels.
    destruct (wf_level _ _ _ _ Hwf Hin) as (Hget & Hne & Hq).
    assert (book_depth b (lv_side v) (lv_price v) = released q) as Hd.
    { by rewrite book_depth_side, Hget by done. }
    assert (Forall (λ o, 0 < ro_remaining o) q) as Hpos.
    { eapply Forall_impl; [exact Hq|]. intros o (_ & _ & _ & _ & _ & _ & ? & _); lia. }
    specialize (Hmax (lv_side v) (lv_price v)).
    assert (lv_quantity v = released q) as ->.
    { rewrite Hv. simpl. apply wrapping_sum_exact; [|rewrite Hd in Hmax; done].
      apply Forall_map. eapply Forall_impl; [exact Hpos|]. simpl; lia. }
    split; [done|]. destruct Hpos as [|o q Ho Hpos]; [done|]. unfold released; simpl.
    enough (0 ≤ sumZ (map ro_remaining q)) by lia.
    apply sumZ_nonneg, Forall_map. eapply Forall_impl; [exact Hpos|]. simpl; lia.
  - intros o Ho. destruct (wf_queue b o Hwf Ho) as [q Hq].
    exists (level (o_side (ro_secret o)) (o_limit_price (ro_secret o)) q).
    split; [|done]. apply elem_of_levels. by exists q.
  - unfold levels, public_snapshot; simpl. apply StronglySorted_app. split_and!.
    + intros v w ([p q] & -> & _)%list_elem_of_fmap ([p' q'] & -> & _)%list_elem_of_fmap. done.
    + rewrite map_rev. apply (sorted_rev (λ v w, match lv_side w, lv_side v with
        | Buy, Buy => lv_price v < lv_price w | Sell, Sell => lv_price w < lv_price v
        | Buy, Sell => True | Sell, Buy => False end)).
      induction (bk_bids b) as [|[p q] l IH]; simpl; [constructor|].
      apply bt_ok_cons in Hokb as [Hokb Hlb]. constructor; [auto|]. apply Forall_map.
      eapply Forall_impl; [exact Hlb|]. intros [p' q'] Hlt. by apply olt_Z.
    + induction (bk_asks b) as [|[p q] l IH]; simpl; [constructor|].
      apply bt_ok_cons in Hoka as [Hoka Hlb]. constructor; [auto|]. apply Forall_map.
      eapply Forall_impl; [exact Hlb|]. intros [p' q'] Hlt. by apply olt_Z.
Qed.

End life.
