(* ===== verification/Ordering.v ===== *)
(** * Certificate-first total ordering

    [oclob-ordering/src/lib.rs]: the seven-node committee policy, voting nodes
    that never sign two statements for one sequence, quorum certificates and
    the hash-chained log of certificates. *)

From S2P Require Import Prelude BTree Bytes AppCrypto Orders.
Open Scope list_scope.
Open Scope Z_scope.

Definition VOTE_DOMAIN : bytes := ascii_bytes "OCLOB:ORDER-VOTE:v2".
Definition CERTIFICATE_DOMAIN : bytes := ascii_bytes "OCLOB:ORDER-CERTIFICATE:v2".

Inductive OrderingError :=
| InvalidPolicy
| InvalidNode
| InvalidVote
| InsufficientQuorum
| Equivocation
| BrokenChain
| OrderReplay.

Record CommitteePolicy := mk_policy {
  cp_nodes : Z;
  cp_max_corrupt_nodes : Z;
  cp_reconstruction_quorum : Z;
  cp_ordering_quorum : Z;
  cp_settlement_authorization_quorum : Z
}.

Definition seven_node : CommitteePolicy := mk_policy 7 2 3 5 3.

Definition policy_validate (p : CommitteePolicy) : result OrderingError () :=
  fail_if (negb (cp_nodes p =? 7)
    || negb (cp_max_corrupt_nodes p =? 2)
    || negb (cp_reconstruction_quorum p =? cp_max_corrupt_nodes p + 1)
    || (cp_ordering_quorum p <=? 2 * cp_max_corrupt_nodes p)
    || (cp_nodes p <? cp_ordering_quorum p)
    || negb (cp_settlement_authorization_quorum p =? cp_reconstruction_quorum p)) InvalidPolicy.

Record OrderVote := mk_vote {
  v_node_id : Z;
  v_statement_digest : Digest32;
  v_signature : bytes
}.

Record OrderingNode := mk_node {
  on_id : Z;
  on_key : SigningKey;
  on_voted : btree Z Digest32
}.

Record OrderCertificate := mk_certificate {
  oc_market_id : bytes;
  oc_sequence : Z;
  oc_commitment : OrderCommitment;
  oc_previous_certificate : Digest32;
  oc_expires_at : Z;
  oc_votes : list OrderVote
}.

Record OrderingLog := mk_log {
  lg_certificates : list OrderCertificate;
  lg_commitments : gset OrderCommitment
}.

Record OrderingCommittee := mk_committee {
  cm_policy : CommitteePolicy;
  cm_nodes : list OrderingNode;
  cm_keys : btree Z VerifyingKey;
  cm_log : OrderingLog
}.

#[export] Instance vote_eq_dec : EqDecision OrderVote.
Proof. solve_decision. Defined.
#[export] Instance certificate_eq_dec : EqDecision OrderCertificate.
Proof. solve_decision. Defined.

Definition log_default : OrderingLog := mk_log [] ∅.

Definition node_new (id : Z) (key : SigningKey) : result OrderingError OrderingNode :=
  _ ← fail_if (id =? 0) InvalidNode;
  Ok (mk_node id key []).

(** The checks shared by [vote] and [verify] on the fields of a statement. *)
Definition bad_statement (market_id : bytes) (sequence : Z) (c : OrderCommitment)
    (previous : Digest32) (expires_at now : Z) : bool :=
  (sequence =? 0) || bad_market_id market_id || is_zero c
  || negb (Bool.eqb (sequence =? 1) (is_zero previous))
  || (expires_at <? now).

Section ordering.
Context `{Crypto}.

Definition vote_preimage (market_id : bytes) (sequence : Z) (c : OrderCommitment)
    (previous : Digest32) (expires_at : Z) : bytes :=
  VOTE_DOMAIN ++ put_bytes market_id ++ u64_be sequence ++ d_bytes c ++ d_bytes previous
  ++ u64_be expires_at.

Definition vote_digest (market_id : bytes) (sequence : Z) (c : OrderCommitment)
    (previous : Digest32) (expires_at : Z) : Digest32 :=
  sha256 (vote_preimage market_id sequence c previous expires_at).

(** [OrderingNode::vote]. *)
Definition vote (market_id : bytes) (sequence : Z) (c : OrderCommitment)
    (previous : Digest32) (expires_at now : Z) : method OrderingNode OrderingError OrderVote :=
  node ← self;
  _ ← try (fail_if (bad_statement market_id sequence c previous expires_at now) InvalidVote);
  let statement := vote_digest market_id sequence c previous expires_at in
  _ ← try (fail_if (match bt_get sequence (on_voted node) with
      | Some existing => negb (bool_decide (existing = statement))
      | None => false
      end) Equivocation);
  signature ← try (map_err (λ _, InvalidVote) (try_sign (on_key node) (d_bytes statement)));
  _ ← set_self (mk_node (on_id node) (on_key node) (bt_insert sequence statement (on_voted node)));
  mret (mk_vote (on_id node) statement (sig_bytes signature)).

Definition vote_bytes (v : OrderVote) : bytes :=
  u16_be (v_node_id v) ++ d_bytes (v_statement_digest v) ++ put_bytes (v_signature v).

(** [OrderCertificate::digest]: votes sorted by node. *)
Definition certificate_preimage (o : OrderCertificate) : bytes :=
  let votes := sort_by (λ a b, v_node_id a <=? v_node_id b) (oc_votes o) in
  CERTIFICATE_DOMAIN ++ put_bytes (oc_market_id o) ++ u64_be (oc_sequence o)
    ++ d_bytes (oc_commitment o) ++ d_bytes (oc_previous_certificate o)
    ++ u64_be (oc_expires_at o) ++ concat (map vote_bytes votes).

Definition certificate_digest (o : OrderCertificate) : Digest32 :=
  sha256 (certificate_preimage o).

(** One turn of the verification loop; [distinct] is the set of node ids seen. *)
Definition verify_vote (wanted : Digest32) (keys : btree Z VerifyingKey)
    (distinct : gset Z) (v : OrderVote) : result OrderingError (gset Z) :=
  _ ← fail_if (bool_decide (v_node_id v ∈ distinct)
    || negb (bool_decide (v_statement_digest v = wanted))) InvalidVote;
  key ← ok_or (bt_get (v_node_id v) keys) InvalidNode;
  signature ← map_err (λ _, InvalidVote) (sig_try_from (v_signature v));
  _ ← map_err (λ _, InvalidVote) (verify_strict key (d_bytes wanted) signature);
  Ok ({[v_node_id v]} ∪ distinct).

(** [OrderCertificate::verify]. *)
Definition certificate_verify (o : OrderCertificate) (policy : CommitteePolicy)
    (keys : btree Z VerifyingKey) (now : Z) : result OrderingError () :=
  _ ← policy_validate policy;
  _ ← fail_if (bad_statement (oc_market_id o) (oc_sequence o) (oc_commitment o)
    (oc_previous_certificate o) (oc_expires_at o) now) InvalidVote;
  _ ← fail_if (Z.of_nat (length (oc_votes o)) <? cp_ordering_quorum policy) InsufficientQuorum;
  let wanted := vote_digest (oc_market_id o) (oc_sequence o) (oc_commitment o)
    (oc_previous_certificate o) (oc_expires_at o) in
  distinct ← for_each (verify_vote wanted keys) ∅ (oc_votes o);
  fail_if (Z.of_nat (size distinct) <? cp_ordering_quorum policy) InsufficientQuorum.

(** ** The log *)

Definition log_contains (l : OrderingLog) (c : OrderCommitment) : bool :=
  bool_decide (c ∈ lg_commitments l).

Definition next_sequence (l : OrderingLog) : Z :=
  wrapping_add (Z.of_nat (length (lg_certificates l))) 1.

Definition log_head (l : OrderingLog) : Digest32 :=
  match last (lg_certificates l) with
  | Some o => certificate_digest o
  | None => zero_digest
  end.

Definition append (o : OrderCertificate) (policy : CommitteePolicy)
    (keys : btree Z VerifyingKey) (now : Z) : method OrderingLog OrderingError () :=
  l ← self;
  _ ← try (certificate_verify o policy keys now);
  _ ← try (fail_if (negb (oc_sequence o =? next_sequence l)
    || negb (bool_decide (oc_previous_certificate o = log_head l))) BrokenChain);
  _ ← try (fail_if (bool_decide (oc_commitment o ∈ lg_commitments l)) OrderReplay);
  set_self (mk_log (lg_certificates l ++ [o]) ({[oc_commitment o]} ∪ lg_commitments l)).

(** ** The committee *)

(** [deterministic_for_demo]: nodes 1 to 7, node [i] seeded with byte [i]. *)
Definition demo_nodes : result OrderingError (list OrderingNode) :=
  collect (λ id, node_new id (mk_signing_key (replicate 64 (byte_of id))))
    (map Z.of_nat (seq 1 (Z.to_nat (cp_nodes seven_node)))).

Definition keys_of (nodes : list OrderingNode) : btree Z VerifyingKey :=
  foldl (λ m n, bt_insert (on_id n) (verifying_key (on_key n)) m) [] nodes.

Definition deterministic_for_demo : result OrderingError OrderingCommittee :=
  let policy := seven_node in
  _ ← policy_validate policy;
  nodes ← demo_nodes;
  Ok (mk_committee policy nodes (keys_of nodes) log_default).

(** The nodes vote one after the other until one refuses; a node that voted
    keeps its record of the vote. *)
Fixpoint collect_votes (market_id : bytes) (sequence : Z) (c : OrderCommitment)
    (previous : Digest32) (expires_at now : Z) (nodes : list OrderingNode) :
    list OrderingNode * result OrderingError (list OrderVote) :=
  match nodes with
  | [] => ([], Ok [])
  | n :: nodes =>
      match vote market_id sequence c previous expires_at now n with
      | (n', Err e) => (n' :: nodes, Err e)
      | (n', Ok v) =>
          let '(nodes', r) := collect_votes market_id sequence c previous expires_at now nodes in
          (n' :: nodes', vs ← r; Ok (v :: vs))
      end
  end.

Definition certify (market_id : bytes) (c : OrderCommitment) (expires_at now : Z) :
    method OrderingCommittee OrderingError OrderCertificate := λ m,
  if log_contains (cm_log m) c then (m, Err OrderReplay)
  else
    let sequence := next_sequence (cm_log m) in
    let previous := log_head (cm_log m) in
    let quorum := Z.to_nat (cp_ordering_quorum (cm_policy m)) in
    let '(voters, r) := collect_votes market_id sequence c previous expires_at now
      (take quorum (cm_nodes m)) in
    let m := mk_committee (cm_policy m) (voters ++ drop quorum (cm_nodes m))
      (cm_keys m) (cm_log m) in
    match r with
    | Err e => (m, Err e)
    | Ok votes =>
        let certificate := mk_certificate market_id sequence c previous expires_at votes in
        match append certificate (cm_policy m) (cm_keys m) now (cm_log m) with
        | (log, Err e) => (mk_committee (cm_policy m) (cm_nodes m) (cm_keys m) log, Err e)
        | (log, Ok _) => (mk_committee (cm_policy m) (cm_nodes m) (cm_keys m) log, Ok certificate)
        end
    end.

Definition transition_signers (m : OrderingCommittee) : list (Z * SigningKey) :=
  map (λ n, (on_id n, on_key n)) (cm_nodes m).

End ordering.

(** ** Statements *)

Definition statement_ok (market_id : bytes) (sequence expires_at : Z) : Prop :=
  (length market_id ≤ 64)%nat ∧ 0 ≤ sequence ≤ u64_max ∧ 0 ≤ expires_at ≤ u64_max.

Lemma vote_preimage_inj m1 s1 c1 p1 e1 m2 s2 c2 p2 e2 :
  statement_ok m1 s1 e1 → statement_ok m2 s2 e2 →
  vote_preimage m1 s1 c1 p1 e1 = vote_preimage m2 s2 c2 p2 e2 →
  m1 = m2 ∧ s1 = s2 ∧ c1 = c2 ∧ p1 = p2 ∧ e1 = e2.
Proof.
  intros (Hm1 & Hs1 & He1) (Hm2 & Hs2 & He2) E. unfold vote_preimage in E.
  apply app_inv_head in E. apply put_bytes_inj in E as [-> E]; [|unfold u64_max; lia..].
  apply u64_app_inj in E as [-> E]; [|done..].
  apply digest_app_inj in E as [-> E]. apply digest_app_inj in E as [-> E].
  apply u64_be_inj in E; done.
Qed.

Lemma vote_digest_binding m1 s1 c1 p1 e1 m2 s2 c2 p2 e2 `{Crypto} :
  statement_ok m1 s1 e1 → statement_ok m2 s2 e2 →
  vote_digest m1 s1 c1 p1 e1 = vote_digest m2 s2 c2 p2 e2 →
  (m1 = m2 ∧ s1 = s2 ∧ c1 = c2 ∧ p1 = p2 ∧ e1 = e2)
  ∨ collision (vote_preimage m1 s1 c1 p1 e1) (vote_preimage m2 s2 c2 p2 e2).
Proof.
  intros H1 H2 [E|E]%sha256_or_collision; [left|by right]. by apply vote_preimage_inj in E.
Qed.

(** ** A node votes once per sequence *)

Section voting.
Context `{Crypto}.

(** A request to vote. *)
Record request := mk_request {
  rq_market_id : bytes;
  rq_sequence : Z;
  rq_commitment : OrderCommitment;
  rq_previous : Digest32;
  rq_expires_at : Z;
  rq_now : Z
}.

Definition ask (r : request) : method OrderingNode OrderingError OrderVote :=
  vote (rq_market_id r) (rq_sequence r) (rq_commitment r) (rq_previous r) (rq_expires_at r) (rq_now r).

Definition statement (r : request) : Digest32 :=
  vote_digest (rq_market_id r) (rq_sequence r) (rq_commitment r) (rq_previous r) (rq_expires_at r).

(** Any sequence of requests to one node; [l] collects the granted ones. *)
Inductive node_run : OrderingNode → list request → OrderingNode → Prop :=
| node_run_nil n : node_run n [] n
| node_run_granted n l n1 r v n2 :
    node_run n l n1 → ask r n1 = (n2, Ok v) → node_run n (r :: l) n2
| node_run_refused n l n1 r e n2 :
    node_run n l n1 → ask r n1 = (n2, Err e) → node_run n l n2.

Lemma vote_cases r n n' res :
  ask r n = (n', res) →
  (∃ e, res = Err e ∧ n' = n)
  ∨ (∃ s, res = Ok (mk_vote (on_id n) (statement r) (sig_bytes s))
     ∧ try_sign (on_key n) (d_bytes (statement r)) = Ok s
     ∧ n' = mk_node (on_id n) (on_key n) (bt_insert (rq_sequence r) (statement r) (on_voted n))
     ∧ (bt_get (rq_sequence r) (on_voted n) = None
        ∨ bt_get (rq_sequence r) (on_voted n) = Some (statement r))
     ∧ bad_statement (rq_market_id r) (rq_sequence r) (rq_commitment r) (rq_previous r)
         (rq_expires_at r) (rq_now r) = false).
Proof.
  unfold ask, vote. fold (statement r). rewrite self_bind, try_bind.
  destruct (bad_statement _ _ _ _ _ _) eqn:Eb; [intros [= <- <-]; eauto|]. cbn [fail_if].
  rewrite try_bind. match goal with |- context [fail_if ?t Equivocation] => destruct t eqn:Ev end;
    [intros [= <- <-]; eauto|]. cbn [fail_if]. rewrite try_bind.
  destruct (try_sign (on_key n) (d_bytes (statement r))) as [s|] eqn:Es; cbn [map_err];
    [|intros [= <- <-]; eauto].
  rewrite set_self_bind. intros [= <- <-]. right. exists s. split_and!; try done.
  destruct (bt_get (rq_sequence r) (on_voted n)) as [d|]; [|by left]. bool_hyps. subst. by right.
Qed.

Lemma node_run_voted n l n' :
  node_run n l n' → ∀ r, r ∈ l → bt_get (rq_sequence r) (on_voted n') = Some (statement r).
Proof.
  induction 1 as [n|n l n1 r v n2 Hrun IH Hask|n l n1 r e n2 Hrun IH Hask]; intros r' Hr'.
  - by apply elem_of_nil in Hr'.
  - destruct (vote_cases _ _ _ _ Hask) as [(? & [=] & _)|(s & _ & _ & -> & Hold & _)]. simpl.
    destruct (decide (rq_sequence r = rq_sequence r')) as [E|E].
    + apply elem_of_cons in Hr' as [->|Hin]; [by rewrite bt_get_insert_eq|].
      rewrite E, bt_get_insert_eq. rewrite E, (IH r' Hin) in Hold. naive_solver.
    + apply elem_of_cons in Hr' as [->|Hin]; [done|]. rewrite bt_get_insert_ne by done. by apply IH.
  - destruct (vote_cases _ _ _ _ Hask) as [(? & _ & ->)|(s & [=] & _)]. by apply IH.
Qed.

(** No equivocation.  Whatever requests a node receives, in whatever
    order, two requests it granted for the same sequence are the same
    statement: same market, commitment, predecessor and expiry, unless two
    different statements with one hash have been found. *)
Theorem vote_once n l n' r1 r2 :
  node_run n l n' → r1 ∈ l → r2 ∈ l → rq_sequence r1 = rq_sequence r2 →
  statement_ok (rq_market_id r1) (rq_sequence r1) (rq_expires_at r1) →
  statement_ok (rq_market_id r2) (rq_sequence r2) (rq_expires_at r2) →
  (rq_market_id r1 = rq_market_id r2 ∧ rq_commitment r1 = rq_commitment r2
   ∧ rq_previous r1 = rq_previous r2 ∧ rq_expires_at r1 = rq_expires_at r2)
  ∨ collision (vote_preimage (rq_market_id r1) (rq_sequence r1) (rq_commitment r1)
                 (rq_previous r1) (rq_expires_at r1))
              (vote_preimage (rq_market_id r2) (rq_sequence r2) (rq_commitment r2)
                 (rq_previous r2) (rq_expires_at r2)).
Proof.
  intros Hrun H1 H2 Hs Ho1 Ho2.
  pose proof (node_run_voted _ _ _ Hrun r1 H1) as E1.
  pose proof (node_run_voted _ _ _ Hrun r2 H2) as E2.
  rewrite <-Hs, E1 in E2. injection E2 as E.
  destruct (vote_digest_binding _ _ _ _ _ _ _ _ _ _ Ho1 Ho2 E) as [(? & _ & ? & ? & ?)|?]; auto.
Qed.

End voting.

(** ** Certificates *)

Section certificates.
Context `{Crypto}.
Implicit Types (keys : list (Z * VerifyingKey)).

Definition vote_valid (wanted : Digest32) keys (v : OrderVote) : Prop :=
  v_statement_digest v = wanted
  ∧ ∃ k, bt_get (v_node_id v) keys = Some k
    ∧ signature_ok k (d_bytes wanted) (v_signature v) = true.

Lemma verify_vote_Ok wanted keys seen v seen' :
  verify_vote wanted keys seen v = Ok seen' ↔
    (v_node_id v ∉ seen) ∧ vote_valid wanted keys v ∧ seen' = {[v_node_id v]} ∪ seen.
Proof.
  unfold verify_vote, vote_valid, signature_ok. split.
  - intros (? & Hd%fail_if_Ok & (k & Hk%ok_or_Ok & (s & Hs%map_err_Ok
      & (? & Hv%map_err_Ok & [= <-])%bind_Ok)%bind_Ok)%bind_Ok)%bind_Ok.
    bool_hyps. split_and!; [done|done| |done]. exists k. rewrite Hs, Hv. done.
  - intros (Hn & (Hd & k & Hk & Hs) & ->).
    rewrite bool_decide_eq_false_2, bool_decide_eq_true_2, Hk by done. cbn.
    destruct (sig_try_from (v_signature v)) as [s|]; [|done]. cbn.
    by destruct (verify_strict k (d_bytes wanted) s) as [[]|].
Qed.

Definition vote_ids (l : list OrderVote) : list Z := map v_node_id l.

Lemma verify_votes_Ok wanted keys seen l seen' :
  for_each (verify_vote wanted keys) seen l = Ok seen' ↔
    NoDup (vote_ids l) ∧ (∀ i, i ∈ vote_ids l → i ∉ seen)
    ∧ Forall (vote_valid wanted keys) l ∧ seen' = list_to_set (vote_ids l) ∪ seen.
Proof.
  revert seen; induction l as [|v l IH]; intros seen; cbn [for_each vote_ids map].
  { split; [intros [= <-]; split_and!; [constructor|by intros ? ?%elem_of_nil|constructor|set_solver]|].
    intros (_ & _ & _ & ->). f_equal. set_solver. }
  rewrite bind_Ok. setoid_rewrite verify_vote_Ok. rewrite NoDup_cons, Forall_cons. split.
  - intros (s & (Hn & Hv & ->) & Hl). apply IH in Hl as (Hnd & Hdis & HF & ->).
    split_and!; [|done| |done|done|set_solver].
    + intros Hin. specialize (Hdis _ Hin). set_solver.
    + intros i [->|Hi]%elem_of_cons; [done|]. specialize (Hdis _ Hi). set_solver.
  - intros ((Hnin & Hnd) & Hdis & (Hv & HF) & ->). eexists. split.
    + split_and!; [apply Hdis; left|done|done].
    + apply IH. split_and!; [done| |done|set_solver].
      intros i Hi. rewrite not_elem_of_union, not_elem_of_singleton. split; [|apply Hdis; by right].
      by intros ->.
Qed.

Definition certificate_statement (o : OrderCertificate) : Digest32 :=
  vote_digest (oc_market_id o) (oc_sequence o) (oc_commitment o) (oc_previous_certificate o)
    (oc_expires_at o).

Lemma certificate_verify_Ok o policy keys now :
  certificate_verify o policy keys now = Ok () ↔
    policy_validate policy = Ok ()
    ∧ bad_statement (oc_market_id o) (oc_sequence o) (oc_commitment o)
        (oc_previous_certificate o) (oc_expires_at o) now = false
    ∧ cp_ordering_quorum policy ≤ Z.of_nat (length (oc_votes o))
    ∧ NoDup (vote_ids (oc_votes o))
    ∧ Forall (vote_valid (certificate_statement o) keys) (oc_votes o).
Proof.
  unfold certificate_verify. fold (certificate_statement o). split.
  - intros ([] & Hp & (? & Hb%fail_if_Ok & (? & Hl%fail_if_Ok
      & (seen & (Hnd & _ & HF & ->)%verify_votes_Ok & Hs%fail_if_Ok)%bind_Ok)%bind_Ok)%bind_Ok)%bind_Ok.
    bool_hyps. by split_and!.
  - intros (Hp & Hb & Hl & Hnd & HF). rewrite Hp, Hb, Ok_bind. cbn [fail_if]. rewrite Ok_bind.
    rewrite (proj2 (Z.ltb_ge _ _)) by done. cbn [fail_if]. rewrite Ok_bind.
    assert (for_each (verify_vote (certificate_statement o) keys) ∅ (oc_votes o)
      = Ok (list_to_set (vote_ids (oc_votes o)))) as ->.
    { apply verify_votes_Ok. split_and!; [done|set_solver|done|set_solver]. }
    rewrite Ok_bind, size_list_to_set by done. unfold vote_ids. rewrite length_map.
    by rewrite (proj2 (Z.ltb_ge _ _)).
Qed.

Lemma policy_ok p : policy_validate p = Ok () → cp_nodes p = 7 ∧ 5 ≤ cp_ordering_quorum p ≤ 7.
Proof. unfold policy_validate. intros Hp%fail_if_Ok. bool_hyps. lia. Qed.

Lemma valid_voters_known o keys :
  Forall (vote_valid (certificate_statement o) keys) (oc_votes o) →
  (list_to_set (vote_ids (oc_votes o)) : gset Z) ⊆ list_to_set (bt_keys keys).
Proof.
  intros HF i. rewrite !elem_of_list_to_set. unfold vote_ids. intros (v & -> & Hv)%list_elem_of_fmap.
  rewrite Forall_forall in HF. destruct (HF v Hv) as (_ & k & Hk & _).
  apply bt_get_elem in Hk. apply list_elem_of_fmap. by exists (v_node_id v, k).
Qed.

Lemma size_ids_le (l : list Z) : (size (list_to_set l : gset Z) ≤ length l)%nat.
Proof.
  induction l as [|i l IH]; [done|]. cbn [length]. rewrite list_to_set_cons.
  rewrite size_union_alt, size_singleton.
  pose proof (subseteq_size ((list_to_set l : gset Z) ∖ {[i]}) (list_to_set l) ltac:(set_solver)). lia.
Qed.

(** C25: Quorum intersection.  Under the frozen seven-node policy and a key set
    of seven nodes, any two valid certificates share at least three voters, one
    more than may be corrupt; each of them has a valid signature on both
    certified statements. *)
Theorem quorum_intersection o1 o2 policy keys now1 now2 :
  (length keys ≤ 7)%nat →
  certificate_verify o1 policy keys now1 = Ok () →
  certificate_verify o2 policy keys now2 = Ok () →
  ∃ both : gset Z, (3 ≤ size both)%nat
    ∧ ∀ i, i ∈ both → ∃ k v1 v2, bt_get i keys = Some k
        ∧ v1 ∈ oc_votes o1 ∧ v_node_id v1 = i
        ∧ signature_ok k (d_bytes (certificate_statement o1)) (v_signature v1) = true
        ∧ v2 ∈ oc_votes o2 ∧ v_node_id v2 = i
        ∧ signature_ok k (d_bytes (certificate_statement o2)) (v_signature v2) = true.
Proof.
  intros Hk (Hp & _ & Hl1 & Hnd1 & HF1)%certificate_verify_Ok
    (_ & _ & Hl2 & Hnd2 & HF2)%certificate_verify_Ok.
  apply policy_ok in Hp as [_ Hq].
  set (s1 := list_to_set (vote_ids (oc_votes o1)) : gset Z).
  set (s2 := list_to_set (vote_ids (oc_votes o2)) : gset Z).
  assert (size s1 = length (oc_votes o1) ∧ size s2 = length (oc_votes o2)) as [Hs1 Hs2].
  { unfold s1, s2. rewrite !size_list_to_set by done. unfold vote_ids. by rewrite !length_map. }
  assert (size (s1 ∪ s2) ≤ 7)%nat as Hun.
  { etrans; [|exact Hk]. etrans; [apply (subseteq_size _ (list_to_set (bt_keys keys)))|].
    - apply union_subseteq. split; by apply valid_voters_known.
    - etrans; [apply size_ids_le|]. unfold bt_keys. by rewrite length_map. }
  exists (s1 ∩ s2). split.
  - pose proof (size_union_alt s1 s2) as Hu. pose proof (size_difference_alt s2 s1) as Hd.
    replace (s1 ∩ s2) with (s2 ∩ s1) by set_solver. lia.
  - intros i [Hi1 Hi2]%elem_of_intersection. unfold s1, s2, vote_ids in Hi1, Hi2.
    apply elem_of_list_to_set, list_elem_of_fmap in Hi1 as (v1 & -> & Hv1).
    apply elem_of_list_to_set, list_elem_of_fmap in Hi2 as (v2 & Hid & Hv2).
    rewrite Forall_forall in HF1, HF2.
    destruct (HF1 v1 Hv1) as (_ & k1 & Hk1 & Hsig1), (HF2 v2 Hv2) as (_ & k2 & Hk2 & Hsig2).
    rewrite <-Hid, Hk1 in Hk2. simplify_eq. exists k2, v1, v2. done.
Qed.

End certificates.

(** ** The chain of certificates *)

Section chain.
Context `{Crypto}.
Implicit Types (l : list OrderCertificate).

Definition head_of l : Digest32 :=
  match last l with Some o => certificate_digest o | None => zero_digest end.

(** Every certificate carries its position and the digest of its predecessor. *)
Definition chained l : Prop :=
  ∀ i o, l !! i = Some o →
    oc_sequence o = Z.of_nat i + 1 ∧ oc_previous_certificate o = head_of (take i l).

Record log_wf (g : OrderingLog) : Prop := {
  lw_chained : chained (lg_certificates g);
  lw_unique : NoDup (map oc_commitment (lg_certificates g));
  lw_commitments : lg_commitments g = list_to_set (map oc_commitment (lg_certificates g));
  lw_length : Z.of_nat (length (lg_certificates g)) ≤ u64_max
}.

Lemma chained_snoc l o :
  chained l → oc_sequence o = Z.of_nat (length l) + 1 → oc_previous_certificate o = head_of l →
  chained (l ++ [o]).
Proof.
  intros Hl Hs Hp i o' Hi. apply lookup_app_Some in Hi as [Hi|[Hge Hi]].
  - rewrite take_app_le by (apply lookup_lt_Some in Hi; lia). by apply Hl.
  - assert (i = length l) as -> by (apply lookup_lt_Some in Hi; simpl in Hi; lia).
    rewrite Nat.sub_diag in Hi. simplify_eq/=. by rewrite take_app_length.
Qed.

Lemma next_sequence_eq g :
  Z.of_nat (length (lg_certificates g)) < u64_max →
  next_sequence g = Z.of_nat (length (lg_certificates g)) + 1.
Proof. intros Hl. unfold next_sequence, wrapping_add. apply Z.mod_small. unfold u64_max in *. lia. Qed.

Lemma append_cases o policy keys now g g' r :
  append o policy keys now g = (g', r) →
  (∃ e, r = Err e ∧ g' = g)
  ∨ (r = Ok () ∧ certificate_verify o policy keys now = Ok ()
     ∧ oc_sequence o = next_sequence g ∧ oc_previous_certificate o = log_head g
     ∧ (oc_commitment o ∉ lg_commitments g)
     ∧ g' = mk_log (lg_certificates g ++ [o]) ({[oc_commitment o]} ∪ lg_commitments g)).
Proof.
  unfold append. rewrite self_bind, try_bind.
  destruct (certificate_verify o policy keys now) as [[]|e]; [|intros [= <- <-]; eauto].
  rewrite try_bind. match goal with |- context [fail_if ?t BrokenChain] => destruct t eqn:Eb end;
    [intros [= <- <-]; eauto|]. cbn [fail_if]. rewrite try_bind.
  match goal with |- context [fail_if ?t OrderReplay] => destruct t eqn:Er end;
    [intros [= <- <-]; eauto|]. intros [= <- <-]. bool_hyps. right. by split_and!.
Qed.

Lemma append_accepts o policy keys now g :
  certificate_verify o policy keys now = Ok () →
  oc_sequence o = next_sequence g → oc_previous_certificate o = log_head g →
  oc_commitment o ∉ lg_commitments g →
  append o policy keys now g =
    (mk_log (lg_certificates g ++ [o]) ({[oc_commitment o]} ∪ lg_commitments g), Ok ()).
Proof.
  intros Hv Hs Hp Hn. unfold append. rewrite self_bind, try_bind, Hv, try_bind, Hs, Z.eqb_refl.
  rewrite (bool_decide_eq_true_2 _ Hp). cbn [negb orb fail_if].
  rewrite try_bind, (bool_decide_eq_false_2 _ Hn). done.
Qed.

Lemma append_wf o policy keys now g g' r :
  log_wf g → Z.of_nat (length (lg_certificates g)) < u64_max →
  append o policy keys now g = (g', r) → log_wf g'.
Proof.
  intros [Hc Hu Hs Hl] Hlt [(e & -> & ->)|(_ & _ & Hseq & Hp & Hn & ->)]%append_cases; [by split|].
  rewrite next_sequence_eq in Hseq by done. split; simpl.
  - by apply chained_snoc.
  - rewrite map_app. apply NoDup_app. split_and!; [done| |apply NoDup_singleton].
    intros c Hin ->%list_elem_of_singleton. apply Hn. rewrite Hs. by apply elem_of_list_to_set.
  - rewrite map_app, list_to_set_app_L, Hs. simpl. set_solver.
  - rewrite length_app; simpl. lia.
Qed.

(** Fields a Rust certificate always satisfies once verified. *)
Definition certificate_typed (o : OrderCertificate) : Prop :=
  statement_ok (oc_market_id o) (oc_sequence o) (oc_expires_at o).

Definition same_statement (o1 o2 : OrderCertificate) : Prop :=
  oc_market_id o1 = oc_market_id o2 ∧ oc_sequence o1 = oc_sequence o2
  ∧ oc_commitment o1 = oc_commitment o2 ∧ oc_previous_certificate o1 = oc_previous_certificate o2
  ∧ oc_expires_at o1 = oc_expires_at o2.

Lemma certificate_digest_binding o1 o2 :
  certificate_typed o1 → certificate_typed o2 → certificate_digest o1 = certificate_digest o2 →
  same_statement o1 o2 ∨ collision (certificate_preimage o1) (certificate_preimage o2).
Proof.
  intros (Hm1 & Hs1 & He1) (Hm2 & Hs2 & He2). unfold certificate_digest.
  intros [E|E]%sha256_or_collision; [left|by right]. unfold certificate_preimage in E.
  apply app_inv_head, put_bytes_inj in E as [? E]; [|unfold u64_max; lia..].
  apply u64_app_inj in E as [? E]; [|done..]. apply digest_app_inj in E as [? E].
  apply digest_app_inj in E as [? E]. apply u64_app_inj in E as [? _]; done.
Qed.

(** The head binds the history.  Two certificate chains of the same length
    with the same head digest certify the same statement at every position:
    same market, sequence, commitment, predecessor and expiry, or the encodings
    of the two certificates at some position are a hash collision. *)
Theorem head_binds_history l1 l2 :
  chained l1 → chained l2 → Forall certificate_typed l1 → Forall certificate_typed l2 →
  length l1 = length l2 → head_of l1 = head_of l2 →
  Forall2 same_statement l1 l2
  ∨ ∃ i o1 o2, l1 !! i = Some o1 ∧ l2 !! i = Some o2
      ∧ collision (certificate_preimage o1) (certificate_preimage o2).
Proof.
  revert l2; induction l1 as [|o1 l1 IH] using rev_ind; intros l2 Hc1 Hc2 HF1 HF2 Hlen Hhead.
  { destruct l2; [|done]. left. constructor. }
  destruct l2 as [|o2 l2 _] using rev_ind; [rewrite length_app in Hlen; simpl in Hlen; lia|].
  rewrite !length_app in Hlen; simpl in Hlen. assert (length l1 = length l2) as Hl by lia.
  apply Forall_app in HF1 as [HF1 [Ho1 _]%Forall_cons], HF2 as [HF2 [Ho2 _]%Forall_cons].
  unfold head_of in Hhead. rewrite !last_snoc in Hhead.
  destruct (certificate_digest_binding o1 o2 Ho1 Ho2 Hhead) as [Hsame|Hcol].
  2:{ right. exists (length l1), o1, o2. split_and!; [by apply list_lookup_middle| |done].
      by apply list_lookup_middle. }
  destruct (Hc1 (length l1) o1) as [_ Hp1]; [by apply list_lookup_middle|].
  destruct (Hc2 (length l2) o2) as [_ Hp2]; [by apply list_lookup_middle|].
  rewrite take_app_length in Hp1, Hp2.
  destruct (IH l2) as [HF|(i & x & y & Hx & Hy & Hcol)]; [| |done|done|done| |left|].
  - intros i o Hi. destruct (Hc1 i o) as [? ->]; [by apply lookup_app_l_Some|].
    split; [done|]. rewrite take_app_le; [done|]. apply lookup_lt_Some in Hi. lia.
  - intros i o Hi. destruct (Hc2 i o) as [? ->]; [by apply lookup_app_l_Some|].
    split; [done|]. rewrite take_app_le; [done|]. apply lookup_lt_Some in Hi. lia.
  - rewrite <-Hp1, <-Hp2. by destruct Hsame as (_ & _ & _ & ? & _).
  - apply Forall2_app; [done|]. by constructor.
  - right. exists i, x, y. split_and!; [by apply lookup_app_l_Some..|done].
Qed.

End chain.

(** ** Progress of the committee *)

Section committee.
Context `{Crypto} `{!CryptoLaws}.
Implicit Types (m : OrderingCommittee).

(** A committee whose nodes have voted for logged positions only. *)
Record committee_ok m : Prop := {
  ck_policy : cm_policy m = seven_node;
  ck_nodes : length (cm_nodes m) = 7%nat;
  ck_ids : NoDup (map on_id (cm_nodes m));
  ck_keys : ∀ n, n ∈ cm_nodes m → bt_get (on_id n) (cm_keys m) = Some (verifying_key (on_key n));
  ck_votes : ∀ n s d, n ∈ cm_nodes m → bt_get s (on_voted n) = Some d →
    s ≤ Z.of_nat (length (lg_certificates (cm_log m)));
  ck_log : log_wf (cm_log m)
}.

Lemma vote_granted market s c prev exp now n :
  bad_statement market s c prev exp now = false → bt_get s (on_voted n) = None →
  ∃ sg, try_sign (on_key n) (d_bytes (vote_digest market s c prev exp)) = Ok sg
    ∧ vote market s c prev exp now n =
      (mk_node (on_id n) (on_key n) (bt_insert s (vote_digest market s c prev exp) (on_voted n)),
       Ok (mk_vote (on_id n) (vote_digest market s c prev exp) (sig_bytes sg))).
Proof.
  intros Hb Hn. destruct (try_sign_total (on_key n) (d_bytes (vote_digest market s c prev exp))) as [sg Hs].
  exists sg. split; [done|]. unfold vote. rewrite self_bind, try_bind, Hb. cbn [fail_if].
  rewrite try_bind, Hn. cbn [fail_if]. rewrite try_bind, Hs. done.
Qed.

(** All asked nodes vote, and their votes are valid under their keys. *)
Lemma collect_votes_granted market s c prev exp now nodes (keys : list (Z * VerifyingKey)) :
  bad_statement market s c prev exp now = false →
  Forall (λ n, bt_get s (on_voted n) = None
    ∧ bt_get (on_id n) keys = Some (verifying_key (on_key n))) nodes →
  ∃ nodes' votes, collect_votes market s c prev exp now nodes = (nodes', Ok votes)
    ∧ Forall2 (λ n n', on_id n' = on_id n ∧ on_key n' = on_key n
        ∧ ∀ s' d, bt_get s' (on_voted n') = Some d → s' = s ∨ bt_get s' (on_voted n) = Some d) nodes nodes'
    ∧ vote_ids votes = map on_id nodes
    ∧ Forall (vote_valid (vote_digest market s c prev exp) keys) votes.
Proof.
  intros Hb. induction 1 as [|n nodes [Hn Hk] HF (nodes' & votes & Hc & HF2 & Hids & Hv)].
  { exists [], []. split_and!; constructor. }
  destruct (vote_granted market s c prev exp now n Hb Hn) as (sg & Hs & Hvote).
  cbn [collect_votes]. rewrite Hvote, Hc. do 2 eexists. split; [reflexivity|]. split_and!.
  - constructor; [|done]. split_and!; [done..|]. intros s' d. simpl.
    destruct (decide (s = s')) as [->|Hne]; [by left|]. rewrite bt_get_insert_ne by done. by right.
  - simpl. by rewrite Hids.
  - constructor; [|done]. split; [done|]. exists (verifying_key (on_key n)). split; [done|].
    by apply signature_ok_signed.
Qed.

(** Progress.  A committee in good standing certifies every well-formed
    statement whose commitment is not yet in the log: the certificate extends
    the chain at the next sequence, verifies under the committee's own keys,
    and the committee stays in good standing. *)
Theorem certify_progress m market c exp now :
  committee_ok m → Z.of_nat (length (lg_certificates (cm_log m))) < u64_max →
  c ∉ lg_commitments (cm_log m) →
  bad_statement market (next_sequence (cm_log m)) c (log_head (cm_log m)) exp now = false →
  ∃ m' o, certify market c exp now m = (m', Ok o)
    ∧ committee_ok m'
    ∧ oc_commitment o = c ∧ oc_sequence o = Z.of_nat (length (lg_certificates (cm_log m))) + 1
    ∧ oc_previous_certificate o = log_head (cm_log m)
    ∧ certificate_verify o (cm_policy m) (cm_keys m) now = Ok ()
    ∧ lg_certificates (cm_log m') = lg_certificates (cm_log m) ++ [o].
Proof.
  intros [Hpol Hlen Hids Hkeys Hvotes Hlog] Hlt Hc Hb. unfold certify, log_contains.
  rewrite bool_decide_eq_false_2 by done. rewrite Hpol. change (Z.to_nat _) with 5%nat.
  pose proof (next_sequence_eq (cm_log m) Hlt) as Hseq.
  assert (∀ n, n ∈ take 5 (cm_nodes m) → n ∈ cm_nodes m) as Htake.
  { intros n Hn. rewrite <-(take_drop 5 (cm_nodes m)). apply elem_of_app. by left. }
  destruct (collect_votes_granted market (next_sequence (cm_log m)) c (log_head (cm_log m)) exp now
    (take 5 (cm_nodes m)) (cm_keys m) Hb) as (voters & votes & Hcv & HF2 & Hvids & Hvv).
  { apply Forall_forall. intros n Hn%Htake. split; [|by apply Hkeys].
    destruct (bt_get _ (on_voted n)) as [d|] eqn:E; [|done]. specialize (Hvotes n _ d Hn E). lia. }
  rewrite Hcv. set (o := mk_certificate _ _ _ _ _ _). set (m1 := mk_committee _ _ _ _).
  assert (map on_id (take 5 (cm_nodes m) ++ drop 5 (cm_nodes m))
    = map on_id (voters ++ drop 5 (cm_nodes m))) as Hmap.
  { rewrite !map_app. f_equal. clear -HF2. induction HF2 as [|? ? ? ? (E & _) _ IH]; simpl; congruence. }
  rewrite take_drop in Hmap.
  assert (certificate_verify o seven_node (cm_keys m) now = Ok ()) as Hver.
  { apply certificate_verify_Ok. split_and!; [done|done| | |done].
    - simpl. assert (length votes = 5%nat) as ->; [|done].
      rewrite <-(length_map v_node_id votes). fold (vote_ids votes).
      rewrite Hvids, length_map, length_take. lia.
    - simpl. rewrite Hvids. rewrite <-(take_drop 5 (cm_nodes m)), map_app in Hids.
      by apply NoDup_app in Hids as (? & _). }
  change (append o (cm_policy m1) (cm_keys m1) now (cm_log m1))
    with (append o seven_node (cm_keys m) now (cm_log m)).
  pose proof (append_accepts o seven_node (cm_keys m) now (cm_log m) Hver eq_refl eq_refl Hc) as Ea.
  pose proof (append_wf _ _ _ _ _ _ _ Hlog Hlt Ea) as Hg. rewrite Ea.
  do 2 eexists. split; [reflexivity|]. split_and!; try done.
  split; simpl; [done| |by rewrite <-Hmap| | |done].
  - rewrite <-(length_map on_id), <-Hmap. by rewrite length_map.
  - intros n [Hn|Hn]%elem_of_app.
    + apply list_elem_of_lookup in Hn as [i Hi].
      destruct (Forall2_lookup_r _ _ _ _ _ HF2 Hi) as (n0 & Hn0 & -> & -> & _).
      apply Hkeys, Htake. by eapply list_elem_of_lookup_2.
    + apply Hkeys. rewrite <-(take_drop 5 (cm_nodes m)). apply elem_of_app. by right.
  - intros n s d [Hn|Hn]%elem_of_app Hs; rewrite length_app; simpl.
    + apply list_elem_of_lookup in Hn as [i Hi].
      destruct (Forall2_lookup_r _ _ _ _ _ HF2 Hi) as (n0 & Hn0 & _ & _ & Hold).
      destruct (Hold s d Hs) as [->|Hs0]; [lia|].
      specialize (Hvotes n0 s d). rewrite <-(take_drop 5 (cm_nodes m)) in Hvotes.
      specialize (Hvotes ltac:(apply elem_of_app; left; by eapply list_elem_of_lookup_2) Hs0). lia.
    + specialize (Hvotes n s d). rewrite <-(take_drop 5 (cm_nodes m)) in Hvotes.
      specialize (Hvotes ltac:(apply elem_of_app; by right) Hs). lia.
Qed.

End committee.
