(* ===== verification/Proofs.v ===== *)
(** * Transition evidence

    [oclob-proofs/src/lib.rs] and [optimistic.rs]: the signed statements that
    bind an ordered input, its MPC execution and the book transition; committee
    proofs over them; and the two kinds of settlement authority, a verified
    committee proof and a finalized optimistic claim, behind one interface. *)

From S2P Require Import Prelude BTree Bytes AppCrypto Orders Matching Circuit MpcRunner Book.
From S2P Require Import Ordering.
Open Scope string_scope.
Open Scope list_scope.
Open Scope Z_scope.

Definition STATEMENT_DOMAIN : bytes := ascii_bytes "OCLOB:TRANSITION-STATEMENT:v3".
Definition FILL_DOMAIN : bytes := ascii_bytes "OCLOB:PUBLIC-FILL:v2".
Definition COMMITTEE_TRUST_DOMAIN : bytes := ascii_bytes "OCLOB:TRANSITION-COMMITTEE:v2".
Definition CANCELLATION_STATEMENT_DOMAIN : bytes := ascii_bytes "OCLOB:CANCELLATION-STATEMENT:v2".
Definition EXPIRY_STATEMENT_DOMAIN : bytes := ascii_bytes "OCLOB:EXPIRY-STATEMENT:v2".

Inductive ProofError :=
| StatementMismatch
| ProofInsufficientQuorum
| InvalidSignature
| InvalidCommittee.

Record TransitionStatement := mk_statement {
  ts_market_id : bytes;
  ts_sequence : Z;
  ts_order_certificate_digest : Digest32;
  ts_eligibility_proof_digest : Digest32;
  ts_private_before_root : Digest32;
  ts_private_after_root : Digest32;
  ts_public_before_root : Digest32;
  ts_public_after_root : Digest32;
  ts_mpc_program_digest : Digest32;
  ts_mpc_output_digest : Digest32;
  ts_fill_digest : Digest32
}.

Record TransitionAttestation := mk_attestation {
  at_node_id : Z;
  at_signature : bytes
}.

Record TransitionProof := mk_proof {
  tp_statement : TransitionStatement;
  tp_attestations : list TransitionAttestation
}.

Record VerifiedTransitionProof := mk_verified {
  vp_proof : TransitionProof;
  vp_committee_trust_root : Digest32
}.

Record CancellationStatement := mk_cancellation_statement {
  cs_market_id : bytes;
  cs_sequence : Z;
  cs_certificate_digest : Digest32;
  cs_target_commitment : Digest32;
  cs_private_before_root : Digest32;
  cs_private_after_root : Digest32;
  cs_public_before_root : Digest32;
  cs_public_after_root : Digest32
}.

Record CancellationProof := mk_cancellation_proof {
  xp_statement : CancellationStatement;
  xp_attestations : list TransitionAttestation
}.

Record ExpiryStatement := mk_expiry_statement {
  es_market_id : bytes;
  es_sequence : Z;
  es_certificate_digest : Digest32;
  es_cutoff : Z;
  es_expired_orders : list Digest32;
  es_private_before_root : Digest32;
  es_private_after_root : Digest32;
  es_public_before_root : Digest32;
  es_public_after_root : Digest32
}.

Record ExpiryProof := mk_expiry_proof {
  ep_statement : ExpiryStatement;
  ep_attestations : list TransitionAttestation
}.

#[export] Instance statement_eq_dec : EqDecision TransitionStatement.
Proof. solve_decision. Defined.

(** The single-order receipt of the MPC runner, with the fields used here. *)
Record MpcReceipt := mk_mpc_receipt {
  mrc_program_sha256 : Digest32;
  mrc_public_output_sha256 : Digest32;
  mrc_all_parties_agreed : bool
}.

Section proofs.
Context `{Crypto}.

Definition fill_bytes (f : PublicFill) : bytes :=
  d_bytes (f_maker_order f) ++ d_bytes (f_taker_order f) ++ u64_be (f_price f)
  ++ u64_be (f_quantity f).

Definition fills_preimage (fills : list PublicFill) : bytes :=
  FILL_DOMAIN ++ u64_be (Z.of_nat (length fills)) ++ concat (map fill_bytes fills).

Definition public_fills_digest (fills : list PublicFill) : Digest32 := sha256 (fills_preimage fills).

(** [TransitionStatement::from_execution] (one-slot path). *)
Definition from_execution (certificate : OrderCertificate) (transition : BookTransition)
    (mpc : MpcReceipt) (eligibility_proof_digest : Digest32) : result ProofError TransitionStatement :=
  _ ← fail_if (negb (oc_sequence certificate =? bt_sequence transition)
      || negb (bool_decide (oc_market_id certificate = ps_market_id (bt_public_after transition)))
      || negb (mrc_all_parties_agreed mpc) || is_zero eligibility_proof_digest) StatementMismatch;
  _ ← fail_if (match bt_fill transition with
      | Some fill => negb (bool_decide (f_taker_order fill = oc_commitment certificate))
      | None => false
      end) StatementMismatch;
  Ok {| ts_market_id := oc_market_id certificate;
        ts_sequence := oc_sequence certificate;
        ts_order_certificate_digest := certificate_digest certificate;
        ts_eligibility_proof_digest := eligibility_proof_digest;
        ts_private_before_root := bt_private_before_root transition;
        ts_private_after_root := bt_private_after_root transition;
        ts_public_before_root := bt_public_before_root transition;
        ts_public_after_root := ps_state_root (bt_public_after transition);
        ts_mpc_program_digest := mrc_program_sha256 mpc;
        ts_mpc_output_digest := mrc_public_output_sha256 mpc;
        ts_fill_digest := public_fills_digest (bt_fills transition) |}.

(** [TransitionStatement::from_batch_execution]. *)
Definition from_batch_execution (certificate : OrderCertificate) (transition : BookTransition)
    (mpc : MpcBatchReceipt) (eligibility_proof_digest : Digest32) :
    result ProofError TransitionStatement :=
  _ ← fail_if (negb (oc_sequence certificate =? bt_sequence transition)
      || negb (bool_decide (oc_market_id certificate = ps_market_id (bt_public_after transition)))
      || negb (rc_all_parties_agreed mpc) || is_zero eligibility_proof_digest) StatementMismatch;
  _ ← fail_if (existsb (λ fill, negb (bool_decide (f_taker_order fill = oc_commitment certificate)))
      (bt_fills transition)) StatementMismatch;
  Ok {| ts_market_id := oc_market_id certificate;
        ts_sequence := oc_sequence certificate;
        ts_order_certificate_digest := certificate_digest certificate;
        ts_eligibility_proof_digest := eligibility_proof_digest;
        ts_private_before_root := bt_private_before_root transition;
        ts_private_after_root := bt_private_after_root transition;
        ts_public_before_root := bt_public_before_root transition;
        ts_public_after_root := ps_state_root (bt_public_after transition);
        ts_mpc_program_digest := rc_program_sha256 mpc;
        ts_mpc_output_digest := rc_public_output_sha256 mpc;
        ts_fill_digest := public_fills_digest (bt_fills transition) |}.

Definition statement_preimage (s : TransitionStatement) : bytes :=
  STATEMENT_DOMAIN ++ put_bytes (ts_market_id s) ++ u64_be (ts_sequence s)
  ++ d_bytes (ts_order_certificate_digest s) ++ d_bytes (ts_eligibility_proof_digest s)
  ++ d_bytes (ts_private_before_root s) ++ d_bytes (ts_private_after_root s)
  ++ d_bytes (ts_public_before_root s) ++ d_bytes (ts_public_after_root s)
  ++ d_bytes (ts_mpc_program_digest s) ++ d_bytes (ts_mpc_output_digest s)
  ++ d_bytes (ts_fill_digest s).

Definition statement_digest (s : TransitionStatement) : Digest32 := sha256 (statement_preimage s).

(** [CancellationStatement::from_transition] and [digest]. *)
Definition cancellation_statement (certificate : OrderCertificate)
    (transition : CancellationTransition) : result ProofError CancellationStatement :=
  _ ← fail_if (negb (oc_sequence certificate =? ct_sequence transition)
      || negb (bool_decide (oc_commitment certificate = ct_cancellation_commitment transition))
      || negb (bool_decide (oc_market_id certificate = ps_market_id (ct_public_after transition))))
    StatementMismatch;
  Ok {| cs_market_id := oc_market_id certificate;
        cs_sequence := ct_sequence transition;
        cs_certificate_digest := certificate_digest certificate;
        cs_target_commitment := ct_target_commitment transition;
        cs_private_before_root := ct_private_before_root transition;
        cs_private_after_root := ct_private_after_root transition;
        cs_public_before_root := ct_public_before_root transition;
        cs_public_after_root := ps_state_root (ct_public_after transition) |}.

Definition cancellation_statement_digest (s : CancellationStatement) : Digest32 :=
  sha256 (CANCELLATION_STATEMENT_DOMAIN ++ put_bytes (cs_market_id s) ++ u64_be (cs_sequence s)
    ++ d_bytes (cs_certificate_digest s) ++ d_bytes (cs_target_commitment s)
    ++ d_bytes (cs_private_before_root s) ++ d_bytes (cs_private_after_root s)
    ++ d_bytes (cs_public_before_root s) ++ d_bytes (cs_public_after_root s)).

(** [ExpiryStatement::from_transition] and [digest]. *)
Definition expiry_statement (certificate : OrderCertificate)
    (transition : ExpiryTransition) : result ProofError ExpiryStatement :=
  _ ← fail_if (negb (oc_sequence certificate =? et_sequence transition)
      || negb (bool_decide (oc_commitment certificate = et_expiry_commitment transition))
      || negb (bool_decide (oc_market_id certificate = ps_market_id (et_public_after transition))))
    StatementMismatch;
  Ok {| es_market_id := oc_market_id certificate;
        es_sequence := et_sequence transition;
        es_certificate_digest := certificate_digest certificate;
        es_cutoff := et_cutoff transition;
        es_expired_orders := et_expired_orders transition;
        es_private_before_root := et_private_before_root transition;
        es_private_after_root := et_private_after_root transition;
        es_public_before_root := et_public_before_root transition;
        es_public_after_root := ps_state_root (et_public_after transition) |}.

Definition expiry_statement_digest (s : ExpiryStatement) : Digest32 :=
  sha256 (EXPIRY_STATEMENT_DOMAIN ++ put_bytes (es_market_id s) ++ u64_be (es_sequence s)
    ++ d_bytes (es_certificate_digest s) ++ u64_be (es_cutoff s)
    ++ u64_be (Z.of_nat (length (es_expired_orders s)))
    ++ concat (map d_bytes (es_expired_orders s))
    ++ d_bytes (es_private_before_root s) ++ d_bytes (es_private_after_root s)
    ++ d_bytes (es_public_before_root s) ++ d_bytes (es_public_after_root s)).

(** ** Attestation and verification

    The three proof types share these loops. *)

Definition attest_digest (digest : Digest32) (signers : list (Z * SigningKey))
    (policy : CommitteePolicy) : result ProofError (list TransitionAttestation) :=
  _ ← map_err (λ _, InvalidCommittee) (policy_validate policy);
  _ ← fail_if (Z.of_nat (length signers) <? cp_ordering_quorum policy) ProofInsufficientQuorum;
  collect (λ '(node_id, key),
    s ← map_err (λ _, InvalidSignature) (try_sign key (d_bytes digest));
    Ok (mk_attestation node_id (sig_bytes s)))
    (take (Z.to_nat (cp_ordering_quorum policy)) signers).

Definition verify_attestation (digest : Digest32) (keys : btree Z VerifyingKey)
    (distinct : gset Z) (a : TransitionAttestation) : result ProofError (gset Z) :=
  _ ← fail_if (bool_decide (at_node_id a ∈ distinct)) InvalidSignature;
  key ← ok_or (bt_get (at_node_id a) keys) InvalidSignature;
  signature ← map_err (λ _, InvalidSignature) (sig_try_from (at_signature a));
  _ ← map_err (λ _, InvalidSignature) (verify_strict key (d_bytes digest) signature);
  Ok ({[at_node_id a]} ∪ distinct).

Definition verify_attestations (digest : Digest32) (attestations : list TransitionAttestation)
    (keys : btree Z VerifyingKey) (policy : CommitteePolicy) : result ProofError () :=
  _ ← map_err (λ _, InvalidCommittee) (policy_validate policy);
  distinct ← for_each (verify_attestation digest keys) ∅ attestations;
  fail_if (Z.of_nat (size distinct) <? cp_ordering_quorum policy) ProofInsufficientQuorum.

Definition transition_attest (s : TransitionStatement) (signers : list (Z * SigningKey))
    (policy : CommitteePolicy) : result ProofError TransitionProof :=
  a ← attest_digest (statement_digest s) signers policy; Ok (mk_proof s a).
Definition transition_verify (p : TransitionProof) (keys : btree Z VerifyingKey)
    (policy : CommitteePolicy) : result ProofError () :=
  verify_attestations (statement_digest (tp_statement p)) (tp_attestations p) keys policy.

Definition cancellation_attest (s : CancellationStatement) (signers : list (Z * SigningKey))
    (policy : CommitteePolicy) : result ProofError CancellationProof :=
  a ← attest_digest (cancellation_statement_digest s) signers policy; Ok (mk_cancellation_proof s a).
Definition cancellation_verify (p : CancellationProof) (keys : btree Z VerifyingKey)
    (policy : CommitteePolicy) : result ProofError () :=
  verify_attestations (cancellation_statement_digest (xp_statement p)) (xp_attestations p) keys policy.

Definition expiry_attest (s : ExpiryStatement) (signers : list (Z * SigningKey))
    (policy : CommitteePolicy) : result ProofError ExpiryProof :=
  a ← attest_digest (expiry_statement_digest s) signers policy; Ok (mk_expiry_proof s a).
Definition expiry_verify (p : ExpiryProof) (keys : btree Z VerifyingKey)
    (policy : CommitteePolicy) : result ProofError () :=
  verify_attestations (expiry_statement_digest (ep_statement p)) (ep_attestations p) keys policy.

(** [committee_trust_root]. *)
Definition committee_trust_root (keys : btree Z VerifyingKey) (policy : CommitteePolicy) :
    result ProofError Digest32 :=
  _ ← map_err (λ _, InvalidCommittee) (policy_validate policy);
  _ ← fail_if (negb (Z.of_nat (length keys) =? cp_nodes policy)
      || existsb (λ id, id =? 0) (bt_keys keys)) InvalidCommittee;
  Ok (sha256 (COMMITTEE_TRUST_DOMAIN
    ++ concat (map u64_be [cp_nodes policy; cp_max_corrupt_nodes policy;
         cp_reconstruction_quorum policy; cp_ordering_quorum policy;
         cp_settlement_authorization_quorum policy])
    ++ concat (map (λ '(id, key), u16_be id ++ d_bytes (vk_fingerprint key)) keys))).

(** [TransitionProof::into_verified], the only constructor of
    [VerifiedTransitionProof]. *)
Definition into_verified (p : TransitionProof) (keys : btree Z VerifyingKey)
    (policy : CommitteePolicy) : result ProofError VerifiedTransitionProof :=
  _ ← transition_verify p keys policy;
  root ← committee_trust_root keys policy;
  Ok (mk_verified p root).

(** ** Settlement authority *)

(** [trait TransitionAuthorization]: the binding checks are provided methods,
    written once against the statement and the trust root. *)
Class TransitionAuthorization (A : Type) := {
  auth_statement : A → TransitionStatement;
  auth_trust_root : A → Digest32
}.

#[export] Instance verified_authorization : TransitionAuthorization VerifiedTransitionProof := {|
  auth_statement p := tp_statement (vp_proof p);
  auth_trust_root := vp_committee_trust_root
|}.

Section bindings.
Context {A : Type} `{TransitionAuthorization A}.

Definition verify_admission_binding (a : A) (certificate : OrderCertificate) (expected : Digest32) :
    result ProofError () :=
  let s := auth_statement a in
  fail_if (negb (bool_decide (auth_trust_root a = expected))
      || negb (bool_decide (ts_market_id s = oc_market_id certificate))
      || negb (ts_sequence s =? oc_sequence certificate)
      || negb (bool_decide (ts_order_certificate_digest s = certificate_digest certificate))
      || negb (bool_decide (ts_fill_digest s = public_fills_digest []))) StatementMismatch.

Definition verify_settlement_binding (a : A) (market : bytes) (arriving : OrderCommitment)
    (fills : list PublicFill) (expected : Digest32) : result ProofError () :=
  let s := auth_statement a in
  fail_if (negb (bool_decide (auth_trust_root a = expected))
      || negb (bool_decide (ts_market_id s = market))
      || negb (bool_decide (ts_fill_digest s = public_fills_digest fills))
      || existsb (λ fill, negb (bool_decide (f_taker_order fill = arriving))) fills)
    StatementMismatch.

Definition verify_execution_binding (a : A) (certificate : OrderCertificate)
    (arriving : OrderCommitment) (fills : list PublicFill) (expected : Digest32) :
    result ProofError () :=
  _ ← verify_settlement_binding a (oc_market_id certificate) arriving fills expected;
  fail_if (negb (ts_sequence (auth_statement a) =? oc_sequence certificate)
      || negb (bool_decide (ts_order_certificate_digest (auth_statement a)
                 = certificate_digest certificate))) StatementMismatch.

End bindings.

(** ** Optimistic transitions *)

(** Input-only binding of a statement. *)
Definition input_preimage (s : TransitionStatement) : bytes :=
  ascii_bytes "OCLOB:optimistic:transition-input:v1"
  ++ u64_be (Z.of_nat (length (ts_market_id s))) ++ ts_market_id s ++ u64_be (ts_sequence s)
  ++ d_bytes (ts_order_certificate_digest s) ++ d_bytes (ts_eligibility_proof_digest s)
  ++ d_bytes (ts_private_before_root s) ++ d_bytes (ts_public_before_root s)
  ++ d_bytes (ts_mpc_program_digest s).

Definition transition_input_root (s : TransitionStatement) : Digest32 := sha256 (input_preimage s).

(** The fields of the shared protocol's claims that the adapter reads. *)
Record ExecutionContext := mk_context { cx_verifier : Digest32; cx_input_root : Digest32 }.
Record Claim := mk_claim {
  cl_id : Digest32;
  cl_policy_verifier : Digest32;
  cl_context : ExecutionContext;
  cl_output_root : Digest32
}.
Record OptimisticSettlementReference := mk_reference {
  rf_claim : Digest32;
  rf_context : ExecutionContext;
  rf_output_root : Digest32;
  rf_public_output : bytes
}.

Record TransitionChallengeVerifier := mk_challenge_verifier {
  cv_keys : btree Z VerifyingKey;
  cv_policy : CommitteePolicy;
  cv_identity : Digest32;
  cv_trust_root : Digest32
}.

Definition challenge_verifier_new (keys : btree Z VerifyingKey) (policy : CommitteePolicy) :
    result ProofError TransitionChallengeVerifier :=
  trust_root ← committee_trust_root keys policy;
  let identity := sha256 (ascii_bytes "OCLOB:optimistic:transition-verifier:v1"
    ++ d_bytes trust_root) in
  Ok (mk_challenge_verifier keys policy identity trust_root).

(** [serde_json] on the two types that cross the protocol boundary. *)
Class Json := {
  json_statement : TransitionStatement → option bytes;
  json_parse_statement : bytes → option TransitionStatement;
  json_parse_proof : bytes → option TransitionProof
}.

Section optimistic.
Context `{Json}.

Definition MAX_PUBLIC_BYTES : Z := 1024 * 1024.

(** [ChallengeVerifier::verify]: the output root a challenge proof establishes. *)
Definition challenge_verify (v : TransitionChallengeVerifier) (context : ExecutionContext)
    (proof : bytes) : result string Digest32 :=
  _ ← fail_if (MAX_PUBLIC_BYTES <? Z.of_nat (length proof)) "OCLOB challenge proof exceeds its bound";
  proof ← ok_or (json_parse_proof proof) "malformed proof";
  _ ← fail_if (negb (bool_decide (cx_verifier context = cv_identity v))
      || negb (bool_decide (transition_input_root (tp_statement proof) = cx_input_root context)))
    "OCLOB challenge names another canonical input or committee";
  _ ← map_err (λ _, "invalid proof") (transition_verify proof (cv_keys v) (cv_policy v));
  Ok (statement_digest (tp_statement proof)).

Definition verify_settlement_reference (v : TransitionChallengeVerifier)
    (reference : OptimisticSettlementReference) (mpc_result : Digest32) : result string () :=
  _ ← fail_if (MAX_PUBLIC_BYTES <? Z.of_nat (length (rf_public_output reference)))
    "OCLOB public output exceeds its bound";
  statement ← ok_or (json_parse_statement (rf_public_output reference)) "malformed statement";
  fail_if (negb (bool_decide (cx_verifier (rf_context reference) = cv_identity v))
      || negb (bool_decide (cx_input_root (rf_context reference) = transition_input_root statement))
      || negb (bool_decide (rf_output_root reference = statement_digest statement))
      || negb (bool_decide (mpc_result = ts_mpc_output_digest statement)))
    "OCLOB settlement differs from the finalized input or public output".

Record FinalizedOptimisticTransition := mk_finalized {
  fo_statement : TransitionStatement;
  fo_trust_root : Digest32;
  fo_reference : OptimisticSettlementReference
}.

Definition from_canonical (claim : Claim) (statement : TransitionStatement)
    (v : TransitionChallengeVerifier) : result string FinalizedOptimisticTransition :=
  _ ← fail_if (negb (bool_decide (cl_policy_verifier claim = cv_identity v))
      || negb (bool_decide (cx_input_root (cl_context claim) = transition_input_root statement))
      || negb (bool_decide (cl_output_root claim = statement_digest statement)))
    "OCLOB canonical finality belongs to another transition";
  public_output ← ok_or (json_statement statement) "unencodable statement";
  Ok (mk_finalized statement (cv_trust_root v)
    (mk_reference (cl_id claim) (cl_context claim) (cl_output_root claim) public_output)).

(** [require_finalized_transition]; [require_finalized] is the shared
    protocol's lookup of a finalized claim. *)
Definition require_finalized_transition
    (require_finalized : Digest32 → ExecutionContext → Digest32 → result string Claim)
    (claim : Digest32) (context : ExecutionContext) (statement : TransitionStatement)
    (v : TransitionChallengeVerifier) : result string Claim :=
  _ ← fail_if (negb (bool_decide (cx_verifier context = cv_identity v))
      || negb (bool_decide (cx_input_root context = transition_input_root statement)))
    "OCLOB finalized transition has another input or verifier";
  require_finalized claim context (statement_digest statement).

End optimistic.

#[export] Instance finalized_authorization : TransitionAuthorization FinalizedOptimisticTransition := {|
  auth_statement := fo_statement;
  auth_trust_root := fo_trust_root
|}.

End proofs.

(** ** Attestations *)

Section attestation_lemmas.
Context `{Crypto}.
Implicit Types (keys : list (Z * VerifyingKey)).

Definition attested (digest : Digest32) keys (a : TransitionAttestation) : Prop :=
  ∃ k, bt_get (at_node_id a) keys = Some k ∧ signature_ok k (d_bytes digest) (at_signature a) = true.

Definition signer_ids (l : list TransitionAttestation) : list Z := map at_node_id l.

Lemma verify_attestation_Ok digest keys seen a seen' :
  verify_attestation digest keys seen a = Ok seen' ↔
    (at_node_id a ∉ seen) ∧ attested digest keys a ∧ seen' = {[at_node_id a]} ∪ seen.
Proof.
  unfold verify_attestation, attested, signature_ok. split.
  - intros (? & Hd%fail_if_Ok & (k & Hk%ok_or_Ok & (s & Hs%map_err_Ok
      & (? & Hv%map_err_Ok & [= <-])%bind_Ok)%bind_Ok)%bind_Ok)%bind_Ok.
    bool_hyps. split_and!; [done| |done]. exists k. rewrite Hs, Hv. done.
  - intros (Hn & (k & Hk & Hs) & ->). rewrite bool_decide_eq_false_2, Hk by done. cbn.
    destruct (sig_try_from (at_signature a)) as [s|]; [|done]. cbn.
    by destruct (verify_strict k (d_bytes digest) s) as [[]|].
Qed.

Lemma verify_attestation_loop digest keys seen l seen' :
  for_each (verify_attestation digest keys) seen l = Ok seen' ↔
    NoDup (signer_ids l) ∧ (∀ i, i ∈ signer_ids l → i ∉ seen)
    ∧ Forall (attested digest keys) l ∧ seen' = list_to_set (signer_ids l) ∪ seen.
Proof.
  revert seen; induction l as [|v l IH]; intros seen; cbn [for_each signer_ids map].
  { split; [intros [= <-]; split_and!; [constructor|by intros ? ?%elem_of_nil|constructor|set_solver]|].
    intros (_ & _ & _ & ->). f_equal. set_solver. }
  rewrite bind_Ok. setoid_rewrite verify_attestation_Ok. rewrite NoDup_cons, Forall_cons. split.
  - intros (s & (Hn & Hv & ->) & Hl). apply IH in Hl as (Hnd & Hdis & HF & ->).
    split_and!; [|done| |done|done|set_solver].
    + intros Hin. specialize (Hdis _ Hin). set_solver.
    + intros i [->|Hi]%elem_of_cons; [done|]. specialize (Hdis _ Hi). set_solver.
  - intros ((Hnin & Hnd) & Hdis & (Hv & HF) & ->). eexists. split.
    + split_and!; [apply Hdis; left|done|done].
    + apply IH. split_and!; [done| |done|set_solver].
      intros i Hi. rewrite not_elem_of_union, not_elem_of_singleton. split; [|apply Hdis; by right].
      by intros ->.
Qed.

Lemma verify_attestations_Ok digest l keys policy :
  verify_attestations digest l keys policy = Ok () ↔
    policy_validate policy = Ok () ∧ NoDup (signer_ids l) ∧ Forall (attested digest keys) l
    ∧ cp_ordering_quorum policy ≤ Z.of_nat (length l).
Proof.
  unfold verify_attestations. split.
  - intros ([] & Hp%map_err_Ok & (seen & (Hnd & _ & HF & ->)%verify_attestation_loop & Hs%fail_if_Ok)%bind_Ok)%bind_Ok.
    bool_hyps. rewrite union_empty_r_L, size_list_to_set in * by done.
    unfold signer_ids in *. rewrite length_map in *. by split_and!.
  - intros (Hp & Hnd & HF & Hl). rewrite Hp. cbn [map_err]. rewrite Ok_bind.
    assert (for_each (verify_attestation digest keys) ∅ l = Ok (list_to_set (signer_ids l))) as ->.
    { apply verify_attestation_loop. split_and!; [done|set_solver|done|set_solver]. }
    rewrite Ok_bind, size_list_to_set by done. unfold signer_ids. rewrite length_map.
    by rewrite (proj2 (Z.ltb_ge _ _)).
Qed.

(** C40: A committee proof needs a quorum.  A transition proof is accepted only
    with attestations of at least five distinct committee members, each a valid
    signature on this very statement under that member's registered key. *)
Theorem proof_needs_quorum p keys policy :
  transition_verify p keys policy = Ok () →
  ∃ signers : gset Z, (5 ≤ size signers)%nat
    ∧ ∀ i, i ∈ signers → ∃ k a, bt_get i keys = Some k ∧ a ∈ tp_attestations p
        ∧ at_node_id a = i
        ∧ signature_ok k (d_bytes (statement_digest (tp_statement p))) (at_signature a) = true.
Proof.
  intros (Hp & Hnd & HF & Hl)%verify_attestations_Ok. apply policy_ok in Hp as [_ Hq].
  exists (list_to_set (signer_ids (tp_attestations p))). split.
  - rewrite size_list_to_set by done. unfold signer_ids. rewrite length_map. lia.
  - intros i Hi. apply elem_of_list_to_set in Hi. unfold signer_ids in Hi.
    apply list_elem_of_fmap in Hi as (a & -> & Ha). rewrite Forall_forall in HF.
    destruct (HF a Ha) as (k & Hk & Hs). by exists k, a.
Qed.

Section honest.
Context `{!CryptoLaws}.

Lemma attest_valid digest signers policy keys :
  policy_validate policy = Ok () → NoDup (map fst signers) →
  cp_ordering_quorum policy ≤ Z.of_nat (length signers) →
  Forall (λ e : Z * SigningKey, bt_get e.1 keys = Some (verifying_key e.2)) signers →
  ∃ l, attest_digest digest signers policy = Ok l
    ∧ verify_attestations digest l keys policy = Ok ().
Proof.
  intros Hp Hnd Hl HF. unfold attest_digest. rewrite Hp. cbn [map_err]. rewrite Ok_bind.
  rewrite (proj2 (Z.ltb_ge _ _)) by done. cbn [fail_if]. rewrite Ok_bind.
  pose proof (policy_ok _ Hp) as [_ Hq].
  set (asked := take (Z.to_nat (cp_ordering_quorum policy)) signers).
  assert (NoDup (map fst asked)) as Hnd'.
  { unfold asked. rewrite <-(take_drop (Z.to_nat (cp_ordering_quorum policy)) signers), map_app in Hnd.
    by apply NoDup_app in Hnd as (? & _). }
  assert (length asked = Z.to_nat (cp_ordering_quorum policy)) as Hlen.
  { unfold asked. rewrite length_take. lia. }
  assert (Forall (λ e : Z * SigningKey, bt_get e.1 keys = Some (verifying_key e.2)) asked) as HF'.
  { by apply Forall_take. }
  clearbody asked. enough (∃ l, collect (λ '(node_id, key),
      s ← map_err (λ _, InvalidSignature) (try_sign key (d_bytes digest));
      Ok (mk_attestation node_id (sig_bytes s))) asked = Ok l
    ∧ signer_ids l = map fst asked ∧ Forall (attested digest keys) l) as (l & Hc & Hids & Hatt).
  { exists l. split; [done|]. apply verify_attestations_Ok. split_and!; [done| |done|].
    - by rewrite Hids.
    - rewrite <-(length_map at_node_id l). fold (signer_ids l). rewrite Hids, length_map. lia. }
  clear Hnd' Hlen. induction HF' as [|[i k] asked Hk HF' (l & Hc & Hids & Hatt)]; [by exists []|].
  destruct (try_sign_total k (d_bytes digest)) as [s Hs]. simpl in Hk.
  exists (mk_attestation i (sig_bytes s) :: l). cbn [collect]. rewrite Hs. cbn [map_err].
  rewrite !Ok_bind, Hc, Ok_bind. split_and!; [done| |].
  - simpl. by rewrite Hids.
  - constructor; [|done]. exists (verifying_key k). split; [done|]. by apply signature_ok_signed.
Qed.

(** Attest then verify.  When at least a quorum of distinct registered
    signers attest a transition statement, attestation succeeds and the proof
    is accepted under their registered keys; likewise for cancellation and
    expiry statements. *)
Theorem attest_then_verify signers policy keys st cst est :
  policy_validate policy = Ok () → NoDup (map fst signers) →
  cp_ordering_quorum policy ≤ Z.of_nat (length signers) →
  Forall (λ e : Z * SigningKey, bt_get e.1 keys = Some (verifying_key e.2)) signers →
  (∃ p, transition_attest st signers policy = Ok p ∧ tp_statement p = st
     ∧ transition_verify p keys policy = Ok ())
  ∧ (∃ p, cancellation_attest cst signers policy = Ok p ∧ xp_statement p = cst
     ∧ cancellation_verify p keys policy = Ok ())
  ∧ (∃ p, expiry_attest est signers policy = Ok p ∧ ep_statement p = est
     ∧ expiry_verify p keys policy = Ok ()).
Proof.
  intros Hp Hnd Hl HF. split_and!.
  - destruct (attest_valid (statement_digest st) signers policy keys Hp Hnd Hl HF) as (l & Ha & Hv).
    unfold transition_attest. rewrite Ha. by eexists.
  - destruct (attest_valid (cancellation_statement_digest cst) signers policy keys Hp Hnd Hl HF)
      as (l & Ha & Hv). unfold cancellation_attest. rewrite Ha. by eexists.
  - destruct (attest_valid (expiry_statement_digest est) signers policy keys Hp Hnd Hl HF)
      as (l & Ha & Hv). unfold expiry_attest. rewrite Ha. by eexists.
Qed.

End honest.
End attestation_lemmas.

(** ** Bindings *)

Section binding_lemmas.
Context `{Crypto}.

Definition fill_typed (f : PublicFill) : Prop := 0 ≤ f_price f ≤ u64_max ∧ 0 ≤ f_quantity f ≤ u64_max.
Definition fills_typed (l : list PublicFill) : Prop :=
  Forall fill_typed l ∧ Z.of_nat (length l) ≤ u64_max.

Lemma fill_bytes_inj f1 f2 x y :
  fill_typed f1 → fill_typed f2 → fill_bytes f1 ++ x = fill_bytes f2 ++ y → f1 = f2 ∧ x = y.
Proof.
  intros [Hp1 Hq1] [Hp2 Hq2]. unfold fill_bytes. rewrite <-!app_assoc. intros E.
  apply digest_app_inj in E as [E1 E]. apply digest_app_inj in E as [E2 E].
  apply u64_app_inj in E as [E3 E]; [|done..]. apply u64_app_inj in E as [E4 E]; [|done..].
  destruct f1, f2; simpl in *. by subst.
Qed.

Lemma fills_digest_binding l1 l2 :
  fills_typed l1 → fills_typed l2 → public_fills_digest l1 = public_fills_digest l2 →
  l1 = l2 ∨ collision (fills_preimage l1) (fills_preimage l2).
Proof.
  intros [HF1 Hl1] [HF2 Hl2] [E|E]%sha256_or_collision; [left|by right].
  unfold fills_preimage in E. apply app_inv_head in E.
  apply u64_app_inj in E as [Hlen E]; [|lia..]. apply Nat2Z.inj in Hlen. clear Hl1 Hl2.
  revert l2 HF2 Hlen E. induction HF1 as [|f1 l1 Hf1 HF1 IH]; intros [|f2 l2] HF2 Hlen E; try done.
  apply Forall_cons in HF2 as [Hf2 HF2]. simpl in E, Hlen.
  apply fill_bytes_inj in E as [-> E]; [|done..]. f_equal. apply IH; [done|lia|done].
Qed.

Context {A : Type} `{TransitionAuthorization A}.

Lemma execution_binding_Ok (a : A) certificate arriving fills expected :
  verify_execution_binding a certificate arriving fills expected = Ok () →
  auth_trust_root a = expected
  ∧ ts_market_id (auth_statement a) = oc_market_id certificate
  ∧ ts_sequence (auth_statement a) = oc_sequence certificate
  ∧ ts_order_certificate_digest (auth_statement a) = certificate_digest certificate
  ∧ ts_fill_digest (auth_statement a) = public_fills_digest fills
  ∧ Forall (λ f, f_taker_order f = arriving) fills.
Proof.
  intros (? & Hs%fail_if_Ok & Hx%fail_if_Ok)%bind_Ok. bool_hyps. split_and!; try done.
  apply Forall_forall. intros f Hf. destruct (decide (f_taker_order f = arriving)) as [|Hne]; [done|].
  assert (existsb (λ fill, negb (bool_decide (f_taker_order fill = arriving))) fills = true); [|congruence].
  apply existsb_exists. exists f. rewrite <-list_elem_of_In. split; [done|].
  by rewrite bool_decide_eq_false_2.
Qed.

(** An authorization settles one execution.  Whatever kind of authority is
    presented, a verified committee proof or a finalized optimistic claim, it
    binds at most one certificate statement and one fill list: if it passes for
    two, the fills are equal and the certificates state the same order at the
    same sequence, or the two encodings of the fills or of the certificates
    are a hash collision. *)
Theorem execution_binding_unique (a : A) o1 o2 c1 c2 fills1 fills2 root1 root2 :
  certificate_typed o1 → certificate_typed o2 → fills_typed fills1 → fills_typed fills2 →
  verify_execution_binding a o1 c1 fills1 root1 = Ok () →
  verify_execution_binding a o2 c2 fills2 root2 = Ok () →
  (fills1 = fills2 ∧ same_statement o1 o2 ∧ root1 = root2)
  ∨ collision (fills_preimage fills1) (fills_preimage fills2)
  ∨ collision (certificate_preimage o1) (certificate_preimage o2).
Proof.
  intros Ho1 Ho2 Hf1 Hf2 (Hr1 & _ & _ & Hc1 & Hd1 & _)%execution_binding_Ok
    (Hr2 & _ & _ & Hc2 & Hd2 & _)%execution_binding_Ok.
  destruct (fills_digest_binding fills1 fills2 Hf1 Hf2) as [->|]; [congruence| |eauto].
  destruct (certificate_digest_binding o1 o2 Ho1 Ho2) as [Hs|]; [congruence| |eauto].
  left. split_and!; [done..|congruence].
Qed.

End binding_lemmas.

(** ** Challenges *)

Section challenges.
Context `{Crypto} `{Json}.

Definition statement_typed (s : TransitionStatement) : Prop :=
  (length (ts_market_id s) ≤ 64)%nat ∧ 0 ≤ ts_sequence s ≤ u64_max.

Definition same_input (s1 s2 : TransitionStatement) : Prop :=
  ts_market_id s1 = ts_market_id s2 ∧ ts_sequence s1 = ts_sequence s2
  ∧ ts_order_certificate_digest s1 = ts_order_certificate_digest s2
  ∧ ts_eligibility_proof_digest s1 = ts_eligibility_proof_digest s2
  ∧ ts_private_before_root s1 = ts_private_before_root s2
  ∧ ts_public_before_root s1 = ts_public_before_root s2
  ∧ ts_mpc_program_digest s1 = ts_mpc_program_digest s2.

Lemma input_root_binding s1 s2 :
  statement_typed s1 → statement_typed s2 → transition_input_root s1 = transition_input_root s2 →
  same_input s1 s2 ∨ collision (input_preimage s1) (input_preimage s2).
Proof.
  intros [Hm1 Hs1] [Hm2 Hs2] [E|E]%sha256_or_collision; [left|by right].
  unfold input_preimage in E. apply app_inv_head in E. rewrite !(app_assoc (u64_be (Z.of_nat _))) in E.
  apply (put_bytes_inj (ts_market_id s1) (ts_market_id s2)) in E as [? E]; [|unfold u64_max; lia..].
  apply u64_app_inj in E as [? E]; [|done..].
  repeat (apply digest_app_inj in E as [? E]). apply digest_eq in E. by split_and!.
Qed.

(** A challenge concerns the claimed input.  If a finalized claim was
    accepted for a statement and a challenge proof verifies in the claim's
    context, then the challenge statement has the same market, sequence,
    certificate, eligibility evidence, before-roots and program as the claimed
    one and carries a quorum of signatures, or a hash collision is exhibited:
    a challenge can only contradict outputs, never another execution. *)
Theorem challenge_same_input v claim st fin raw root :
  from_canonical claim st v = Ok fin →
  challenge_verify v (cl_context claim) raw = Ok root →
  (∀ p, json_parse_proof raw = Some p → statement_typed (tp_statement p)) → statement_typed st →
  ∃ p, json_parse_proof raw = Some p ∧ root = statement_digest (tp_statement p)
    ∧ transition_verify p (cv_keys v) (cv_policy v) = Ok ()
    ∧ (same_input (tp_statement p) st ∨ collision (input_preimage (tp_statement p)) (input_preimage st)).
Proof.
  intros (? & Hf%fail_if_Ok & _)%bind_Ok. unfold challenge_verify.
  intros (? & _ & (p & Hp%ok_or_Ok & (? & Hc%fail_if_Ok & ([] & Hv%map_err_Ok & [= <-])%bind_Ok)%bind_Ok)%bind_Ok)%bind_Ok Ht Hst.
  bool_hyps. exists p. split_and!; [done..|]. apply input_root_binding; [by apply Ht|done|congruence].
Qed.

End challenges.
