(* ===== verification/Reservations.v ===== *)
(** * Reservations

    The reservation half of [oclob-settlement/src/lib.rs]: the order view the
    settlement crate reads, reservation records, the canonical reservation
    book with its capacities and identity bindings, the consumption of fills,
    the two ways of reconciling an arriving order, and the reservation root.
    Ristretto points and Pedersen commitments come from other crates and are
    the parameters of [Points]. *)

From S2P Require Import Prelude BTree Bytes AppCrypto Orders Matching Book.
Open Scope string_scope.
Open Scope list_scope.
Open Scope Z_scope.

(** [curve25519_dalek] points and scalars with [zkfmi_zk]'s Pedersen key. *)
Class Points := {
  RistrettoPoint : Type;
  Scalar : Type;
  point_eq_dec :: EqDecision RistrettoPoint;
  point_identity : RistrettoPoint;
  point_add : RistrettoPoint → RistrettoPoint → RistrettoPoint;
  point_sub : RistrettoPoint → RistrettoPoint → RistrettoPoint;
  compress : RistrettoPoint → Digest32;
  commit_u64 : Z → Scalar → RistrettoPoint
}.

(** The source's errors ([Proof] is [ProofFailure] here), and [Panic] for an
    [expect] that would abort. *)
Inductive SettlementError :=
| InvalidFill
| Cryptography (reason : string)
| ProofFailure (reason : string)
| ReplayAccepted
| Insolvent
| CanonicalDivergence
| Finality (reason : string)
| Reservation (reason : string)
| Panic (reason : string).

#[export] Instance settlement_error_eq_dec : EqDecision SettlementError.
Proof. solve_decision. Defined.

Class SettlementOrderView (O : Type) := {
  settlement_market_id : O → bytes;
  settlement_side : O → Side;
  settlement_limit_price : O → Z;
  settlement_quantity : O → Z;
  settlement_time_in_force : O → TimeInForce;
  settlement_expires_at : O → Z;
  settlement_participant_handle : O → Digest32;
  settlement_dekyx_nullifier : O → Digest32;
  settlement_reservation_id : O → Digest32;
  settlement_reservation_limit : O → Z;
  settlement_max_fee : O → Z;
  settlement_commitment : O → OrderCommitment
}.

#[export] Instance secret_order_view `{Crypto} : SettlementOrderView SecretOrder := {|
  settlement_market_id := o_market_id;
  settlement_side := o_side;
  settlement_limit_price := o_limit_price;
  settlement_quantity := o_quantity;
  settlement_time_in_force := o_time_in_force;
  settlement_expires_at := o_expires_at;
  settlement_participant_handle := o_participant_handle;
  settlement_dekyx_nullifier := o_dekyx_nullifier;
  settlement_reservation_id := o_reservation_id;
  settlement_reservation_limit := o_reservation_limit;
  settlement_max_fee := o_max_fee;
  settlement_commitment := commitment
|}.

(** [VerifiedSettlementCapability]: the opened order, the public VSS manifest
    commitment it travels under, and its eligibility evidence. *)
Record VerifiedSettlementCapability := mk_capability {
  vc_order : SecretOrder;
  vc_order_commitment : OrderCommitment;
  vc_eligibility_commitment : Digest32;
  vc_eligibility_evidence : bytes
}.

#[export] Instance capability_view : SettlementOrderView VerifiedSettlementCapability := {|
  settlement_market_id c := o_market_id (vc_order c);
  settlement_side c := o_side (vc_order c);
  settlement_limit_price c := o_limit_price (vc_order c);
  settlement_quantity c := o_quantity (vc_order c);
  settlement_time_in_force c := o_time_in_force (vc_order c);
  settlement_expires_at c := o_expires_at (vc_order c);
  settlement_participant_handle c := o_participant_handle (vc_order c);
  settlement_dekyx_nullifier c := o_dekyx_nullifier (vc_order c);
  settlement_reservation_id c := o_reservation_id (vc_order c);
  settlement_reservation_limit c := o_reservation_limit (vc_order c);
  settlement_max_fee c := o_max_fee (vc_order c);
  settlement_commitment := vc_order_commitment
|}.

Inductive ReservationKind := Cash | Securities.
Inductive ReservationStatus := Active | Consumed | Released.

#[export] Instance reservation_kind_eq_dec : EqDecision ReservationKind.
Proof. solve_decision. Defined.
#[export] Instance reservation_status_eq_dec : EqDecision ReservationStatus.
Proof. solve_decision. Defined.

Definition reservation_kind_tag (k : ReservationKind) : Z :=
  match k with Cash => 1 | Securities => 2 end.
Definition time_in_force_tag (t : TimeInForce) : Z :=
  match t with GoodTilCancelled => 1 | ImmediateOrCancel => 2 end.
Definition reservation_status_tag (s : ReservationStatus) : Z :=
  match s with Active => 1 | Consumed => 2 | Released => 3 end.

Definition kind_of_side (s : Side) : ReservationKind :=
  match s with Buy => Cash | Sell => Securities end.

Record ReservationReceipt := mk_reservation_receipt {
  rr_reservation_id : Digest32;
  rr_order_commitment : Digest32;
  rr_kind : ReservationKind;
  rr_reserved : Z;
  rr_state_root : Digest32;
  rr_canonical_receipt_digest : Digest32;
  rr_canonical_height : Z;
  rr_zkpi_digest : option Digest32;
  rr_instruction_nullifier : option Digest32;
  rr_proof_digest : option Digest32;
  rr_avalanche_transaction_id : option bytes;
  rr_avalanche_block_id : option bytes
}.

(** [try_fold(0_u64, |total, x| total.checked_add(x))]. *)
Definition checked_sum (l : list Z) : option Z :=
  foldl (λ total x, t ← total; checked_add t x) (Some 0) l.

Section reservations.
Context `{Points}.

Record ReservationRecord := mk_record {
  rec_reservation_id : Digest32;
  rec_order_commitment : Digest32;
  rec_participant_handle : Digest32;
  rec_entity_nullifier : Digest32;
  rec_market_id : bytes;
  rec_kind : ReservationKind;
  rec_limit_price : Z;
  rec_time_in_force : TimeInForce;
  rec_original_quantity : Z;
  rec_remaining_quantity : Z;
  rec_max_fee : Z;
  rec_expires_at : Z;
  rec_reserved : Z;
  rec_remaining : Z;
  rec_reserve_commitment : RistrettoPoint;
  rec_status : ReservationStatus
}.

(** Assignment to the mutable fields of a record. *)
Definition rec_update (r : ReservationRecord) (remaining_quantity remaining : Z)
    (status : ReservationStatus) : ReservationRecord := {|
  rec_reservation_id := rec_reservation_id r;
  rec_order_commitment := rec_order_commitment r;
  rec_participant_handle := rec_participant_handle r;
  rec_entity_nullifier := rec_entity_nullifier r;
  rec_market_id := rec_market_id r;
  rec_kind := rec_kind r;
  rec_limit_price := rec_limit_price r;
  rec_time_in_force := rec_time_in_force r;
  rec_original_quantity := rec_original_quantity r;
  rec_remaining_quantity := remaining_quantity;
  rec_max_fee := rec_max_fee r;
  rec_expires_at := rec_expires_at r;
  rec_reserved := rec_reserved r;
  rec_remaining := remaining;
  rec_reserve_commitment := rec_reserve_commitment r;
  rec_status := status
|}.

Definition rec_commit (r : ReservationRecord) (c : RistrettoPoint) : ReservationRecord := {|
  rec_reservation_id := rec_reservation_id r;
  rec_order_commitment := rec_order_commitment r;
  rec_participant_handle := rec_participant_handle r;
  rec_entity_nullifier := rec_entity_nullifier r;
  rec_market_id := rec_market_id r;
  rec_kind := rec_kind r;
  rec_limit_price := rec_limit_price r;
  rec_time_in_force := rec_time_in_force r;
  rec_original_quantity := rec_original_quantity r;
  rec_remaining_quantity := rec_remaining_quantity r;
  rec_max_fee := rec_max_fee r;
  rec_expires_at := rec_expires_at r;
  rec_reserved := rec_reserved r;
  rec_remaining := rec_remaining r;
  rec_reserve_commitment := c;
  rec_status := rec_status r
|}.

Record ReservationBook := mk_reservations {
  rb_capacities : btree (Digest32 * Z) Z;
  rb_participant_entities : btree Digest32 Digest32;
  rb_entity_participants : btree Digest32 Digest32;
  rb_records : btree Digest32 ReservationRecord
}.

Definition reservations_default : ReservationBook := mk_reservations [] [] [] [].

Definition set_records (m : btree Digest32 ReservationRecord) (b : ReservationBook) :
    ReservationBook := {|
  rb_capacities := rb_capacities b;
  rb_participant_entities := rb_participant_entities b;
  rb_entity_participants := rb_entity_participants b;
  rb_records := m
|}.

Definition set_capacity (entity : Digest32) (cash securities : Z) (b : ReservationBook) :
    ReservationBook := {|
  rb_capacities := bt_insert (entity, 2) securities (bt_insert (entity, 1) cash (rb_capacities b));
  rb_participant_entities := rb_participant_entities b;
  rb_entity_participants := rb_entity_participants b;
  rb_records := rb_records b
|}.

(** [.get(&k).is_some_and(|existing| existing != &v)]. *)
Definition bound_elsewhere (k v : Digest32) (m : btree Digest32 Digest32) : bool :=
  match bt_get k m with Some existing => negb (bool_decide (existing = v)) | None => false end.

Definition bind_participant (participant entity : Digest32) (cash securities : Z) :
    method ReservationBook SettlementError () :=
  b ← self;
  _ ← try (fail_if (is_zero participant || is_zero entity)
    (Reservation "participant and DeKYX entity identifiers are required"));
  _ ← try (fail_if (bound_elsewhere participant entity (rb_participant_entities b)
      || bound_elsewhere entity participant (rb_entity_participants b))
    (Reservation "one participant handle and one DeKYX entity must remain one-to-one"));
  set_self (set_capacity entity cash securities {|
    rb_capacities := rb_capacities b;
    rb_participant_entities := bt_insert participant entity (rb_participant_entities b);
    rb_entity_participants := bt_insert entity participant (rb_entity_participants b);
    rb_records := rb_records b |}).

Definition refresh_capacity (participant : Digest32) (cash securities : Z) :
    method ReservationBook SettlementError () :=
  b ← self;
  entity ← try (ok_or (bt_get participant (rb_participant_entities b))
    (Reservation "participant has no DeKYX binding"));
  set_self (set_capacity entity cash securities b).

Definition is_active (r : ReservationRecord) : bool := bool_decide (rec_status r = Active).

Definition reserved_for (b : ReservationBook) (participant : Digest32) (kind : ReservationKind) :
    result SettlementError Z :=
  ok_or (checked_sum (map rec_remaining (filter (λ r,
      bool_decide (rec_participant_handle r = participant)
      && bool_decide (rec_kind r = kind) && is_active r) (bt_values (rb_records b)))))
    (Reservation "reservation sum overflowed").

Definition record_id_for (b : ReservationBook) (commitment : Digest32) : option Digest32 :=
  rec_reservation_id <$> head (filter (λ r,
    bool_decide (rec_order_commitment r = commitment)) (bt_values (rb_records b))).

Definition record_bytes (r : ReservationRecord) : bytes :=
  d_bytes (rec_reservation_id r) ++ d_bytes (rec_order_commitment r)
  ++ d_bytes (rec_participant_handle r) ++ d_bytes (rec_entity_nullifier r)
  ++ put_bytes (rec_market_id r)
  ++ [byte_of (reservation_kind_tag (rec_kind r))] ++ u64_be (rec_limit_price r)
  ++ [byte_of (time_in_force_tag (rec_time_in_force r))]
  ++ u64_be (rec_original_quantity r) ++ u64_be (rec_remaining_quantity r)
  ++ u64_be (rec_max_fee r) ++ u64_be (rec_expires_at r)
  ++ u64_be (rec_reserved r) ++ u64_be (rec_remaining r)
  ++ d_bytes (compress (rec_reserve_commitment r))
  ++ [byte_of (reservation_status_tag (rec_status r))].

Definition reservation_root `{Crypto} (b : ReservationBook) : Digest32 :=
  sha256 (ascii_bytes "OCLOB:DEFMI-RESERVATIONS:v3"
    ++ concat (map (λ '((entity, kind), capacity),
         d_bytes entity ++ [byte_of kind] ++ u64_be capacity) (rb_capacities b))
    ++ concat (map (λ '(participant, entity),
         d_bytes participant ++ d_bytes entity) (rb_participant_entities b))
    ++ concat (map record_bytes (bt_values (rb_records b)))).

Definition new_record {O} `{SettlementOrderView O} (order : O) (c : RistrettoPoint) :
    ReservationRecord := {|
  rec_reservation_id := settlement_reservation_id order;
  rec_order_commitment := settlement_commitment order;
  rec_participant_handle := settlement_participant_handle order;
  rec_entity_nullifier := settlement_dekyx_nullifier order;
  rec_market_id := settlement_market_id order;
  rec_kind := kind_of_side (settlement_side order);
  rec_limit_price := settlement_limit_price order;
  rec_time_in_force := settlement_time_in_force order;
  rec_original_quantity := settlement_quantity order;
  rec_remaining_quantity := settlement_quantity order;
  rec_max_fee := settlement_max_fee order;
  rec_expires_at := settlement_expires_at order;
  rec_reserved := settlement_reservation_limit order;
  rec_remaining := settlement_reservation_limit order;
  rec_reserve_commitment := c;
  rec_status := Active
|}.

(** What an entity's active reservations of one kind hold, as the filter of
    [reserve] selects them. *)
Definition in_use (b : ReservationBook) (entity : Digest32) (kind : ReservationKind) : list Z :=
  map rec_remaining (filter (λ r,
      bool_decide (rec_entity_nullifier r = entity)
      && bool_decide (rec_kind r = kind) && is_active r) (bt_values (rb_records b))).

Definition reserve `{Crypto} {O} `{SettlementOrderView O} (order : O) (c : RistrettoPoint) :
    method ReservationBook SettlementError ReservationReceipt :=
  b ← self;
  _ ← try (fail_if (bool_decide (c = point_identity))
    (Reservation "reservation commitment is the identity point"));
  _ ← try (fail_if (negb (bool_decide
        (bt_get (settlement_participant_handle order) (rb_participant_entities b)
          = Some (settlement_dekyx_nullifier order))))
    (Reservation "order participant is not bound to the presented DeKYX entity"));
  let id := settlement_reservation_id order in
  _ ← try (fail_if (bt_contains id (rb_records b)
      || existsb (λ r, bool_decide (rec_order_commitment r = settlement_commitment order))
           (bt_values (rb_records b)))
    (Reservation "reservation id or order commitment was already used"));
  let kind := kind_of_side (settlement_side order) in
  capacity ← try (ok_or
    (bt_get (settlement_dekyx_nullifier order, reservation_kind_tag kind) (rb_capacities b))
    (Reservation "entity has no canonical capacity"));
  used ← try (ok_or (checked_sum (in_use b (settlement_dekyx_nullifier order) kind))
    (Reservation "reservation sum overflowed"));
  _ ← try (fail_if (match checked_add used (settlement_reservation_limit order) with
                    | Some total => capacity <? total
                    | None => true
                    end)
    (Reservation "the entity-wide cash, inventory, or guarantee capacity is exceeded"));
  let b' := set_records (bt_insert id (new_record order c) (rb_records b)) b in
  _ ← set_self b';
  mret {| rr_reservation_id := id;
          rr_order_commitment := settlement_commitment order;
          rr_kind := kind;
          rr_reserved := settlement_reservation_limit order;
          rr_state_root := reservation_root b';
          rr_canonical_receipt_digest := zero_digest;
          rr_canonical_height := 0;
          rr_zkpi_digest := None;
          rr_instruction_nullifier := None;
          rr_proof_digest := None;
          rr_avalanche_transaction_id := None;
          rr_avalanche_block_id := None |}.

Definition validate_active_order {O} `{SettlementOrderView O} (b : ReservationBook) (order : O) :
    result SettlementError () :=
  record_id ← ok_or (record_id_for b (settlement_commitment order))
    (Reservation "reservation is absent");
  r ← ok_or (bt_get record_id (rb_records b)) (Reservation "reservation is absent");
  fail_if (negb (bool_decide (rec_reservation_id r = settlement_reservation_id order))
      || negb (bool_decide (rec_order_commitment r = settlement_commitment order))
      || negb (bool_decide (rec_participant_handle r = settlement_participant_handle order))
      || negb (bool_decide (rec_entity_nullifier r = settlement_dekyx_nullifier order))
      || negb (bool_decide (rec_market_id r = settlement_market_id order))
      || negb (bool_decide (rec_kind r = kind_of_side (settlement_side order)))
      || negb (rec_limit_price r =? settlement_limit_price order)
      || negb (bool_decide (rec_time_in_force r = settlement_time_in_force order))
      || negb (rec_original_quantity r =? settlement_quantity order)
      || negb (rec_remaining_quantity r =? settlement_quantity order)
      || negb (rec_max_fee r =? settlement_max_fee order)
      || negb (rec_expires_at r =? settlement_expires_at order)
      || negb (rec_reserved r =? settlement_reservation_limit order)
      || negb (rec_remaining r =? settlement_reservation_limit order)
      || negb (is_active r))
    (Reservation "reservation candidate does not match the admitted order").

(** What the rest of an order needs: nothing, the worst cash cost with the
    fee, or the inventory; [None] when the cash cost overflows [u64]. *)
Definition required_for (kind : ReservationKind) (limit_price max_fee remaining_quantity : Z) :
    option Z :=
  match kind with
  | Cash => v ← checked_mul limit_price remaining_quantity; checked_add v max_fee
  | Securities => Some remaining_quantity
  end.

Definition consume_record (r : ReservationRecord) (spent filled_quantity : Z) :
    result SettlementError ReservationRecord :=
  remaining_after_spend ← ok_or (checked_sub (rec_remaining r) spent)
    (Reservation "reservation cannot cover the fill");
  remaining_quantity ← ok_or (checked_sub (rec_remaining_quantity r) filled_quantity)
    (Reservation "fill exceeds the order remainder");
  required ← ok_or (if remaining_quantity =? 0 then Some 0
                    else required_for (rec_kind r) (rec_limit_price r) (rec_max_fee r)
                           remaining_quantity)
    (Reservation "remaining cash reservation overflowed");
  _ ← fail_if (remaining_after_spend <? required)
    (Reservation "reservation no longer covers the committed order remainder");
  Ok (rec_update r remaining_quantity required
        (if remaining_quantity =? 0 then Consumed else Active)).

Record ConsumedFill := mk_consumed {
  cf_maker_reservation_id : Digest32;
  cf_taker_reservation_id : Digest32;
  cf_maker_kind : ReservationKind;
  cf_maker_reserve_commitment : RistrettoPoint;
  cf_taker_reserve_commitment : RistrettoPoint;
  cf_maker_remaining : Z;
  cf_taker_remaining : Z;
  cf_seller_handle : Digest32;
  cf_buyer_handle : Digest32
}.

Definition respects_limit (price : Z) (r : ReservationRecord) : bool :=
  match rec_kind r with
  | Cash => price <=? rec_limit_price r
  | Securities => rec_limit_price r <=? price
  end.

Definition spent_by (kind : ReservationKind) (cash quantity : Z) : Z :=
  match kind with Cash => cash | Securities => quantity end.

(** The mutation of one looked-up record, [consume_record(get_mut(&id)?)]. *)
Definition consume_at (id : Digest32) (spent quantity : Z) :
    method ReservationBook SettlementError ReservationRecord :=
  b ← self;
  r ← try (ok_or (bt_get id (rb_records b)) (Panic "looked up"));
  r' ← try (consume_record r spent quantity);
  _ ← set_self (set_records (bt_insert id r' (rb_records b)) b);
  mret r'.

Definition consume_fill (fill : PublicFill) (market_id : bytes) (now : Z) :
    method ReservationBook SettlementError ConsumedFill :=
  b ← self;
  cash ← try (ok_or (checked_mul (f_price fill) (f_quantity fill))
    (Reservation "cash fill overflowed"));
  maker_id ← try (ok_or (record_id_for b (f_maker_order fill))
    (Reservation "maker reservation is absent"));
  taker_id ← try (ok_or (record_id_for b (f_taker_order fill))
    (Reservation "taker reservation is absent"));
  _ ← try (fail_if (bool_decide (maker_id = taker_id))
    (Reservation "maker and taker cannot consume the same reservation"));
  maker ← try (ok_or (bt_get maker_id (rb_records b)) (Panic "looked up maker"));
  taker ← try (ok_or (bt_get taker_id (rb_records b)) (Panic "looked up taker"));
  _ ← try (fail_if (bool_decide (rec_kind maker = rec_kind taker))
    (Reservation "a fill must join one cash reservation and one inventory reservation"));
  _ ← try (fail_if (negb (bool_decide (rec_market_id maker = market_id))
      || negb (bool_decide (rec_market_id taker = market_id)))
    (Reservation "a fill cannot cross reservations from another market"));
  _ ← try (fail_if ((rec_expires_at maker <? now) || (rec_expires_at taker <? now))
    (Reservation "an expired reservation cannot be filled"));
  _ ← try (fail_if ((rec_remaining_quantity maker <? f_quantity fill)
      || (rec_remaining_quantity taker <? f_quantity fill))
    (Reservation "fill quantity exceeds an order remainder"));
  _ ← try (fail_if (negb (forallb (respects_limit (f_price fill)) [maker; taker]))
    (Reservation "fill price violates a committed order limit"));
  let maker_required := spent_by (rec_kind maker) cash (f_quantity fill) in
  let taker_required := spent_by (rec_kind taker) cash (f_quantity fill) in
  _ ← try (fail_if (negb (is_active maker) || (rec_remaining maker <? maker_required))
    (Reservation "maker reservation cannot cover the fill"));
  _ ← try (fail_if (negb (is_active taker) || (rec_remaining taker <? taker_required))
    (Reservation "taker reservation cannot cover the fill"));
  let '(seller_handle, buyer_handle) :=
    match rec_kind maker with
    | Securities => (rec_participant_handle maker, rec_participant_handle taker)
    | Cash => (rec_participant_handle taker, rec_participant_handle maker)
    end in
  maker' ← consume_at maker_id maker_required (f_quantity fill);
  taker' ← consume_at taker_id taker_required (f_quantity fill);
  mret {| cf_maker_reservation_id := maker_id;
          cf_taker_reservation_id := taker_id;
          cf_maker_kind := rec_kind maker;
          cf_maker_reserve_commitment := rec_reserve_commitment maker;
          cf_taker_reserve_commitment := rec_reserve_commitment taker;
          cf_maker_remaining := rec_remaining maker';
          cf_taker_remaining := rec_remaining taker';
          cf_seller_handle := seller_handle;
          cf_buyer_handle := buyer_handle |}.

(** [get_mut(&id)] followed by an assignment to [reserve_commitment]. *)
Definition commit_at (id : Digest32) (c : RistrettoPoint) (e : SettlementError) :
    method ReservationBook SettlementError () :=
  b ← self;
  r ← try (ok_or (bt_get id (rb_records b)) e);
  set_self (set_records (bt_insert id (rec_commit r c) (rb_records b)) b).

Definition apply_collaborative_remainders (consumed : ConsumedFill)
    (securities_remainder cash_remainder maker_pool_remainder : RistrettoPoint) :
    method ReservationBook SettlementError () :=
  let '(maker_remainder, taker_remainder) :=
    match cf_maker_kind consumed with
    | Securities => (maker_pool_remainder, cash_remainder)
    | Cash => (maker_pool_remainder, securities_remainder)
    end in
  _ ← commit_at (cf_maker_reservation_id consumed) maker_remainder
        (Reservation "maker reservation disappeared");
  commit_at (cf_taker_reservation_id consumed) taker_remainder
        (Reservation "taker reservation disappeared").

Definition reconcile_arriving {O} `{SettlementOrderView O} (order : O) (remaining_quantity : Z) :
    method ReservationBook SettlementError Z :=
  b ← self;
  id ← try (ok_or (record_id_for b (settlement_commitment order))
    (Reservation "taker reservation is absent"));
  required ← try (ok_or
    (if (remaining_quantity =? 0)
        || bool_decide (settlement_time_in_force order = ImmediateOrCancel) then Some 0
     else required_for (kind_of_side (settlement_side order)) (settlement_limit_price order)
            (settlement_max_fee order) remaining_quantity)
    (Reservation "remaining cash reservation overflowed"));
  r ← try (ok_or (bt_get id (rb_records b)) (Panic "looked up reservation"));
  _ ← try (fail_if (negb (remaining_quantity =? rec_remaining_quantity r))
    (Reservation "reported arriving remainder differs from consumed fills"));
  _ ← try (fail_if (rec_remaining r <? required)
    (Reservation "remaining order is not covered by its reservation"));
  let unused := saturating_sub (rec_remaining r) required in
  let r' := rec_update r (if 0 <? required then remaining_quantity else 0) required
    (if 0 <? required then Active else if 0 <? unused then Released else Consumed) in
  _ ← set_self (set_records (bt_insert id r' (rb_records b)) b);
  mret required.

Definition reconcile_arriving_collaborative (order_commitment : Digest32)
    (remaining_quantity : Z) : method ReservationBook SettlementError Z :=
  b ← self;
  id ← try (ok_or (record_id_for b order_commitment)
    (Reservation "taker reservation is absent"));
  r ← try (ok_or (bt_get id (rb_records b)) (Panic "looked up reservation"));
  _ ← try (fail_if (negb (remaining_quantity =? rec_remaining_quantity r))
    (Reservation "reported arriving remainder differs from consumed fills"));
  if (remaining_quantity =? 0)
     || bool_decide (rec_time_in_force r = ImmediateOrCancel) then
    let r' := rec_update r 0 0 (if remaining_quantity =? 0 then Consumed else Released) in
    _ ← set_self (set_records (bt_insert id r' (rb_records b)) b);
    mret 0
  else
    let r' := rec_update r (rec_remaining_quantity r) (rec_remaining r) Active in
    _ ← set_self (set_records (bt_insert id r' (rb_records b)) b);
    mret (rec_remaining r).

Definition release_order (commitment : Digest32) : method ReservationBook SettlementError () :=
  b ← self;
  id ← try (ok_or (record_id_for b commitment) (Reservation "reservation is absent"));
  r ← try (ok_or (bt_get id (rb_records b)) (Panic "looked up reservation"));
  _ ← try (fail_if (negb (is_active r)) (Reservation "reservation is already terminal"));
  set_self (set_records (bt_insert id (rec_update r 0 0 Released) (rb_records b)) b).

End reservations.
