(* ===== verification/ReservationInv.v ===== *)
(** * Reservations: invariant and exactness

    The representation invariant of the reservation book ([res_ok]), the
    amount an account's active reservations hold ([held_sum]), what every
    operation of [Reservations] does on success and on failure, and the
    preservation of the invariant by all of them. *)

From S2P Require Import Prelude BTree Bytes AppCrypto Orders Matching Book Reservations.
Open Scope list_scope.
Open Scope Z_scope.

Section invariant.
Context `{Points}.
Implicit Types (r : ReservationRecord) (b : ReservationBook).

(** An active record covers the rest of its order at the committed limit;
    a terminal one holds nothing. *)
Definition covers (kind : ReservationKind) (limit fee quantity remaining : Z) : Prop :=
  match kind with
  | Cash => limit * quantity + fee ≤ remaining
  | Securities => quantity ≤ remaining
  end.

Definition record_ok r : Prop :=
  0 < rec_limit_price r ∧ 0 ≤ rec_max_fee r
  ∧ 0 ≤ rec_remaining_quantity r ≤ rec_original_quantity r
  ∧ rec_original_quantity r ≤ u64_max
  ∧ 0 ≤ rec_remaining r ≤ rec_reserved r ∧ rec_reserved r ≤ u64_max
  ∧ match rec_status r with
    | Active => 0 < rec_remaining_quantity r
        ∧ covers (rec_kind r) (rec_limit_price r) (rec_max_fee r)
            (rec_remaining_quantity r) (rec_remaining r)
    | _ => rec_remaining_quantity r = 0 ∧ rec_remaining r = 0
    end.

Record res_ok b : Prop := {
  res_caps_ok : bt_ok (rb_capacities b);
  res_pe_ok : bt_ok (rb_participant_entities b);
  res_ep_ok : bt_ok (rb_entity_participants b);
  res_rec_ok : bt_ok (rb_records b);
  res_one_to_one : ∀ p e, bt_get p (rb_participant_entities b) = Some e
                          ↔ bt_get e (rb_entity_participants b) = Some p;
  res_keyed : ∀ id r, bt_get id (rb_records b) = Some r → rec_reservation_id r = id;
  res_commit_inj : ∀ id1 id2 r1 r2, bt_get id1 (rb_records b) = Some r1 →
    bt_get id2 (rb_records b) = Some r2 →
    rec_order_commitment r1 = rec_order_commitment r2 → id1 = id2;
  res_bound : ∀ id r, bt_get id (rb_records b) = Some r →
    bt_get (rec_participant_handle r) (rb_participant_entities b) = Some (rec_entity_nullifier r);
  res_records : ∀ id r, bt_get id (rb_records b) = Some r → record_ok r
}.

(** What a record holds of an account's rail while it is active. *)
Definition held (p : Digest32) (k : ReservationKind) r : Z :=
  if bool_decide (rec_participant_handle r = p) && bool_decide (rec_kind r = k) && is_active r
  then rec_remaining r else 0.

Definition held_sum b (p : Digest32) (k : ReservationKind) : Z :=
  sumZ (map (held p k) (bt_values (rb_records b))).

(** The fields of a record no operation changes. *)
Definition same_terms r r' : Prop :=
  rec_reservation_id r' = rec_reservation_id r
  ∧ rec_order_commitment r' = rec_order_commitment r
  ∧ rec_participant_handle r' = rec_participant_handle r
  ∧ rec_entity_nullifier r' = rec_entity_nullifier r
  ∧ rec_market_id r' = rec_market_id r ∧ rec_kind r' = rec_kind r
  ∧ rec_limit_price r' = rec_limit_price r
  ∧ rec_time_in_force r' = rec_time_in_force r
  ∧ rec_original_quantity r' = rec_original_quantity r
  ∧ rec_max_fee r' = rec_max_fee r ∧ rec_expires_at r' = rec_expires_at r
  ∧ rec_reserved r' = rec_reserved r.

(** The record of an order commitment. *)
Definition record_of b (c : Digest32) : option ReservationRecord :=
  id ← record_id_for b c; bt_get id (rb_records b).

(** ** Looking records up *)

Lemma head_filter_Some {A} (f : A → bool) l x :
  head (filter (λ y, f y) l) = Some x → x ∈ l ∧ f x = true.
Proof.
  induction l as [|y l IH]; simpl; [done|]. rewrite filter_cons. case_decide as E; simpl.
  - intros [= ->]. split; [left|]. by apply Is_true_true.
  - intros [??]%IH. split; [by right|done].
Qed.

Lemma head_filter_None {A} (f : A → bool) l x :
  head (filter (λ y, f y) l) = None → x ∈ l → f x = false.
Proof.
  induction l as [|y l IH]; simpl; [by intros _ ?%elem_of_nil|].
  rewrite filter_cons. case_decide as E; simpl; [done|]. intros Hn [->|?]%elem_of_cons; [|auto].
  by apply Is_true_false.
Qed.

Lemma record_id_for_Some b c id :
  res_ok b →
  record_id_for b c = Some id ↔
  ∃ r, bt_get id (rb_records b) = Some r ∧ rec_order_commitment r = c.
Proof.
  intros Hb. unfold record_id_for. rewrite fmap_Some. split.
  - intros (r & [Hin Hc]%head_filter_Some & ->). apply bool_decide_eq_true in Hc.
    apply bt_value_get in Hin as [id Hid]; [|by apply res_rec_ok].
    rewrite (res_keyed b Hb _ _ Hid). eauto.
  - intros (r & Hid & Hc).
    destruct (head _) as [r'|] eqn:E.
    + exists r'. split; [done|]. apply head_filter_Some in E as [Hin Hc'].
      apply bool_decide_eq_true in Hc'.
      apply bt_value_get in Hin as [id' Hid']; [|by apply res_rec_ok].
      rewrite (res_keyed b Hb _ _ Hid'). eapply (res_commit_inj b Hb); [done..|congruence].
    + assert (r ∈ bt_values (rb_records b)) as Hin
        by (apply bt_value_get; [by apply res_rec_ok|eauto]).
      pose proof (head_filter_None _ _ _ E Hin) as Hf.
      apply bool_decide_eq_false in Hf. done.
Qed.

Lemma record_of_Some b c r :
  res_ok b →
  record_of b c = Some r ↔ bt_get (rec_reservation_id r) (rb_records b) = Some r
                           ∧ rec_order_commitment r = c.
Proof.
  intros Hb. unfold record_of. rewrite bind_Some. setoid_rewrite record_id_for_Some; [|done].
  split.
  - intros (id & (r' & Hid & Hc) & Hid'). simplify_eq.
    by rewrite (res_keyed b Hb _ _ Hid).
  - intros [Hid Hc]. eauto.
Qed.

(** [record_id_for] followed by [get] never panics. *)
Lemma record_id_for_get b c id :
  res_ok b → record_id_for b c = Some id →
  ∃ r, bt_get id (rb_records b) = Some r ∧ record_of b c = Some r ∧ rec_reservation_id r = id
       ∧ rec_order_commitment r = c.
Proof.
  intros Hb Hid. pose proof Hid as (r & Hr & Hc)%record_id_for_Some; [|done].
  exists r. unfold record_of. rewrite Hid; simpl. rewrite Hr. split_and!; try done.
  by apply (res_keyed b Hb).
Qed.

(** ** Updating one record *)

Lemma get_insert (id id' : Digest32) r (m : btree Digest32 ReservationRecord) :
  bt_get id' (bt_insert id r m) = if decide (id = id') then Some r else bt_get id' m.
Proof.
  case_decide; [subst; apply bt_get_insert_eq|by apply bt_get_insert_ne].
Qed.

Lemma update_record_ok b id r r' :
  res_ok b → bt_get id (rb_records b) = Some r → same_terms r r' → record_ok r' →
  res_ok (set_records (bt_insert id r' (rb_records b)) b).
Proof.
  intros Hb Hid Hs Hr. destruct Hs as (Hs1 & Hs2 & Hs3 & Hs4 & _). destruct Hb. split; simpl; auto with oclob.
  - intros id' r0. rewrite get_insert. case_decide; [|eauto]. intros; simplify_eq.
    rewrite Hs1; eauto.
  - intros id1 id2 r1 r2. rewrite !get_insert. repeat case_decide; intros; simplify_eq; eauto.
    + symmetry. eapply res_commit_inj0; eauto. congruence.
    + eapply res_commit_inj0; eauto. congruence.
  - intros id' r0. rewrite get_insert. case_decide; [|eauto]. intros; simplify_eq.
    rewrite Hs3, Hs4; eauto.
  - intros id' r0. rewrite get_insert. case_decide; [|eauto]. intros; simplify_eq. done.
Qed.

Lemma update_held_sum b id r r' p k :
  res_ok b → bt_get id (rb_records b) = Some r →
  held_sum (set_records (bt_insert id r' (rb_records b)) b) p k
  = held_sum b p k - held p k r + held p k r'.
Proof. intros Hb Hid. apply bt_sum_update; [by apply res_rec_ok|done]. Qed.

Lemma record_of_update b id r r' c :
  res_ok b → bt_get id (rb_records b) = Some r → same_terms r r' → record_ok r' →
  record_of (set_records (bt_insert id r' (rb_records b)) b) c
  = if decide (rec_order_commitment r = c) then Some r' else record_of b c.
Proof.
  intros Hb Hid Hs Hr. pose proof (update_record_ok b id r r' Hb Hid Hs Hr) as Hb'.
  destruct Hs as (Hs1 & Hs2 & _). pose proof (res_keyed b Hb _ _ Hid) as Hk.
  apply option_eq. intros x. rewrite record_of_Some by done. simpl. rewrite get_insert.
  case_decide as E1; case_decide as E2; subst.
  - split; [naive_solver|]. intros [= ->]. split; [done|congruence].
  - rewrite record_of_Some by done. split.
    + intros [[= ->] <-]. congruence.
    + intros [Hx <-]. exfalso. rewrite <-E1 in Hx. rewrite Hid in Hx. naive_solver.
  - split.
    + intros [Hx Hc]. exfalso. apply E1.
      eapply (res_commit_inj b Hb); [exact Hid|exact Hx|done].
    + intros [= <-]. congruence.
  - by rewrite record_of_Some.
Qed.

Lemma held_nonneg p k r : record_ok r → 0 ≤ held p k r.
Proof. intros (_ & _ & _ & _ & ? & _). unfold held. case_match; lia. Qed.

Lemma held_sum_nonneg b p k : res_ok b → 0 ≤ held_sum b p k.
Proof.
  intros Hb. apply sumZ_nonneg, Forall_forall. intros x Hx.
  apply list_elem_of_In, in_map_iff in Hx as (r & <- & Hr).
  apply list_elem_of_In, bt_value_get in Hr as [id Hid]; [|by apply res_rec_ok].
  apply held_nonneg. by eapply res_records.
Qed.

Lemma held_le_sum b id r p k :
  res_ok b → bt_get id (rb_records b) = Some r → held p k r ≤ held_sum b p k.
Proof.
  intros Hb Hid. pose proof (res_rec_ok b Hb) as Hm.
  destruct (bt_get_split _ _ _ Hid) as (m1 & m2 & E).
  assert (∀ kv, kv ∈ m1 ++ m2 → 0 ≤ held p k kv.2) as Hnn.
  { intros [k' r'] Hin. apply held_nonneg, (res_records b Hb k').
    apply bt_elem_get; [done|]. rewrite E. set_solver. }
  unfold held_sum, bt_values. rewrite E, !map_app, sumZ_app; simpl.
  assert (∀ m : btree Digest32 ReservationRecord, (∀ kv, kv ∈ m → 0 ≤ held p k kv.2) →
    0 ≤ sumZ (map (held p k) (map snd m))) as Hs.
  { intros m Hp. apply sumZ_nonneg, Forall_forall. intros x Hx.
    rewrite map_map in Hx. apply list_elem_of_In, in_map_iff in Hx as (kv & <- & Hr).
    apply Hp. by apply list_elem_of_In. }
  assert (0 ≤ sumZ (map (held p k) (map snd m1))) by (apply Hs; set_solver).
  assert (0 ≤ sumZ (map (held p k) (map snd m2))) by (apply Hs; set_solver).
  lia.
Qed.

(** ** Consuming a fill *)

(** The record a fill of [quantity] leaves behind: exactly the cover of the
    rest of the order, or a consumed record. *)
Definition after_fill r (quantity : Z) : ReservationRecord :=
  let rest := rec_remaining_quantity r - quantity in
  rec_update r rest
    (if rest =? 0 then 0 else
     match rec_kind r with
     | Cash => rec_limit_price r * rest + rec_max_fee r
     | Securities => rest
     end)
    (if rest =? 0 then Consumed else Active).

Lemma required_for_covered r quantity :
  record_ok r → is_active r = true → 0 ≤ quantity ≤ rec_remaining_quantity r →
  required_for (rec_kind r) (rec_limit_price r) (rec_max_fee r) quantity
  = Some (match rec_kind r with
          | Cash => rec_limit_price r * quantity + rec_max_fee r
          | Securities => quantity
          end).
Proof.
  intros (Hp & Hf & Hq & Ho & Hr & Hu & Hs) Ha Hle. unfold is_active in Ha. bool_hyps.
  rewrite Ha in Hs. destruct Hs as [Hpos Hc].
  unfold required_for, covers in *. destruct (rec_kind r); [|done].
  assert (rec_limit_price r * quantity ≤ rec_limit_price r * rec_remaining_quantity r) by nia.
  unfold checked_mul, checked_add. rewrite (proj2 (Z.leb_le _ _)) by lia. simpl.
  rewrite (proj2 (Z.leb_le _ _)) by lia. done.
Qed.

Lemma consume_record_exact r price quantity :
  record_ok r → is_active r = true → respects_limit price r = true →
  0 < price → 0 < quantity ≤ rec_remaining_quantity r →
  let spent := spent_by (rec_kind r) (price * quantity) quantity in
  spent ≤ rec_remaining r
  ∧ consume_record r spent quantity = Ok (after_fill r quantity)
  ∧ record_ok (after_fill r quantity) ∧ same_terms r (after_fill r quantity)
  ∧ rec_remaining (after_fill r quantity) ≤ rec_remaining r - spent.
Proof.
  intros Hok Ha Hl Hprice Hq spent.
  pose proof (required_for_covered r (rec_remaining_quantity r - quantity) Hok Ha
    ltac:(lia)) as Hreq.
  destruct Hok as (Hp & Hf & Hrq & Ho & Hr & Hu & Hs).
  unfold is_active in Ha. bool_hyps. rewrite Ha in Hs. destruct Hs as [Hpos Hc].
  assert (spent ≤ rec_remaining r ∧
    (rec_remaining_quantity r - quantity ≠ 0 →
     match rec_kind r with
     | Cash => rec_limit_price r * (rec_remaining_quantity r - quantity) + rec_max_fee r
     | Securities => rec_remaining_quantity r - quantity
     end ≤ rec_remaining r - spent)) as [Hspent Hcov].
  { unfold spent, spent_by, covers, respects_limit in *.
    destruct (rec_kind r); bool_hyps; split; nia. }
  assert (consume_record r spent quantity = Ok (after_fill r quantity)) as Hc'.
  { unfold consume_record, checked_sub, after_fill.
    rewrite !(proj2 (Z.leb_le _ _)) by lia. simpl.
    destruct (_ =? 0) eqn:E0; simpl; bool_hyps.
    - rewrite (proj2 (Z.ltb_ge _ _)) by lia. done.
    - rewrite Hreq; simpl. rewrite (proj2 (Z.ltb_ge _ _)) by auto. done. }
  split_and!; [done..| | |].
  - unfold after_fill, record_ok, rec_update, covers; simpl.
    destruct (_ =? 0) eqn:E0; bool_hyps.
    + rewrite E0. split_and!; simpl; lia.
    + specialize (Hcov E0). assert (0 ≤ spent) by (unfold spent, spent_by; case_match; nia).
      split_and!; try lia; destruct (rec_kind r); nia.
  - by unfold same_terms.
  - unfold after_fill; simpl. destruct (_ =? 0) eqn:E0; bool_hyps; [lia|auto].
Qed.

(** When a fill may consume two reservations. *)
Definition fillable (fill : PublicFill) (market_id : bytes) (now : Z) (maker taker : ReservationRecord) :
    Prop :=
  f_price fill * f_quantity fill ≤ u64_max
  ∧ f_maker_order fill ≠ f_taker_order fill
  ∧ rec_kind maker ≠ rec_kind taker
  ∧ (rec_market_id maker = market_id ∧ rec_market_id taker = market_id)
  ∧ (now ≤ rec_expires_at maker ∧ now ≤ rec_expires_at taker)
  ∧ (f_quantity fill ≤ rec_remaining_quantity maker ∧ f_quantity fill ≤ rec_remaining_quantity taker)
  ∧ (respects_limit (f_price fill) maker = true ∧ respects_limit (f_price fill) taker = true)
  ∧ (rec_status maker = Active ∧ rec_status taker = Active).

(** The book and the answer of a fill that is allowed. *)
Definition filled_book b (maker taker : ReservationRecord) (q : Z) : ReservationBook :=
  set_records (bt_insert (rec_reservation_id taker) (after_fill taker q)
    (bt_insert (rec_reservation_id maker) (after_fill maker q) (rb_records b))) b.

Definition seller_of (maker taker : ReservationRecord) : ReservationRecord :=
  match rec_kind maker with Securities => maker | Cash => taker end.
Definition buyer_of (maker taker : ReservationRecord) : ReservationRecord :=
  match rec_kind maker with Securities => taker | Cash => maker end.

Definition consumed_fill (maker taker : ReservationRecord) (q : Z) : ConsumedFill := {|
  cf_maker_reservation_id := rec_reservation_id maker;
  cf_taker_reservation_id := rec_reservation_id taker;
  cf_maker_kind := rec_kind maker;
  cf_maker_reserve_commitment := rec_reserve_commitment maker;
  cf_taker_reserve_commitment := rec_reserve_commitment taker;
  cf_maker_remaining := rec_remaining (after_fill maker q);
  cf_taker_remaining := rec_remaining (after_fill taker q);
  cf_seller_handle := rec_participant_handle (seller_of maker taker);
  cf_buyer_handle := rec_participant_handle (buyer_of maker taker)
|}.

Lemma consume_at_exact b id r price quantity :
  res_ok b → bt_get id (rb_records b) = Some r → is_active r = true →
  respects_limit price r = true → 0 < price → 0 < quantity ≤ rec_remaining_quantity r →
  consume_at id (spent_by (rec_kind r) (price * quantity) quantity) quantity b
  = (set_records (bt_insert id (after_fill r quantity) (rb_records b)) b,
     Ok (after_fill r quantity)).
Proof.
  intros Hb Hid Ha Hl Hp Hq. unfold consume_at. rewrite self_bind, try_bind, Hid; simpl.
  rewrite try_bind.
  destruct (consume_record_exact r price quantity) as (_ & -> & _); try done.
  by apply (res_records b Hb id).
Qed.

Lemma consume_fill_cases b fill market_id now :
  res_ok b → 0 < f_price fill → 0 < f_quantity fill →
  (∃ maker taker, record_of b (f_maker_order fill) = Some maker
     ∧ record_of b (f_taker_order fill) = Some taker
     ∧ fillable fill market_id now maker taker
     ∧ consume_fill fill market_id now b
       = (filled_book b maker taker (f_quantity fill),
          Ok (consumed_fill maker taker (f_quantity fill))))
  ∨ ((∀ maker taker, record_of b (f_maker_order fill) = Some maker →
        record_of b (f_taker_order fill) = Some taker →
        ¬ fillable fill market_id now maker taker)
     ∧ ∃ reason, consume_fill fill market_id now b = (b, Err (Reservation reason))).
Proof.
  intros Hb Hprice Hqty. unfold consume_fill. rewrite self_bind, try_bind.
  destruct (checked_mul _ _) as [cash|] eqn:Ecash; simpl.
  2:{ right. split; [|eexists; done]. intros ?? _ _ (Hf & _).
      unfold checked_mul in Ecash. case_match; bool_hyps; [done|lia]. }
  apply checked_mul_Some in Ecash as [-> Hcash]. rewrite ?try_bind.
  destruct (record_id_for b (f_maker_order fill)) as [mid|] eqn:Em; simpl.
  2:{ right. split; [|eexists; done]. unfold record_of. rewrite Em. done. }
  rewrite ?try_bind.
  destruct (record_id_for b (f_taker_order fill)) as [tid|] eqn:Et; simpl.
  2:{ right. split; [|eexists; done]. unfold record_of. rewrite Et. done. }
  destruct (record_id_for_get b _ _ Hb Em) as (mk & Hmk & Hmo & Hmid & Hmc).
  destruct (record_id_for_get b _ _ Hb Et) as (tk & Htk & Hto & Htid & Htc).
  rewrite ?try_bind. split_guard E1.
  { right; split; [|eexists; done]. intros maker taker Hmaker Htaker (_ & ? & _). bool_hyps. congruence. }
  rewrite ?try_bind, Hmk; simpl. rewrite !try_bind, Htk; simpl.
  rewrite ?try_bind. split_guard E2.
  { right; split; [|eexists; done]. intros maker taker Hmaker Htaker (_ & _ & ? & _). bool_hyps. congruence. }
  rewrite ?try_bind. split_guard E3.
  { right; split; [|eexists; done]. intros maker taker Hmaker Htaker (_ & _ & _ & (? & ?) & _). simplify_eq.
    apply orb_true_iff in E3 as [E3|E3]; bool_hyps; done. }
  rewrite ?try_bind. split_guard E4.
  { right; split; [|eexists; done]. intros maker taker Hmaker Htaker (_ & _ & _ & _ & ? & _). simplify_eq.
    apply orb_true_iff in E4 as [E4|E4]; bool_hyps; lia. }
  rewrite ?try_bind. split_guard E5.
  { right; split; [|eexists; done]. intros maker taker Hmaker Htaker (_ & _ & _ & _ & _ & ? & _). simplify_eq.
    apply orb_true_iff in E5 as [E5|E5]; bool_hyps; lia. }
  rewrite ?try_bind. split_guard E6.
  { right; split; [|eexists; done]. intros maker taker Hmaker Htaker (_ & _ & _ & _ & _ & _ & (Hl1 & Hl2) & _). simplify_eq.
    rewrite Hl1, Hl2 in E6. done. }
  apply negb_false_iff in E6. rewrite !andb_true_iff in E6. destruct E6 as (El1 & El2 & _).
  pose proof (res_records b Hb _ _ Hmk) as Hmok. pose proof (res_records b Hb _ _ Htk) as Htok.
  bool_hyps.
  rewrite ?try_bind. split_guard E7.
  { right; split; [|eexists; done]. intros maker taker Hmaker Htaker (_ & _ & _ & _ & _ & _ & _ & (Ha1 & Ha2)). simplify_eq.
    assert (is_active mk = true) as Ha by (by apply bool_decide_eq_true).
    destruct (consume_record_exact mk (f_price fill) (f_quantity fill)) as (? & _); [done..|lia|].
    rewrite Ha in E7; simpl in E7. bool_hyps. lia. }
  bool_hyps. rewrite ?try_bind. split_guard E8.
  { right; split; [|eexists; done]. intros maker taker Hmaker Htaker (_ & _ & _ & _ & _ & _ & _ & (Ha1 & Ha2)). simplify_eq.
    assert (is_active tk = true) as Ha by (by apply bool_decide_eq_true).
    destruct (consume_record_exact tk (f_price fill) (f_quantity fill)) as (? & _); [done..|lia|].
    rewrite Ha in E8; simpl in E8. bool_hyps. lia. }
  bool_hyps. left. exists mk, tk. split_and!; [done..| |].
  { unfold fillable, is_active in *. bool_hyps. split_and!; try done; try lia.
    intros Heq. apply E1. rewrite Heq in Em. congruence. }
  assert (∃ s y, (match rec_kind mk with
     | Cash => (rec_participant_handle tk, rec_participant_handle mk)
     | Securities => (rec_participant_handle mk, rec_participant_handle tk)
     end) = (s, y) ∧ s = rec_participant_handle (seller_of mk tk)
         ∧ y = rec_participant_handle (buyer_of mk tk)) as (s & y & -> & -> & ->).
  { unfold seller_of, buyer_of. destruct (rec_kind mk); eauto. }
  rewrite method_bind, (consume_at_exact b mid mk (f_price fill)) by (done || lia).
  assert (res_ok (set_records (bt_insert mid (after_fill mk (f_quantity fill)) (rb_records b)) b)).
  { destruct (consume_record_exact mk (f_price fill) (f_quantity fill)) as (_ & _ & ? & ? & _);
      [done..|lia|]. by eapply update_record_ok. }
  rewrite method_bind, (consume_at_exact _ tid tk (f_price fill)); try done; try lia.
  2:{ simpl. by rewrite get_insert, decide_False. }
  unfold filled_book, consumed_fill. simpl. by rewrite Hmid, Htid.
Qed.

(** What a fill takes from an account: inventory from the seller, cash from
    the buyer. *)
Definition fill_debit (cf : ConsumedFill) (fill : PublicFill) (p : Digest32) (k : ReservationKind) : Z :=
  match k with
  | Securities => if decide (cf_seller_handle cf = p) then f_quantity fill else 0
  | Cash => if decide (cf_buyer_handle cf = p) then f_price fill * f_quantity fill else 0
  end.

Lemma held_after_fill r price quantity p k :
  record_ok r → is_active r = true → respects_limit price r = true →
  0 < price → 0 < quantity ≤ rec_remaining_quantity r →
  held p k (after_fill r quantity)
  ≤ held p k r - (if decide (rec_participant_handle r = p ∧ rec_kind r = k)
                  then spent_by k (price * quantity) quantity else 0).
Proof.
  intros Hok Ha Hl Hp Hq.
  destruct (consume_record_exact r price quantity) as (Hs & _ & Hok' & Hst & Hle); [done..|].
  unfold held. rewrite Ha. destruct Hst as (_ & _ & -> & _ & _ & -> & _).
  case_decide as Hd.
  - destruct Hd as [<- <-]. rewrite !bool_decide_true by done. cbn [andb].
    pose proof (proj1 (proj2 (proj2 (proj2 (proj2 Hok'))))).
    destruct (is_active (after_fill r quantity)); lia.
  - repeat case_bool_decide; cbn [andb]; try lia. naive_solver.
Qed.

Lemma filled_book_ok b fill market_id now maker taker :
  res_ok b → 0 < f_price fill → 0 < f_quantity fill →
  record_of b (f_maker_order fill) = Some maker →
  record_of b (f_taker_order fill) = Some taker →
  fillable fill market_id now maker taker →
  res_ok (filled_book b maker taker (f_quantity fill))
  ∧ (∀ p k, held_sum (filled_book b maker taker (f_quantity fill)) p k
            ≤ held_sum b p k - fill_debit (consumed_fill maker taker (f_quantity fill)) fill p k)
  ∧ (∀ c, record_of (filled_book b maker taker (f_quantity fill)) c
          = if decide (f_maker_order fill = c) then Some (after_fill maker (f_quantity fill))
            else if decide (f_taker_order fill = c) then Some (after_fill taker (f_quantity fill))
            else record_of b c).
Proof.
  intros Hb Hp Hq [Hm Hmc]%record_of_Some [Ht Htc]%record_of_Some Hf; [|done..].
  destruct Hf as (Hcash & Hne & Hk & _ & _ & [Hq1 Hq2] & [Hl1 Hl2] & [Ha1 Ha2]).
  set (q := f_quantity fill) in *.
  assert (is_active maker = true) as Ham by (by apply bool_decide_eq_true).
  assert (is_active taker = true) as Hat by (by apply bool_decide_eq_true).
  pose proof (res_records b Hb _ _ Hm) as Hmo. pose proof (res_records b Hb _ _ Ht) as Hto.
  destruct (consume_record_exact maker (f_price fill) q) as (_ & _ & Hmo' & Hms & _); [done..|].
  destruct (consume_record_exact taker (f_price fill) q) as (_ & _ & Hto' & Hts & _); [done..|].
  set (b1 := set_records (bt_insert (rec_reservation_id maker) (after_fill maker q) (rb_records b)) b).
  assert (res_ok b1) as Hb1 by (by eapply update_record_ok).
  assert (bt_get (rec_reservation_id taker) (rb_records b1) = Some taker) as Ht1.
  { simpl. rewrite get_insert, decide_False; [done|]. intros E. rewrite E in Hm. congruence. }
  split_and!.
  - by apply (update_record_ok b1 _ taker).
  - intros p k. change (filled_book b maker taker q) with
      (set_records (bt_insert (rec_reservation_id taker) (after_fill taker q) (rb_records b1)) b1).
    rewrite (update_held_sum b1 _ taker) by done. unfold b1. rewrite (update_held_sum b _ maker) by done.
    pose proof (held_after_fill maker (f_price fill) q p k Hmo Ham Hl1 Hp ltac:(lia)).
    pose proof (held_after_fill taker (f_price fill) q p k Hto Hat Hl2 Hp ltac:(lia)).
    unfold fill_debit, consumed_fill, seller_of, buyer_of, spent_by in *; simpl.
    destruct (rec_kind maker), (rec_kind taker), k; try done;
      repeat case_decide; naive_solver lia.
  - intros c. change (filled_book b maker taker q) with
      (set_records (bt_insert (rec_reservation_id taker) (after_fill taker q) (rb_records b1)) b1).
    rewrite (record_of_update b1 _ taker) by done. unfold b1. rewrite (record_of_update b _ maker) by done.
    rewrite Hmc, Htc. repeat case_decide; congruence.
Qed.

(** ** Reserving *)

(** What every order view of the program satisfies: machine widths and the
    cover of the worst permitted fill. *)
Definition view_ok {O} `{SettlementOrderView O} (order : O) : Prop :=
  0 < settlement_limit_price order ∧ 0 ≤ settlement_max_fee order
  ∧ 0 < settlement_quantity order ≤ u64_max
  ∧ settlement_reservation_limit order ≤ u64_max
  ∧ covers (kind_of_side (settlement_side order)) (settlement_limit_price order)
      (settlement_max_fee order) (settlement_quantity order) (settlement_reservation_limit order).

Lemma new_record_ok {O} `{SettlementOrderView O} (order : O) c :
  view_ok order → record_ok (new_record order c).
Proof.
  intros (? & ? & ? & ? & Hc). unfold record_ok, new_record; simpl.
  unfold covers in *. destruct (kind_of_side _); split_and!; nia.
Qed.

Lemma checked_sum_Some l t :
  checked_sum l = Some t → t = sumZ l.
Proof.
  unfold checked_sum.
  enough (∀ a, foldl (λ total x, t ← total; checked_add t x) (Some a) l = Some t → t = a + sumZ l)
    as Hs by (intros; rewrite (Hs 0); [lia|done]).
  induction l as [|x l IH]; intros a; simpl; [intros [= ->]; lia|].
  destruct (checked_add a x) as [a'|] eqn:E.
  - apply checked_add_Some in E as [-> _]. intros ->%IH. lia.
  - intros Hn. exfalso. clear -Hn. induction l; simpl in *; [done|auto].
Qed.

Lemma checked_sum_total l :
  Forall (λ x, 0 ≤ x) l → sumZ l ≤ u64_max → checked_sum l = Some (sumZ l).
Proof.
  unfold checked_sum. intros Hl.
  enough (∀ a, 0 ≤ a → a + sumZ l ≤ u64_max →
    foldl (λ total x, t ← total; checked_add t x) (Some a) l = Some (a + sumZ l))
    as Hs by (intros; rewrite (Hs 0); [done|lia|lia]).
  induction Hl as [|x l Hx Hl IH]; intros a Ha Hs; simpl in *; [f_equal; lia|].
  pose proof (sumZ_nonneg l Hl). unfold checked_add at 2. rewrite (proj2 (Z.leb_le _ _)) by lia.
  rewrite IH by lia. f_equal; lia.
Qed.

Lemma sum_filter {A} (f : A → Z) (P : A → bool) l :
  sumZ (map f (filter (λ x, P x) l)) = sumZ (map (λ x, if P x then f x else 0) l).
Proof.
  induction l as [|x l IH]; simpl; [done|]. rewrite filter_cons. case_decide as E.
  - apply Is_true_true in E. rewrite E. simpl. lia.
  - apply Is_true_false in E. rewrite E. lia.
Qed.

(** The entity-wide sum of [reserve] is the account's own sum. *)
Lemma in_use_held b p e k :
  res_ok b → bt_get p (rb_participant_entities b) = Some e →
  sumZ (in_use b e k) = held_sum b p k.
Proof.
  intros Hb Hpe. unfold in_use, held_sum. rewrite (sum_filter rec_remaining (λ r,
    bool_decide (rec_entity_nullifier r = e) && bool_decide (rec_kind r = k) && is_active r)).
  f_equal. apply map_ext_in. intros r Hr.
  apply list_elem_of_In, bt_value_get in Hr as [id Hid]; [|by apply res_rec_ok].
  pose proof (res_bound b Hb _ _ Hid) as Hbd. unfold held.
  assert (bool_decide (rec_entity_nullifier r = e) = bool_decide (rec_participant_handle r = p)) as ->;
    [|done].
  apply bool_decide_ext. split; [|congruence]. intros <-.
  apply (res_one_to_one b Hb) in Hpe, Hbd. congruence.
Qed.

(** When an order may reserve: a real commitment, the bound identity, a fresh
    reservation and order, and room below the entity's capacity. *)
Definition reservable {O} `{SettlementOrderView O} (order : O) (c : RistrettoPoint) b : Prop :=
  let p := settlement_participant_handle order in
  let kind := kind_of_side (settlement_side order) in
  c ≠ point_identity
  ∧ bt_get p (rb_participant_entities b) = Some (settlement_dekyx_nullifier order)
  ∧ bt_get (settlement_reservation_id order) (rb_records b) = None
  ∧ record_of b (settlement_commitment order) = None
  ∧ ∃ cap, bt_get (settlement_dekyx_nullifier order, reservation_kind_tag kind) (rb_capacities b)
             = Some cap
      ∧ held_sum b p kind + settlement_reservation_limit order ≤ Z.min cap u64_max.

Lemma existsb_commitment b c :
  res_ok b →
  existsb (λ r, bool_decide (rec_order_commitment r = c)) (bt_values (rb_records b)) = false
  ↔ record_of b c = None.
Proof.
  intros Hb. rewrite <-not_true_iff_false, existsb_exists. split.
  - intros Hn. destruct (record_of b c) as [r|] eqn:E; [|done]. exfalso. apply Hn.
    apply record_of_Some in E as [Hr Hc]; [|done]. exists r. split; [|by apply bool_decide_eq_true].
    apply list_elem_of_In, bt_value_get; [by apply res_rec_ok|eauto].
  - intros Hn (r & Hin & Hc). bool_hyps.
    apply list_elem_of_In, bt_value_get in Hin as [id Hid]; [|by apply res_rec_ok].
    assert (record_of b c = Some r) as E; [|congruence]. apply record_of_Some; [done|].
    by rewrite (res_keyed b Hb _ _ Hid).
Qed.

Lemma bt_contains_false {K V} `{Ord K} (k : K) (m : btree K V) :
  bt_contains k m = false ↔ bt_get k m = None.
Proof. unfold bt_contains. destruct (bt_get k m); naive_solver. Qed.

Lemma in_use_nonneg b e k : res_ok b → Forall (λ x, 0 ≤ x) (in_use b e k).
Proof.
  intros Hb. apply Forall_forall. intros x Hx. unfold in_use in Hx.
  apply list_elem_of_fmap in Hx as (r & -> & Hr). apply list_elem_of_filter in Hr as [_ Hr].
  apply bt_value_get in Hr as [id Hid]; [|by apply res_rec_ok].
  apply (res_records b Hb) in Hid. destruct Hid as (_ & _ & _ & _ & ? & _). lia.
Qed.

Lemma reserve_cases `{Crypto} {O} `{SettlementOrderView O} (order : O) c b :
  res_ok b → view_ok order →
  let b' := set_records (bt_insert (settlement_reservation_id order) (new_record order c)
              (rb_records b)) b in
  (reservable order c b ∧ ∃ receipt, reserve order c b = (b', Ok receipt)
     ∧ rr_state_root receipt = reservation_root b')
  ∨ (¬ reservable order c b ∧ ∃ reason, reserve order c b = (b, Err (Reservation reason))).
Proof.
  intros Hb Hv b'. unfold reserve, reservable. rewrite self_bind, try_bind. cbn zeta.
  split_guard E1; [right; split; [|eexists; done]; bool_hyps; naive_solver|].
  rewrite try_bind. split_guard E2; [right; split; [|eexists; done]; bool_hyps; naive_solver|].
  rewrite try_bind. split_guard E3.
  { right; split; [|eexists; done]. intros (_ & _ & Hn & Hc & _).
    apply bt_contains_false in Hn. apply existsb_commitment in Hc; [|done].
    rewrite Hn, Hc in E3. done. }
  bool_hyps. apply bt_contains_false in H2. apply existsb_commitment in H3; [|done].
  rewrite try_bind. destruct (bt_get _ (rb_capacities b)) as [cap|] eqn:Ecap; simpl.
  2:{ right; split; [|eexists; done]. naive_solver. }
  pose proof (in_use_held b _ _ (kind_of_side (settlement_side order)) Hb E2) as Hin.
  pose proof (in_use_nonneg b (settlement_dekyx_nullifier order)
    (kind_of_side (settlement_side order)) Hb) as Hnn.
  destruct Hv as (? & ? & ? & ? & Hcov).
  assert (0 ≤ settlement_reservation_limit order)
    by (unfold covers in Hcov; destruct (kind_of_side _); nia).
  rewrite try_bind. destruct (checked_sum _) as [used|] eqn:Eu; simpl.
  2:{ right; split; [|eexists; done]. intros (_ & _ & _ & _ & cap' & ? & Hle). simplify_eq.
      rewrite checked_sum_total in Eu; [done..|]. lia. }
  apply checked_sum_Some in Eu. rewrite Hin in Eu. subst used.
  rewrite try_bind. split_guard E4.
  { right; split; [|eexists; done]. intros (_ & _ & _ & _ & cap' & ? & Hle). simplify_eq.
    unfold checked_add in E4. rewrite (proj2 (Z.leb_le _ _)) in E4 by lia. bool_hyps. lia. }
  left. split; [|by eexists]. bool_hyps. split_and!; try done. exists cap. split; [done|].
  unfold checked_add in E4. destruct (_ <=? _) eqn:E5; [|done]. bool_hyps. lia.
Qed.

Lemma reserved_book_ok {O} `{SettlementOrderView O} (order : O) c b :
  res_ok b → view_ok order → reservable order c b →
  let b' := set_records (bt_insert (settlement_reservation_id order) (new_record order c)
              (rb_records b)) b in
  res_ok b'
  ∧ (∀ p k, held_sum b' p k = held_sum b p k
       + if decide (settlement_participant_handle order = p
                    ∧ kind_of_side (settlement_side order) = k)
         then settlement_reservation_limit order else 0)
  ∧ (∀ cm, record_of b' cm = if decide (settlement_commitment order = cm)
                             then Some (new_record order c) else record_of b cm).
Proof.
  intros Hb Hv (_ & Hbd & Hid & Hcm & _) b'.
  assert (∀ id r, bt_get id (rb_records b) = Some r →
    rec_order_commitment r ≠ settlement_commitment order) as Hfresh.
  { intros id r Hr Hc. assert (record_of b (settlement_commitment order) = Some r) as E; [|congruence].
    apply record_of_Some; [done|]. by rewrite (res_keyed b Hb _ _ Hr). }
  assert (res_ok b') as Hb'.
  { pose proof Hb as Hb0. destruct Hb. split; simpl; auto with oclob.
    - intros id r. rewrite get_insert. case_decide; [|eauto]. by intros [= <-].
    - intros id1 id2 r1 r2. rewrite !get_insert.
      repeat case_decide; intros; simplify_eq/=; eauto; exfalso; eapply Hfresh; eauto.
    - intros id r. rewrite get_insert. case_decide; [|eauto]. by intros [= <-].
    - intros id r. rewrite get_insert. case_decide; [|eauto]. intros [= <-]. by apply new_record_ok. }
  split_and!; [done| |].
  - intros p k. unfold held_sum, b'; simpl. rewrite bt_sum_fresh; [|by apply res_rec_ok|done].
    rewrite Z.add_comm. f_equal. unfold held; simpl. unfold is_active; simpl. rewrite andb_true_r.
    repeat case_bool_decide; simpl; case_decide; naive_solver.
  - intros cm. apply option_eq. intros x. rewrite record_of_Some by done. simpl. rewrite get_insert.
    case_decide as E1; case_decide as E2.
    + split; [naive_solver|]. intros [= <-]. done.
    + rewrite record_of_Some by done. split; [intros [[= <-] <-]; done|].
      intros [Hx _]. rewrite <-E1 in Hx. congruence.
    + split; [intros [Hx Hc]; exfalso; eapply Hfresh; [done|congruence]|]. by intros [= <-].
    + by rewrite record_of_Some.
Qed.

(** ** Releasing and reconciling *)

Lemma closed_record_ok r st :
  st ≠ Active → record_ok r → record_ok (rec_update r 0 0 st) ∧ same_terms r (rec_update r 0 0 st).
Proof.
  intros Hst (? & ? & ? & ? & ? & ? & _). split; [|by unfold same_terms].
  unfold record_ok, rec_update; simpl. destruct st; [done|..]; split_and!; lia.
Qed.

Lemma held_closed p k r st : st ≠ Active → held p k (rec_update r 0 0 st) = 0.
Proof. intros. unfold held. by destruct (_ && _). Qed.

(** Replacing a record by a closed one releases exactly what it held. *)
Definition closed_book b r (st : ReservationStatus) : ReservationBook :=
  set_records (bt_insert (rec_reservation_id r) (rec_update r 0 0 st) (rb_records b)) b.

Lemma closed_book_ok b c r st :
  res_ok b → record_of b c = Some r → st ≠ Active →
  res_ok (closed_book b r st)
  ∧ (∀ p k, held_sum (closed_book b r st) p k = held_sum b p k - held p k r)
  ∧ (∀ c', record_of (closed_book b r st) c'
           = if decide (c = c') then Some (rec_update r 0 0 st) else record_of b c').
Proof.
  intros Hb [Hr Hc]%record_of_Some Hst; [|done].
  destruct (closed_record_ok r st Hst (res_records b Hb _ _ Hr)) as [Hok Hs].
  split_and!.
  - by eapply update_record_ok.
  - intros p k. unfold closed_book. rewrite (update_held_sum b _ r) by done.
    rewrite held_closed by done. lia.
  - intros c'. unfold closed_book. rewrite (record_of_update b _ r) by done. by rewrite Hc.
Qed.

Lemma release_cases b c :
  res_ok b →
  (∃ r, record_of b c = Some r ∧ rec_status r = Active
        ∧ release_order c b = (closed_book b r Released, Ok ()))
  ∨ ((∀ r, record_of b c = Some r → rec_status r ≠ Active)
     ∧ ∃ reason, release_order c b = (b, Err (Reservation reason))).
Proof.
  intros Hb. unfold release_order. rewrite self_bind, try_bind.
  destruct (record_id_for b c) as [id|] eqn:E; simpl.
  2:{ right. split; [|eexists; done]. unfold record_of. by rewrite E. }
  destruct (record_id_for_get b _ _ Hb E) as (r & Hr & Ho & Hid & Hc).
  rewrite try_bind, Hr; simpl. rewrite try_bind. unfold is_active. split_guard E1.
  - right. bool_hyps. split; [|eexists; done]. congruence.
  - left. bool_hyps. exists r. unfold closed_book. by rewrite Hid.
Qed.

(** The view presented for reconciliation is the order that was reserved. *)
Definition terms_match {O} `{SettlementOrderView O} (order : O) r : Prop :=
  rec_kind r = kind_of_side (settlement_side order)
  ∧ rec_limit_price r = settlement_limit_price order
  ∧ rec_max_fee r = settlement_max_fee order
  ∧ rec_time_in_force r = settlement_time_in_force order.

Definition resting_cover r : Z :=
  match rec_kind r with
  | Cash => rec_limit_price r * rec_remaining_quantity r + rec_max_fee r
  | Securities => rec_remaining_quantity r
  end.

(** What reconciliation leaves: a good-til-cancelled rest keeps exactly its
    cover, everything else is closed. *)
Definition reconciled_book b r : ReservationBook :=
  if (rec_remaining_quantity r =? 0) || bool_decide (rec_time_in_force r = ImmediateOrCancel)
  then closed_book b r (if 0 <? rec_remaining r then Released else Consumed)
  else set_records (bt_insert (rec_reservation_id r)
         (rec_update r (rec_remaining_quantity r) (resting_cover r) Active) (rb_records b)) b.

Lemma record_active_iff r : record_ok r → is_active r = true ↔ rec_remaining_quantity r ≠ 0.
Proof.
  intros (_ & _ & ? & _ & _ & _ & Hs). unfold is_active. rewrite bool_decide_eq_true.
  destruct (rec_status r); split; try done; intuition lia.
Qed.

Lemma resting_cover_bounds r :
  record_ok r → rec_remaining_quantity r ≠ 0 → 0 < resting_cover r ≤ rec_remaining r.
Proof.
  intros Hok Hne. pose proof (proj2 (record_active_iff r Hok) Hne) as Ha.
  unfold is_active in Ha. bool_hyps. destruct Hok as (? & ? & ? & ? & ? & ? & Hs).
  rewrite Ha in Hs. unfold resting_cover, covers in *. destruct (rec_kind r); nia.
Qed.

Lemma reconciled_book_ok b c r :
  res_ok b → record_of b c = Some r →
  res_ok (reconciled_book b r) ∧ ∀ p k, held_sum (reconciled_book b r) p k ≤ held_sum b p k.
Proof.
  intros Hb Ho. pose proof Ho as [Hr Hc]%record_of_Some; [|done].
  pose proof (res_records b Hb _ _ Hr) as Hok. unfold reconciled_book. destruct (_ || _) eqn:E.
  - destruct (closed_book_ok b c r (if 0 <? rec_remaining r then Released else Consumed))
      as (? & Hh & _); [done..|by case_match|]. split; [done|]. intros p k. rewrite Hh.
    pose proof (held_nonneg p k r Hok). lia.
  - bool_hyps. pose proof (resting_cover_bounds r Hok ltac:(done)) as Hcov.
    pose proof (proj2 (record_active_iff r Hok) ltac:(done)) as Ha.
    destruct Hok as (? & ? & ? & ? & ? & ? & Hs). split.
    + eapply update_record_ok; [done..|by unfold same_terms|].
      unfold record_ok, rec_update, covers, resting_cover in *; simpl.
      destruct (rec_kind r); split_and!; lia.
    + intros p k. rewrite (update_held_sum b _ r) by done. unfold held. rewrite Ha.
      unfold is_active; simpl. destruct (_ && _); simpl; lia.
Qed.

(** The record reconciliation leaves: open with its quantity when a
    good-til-cancelled rest remains, closed otherwise. *)
Lemma reconciled_book_record b c r :
  res_ok b → record_of b c = Some r →
  ∃ r', same_terms r r'
    ∧ (rec_status r' = Active ↔ rec_remaining_quantity r ≠ 0 ∧ rec_time_in_force r = GoodTilCancelled)
    ∧ (rec_status r' = Active → rec_remaining_quantity r' = rec_remaining_quantity r)
    ∧ ∀ c', record_of (reconciled_book b r) c' = if decide (c = c') then Some r' else record_of b c'.
Proof.
  intros Hb Ho. pose proof Ho as [Hr Hc]%record_of_Some; [|done].
  pose proof (res_records b Hb _ _ Hr) as Hok. unfold reconciled_book. destruct (_ || _) eqn:E.
  - destruct (closed_book_ok b c r (if 0 <? rec_remaining r then Released else Consumed))
      as (_ & _ & Hrec); [done..|by case_match|].
    eexists (rec_update r 0 0 _). split_and!; [..|exact Hrec].
    + by unfold same_terms.
    + simpl. apply orb_true_iff in E as [E|E]; bool_hyps; case_match; split; try done;
        intros []; congruence.
    + simpl. by case_match.
  - bool_hyps. pose proof (resting_cover_bounds r Hok ltac:(done)) as Hcov.
    pose proof (proj2 (record_active_iff r Hok) ltac:(done)) as Ha.
    assert (record_ok (rec_update r (rec_remaining_quantity r) (resting_cover r) Active)) as Hok'.
    { destruct Hok as (? & ? & ? & ? & ? & ? & Hs).
      unfold record_ok, rec_update, covers, resting_cover in *; simpl.
      destruct (rec_kind r); split_and!; lia. }
    exists (rec_update r (rec_remaining_quantity r) (resting_cover r) Active).
    split_and!; [by unfold same_terms| |done|].
    + split; [|done]. intros _. split; [done|]. by destruct (rec_time_in_force r).
    + intros c'. rewrite (record_of_update b _ r) by (done || by unfold same_terms). by rewrite Hc.
Qed.

Lemma reconcile_cases {O} `{SettlementOrderView O} b (order : O) remaining r :
  res_ok b → record_of b (settlement_commitment order) = Some r → terms_match order r →
  0 ≤ remaining →
  if decide (remaining = rec_remaining_quantity r)
  then ∃ kept, reconcile_arriving order remaining b = (reconciled_book b r, Ok kept)
  else ∃ reason, reconcile_arriving order remaining b = (b, Err (Reservation reason)).
Proof.
  intros Hb Ho (Hk & Hl & Hf & Ht) Hpos. pose proof Ho as [Hr Hc]%record_of_Some; [|done].
  pose proof (res_records b Hb _ _ Hr) as Hok.
  unfold reconcile_arriving. rewrite self_bind, try_bind.
  rewrite (proj2 (record_id_for_Some b _ (rec_reservation_id r) Hb)) by eauto. simpl.
  rewrite <-Hk, <-Hl, <-Hf, <-Ht. case_decide as Hd.
  - rewrite Hd, try_bind. unfold reconciled_book. destruct (_ || _) eqn:E; simpl.
    + rewrite try_bind, Hr; simpl. rewrite try_bind, Z.eqb_refl; simpl.
      rewrite try_bind. pose proof (proj1 (proj2 (proj2 (proj2 (proj2 Hok))))).
      rewrite (proj2 (Z.ltb_ge _ _)) by lia. simpl. unfold closed_book, saturating_sub.
      rewrite Z.sub_0_r, Z.max_l by lia. by eexists.
    + bool_hyps. pose proof (resting_cover_bounds r Hok ltac:(done)) as Hcov.
      pose proof (proj2 (record_active_iff r Hok) ltac:(done)) as Ha.
      rewrite required_for_covered by (done || lia). simpl. fold (resting_cover r).
      rewrite try_bind, Hr; simpl. rewrite try_bind, Z.eqb_refl; simpl.
      rewrite try_bind, (proj2 (Z.ltb_ge _ _)) by lia. simpl.
      rewrite (proj2 (Z.ltb_lt _ _)) by lia. by eexists.
  - rewrite try_bind. destruct (ok_or _ _) as [req|e] eqn:E.
    + rewrite try_bind, Hr; simpl. rewrite try_bind, (proj2 (Z.eqb_neq _ _)) by done. by eexists.
    + unfold ok_or in E. case_match; [done|]. injection E as <-. by eexists.
Qed.

Lemma reconcile_collaborative_cases b c remaining :
  res_ok b →
  (∃ r, record_of b c = Some r ∧ remaining = rec_remaining_quantity r
     ∧ ∃ b' kept, reconcile_arriving_collaborative c remaining b = (b', Ok kept)
     ∧ res_ok b' ∧ (∀ p k, held_sum b' p k ≤ held_sum b p k)
     ∧ ∃ r', record_of b' c = Some r' ∧ rec_remaining r' = kept
       ∧ rec_status r' = (if remaining =? 0 then Consumed
                          else if decide (rec_time_in_force r = ImmediateOrCancel)
                               then Released else Active))
  ∨ ((∀ r, record_of b c = Some r → remaining ≠ rec_remaining_quantity r)
     ∧ ∃ reason, reconcile_arriving_collaborative c remaining b = (b, Err (Reservation reason))).
Proof.
  intros Hb. unfold reconcile_arriving_collaborative. rewrite self_bind, try_bind.
  destruct (record_id_for b c) as [id|] eqn:E; simpl.
  2:{ right. split; [|eexists; done]. unfold record_of. by rewrite E. }
  destruct (record_id_for_get b _ _ Hb E) as (r & Hr & Ho & Hid & Hc). subst id.
  pose proof (res_records b Hb _ _ Hr) as Hok.
  rewrite try_bind, Hr; simpl. rewrite try_bind. split_guard E1; bool_hyps.
  { right. split; [|eexists; done]. congruence. }
  left. exists r. split_and!; [done..|]. subst remaining. destruct (_ || _) eqn:E2.
  - eexists _, _. split; [done|]. fold (closed_book b r
      (if rec_remaining_quantity r =? 0 then Consumed else Released)).
    destruct (closed_book_ok b c r (if rec_remaining_quantity r =? 0 then Consumed else Released))
      as (? & Hh & Hrec); [done..|by case_match|]. split_and!; [done| |].
    + intros p k. rewrite Hh. pose proof (held_nonneg p k r Hok). lia.
    + rewrite Hrec, decide_True by done. eexists. split_and!; [done..|]. simpl.
      case_match; [done|]. simpl in E2. bool_hyps. by rewrite decide_True.
  - bool_hyps. assert (rec_update r (rec_remaining_quantity r) (rec_remaining r) Active = r) as ->.
    { pose proof (proj2 (record_active_iff r Hok) ltac:(done)) as Ha. unfold is_active in Ha.
      bool_hyps. destruct r; unfold rec_update; simpl in *. by subst. }
    eexists _, _. split; [done|]. split_and!.
    + eapply update_record_ok; [done..|by unfold same_terms|done].
    + intros p k. rewrite (update_held_sum b _ r) by done. lia.
    + rewrite (record_of_update b _ r), decide_True by (done || by unfold same_terms).
      exists r. split_and!; [done..|]. rewrite (proj2 (Z.eqb_neq _ _)) by done.
      rewrite decide_False by done. pose proof (proj2 (record_active_iff r Hok) ltac:(done)) as Ha.
      unfold is_active in Ha. by bool_hyps.
Qed.

(** ** Identities and capacities *)

Lemma digest_insert {V} (k k' : Digest32) (v : V) (m : btree Digest32 V) :
  bt_get k' (bt_insert k v m) = if decide (k = k') then Some v else bt_get k' m.
Proof. case_decide; [subst; apply bt_get_insert_eq|by apply bt_get_insert_ne]. Qed.

Lemma set_capacity_get e cash securities b e' k :
  bt_get (e', reservation_kind_tag k) (rb_capacities (set_capacity e cash securities b))
  = if decide (e = e') then Some (match k with Cash => cash | Securities => securities end)
    else bt_get (e', reservation_kind_tag k) (rb_capacities b).
Proof.
  simpl. case_decide as E.
  - subst. destruct k; simpl; [rewrite bt_get_insert_ne by done|]; apply bt_get_insert_eq.
  - rewrite !bt_get_insert_ne by congruence. done.
Qed.

Lemma set_capacity_ok b e cash securities :
  res_ok b → res_ok (set_capacity e cash securities b).
Proof. intros []. split; simpl; auto with oclob. Qed.

Lemma bound_elsewhere_false k v (m : btree Digest32 Digest32) :
  bound_elsewhere k v m = false ↔ bt_get k m = None ∨ bt_get k m = Some v.
Proof.
  unfold bound_elsewhere. destruct (bt_get k m) as [x|]; [|naive_solver].
  rewrite negb_false_iff, bool_decide_eq_true. naive_solver.
Qed.

(** The book after a binding. *)
Definition bound_book b (p e : Digest32) (cash securities : Z) : ReservationBook :=
  set_capacity e cash securities {|
    rb_capacities := rb_capacities b;
    rb_participant_entities := bt_insert p e (rb_participant_entities b);
    rb_entity_participants := bt_insert e p (rb_entity_participants b);
    rb_records := rb_records b |}.

(** Neither identifier is zero nor bound to another one. *)
Definition bindable b (p e : Digest32) : Prop :=
  p ≠ zero_digest ∧ e ≠ zero_digest
  ∧ (bt_get p (rb_participant_entities b) = None ∨ bt_get p (rb_participant_entities b) = Some e)
  ∧ (bt_get e (rb_entity_participants b) = None ∨ bt_get e (rb_entity_participants b) = Some p).

Lemma bind_cases b p e cash securities :
  (bindable b p e ∧ bind_participant p e cash securities b
                    = (bound_book b p e cash securities, Ok ()))
  ∨ (¬ bindable b p e
     ∧ ∃ reason, bind_participant p e cash securities b = (b, Err (Reservation reason))).
Proof.
  unfold bind_participant, bindable. rewrite self_bind, try_bind. unfold is_zero. split_guard E1.
  { right. split; [|by eexists]. apply orb_true_iff in E1 as [?|?]; bool_hyps; naive_solver. }
  rewrite try_bind. bool_hyps. split_guard E2.
  - right. split; [|by eexists]. intros (_ & _ & Hp & He).
    apply bound_elsewhere_false in Hp, He. by rewrite Hp, He in E2.
  - left. bool_hyps. rewrite <-!bound_elsewhere_false. done.
Qed.

Lemma bound_book_ok b p e cash securities :
  res_ok b → bindable b p e → res_ok (bound_book b p e cash securities).
Proof.
  intros Hb (_ & _ & Hp & He). apply set_capacity_ok.
  pose proof (res_one_to_one b Hb) as H11. destruct Hb. split; simpl; auto with oclob.
  - intros p' e'. rewrite !digest_insert. repeat case_decide; subst; try done.
    + split; [by intros [= ->]|]. intros Hx%H11. destruct Hp; congruence.
    + split; [|by intros [= ->]]. intros Hx%H11. destruct He; congruence.
  - intros id r Hr. rewrite digest_insert. case_decide as E; [|eauto]. subst.
    rewrite (res_bound0 _ _ Hr) in Hp. by destruct Hp as [?|<-].
Qed.

Lemma refresh_cases b p cash securities :
  match bt_get p (rb_participant_entities b) with
  | Some e => refresh_capacity p cash securities b = (set_capacity e cash securities b, Ok ())
  | None => ∃ reason, refresh_capacity p cash securities b = (b, Err (Reservation reason))
  end.
Proof.
  unfold refresh_capacity. rewrite self_bind, try_bind.
  destruct (bt_get p _); simpl; [done|by eexists].
Qed.

(** The portfolio's sum, when it fits [u64]. *)
Lemma reserved_for_held b p k :
  res_ok b → held_sum b p k ≤ u64_max → reserved_for b p k = Ok (held_sum b p k).
Proof.
  intros Hb Hle. unfold reserved_for.
  pose proof (sum_filter rec_remaining (λ r, bool_decide (rec_participant_handle r = p)
    && bool_decide (rec_kind r = k) && is_active r) (bt_values (rb_records b))) as Hs.
  rewrite checked_sum_total.
  - cbn [ok_or]. by rewrite Hs.
  - apply Forall_forall. intros x Hx.
    apply list_elem_of_fmap in Hx as (r & -> & Hr). apply list_elem_of_filter in Hr as [_ Hr].
    apply bt_value_get in Hr as [id Hid]; [|by apply res_rec_ok].
    apply (res_records b Hb) in Hid. destruct Hid as (_ & _ & _ & _ & ? & _). lia.
  - by rewrite Hs.
Qed.

(** ** Commitments of remainders *)

Lemma held_commit p k r c : held p k (rec_commit r c) = held p k r.
Proof. done. Qed.

Lemma commit_at_cases b id c e r :
  res_ok b → bt_get id (rb_records b) = Some r →
  commit_at id c e b = (set_records (bt_insert id (rec_commit r c) (rb_records b)) b, Ok ())
  ∧ res_ok (set_records (bt_insert id (rec_commit r c) (rb_records b)) b)
  ∧ (∀ p k, held_sum (set_records (bt_insert id (rec_commit r c) (rb_records b)) b) p k
            = held_sum b p k).
Proof.
  intros Hb Hid. split_and!.
  - unfold commit_at. rewrite self_bind, try_bind, Hid. done.
  - eapply update_record_ok; [done..|by unfold same_terms|]. exact (res_records b Hb id r Hid).
  - intros p k. rewrite (update_held_sum b _ r), held_commit by done. lia.
Qed.

End invariant.
