(* ===== verification/ReservationLife.v ===== *)
(** * Reservations: the life of a record

    Every operation of the reservation book as one step relation, on its
    success and its error path, with the invariant of every reachable book,
    the one-way life of every record, and the exact effect of consuming a
    fill, reserving and reconciling. *)

From S2P Require Import Prelude BTree Bytes AppCrypto Orders Matching Book Reservations.
From S2P Require Import ReservationInv.
Open Scope list_scope.
Open Scope Z_scope.

Section life.
Context `{Crypto} `{Points}.
Implicit Types (r : ReservationRecord) (b : ReservationBook).

(** One call on the reservation book, whatever it returns. *)
Inductive reservation_step : ReservationBook → ReservationBook → Prop :=
| step_bind b p e cash securities :
    reservation_step b (bind_participant p e cash securities b).1
| step_refresh b p cash securities :
    reservation_step b (refresh_capacity p cash securities b).1
| step_reserve {O} `{SettlementOrderView O} b (order : O) c :
    view_ok order → reservation_step b (reserve order c b).1
| step_fill b fill market_id now :
    0 < f_price fill → 0 < f_quantity fill →
    reservation_step b (consume_fill fill market_id now b).1
| step_remainders b cf s c m :
    reservation_step b (apply_collaborative_remainders cf s c m b).1
| step_reconcile {O} `{SettlementOrderView O} b (order : O) remaining :
    (∀ r, record_of b (settlement_commitment order) = Some r → terms_match order r) →
    0 ≤ remaining → reservation_step b (reconcile_arriving order remaining b).1
| step_reconcile_collaborative b c remaining :
    reservation_step b (reconcile_arriving_collaborative c remaining b).1
| step_release b c : reservation_step b (release_order c b).1.

(** What happens to a record over one step or many. *)
Definition evolves r r' : Prop :=
  same_terms r r'
  ∧ rec_remaining_quantity r' ≤ rec_remaining_quantity r
  ∧ rec_remaining r' ≤ rec_remaining r
  ∧ (rec_status r ≠ Active → rec_status r' ≠ Active).

Definition records_evolve b b' : Prop :=
  ∀ c r, record_of b c = Some r → ∃ r', record_of b' c = Some r' ∧ evolves r r'.

#[local] Instance evolves_preorder : PreOrder evolves.
Proof.
  split; [by intros r; unfold evolves, same_terms|].
  intros r1 r2 r3 (S1 & ? & ? & ?) (S2 & ? & ? & ?). unfold evolves, same_terms in *.
  destruct S1 as (-> & -> & -> & -> & -> & -> & -> & -> & -> & -> & -> & ->) in S2.
  split_and!; try lia; intuition congruence.
Qed.

#[local] Instance records_evolve_preorder : PreOrder records_evolve.
Proof.
  split; [intros b c r Hr; exists r; by split|].
  intros b1 b2 b3 E1 E2 c r (r1 & Hr1 & ?)%E1. apply E2 in Hr1 as (r2 & ? & ?).
  exists r2. split; [done|]. by etrans.
Qed.

Lemma after_fill_evolves r price quantity :
  record_ok r → is_active r = true → respects_limit price r = true → 0 < price →
  0 < quantity ≤ rec_remaining_quantity r → evolves r (after_fill r quantity).
Proof.
  intros Hok Ha Hl Hp Hq.
  destruct (consume_record_exact r price quantity) as (Hs & _ & _ & Hst & Hle); [done..|].
  assert (0 ≤ spent_by (rec_kind r) (price * quantity) quantity)
    by (unfold spent_by; case_match; nia).
  unfold is_active in Ha. bool_hyps.
  split_and!; [done|simpl; lia|lia|]. congruence.
Qed.

Lemma closed_evolves r st : record_ok r → st ≠ Active → evolves r (rec_update r 0 0 st).
Proof.
  intros (_ & _ & ? & _ & ? & _) Hst. split_and!; [by unfold same_terms|simpl; lia..|done].
Qed.

(** An update in place lets one record evolve. *)
Lemma update_evolves b id r r' :
  res_ok b → bt_get id (rb_records b) = Some r → record_ok r' → evolves r r' →
  records_evolve b (set_records (bt_insert id r' (rb_records b)) b).
Proof.
  intros Hb Hid Hok He c r0 Hr0. rewrite (record_of_update b id r) by (done || apply He).
  case_decide as E; [|exists r0; by split]. exists r'. split; [done|].
  assert (record_of b (rec_order_commitment r) = Some r) as Hr.
  { apply record_of_Some; [done|]. by rewrite (res_keyed b Hb _ _ Hid). }
  rewrite E in Hr. by simplify_eq.
Qed.

Lemma commit_at_step b id c e :
  res_ok b →
  let b' := (commit_at id c e b).1 in
  res_ok b' ∧ records_evolve b b' ∧ ∀ p k, held_sum b' p k = held_sum b p k.
Proof.
  intros Hb. destruct (bt_get id (rb_records b)) as [r|] eqn:E.
  - destruct (commit_at_cases b id c e r Hb E) as (-> & Hok & Hh). split_and!; [done| |done].
    eapply update_evolves; [done..|exact (res_records b Hb id r E)|].
    by unfold evolves, same_terms.
  - unfold commit_at. rewrite self_bind, try_bind, E. simpl. split_and!; [done|reflexivity|done].
Qed.

Lemma remainders_step b cf s c m :
  res_ok b →
  let b' := (apply_collaborative_remainders cf s c m b).1 in
  res_ok b' ∧ records_evolve b b' ∧ ∀ p k, held_sum b' p k = held_sum b p k.
Proof.
  intros Hb. unfold apply_collaborative_remainders.
  assert (∃ x y, match cf_maker_kind cf with Cash => (m, s) | Securities => (m, c) end = (x, y))
    as (x & y & ->) by (case_match; eauto).
  rewrite method_bind.
  pose proof (commit_at_step b (cf_maker_reservation_id cf) x
    (Reservation "maker reservation disappeared") Hb) as (Hb1 & He1 & Hh1).
  destruct (commit_at _ _ _ b) as [b1 [[]|e]] eqn:E1; simpl in *; [|done].
  pose proof (commit_at_step b1 (cf_taker_reservation_id cf) y
    (Reservation "taker reservation disappeared") Hb1) as (Hb2 & He2 & Hh2).
  split_and!; [done|by etrans|]. intros p k. by rewrite Hh2.
Qed.

Lemma reserve_step {O} `{SettlementOrderView O} b (order : O) c :
  res_ok b → view_ok order → let b' := (reserve order c b).1 in res_ok b' ∧ records_evolve b b'.
Proof.
  intros Hb Hv.
  destruct (reserve_cases order c b) as [(Hr & rc & -> & _)|(_ & reason & ->)]; [done..| |done].
  destruct (reserved_book_ok order c b) as (? & _ & Hrec); [done..|]. split; [done|].
  intros cm r Hcm. cbn [fst]. rewrite Hrec. case_decide; [|exists r; by split].
  destruct Hr as (_ & _ & _ & Hn & _). congruence.
Qed.

Lemma fill_step b fill market_id now :
  res_ok b → 0 < f_price fill → 0 < f_quantity fill →
  let b' := (consume_fill fill market_id now b).1 in res_ok b' ∧ records_evolve b b'.
Proof.
  intros Hb Hp Hq. destruct (consume_fill_cases b fill market_id now)
    as [(mk & tk & Hm & Ht & Hf & ->)|(_ & reason & ->)]; [done..| |done].
  destruct (filled_book_ok b fill market_id now mk tk) as (? & _ & Hrec); [done..|].
  split; [done|]. intros c r Hr. cbn [fst]. rewrite Hrec.
  destruct Hf as (_ & _ & _ & _ & _ & [? ?] & [? ?] & [? ?]).
  assert (∀ x, record_of b c = Some x → rec_status x = Active →
    respects_limit (f_price fill) x = true → f_quantity fill ≤ rec_remaining_quantity x →
    ∃ r', Some (after_fill x (f_quantity fill)) = Some r' ∧ evolves r r') as Hx.
  { intros x Hx ???. assert (x = r) as -> by congruence. eexists; split; [done|].
    apply record_of_Some in Hx as [Hx _]; [|done].
    eapply after_fill_evolves; [exact (res_records b Hb _ _ Hx)|by apply bool_decide_eq_true|done..]. }
  repeat case_decide; subst; [by apply Hx..|exists r; by split].
Qed.

Lemma reconcile_step {O} `{SettlementOrderView O} b (order : O) remaining :
  res_ok b → (∀ r, record_of b (settlement_commitment order) = Some r → terms_match order r) →
  0 ≤ remaining →
  let b' := (reconcile_arriving order remaining b).1 in res_ok b' ∧ records_evolve b b'.
Proof.
  intros Hb Hterms Hpos. destruct (record_of b (settlement_commitment order)) as [r|] eqn:Hr.
  2:{ unfold reconcile_arriving. rewrite self_bind, try_bind.
      destruct (record_id_for b _) as [id|] eqn:E; [|done].
      destruct (record_id_for_get b _ _ Hb E) as (r & _ & ? & _). congruence. }
  pose proof (reconcile_cases b order remaining r Hb Hr ltac:(auto) ltac:(done)) as Hc.
  case_decide; destruct Hc as [? ->]; simpl; [|done].
  destruct (reconciled_book_ok b _ r Hb Hr) as [Hok' _]. split; [done|].
  apply record_of_Some in Hr as [Hr _]; [|done].
  pose proof (res_records b Hb _ _ Hr) as Hok. unfold reconciled_book, closed_book in *.
  destruct (_ || _) eqn:E.
  - eapply update_evolves; [done..| |]; [|apply closed_evolves; [done|by case_match]].
    apply closed_record_ok; [by case_match|done].
  - bool_hyps. pose proof (resting_cover_bounds r Hok ltac:(done)).
    pose proof (proj2 (record_active_iff r Hok) ltac:(done)) as Ha. unfold is_active in Ha.
    bool_hyps. eapply update_evolves; [done..| |].
    + eapply (res_records _ Hok' (rec_reservation_id r)). simpl. by rewrite get_insert, decide_True.
    + split_and!; [by unfold same_terms|simpl; lia..|congruence].
Qed.

Lemma reconcile_collaborative_step b c remaining :
  res_ok b →
  let b' := (reconcile_arriving_collaborative c remaining b).1 in res_ok b' ∧ records_evolve b b'.
Proof.
  intros Hb. unfold reconcile_arriving_collaborative. rewrite self_bind, try_bind.
  destruct (record_id_for b c) as [id|] eqn:E; simpl; [|done].
  destruct (record_id_for_get b _ _ Hb E) as (r & Hr & Ho & Hid & Hc). subst id.
  pose proof (res_records b Hb _ _ Hr) as Hok.
  rewrite try_bind, Hr; simpl. rewrite try_bind. split_guard E1; [done|]. bool_hyps.
  subst remaining. destruct (_ || _) eqn:E2; cbn -[bt_insert set_records rec_update].
  - match goal with |- context [rec_update r 0 0 ?st] => assert (st ≠ Active) by (by case_match) end.
    destruct (closed_record_ok r (if rec_remaining_quantity r =? 0 then Consumed else Released))
      as [? ?]; [done..|]. split; [by eapply update_record_ok|].
    eapply update_evolves; [done..|by apply closed_evolves].
  - bool_hyps. pose proof (proj2 (record_active_iff r Hok) ltac:(done)) as Ha.
    unfold is_active in Ha. bool_hyps.
    assert (rec_update r (rec_remaining_quantity r) (rec_remaining r) Active = r) as ->
      by (destruct r; unfold rec_update; simpl in *; by subst).
    split; [by eapply update_record_ok|]. by eapply update_evolves.
Qed.

Lemma release_step b c :
  res_ok b → let b' := (release_order c b).1 in res_ok b' ∧ records_evolve b b'.
Proof.
  intros Hb. destruct (release_cases b c Hb) as [(r & Hr & Ha & ->)|(_ & reason & ->)]; [|done].
  destruct (closed_book_ok b c r Released) as (? & _ & _); [done..|]. split; [done|].
  apply record_of_Some in Hr as [Hr _]; [|done]. simpl. unfold closed_book.
  pose proof (res_records b Hb _ _ Hr).
  eapply update_evolves; [done..| |by apply closed_evolves]. by apply closed_record_ok.
Qed.

Lemma step_sound b b' : reservation_step b b' → res_ok b → res_ok b' ∧ records_evolve b b'.
Proof.
  intros Hstep Hb. destruct Hstep;
    auto using reserve_step, fill_step, reconcile_step, reconcile_collaborative_step, release_step.
  - destruct (bind_cases b p e cash securities) as [[Hbd ->]|(_ & reason & ->)]; simpl; [|done].
    split; [by apply bound_book_ok|]. intros c r Hr. exists r. by split.
  - pose proof (refresh_cases b p cash securities) as Hc.
    destruct (bt_get p _) as [e|]; [rewrite Hc|destruct Hc as [? ->]]; simpl; [|done].
    split; [by apply set_capacity_ok|]. intros c r Hr. exists r. by split.
  - by destruct (remainders_step b cf s c m Hb) as (? & ? & _).
Qed.

Lemma default_ok : res_ok reservations_default.
Proof. split; try done; constructor. Qed.

(** C26: Every reservation book the program can reach, through any sequence of
    successful and failed calls, is well formed: participants and legal
    entities stay one-to-one, records are filed under their own id with
    distinct order commitments and a bound owner, an active record covers the
    rest of its order at the committed limit and fee, and a terminal one holds
    nothing. Along the way a record keeps its terms, its quantity and reserve
    never grow, and a consumed or released reservation is never active again. *)
Theorem reservation_invariant b b' :
  rtc reservation_step reservations_default b → rtc reservation_step b b' →
  res_ok b ∧ res_ok b' ∧ records_evolve b b'.
Proof.
  intros Hreach Hsteps.
  assert (∀ x y, rtc reservation_step x y → res_ok x → res_ok y ∧ records_evolve x y) as Hrun.
  { induction 1 as [x|x y z Hxy _ IH]; intros Hx; [split; [done|reflexivity]|].
    destruct (step_sound x y Hxy Hx) as [Hy He]. destruct (IH Hy) as [Hz He'].
    split; [done|by etrans]. }
  destruct (Hrun _ _ Hreach default_ok) as [Hb _]. by destruct (Hrun _ _ Hsteps Hb).
Qed.

(** Consuming a fill is exact and all-or-nothing: it succeeds precisely
    when the two orders have distinct active unexpired reservations of
    opposite kinds in this market, the price respects both committed limits
    and the quantity both remainders; then only those two records change, each
    keeps exactly the cover of its rest, and the seller's inventory and the
    buyer's cash reservations shrink by at least what the fill moves.
    Otherwise it returns a reservation error, never panics, and the book is
    unchanged. *)
Theorem consume_fill_exact b fill market_id now :
  res_ok b → 0 < f_price fill → 0 < f_quantity fill →
  (∃ maker taker,
     record_of b (f_maker_order fill) = Some maker
     ∧ record_of b (f_taker_order fill) = Some taker
     ∧ fillable fill market_id now maker taker
     ∧ ∃ b' cf, consume_fill fill market_id now b = (b', Ok cf)
     ∧ cf = consumed_fill maker taker (f_quantity fill)
     ∧ res_ok b'
     ∧ (∀ p k, held_sum b' p k ≤ held_sum b p k - fill_debit cf fill p k)
     ∧ (∀ c, record_of b' c
             = if decide (f_maker_order fill = c) then Some (after_fill maker (f_quantity fill))
               else if decide (f_taker_order fill = c)
                    then Some (after_fill taker (f_quantity fill))
                    else record_of b c))
  ∨ ((∀ maker taker, record_of b (f_maker_order fill) = Some maker →
        record_of b (f_taker_order fill) = Some taker →
        ¬ fillable fill market_id now maker taker)
     ∧ ∃ reason, consume_fill fill market_id now b = (b, Err (Reservation reason))).
Proof.
  intros Hb Hp Hq. destruct (consume_fill_cases b fill market_id now)
    as [(mk & tk & Hm & Ht & Hf & Hc)|?]; [done..| |by right].
  destruct (filled_book_ok b fill market_id now mk tk) as (? & ? & ?); [done..|].
  left. exists mk, tk. split_and!; [done..|]. eexists _, _. by split_and!.
Qed.

(** Reserving admits an order exactly when its commitment is not the
    identity, its participant is bound to the presented entity, neither its
    reservation id nor its commitment was ever used, and everything the
    account already holds on that rail plus the new maximum fits the entity's
    capacity; it then adds exactly that one active record. Otherwise it
    returns a reservation error and changes nothing. *)
Theorem reserve_exact {O} `{SettlementOrderView O} (order : O) c b :
  res_ok b → view_ok order →
  (reservable order c b
   ∧ ∃ b' receipt, reserve order c b = (b', Ok receipt)
     ∧ rr_state_root receipt = reservation_root b' ∧ res_ok b'
     ∧ (∀ p k, held_sum b' p k = held_sum b p k
          + if decide (settlement_participant_handle order = p
                       ∧ kind_of_side (settlement_side order) = k)
            then settlement_reservation_limit order else 0)
     ∧ (∀ cm, record_of b' cm = if decide (settlement_commitment order = cm)
                                then Some (new_record order c) else record_of b cm))
  ∨ (¬ reservable order c b ∧ ∃ reason, reserve order c b = (b, Err (Reservation reason))).
Proof.
  intros Hb Hv. destruct (reserve_cases order c b Hb Hv) as [(Hr & rc & Hc & Hroot)|?]; [|by right].
  destruct (reserved_book_ok order c b Hb Hv Hr) as (? & ? & ?).
  left. split; [done|]. eexists _, _. by split_and!.
Qed.

End life.
