(* ===== verification/Settlement.v ===== *)
(** * The settlement engine

    [SettlementEngine] of [oclob-settlement/src/lib.rs]: confidential
    accounts over the reservation book, admission and release of
    reservations, the collaborative (MPC-proved) delivery-versus-payment
    batch, and the two-phase canonical acceptance; with
    [verify_for_settlement] and [collaborative_job_id] of [collaborative.rs].
    The proof systems, the DeFMI ledger and the canonical-finality SDK are
    other crates: parameters of [SettlementCrates]. *)

From S2P Require Import Prelude BTree Bytes AppCrypto Orders Matching Book Ordering Proofs.
From S2P Require Import Reservations.
Open Scope string_scope.
Open Scope list_scope.
Open Scope Z_scope.

Definition RANGE_BITS : Z := 32.

Inductive PriceLimitDirection := MaximumBuyPrice | MinimumSellPrice.
#[export] Instance direction_eq_dec : EqDecision PriceLimitDirection.
Proof. solve_decision. Defined.

Inductive Rail := SECURITIES_RAIL | CASH_RAIL.

Inductive QuoteBinding := ProofDigest (d : Digest32) | LegacyPackedKey (key : bytes).

(** What the source reads of a zkPI [Instruction]; the last four fields are
    the values of its methods [ranges.is_threshold()], [nullifier()], and of
    [zkpi::wire::encode], which identifies the whole instruction. *)
Record Instruction `{Points} := mk_instruction {
  in_nonce : Digest32;
  in_deadline : Z;
  in_quote_binding : QuoteBinding;
  in_payer_handle : RistrettoPoint;
  in_payee_handle : RistrettoPoint;
  in_asset_commitment : RistrettoPoint;
  in_amount_commitment : RistrettoPoint;
  in_price_commitment : RistrettoPoint;
  in_is_threshold : bool;
  in_nullifier : Digest32;
  in_wire : bytes
}.

Record ThresholdDvpPackage `{Points} := mk_package {
  pk_instruction : Instruction;
  pk_cash_commitment : RistrettoPoint;
  pk_securities_remainder : RistrettoPoint;
  pk_cash_remainder : RistrettoPoint;
  pk_digest : Digest32
}.

Arguments mk_instruction {_}.
Arguments mk_package {_}.

(** [CanonicalTransition] of the finality SDK. *)
Record CanonicalTransition := mk_canonical_transition {
  ca_transaction_id : bytes;
  ca_block_id : bytes;
  ca_height : Z;
  ca_statement : Digest32;
  ca_before_state_root : Digest32;
  ca_after_state_root : Digest32
}.

(** The functions of other crates the engine calls. *)
Class SettlementCrates `{Points} := {
  PublicKeyPackage : Type;
  QuorumPolicy : Type;
  policy_eq_dec :: EqDecision QuorumPolicy;
  ThresholdRangeProof : Type;
  DvpProofs : Type;
  AssetLinkProof : Type;
  OpeningEnvelope : Type;
  Ledger : Type;
  CanonicalReadback : Type;
  pk_serialize : PublicKeyPackage → option bytes;
  validate_settlement_committee : QuorumPolicy → PublicKeyPackage → result string ();
  policy_threshold : QuorumPolicy → Z;
  policy_members : QuorumPolicy → Z;
  asset_link_verify : Digest32 → RistrettoPoint → AssetLinkProof → bool;
  venue_verify : PublicKeyPackage → QuorumPolicy → Instruction → Z → result string ();
  threshold_price_limit : RistrettoPoint → RistrettoPoint → PriceLimitDirection → Z →
    Digest32 → ThresholdRangeProof → result string ();
  build_threshold_package_from_proofs : Instruction → RistrettoPoint → RistrettoPoint →
    RistrettoPoint → DvpProofs → Z → result string ThresholdDvpPackage;
  verify_threshold_range : RistrettoPoint → ThresholdRangeProof → bool;
  envelope_validate : OpeningEnvelope → result string ();
  envelope_context : OpeningEnvelope → Digest32;
  envelope_recipient : OpeningEnvelope → RistrettoPoint;
  opening_context : Digest32 → string → result string Digest32;
  ledger_new : Ledger;
  ledger_open : bytes → RistrettoPoint → Ledger → Ledger;
  ledger_balance : Ledger → Digest32 → option RistrettoPoint;
  ledger_snapshot : Ledger → Digest32;
  ledger_conserved : Ledger → bool;
  account_of : RistrettoPoint → Rail → bytes;
  manifest_digest : result string Digest32;
  readback_new : Digest32 → Digest32 → result string CanonicalReadback;
  accept_canonical_transition : Digest32 → CanonicalTransition → Digest32 → Digest32 →
    list CanonicalReadback → result string Digest32;
  hex_encode : Digest32 → bytes;
  (** What [build_reservation_zkpi] calls: secret-shared bits, the joint range
      proof over the proof quorum's contributions, the partial instruction,
      FROST signing by the engine's own committee, and its venue. *)
  AMOUNT_RANGE_CONTEXT : string;
  PRICE_RANGE_CONTEXT : string;
  ValueShares : Type;
  NodeContribution : Type;
  PartialInstruction : Type;
  FrostSignature : Type;
  deal_bits : Z → Scalar → Z → result string ValueShares;
  vs_commitment : ValueShares → RistrettoPoint;
  node_contribution : ValueShares → Z → option NodeContribution;
  joint_prove_range_from_contributions : list NodeContribution → list Z → string →
    result string ThresholdRangeProof;
  escrow_point : Digest32 → RistrettoPoint;
  from_threshold_ranges : RistrettoPoint → RistrettoPoint → RistrettoPoint →
    ThresholdRangeProof → ThresholdRangeProof → RistrettoPoint → RistrettoPoint → Z →
    Digest32 → Digest32 → result string PartialInstruction;
  partial_digest : PartialInstruction → Digest32;
  frost_sign : Digest32 → result string FrostSignature;
  sealed : PartialInstruction → FrostSignature → Instruction;
  own_venue_verify : Instruction → Z → result string ()
}.

Record OclobSettlementMemberReceipt := mk_member {
  mb_instruction_nullifier : Digest32;
  mb_zkpi_digest : Digest32;
  mb_package_digest : Digest32;
  mb_maker_order : Digest32;
  mb_taker_order : Digest32;
  mb_maker_reservation_remaining : Z;
  mb_taker_reservation_remaining : Z
}.

Definition member_with_taker (m : OclobSettlementMemberReceipt) (remaining : Z) :
    OclobSettlementMemberReceipt := {|
  mb_instruction_nullifier := mb_instruction_nullifier m;
  mb_zkpi_digest := mb_zkpi_digest m;
  mb_package_digest := mb_package_digest m;
  mb_maker_order := mb_maker_order m;
  mb_taker_order := mb_taker_order m;
  mb_maker_reservation_remaining := mb_maker_reservation_remaining m;
  mb_taker_reservation_remaining := remaining
|}.

Record OclobSettlementReceipt := mk_settlement_receipt {
  sr_batch_digest : Digest32;
  sr_members : list OclobSettlementMemberReceipt;
  sr_amount_range_is_threshold : bool;
  sr_price_range_is_threshold : bool;
  sr_settlement_authorization_quorum : Z;
  sr_post_match_participant_signatures : Z;
  sr_securities_before_root : Digest32;
  sr_securities_after_root : Digest32;
  sr_cash_before_root : Digest32;
  sr_cash_after_root : Digest32;
  sr_reservation_before_root : Digest32;
  sr_reservation_after_root : Digest32;
  sr_arriving_reservation_zkpi_digest : option Digest32;
  sr_arriving_reservation_instruction_nullifier : option Digest32;
  sr_arriving_reservation_proof_digest : option Digest32;
  sr_canonical_state_root : Digest32;
  sr_canonical_receipt_digest : Digest32;
  sr_canonical_height : Z;
  sr_avalanche_transaction_id : option bytes;
  sr_avalanche_block_id : option bytes;
  sr_replay_rejected : bool;
  sr_solvent : bool
}.

Record SettlementStateSnapshot := mk_state_snapshot {
  ss_securities_root : Digest32;
  ss_cash_root : Digest32;
  ss_reservation_root : Digest32;
  ss_height : Z
}.

#[export] Instance state_snapshot_eq_dec : EqDecision SettlementStateSnapshot.
Proof. solve_decision. Defined.

Record ParticipantPortfolio := mk_portfolio {
  pf_securities : Z;
  pf_cash : Z;
  pf_reserved_securities : Z;
  pf_reserved_cash : Z;
  pf_available_securities : Z;
  pf_available_cash : Z
}.

Record ReservationReleaseReceipt := mk_release_receipt {
  rl_order_commitment : Digest32;
  rl_before_root : Digest32;
  rl_after_root : Digest32;
  rl_canonical_receipt_digest : Digest32;
  rl_canonical_height : Z
}.

Record ReservationBatchReleaseReceipt := mk_batch_release_receipt {
  rlb_order_commitments : list Digest32;
  rlb_before_root : Digest32;
  rlb_after_root : Digest32;
  rlb_canonical_receipt_digest : Digest32;
  rlb_canonical_height : Z
}.

Record CanonicalAccountOpening := mk_opening {
  ao_handle : Digest32;
  ao_asset_id : Digest32;
  ao_commitment : Digest32
}.

Record CanonicalAccountDelta := mk_delta {
  ad_handle : Digest32;
  ad_asset_id : Digest32;
  ad_before_commitment : Digest32;
  ad_after_commitment : Digest32
}.

(** ** Digests *)

Section digests.
Context `{Crypto}.

Definition combined_root (securities cash reservations : Digest32) : Digest32 :=
  sha256 (ascii_bytes "OCLOB:DEFMI-CANONICAL-STATE:v1" ++ d_bytes securities ++ d_bytes cash
    ++ d_bytes reservations).

Definition domain_digest (domain : string) (body : bytes) : Digest32 :=
  sha256 (ascii_bytes domain ++ put_bytes body).

Definition reservation_receipt_digest (operation : string)
    (order_or_batch before_root after_root : Digest32) (height : Z) : Digest32 :=
  sha256 (ascii_bytes "OCLOB:DEFMI-RESERVATION-RECEIPT:v1" ++ put_bytes (ascii_bytes operation)
    ++ d_bytes order_or_batch ++ d_bytes before_root ++ d_bytes after_root ++ u64_be height).

Definition settlement_batch_digest (transition_digest : Digest32)
    (members : list OclobSettlementMemberReceipt) : Digest32 :=
  sha256 (ascii_bytes "OCLOB:DEFMI-ATOMIC-BATCH:v1" ++ d_bytes transition_digest
    ++ u64_be (Z.of_nat (length members))
    ++ concat (map (λ m, d_bytes (mb_instruction_nullifier m) ++ d_bytes (mb_package_digest m)
         ++ d_bytes (mb_maker_order m) ++ d_bytes (mb_taker_order m)) members)).

Definition resource_id (name : string) : Digest32 :=
  sha256 (ascii_bytes "OCLOB:DEFMI-RESOURCE:v1" ++ ascii_bytes name).

Definition canonical_cash_asset_id : Digest32 :=
  sha256 (ascii_bytes "OCLOB:DEFMI:ASSET:CASH:v1").
Definition canonical_securities_asset_id (market_id : bytes) : Digest32 :=
  sha256 (ascii_bytes "OCLOB:DEFMI:ASSET:SECURITIES:v1" ++ put_bytes market_id).
Definition canonical_reservation_state_asset_id (market_id : bytes) : Digest32 :=
  sha256 (ascii_bytes "OCLOB:DEFMI:ASSET:RESERVATION-STATE:v1" ++ put_bytes market_id).
Definition canonical_reservation_state_handle (market_id : bytes) : Digest32 :=
  sha256 (ascii_bytes "OCLOB:DEFMI:ACCOUNT:RESERVATION-STATE:v1" ++ put_bytes market_id).

Definition digest_member_field (domain : string) (members : list OclobSettlementMemberReceipt)
    (field : OclobSettlementMemberReceipt → Digest32) : Digest32 :=
  sha256 (ascii_bytes domain ++ u64_be (Z.of_nat (length members))
    ++ concat (map (λ m, d_bytes (field m)) members)).

Definition canonical_binding_digest (application_binding batch_digest transition_digest
    payment_instruction_digest proof_digest reservation_before_root
    reservation_after_root : Digest32) (deltas : list CanonicalAccountDelta) : Digest32 :=
  sha256 (ascii_bytes "OCLOB:DEFMI:CANONICAL-BINDING:v1" ++ d_bytes application_binding
    ++ d_bytes batch_digest ++ d_bytes transition_digest ++ d_bytes payment_instruction_digest
    ++ d_bytes proof_digest ++ d_bytes reservation_before_root ++ d_bytes reservation_after_root
    ++ u64_be (Z.of_nat (length deltas))
    ++ concat (map (λ d, d_bytes (ad_handle d) ++ d_bytes (ad_asset_id d)
         ++ d_bytes (ad_before_commitment d) ++ d_bytes (ad_after_commitment d)) deltas)).

Definition collaborative_job_id (round_id : Digest32) (slot : Z) (public_output_digest : Digest32) :
    result string Digest32 :=
  _ ← fail_if ((8 <=? slot) || is_zero round_id || is_zero public_output_digest)
    "collaborative fill identity is outside its fixed bounds";
  Ok (sha256 (ascii_bytes "OCLOB:COLLABORATIVE-FILL:v1" ++ d_bytes round_id ++ u16_be slot
    ++ d_bytes public_output_digest)).

End digests.

(** ** Balances *)

Definition checked_credit (balance amount : Z) : result SettlementError Z :=
  credited ← ok_or (checked_add balance amount) (Reservation "credited balance overflowed");
  _ ← fail_if (2 ^ RANGE_BITS <=? credited)
    (Reservation "credited balance exceeds the DeFMI range-proof domain");
  Ok credited.

Definition checked_debit (balance amount : Z) : result SettlementError Z :=
  ok_or (checked_sub balance amount) Insolvent.

Fixpoint account_deltas (before after : list CanonicalAccountOpening) :
    result SettlementError (list CanonicalAccountDelta) :=
  match before, after with
  | x :: before, y :: after =>
      _ ← fail_if (negb (bool_decide (ao_handle x = ao_handle y))
          || negb (bool_decide (ao_asset_id x = ao_asset_id y))) CanonicalDivergence;
      deltas ← account_deltas before after;
      Ok (if bool_decide (ao_commitment x = ao_commitment y) then deltas
          else mk_delta (ao_handle x) (ao_asset_id x) (ao_commitment x) (ao_commitment y) :: deltas)
  | _, _ => Ok []
  end.

Definition canonical_account_deltas (before after : list CanonicalAccountOpening) :
    result SettlementError (list CanonicalAccountDelta) :=
  _ ← fail_if (negb (Nat.eqb (length before) (length after))) CanonicalDivergence;
  account_deltas before after.

Section engine.
Context `{Crypto} `{SettlementCrates}.

Record CollaborativeFillProof := mk_fill_proof {
  cp_job_id : Digest32;
  cp_market_proof_digest : Digest32;
  cp_limit_direction : PriceLimitDirection;
  cp_limit_commitment : RistrettoPoint;
  cp_limit_context : Digest32;
  cp_asset_id : Digest32;
  cp_instruction : Instruction;
  cp_frost_public : PublicKeyPackage;
  cp_pq_committee : QuorumPolicy;
  cp_maker_handle : RistrettoPoint;
  cp_price_limit_proof : ThresholdRangeProof;
  cp_dvp_proofs : DvpProofs;
  cp_cash_commitment : RistrettoPoint;
  cp_securities_remainder : RistrettoPoint;
  cp_cash_remainder : RistrettoPoint;
  cp_maker_pool_remainder : RistrettoPoint;
  cp_maker_pool_remainder_proof : ThresholdRangeProof;
  cp_securities_delivery_opening : OpeningEnvelope;
  cp_securities_refund_opening : OpeningEnvelope;
  cp_cash_delivery_opening : OpeningEnvelope;
  cp_cash_refund_opening : OpeningEnvelope;
  cp_asset_link : AssetLinkProof
}.

Record CollaborativeSettlementContext := mk_settlement_context {
  sc_expected_job_id : Digest32;
  sc_market_proof_digest : Digest32;
  sc_maker_handle : RistrettoPoint;
  sc_taker_handle : RistrettoPoint;
  sc_maker_reserve : RistrettoPoint;
  sc_taker_reserve : RistrettoPoint;
  sc_asset_id : Digest32;
  sc_frost_public : PublicKeyPackage;
  sc_pq_committee : QuorumPolicy;
  sc_now : Z
}.

Definition verify_for_settlement (p : CollaborativeFillProof) (context : CollaborativeSettlementContext) :
    result string ThresholdDvpPackage :=
  let instruction := cp_instruction p in
  _ ← fail_if (negb (bool_decide (cp_job_id p = sc_expected_job_id context))
      || negb (bool_decide (in_nonce instruction = cp_job_id p))
      || negb (bool_decide (cp_market_proof_digest p = sc_market_proof_digest context))
      || negb (bool_decide (cp_asset_id p = sc_asset_id context))
      || negb (bool_decide (cp_maker_handle p = sc_maker_handle context))
      || (in_deadline instruction <? sc_now context))
    "collaborative fill is not bound to this canonical transition";
  quote_digest ← match in_quote_binding instruction with
                 | ProofDigest value => Ok value
                 | LegacyPackedKey _ => Err "canonical settlement refuses a legacy quote key"
                 end;
  _ ← fail_if (negb (bool_decide (quote_digest = sc_market_proof_digest context)))
    "zkPI names another MPC public output";
  let expected_handles :=
    match cp_limit_direction p with
    | MaximumBuyPrice => (sc_taker_handle context, sc_maker_handle context)
    | MinimumSellPrice => (sc_maker_handle context, sc_taker_handle context)
    end in
  _ ← fail_if (negb (bool_decide
        ((in_payer_handle instruction, in_payee_handle instruction) = expected_handles)))
    "zkPI payer and payee do not match the reserved Maker and Taker";
  _ ← fail_if (negb (asset_link_verify (sc_asset_id context) (in_asset_commitment instruction)
                      (cp_asset_link p))
      || negb (in_is_threshold instruction))
    "zkPI asset or range evidence is not the canonical threshold form";
  supplied_key ← ok_or (pk_serialize (cp_frost_public p))
    "collaborative FROST public package is not serializable";
  pinned_key ← ok_or (pk_serialize (sc_frost_public context))
    "pinned FROST public package is not serializable";
  _ ← fail_if (negb (bool_decide (supplied_key = pinned_key))
      || negb (bool_decide (cp_pq_committee p = sc_pq_committee context)))
    "zkPI was authorized by an unpinned MPC settlement committee";
  _ ← venue_verify (sc_frost_public context) (sc_pq_committee context) instruction (sc_now context);
  _ ← threshold_price_limit (in_price_commitment instruction) (cp_limit_commitment p)
        (cp_limit_direction p) 32 (cp_limit_context p) (cp_price_limit_proof p);
  let '(securities_reserve, cash_reserve, expected_maker_remainder) :=
    match cp_limit_direction p with
    | MaximumBuyPrice =>
        (sc_maker_reserve context, sc_taker_reserve context, cp_securities_remainder p)
    | MinimumSellPrice =>
        (sc_taker_reserve context, sc_maker_reserve context, cp_cash_remainder p)
    end in
  package ← build_threshold_package_from_proofs instruction securities_reserve cash_reserve
              (cp_cash_commitment p) (cp_dvp_proofs p) 32;
  _ ← fail_if (negb (bool_decide (pk_securities_remainder package = cp_securities_remainder p))
      || negb (bool_decide (pk_cash_remainder package = cp_cash_remainder p))
      || negb (bool_decide (cp_maker_pool_remainder p = expected_maker_remainder))
      || negb (verify_threshold_range (cp_maker_pool_remainder p)
                 (cp_maker_pool_remainder_proof p)))
    "MPC reserve remainder differs from the canonical reservation";
  _ ← for_each (λ '() '(leg, envelope, recipient),
        _ ← envelope_validate envelope;
        expected ← opening_context (cp_job_id p) leg;
        fail_if (negb (bool_decide (envelope_context envelope = expected))
            || negb (bool_decide (envelope_recipient envelope = recipient)))
          "opening envelope is not bound to its proof job and recipient") ()
      [("securities_delivery", cp_securities_delivery_opening p, in_payer_handle instruction);
       ("securities_refund", cp_securities_refund_opening p, in_payee_handle instruction);
       ("cash_delivery", cp_cash_delivery_opening p, in_payee_handle instruction);
       ("cash_refund", cp_cash_refund_opening p, in_payer_handle instruction)];
  Ok package.

(** ** The engine's state *)

Record ConfidentialBalance := mk_balance {
  cb_value : Z;
  cb_commitment : RistrettoPoint;
  cb_opening : option Scalar
}.

Definition balance_opened (value : Z) (opening : Scalar) : ConfidentialBalance :=
  mk_balance value (commit_u64 value opening) (Some opening).
Definition commitment_only (value : Z) (commitment : RistrettoPoint) : ConfidentialBalance :=
  mk_balance value commitment None.

Record ParticipantBalances := mk_participant {
  pa_handle : RistrettoPoint;
  pa_securities : ConfidentialBalance;
  pa_cash : ConfidentialBalance
}.

(** The fields of the engine an operation modelled here reads or writes; the
    Pedersen key and the compatibility path's signing shares are constants of
    [Points] and [SettlementCrates]. *)
Record SettlementEngine := mk_engine {
  se_collaborative_public_key : option PublicKeyPackage;
  se_collaborative_pq_policy : option QuorumPolicy;
  se_participants : btree Digest32 ParticipantBalances;
  se_reservations : ReservationBook;
  se_spent_instructions : gset Digest32;
  se_transition_committee_trust_root : Digest32;
  se_height : Z
}.

Definition with_reservations (b : ReservationBook) (height : Z) (e : SettlementEngine) :
    SettlementEngine := {|
  se_collaborative_public_key := se_collaborative_public_key e;
  se_collaborative_pq_policy := se_collaborative_pq_policy e;
  se_participants := se_participants e;
  se_reservations := b;
  se_spent_instructions := se_spent_instructions e;
  se_transition_committee_trust_root := se_transition_committee_trust_root e;
  se_height := height
|}.

Definition with_settled (participants : btree Digest32 ParticipantBalances) (b : ReservationBook)
    (spent : gset Digest32) (e : SettlementEngine) : SettlementEngine := {|
  se_collaborative_public_key := se_collaborative_public_key e;
  se_collaborative_pq_policy := se_collaborative_pq_policy e;
  se_participants := participants;
  se_reservations := b;
  se_spent_instructions := spent;
  se_transition_committee_trust_root := se_transition_committee_trust_root e;
  se_height := se_height e
|}.

Definition pin_collaborative_settlement_committee (public_key : PublicKeyPackage)
    (pq_policy : QuorumPolicy) : method SettlementEngine SettlementError () :=
  e ← self;
  _ ← try (fail_if (negb (se_height e =? 0)
      || negb (Nat.eqb (length (rb_records (se_reservations e))) 0)
      || negb (bool_decide (se_spent_instructions e = ∅)))
    (ProofFailure "the MPC settlement committee must be pinned at DeFMI genesis"));
  _ ← try (map_err ProofFailure (validate_settlement_committee pq_policy public_key));
  _ ← try (fail_if (negb (policy_threshold pq_policy =? 3) || negb (policy_members pq_policy =? 7))
    (ProofFailure "MPC settlement requires a three-of-seven PQ committee"));
  encoded ← try (ok_or (pk_serialize public_key)
    (ProofFailure "MPC settlement public key is not serializable"));
  _ ← try (fail_if (Nat.eqb (length encoded) 0) (ProofFailure "MPC settlement public key is empty"));
  match se_collaborative_public_key e with
  | Some existing =>
      existing ← try (ok_or (pk_serialize existing)
        (ProofFailure "pinned MPC settlement key is not serializable"));
      try (fail_if (negb (bool_decide (existing = encoded))
          || negb (bool_decide (se_collaborative_pq_policy e = Some pq_policy)))
        (ProofFailure "the MPC settlement committee is already pinned"))
  | None =>
      set_self {| se_collaborative_public_key := Some public_key;
                  se_collaborative_pq_policy := Some pq_policy;
                  se_participants := se_participants e;
                  se_reservations := se_reservations e;
                  se_spent_instructions := se_spent_instructions e;
                  se_transition_committee_trust_root := se_transition_committee_trust_root e;
                  se_height := se_height e |}
  end.

(** [new_with_transition_committee], given the outcome of the distributed key
    generation, the two demonstration handles and the four scalars drawn. *)
Definition new_with_transition_committee (keys : btree Z VerifyingKey) (policy : CommitteePolicy)
    (dkg : result string ()) (first second : RistrettoPoint) (r1 r2 r3 r4 : Scalar) :
    result SettlementError SettlementEngine :=
  root ← map_err (λ _, ProofFailure "committee trust root") (committee_trust_root keys policy);
  _ ← map_err Cryptography dkg;
  let fund point r r' := mk_participant point (balance_opened 10000 r)
    (balance_opened 100000000 r') in
  Ok {| se_collaborative_public_key := None;
        se_collaborative_pq_policy := None;
        se_participants := bt_insert (compress second) (fund second r3 r4)
          (bt_insert (compress first) (fund first r1 r2) []);
        se_reservations := reservations_default;
        se_spent_instructions := ∅;
        se_transition_committee_trust_root := root;
        se_height := 0 |}.

(** Runs a method on a clone: the clone is dropped on an error. *)
Definition staged {S E A} (m : method S E A) (s : S) : result E (S * A) :=
  match m s with (s', Ok a) => Ok (s', a) | (_, Err e) => Err e end.

Definition next_height (e : SettlementEngine) : result SettlementError Z :=
  ok_or (checked_add (se_height e) 1) (Reservation "DeFMI height exhausted").

Definition reserve_order_with_commitment {O} `{SettlementOrderView O} (order : O)
    (c : RistrettoPoint) : method SettlementEngine SettlementError ReservationReceipt :=
  e ← self;
  let before_root := reservation_root (se_reservations e) in
  '(b', receipt) ← try (staged (reserve order c) (se_reservations e));
  height ← try (next_height e);
  _ ← set_self (with_reservations b' height e);
  mret {| rr_reservation_id := rr_reservation_id receipt;
          rr_order_commitment := rr_order_commitment receipt;
          rr_kind := rr_kind receipt;
          rr_reserved := rr_reserved receipt;
          rr_state_root := rr_state_root receipt;
          rr_canonical_receipt_digest := reservation_receipt_digest "reserve"
            (rr_order_commitment receipt) before_root (rr_state_root receipt) height;
          rr_canonical_height := height;
          rr_zkpi_digest := rr_zkpi_digest receipt;
          rr_instruction_nullifier := rr_instruction_nullifier receipt;
          rr_proof_digest := rr_proof_digest receipt;
          rr_avalanche_transaction_id := rr_avalanche_transaction_id receipt;
          rr_avalanche_block_id := rr_avalanche_block_id receipt |}.

(** [reserve_order], with the scalar drawn from the operating system. *)
Definition reserve_order {O} `{SettlementOrderView O} (order : O) (random : Scalar) :
    method SettlementEngine SettlementError ReservationReceipt :=
  reserve_order_with_commitment order (commit_u64 (settlement_reservation_limit order) random).

Definition bind_eligible_participant (participant entity : Digest32) :
    method SettlementEngine SettlementError () :=
  e ← self;
  balances ← try (ok_or (bt_get participant (se_participants e))
    (Reservation "participant account is absent"));
  let '(b', r) := bind_participant participant entity (cb_value (pa_cash balances))
                    (cb_value (pa_securities balances)) (se_reservations e) in
  _ ← set_self (with_reservations b' (se_height e) e);
  try r.

Definition engine_release_order (order_commitment : Digest32) :
    method SettlementEngine SettlementError ReservationReleaseReceipt :=
  e ← self;
  let before_root := reservation_root (se_reservations e) in
  '(b', _) ← try (staged (release_order order_commitment) (se_reservations e));
  let after_root := reservation_root b' in
  height ← try (next_height e);
  _ ← set_self (with_reservations b' height e);
  mret {| rl_order_commitment := order_commitment;
          rl_before_root := before_root;
          rl_after_root := after_root;
          rl_canonical_receipt_digest := reservation_receipt_digest "release" order_commitment
            before_root after_root height;
          rl_canonical_height := height |}.

Fixpoint release_each (l : list Digest32) : method ReservationBook SettlementError () :=
  match l with
  | [] => mret ()
  | c :: l => _ ← release_order c; release_each l
  end.

Definition release_orders_atomic (order_commitments : list Digest32) :
    method SettlementEngine SettlementError ReservationBatchReleaseReceipt :=
  e ← self;
  _ ← try (fail_if (Nat.eqb (length order_commitments) 0)
    (Reservation "reservation release batch cannot be empty"));
  let before_root := reservation_root (se_reservations e) in
  '(b', _) ← try (staged (release_each order_commitments) (se_reservations e));
  let after_root := reservation_root b' in
  height ← try (next_height e);
  let batch_id := sha256 (ascii_bytes "OCLOB:RESERVATION-RELEASE-BATCH:v1"
    ++ u64_be (Z.of_nat (length order_commitments)) ++ concat (map d_bytes order_commitments)) in
  _ ← set_self (with_reservations b' height e);
  mret {| rlb_order_commitments := order_commitments;
          rlb_before_root := before_root;
          rlb_after_root := after_root;
          rlb_canonical_receipt_digest := reservation_receipt_digest "release-batch" batch_id
            before_root after_root height;
          rlb_canonical_height := height |}.

Definition ledgers_from_participants (participants : btree Digest32 ParticipantBalances) :
    Ledger * Ledger :=
  foldl (λ '(securities, cash) balances,
      (ledger_open (account_of (pa_handle balances) SECURITIES_RAIL)
         (cb_commitment (pa_securities balances)) securities,
       ledger_open (account_of (pa_handle balances) CASH_RAIL)
         (cb_commitment (pa_cash balances)) cash))
    (ledger_new, ledger_new) (bt_values participants).

Definition state_snapshot (e : SettlementEngine) : SettlementStateSnapshot :=
  let '(securities, cash) := ledgers_from_participants (se_participants e) in
  {| ss_securities_root := ledger_snapshot securities;
     ss_cash_root := ledger_snapshot cash;
     ss_reservation_root := reservation_root (se_reservations e);
     ss_height := se_height e |}.

Definition participant_portfolio (e : SettlementEngine) (participant : Digest32) :
    result SettlementError ParticipantPortfolio :=
  balances ← ok_or (bt_get participant (se_participants e))
    (Reservation "participant account is absent");
  reserved_securities ← reserved_for (se_reservations e) participant Securities;
  reserved_cash ← reserved_for (se_reservations e) participant Cash;
  let securities := cb_value (pa_securities balances) in
  let cash := cb_value (pa_cash balances) in
  Ok {| pf_securities := securities;
        pf_cash := cash;
        pf_reserved_securities := reserved_securities;
        pf_reserved_cash := reserved_cash;
        pf_available_securities := saturating_sub securities reserved_securities;
        pf_available_cash := saturating_sub cash reserved_cash |}.

Definition canonical_account_openings (e : SettlementEngine) (market_id : bytes) :
    result SettlementError (list CanonicalAccountOpening) :=
  _ ← fail_if (bad_market_id market_id) (Reservation "canonical market identifier is invalid");
  let '(securities, cash) := ledgers_from_participants (se_participants e) in
  accounts ← collect (λ '(balances, (rail, asset_id, ledger)),
      handle ← ok_or (digest_of (account_of (pa_handle balances) rail))
        (Finality "canonical account handle is not 32 bytes");
      commitment ← ok_or (ledger_balance ledger handle) CanonicalDivergence;
      Ok (mk_opening handle asset_id (compress commitment)))
    (concat (map (λ balances : ParticipantBalances,
       [(balances, (SECURITIES_RAIL, canonical_securities_asset_id market_id, securities));
        (balances, (CASH_RAIL, canonical_cash_asset_id, cash))])
       (bt_values (se_participants e))));
  let accounts := sort_by (λ x y, oleb (ao_handle x) (ao_handle y))
    (accounts ++ [mk_opening (canonical_reservation_state_handle market_id)
                    (canonical_reservation_state_asset_id market_id)
                    (reservation_root (se_reservations e))]) in
  _ ← fail_if (existsb (λ '(x, y), bool_decide (ao_handle x = ao_handle y))
      (zip accounts (tail accounts))) CanonicalDivergence;
  Ok accounts.

(** ** The collaborative batch *)

(** The clones the batch works on, and the receipts so far. *)
Record StagedBatch := mk_staged {
  sb_reservations : ReservationBook;
  sb_participants : btree Digest32 ParticipantBalances;
  sb_spent : gset Digest32;
  sb_members : list OclobSettlementMemberReceipt
}.

(** What the loop reads besides the staged state. *)
Record BatchTerms := mk_terms {
  tm_market_id : bytes;
  tm_round_id : Digest32;
  tm_market_proof_digest : Digest32;
  tm_frost_public : PublicKeyPackage;
  tm_pq_committee : QuorumPolicy;
  tm_now : Z
}.

(** The balances of the two parties after a fill. *)
Definition settle_parties (fill : PublicFill) (package : ThresholdDvpPackage)
    (seller buyer : ParticipantBalances) :
    result SettlementError (ParticipantBalances * ParticipantBalances) :=
  cash_value ← ok_or (checked_mul (f_price fill) (f_quantity fill))
    (Reservation "cash fill overflowed");
  let amount := in_amount_commitment (pk_instruction package) in
  seller_securities ← checked_debit (cb_value (pa_securities seller)) (f_quantity fill);
  buyer_cash ← checked_debit (cb_value (pa_cash buyer)) cash_value;
  seller_cash ← checked_credit (cb_value (pa_cash seller)) cash_value;
  buyer_securities ← checked_credit (cb_value (pa_securities buyer)) (f_quantity fill);
  Ok ({| pa_handle := pa_handle seller;
         pa_securities := commitment_only seller_securities
           (point_sub (cb_commitment (pa_securities seller)) amount);
         pa_cash := commitment_only seller_cash
           (point_add (cb_commitment (pa_cash seller)) (pk_cash_commitment package)) |},
      {| pa_handle := pa_handle buyer;
         pa_securities := commitment_only buyer_securities
           (point_add (cb_commitment (pa_securities buyer)) amount);
         pa_cash := commitment_only buyer_cash
           (point_sub (cb_commitment (pa_cash buyer)) (pk_cash_commitment package)) |}).

Definition settle_fill (t : BatchTerms) (st : StagedBatch)
    (item : Z * (PublicFill * CollaborativeFillProof)) : result SettlementError StagedBatch :=
  let '(index, (fill, proof)) := item in
  '(b1, consumed) ← staged (consume_fill fill (tm_market_id t) (tm_now t)) (sb_reservations st);
  _ ← fail_if (bool_decide (cf_seller_handle consumed = cf_buyer_handle consumed))
    (Reservation "self-trading orders cannot produce a DvP between one account");
  seller ← ok_or (bt_get (cf_seller_handle consumed) (sb_participants st))
    (Reservation "seller account is absent");
  buyer ← ok_or (bt_get (cf_buyer_handle consumed) (sb_participants st))
    (Reservation "buyer account is absent");
  let '(maker_handle, taker_handle, expected_direction) :=
    match cf_maker_kind consumed with
    | Securities => (pa_handle seller, pa_handle buyer, MaximumBuyPrice)
    | Cash => (pa_handle buyer, pa_handle seller, MinimumSellPrice)
    end in
  _ ← fail_if (negb (bool_decide (cp_limit_direction proof = expected_direction)))
    (ProofFailure "MPC limit proof has the opposite Taker direction");
  expected_job_id ← map_err ProofFailure
    (collaborative_job_id (tm_round_id t) index (tm_market_proof_digest t));
  package ← map_err ProofFailure (verify_for_settlement proof {|
    sc_expected_job_id := expected_job_id;
    sc_market_proof_digest := tm_market_proof_digest t;
    sc_maker_handle := maker_handle;
    sc_taker_handle := taker_handle;
    sc_maker_reserve := cf_maker_reserve_commitment consumed;
    sc_taker_reserve := cf_taker_reserve_commitment consumed;
    sc_asset_id := canonical_securities_asset_id (tm_market_id t);
    sc_frost_public := tm_frost_public t;
    sc_pq_committee := tm_pq_committee t;
    sc_now := tm_now t |});
  '(b2, _) ← staged (apply_collaborative_remainders consumed (pk_securities_remainder package)
    (pk_cash_remainder package) (cp_maker_pool_remainder proof)) b1;
  let instruction_nullifier := in_nullifier (pk_instruction package) in
  _ ← fail_if (bool_decide (instruction_nullifier ∈ sb_spent st)) ReplayAccepted;
  '(seller_after, buyer_after) ← settle_parties fill package seller buyer;
  let participants := bt_insert (cf_buyer_handle consumed) buyer_after
    (bt_insert (cf_seller_handle consumed) seller_after (sb_participants st)) in
  let '(staged_securities, staged_cash) := ledgers_from_participants participants in
  _ ← fail_if (negb (ledger_conserved staged_securities) || negb (ledger_conserved staged_cash))
    Insolvent;
  Ok {| sb_reservations := b2;
        sb_participants := participants;
        sb_spent := {[instruction_nullifier]} ∪ sb_spent st;
        sb_members := sb_members st ++ [{|
          mb_instruction_nullifier := instruction_nullifier;
          mb_zkpi_digest := sha256 (in_wire (pk_instruction package));
          mb_package_digest := pk_digest package;
          mb_maker_order := f_maker_order fill;
          mb_taker_order := f_taker_order fill;
          mb_maker_reservation_remaining := cf_maker_remaining consumed;
          mb_taker_reservation_remaining := cf_taker_remaining consumed |}] |}.

Definition enumerate {A} (l : list A) : list (Z * A) :=
  imap (λ i x, (Z.of_nat i, x)) l.

(** [members.last_mut()]. *)
Definition set_last_taker (remaining : Z) (l : list OclobSettlementMemberReceipt) :
    list OclobSettlementMemberReceipt :=
  match rev l with
  | m :: l' => rev (member_with_taker m remaining :: l')
  | [] => []
  end.

(** [for (participant, balances) in &staged_participants]. *)
Fixpoint refresh_all (l : btree Digest32 ParticipantBalances) :
    method ReservationBook SettlementError () :=
  match l with
  | [] => mret ()
  | (participant, balances) :: l =>
      _ ← refresh_capacity participant (cb_value (pa_cash balances))
            (cb_value (pa_securities balances));
      refresh_all l
  end.

(** [maker_orders.insert] fails on the second occurrence. *)
Fixpoint has_duplicate (l : list Digest32) : bool :=
  match l with
  | [] => false
  | x :: l => existsb (λ y, bool_decide (x = y)) l || has_duplicate l
  end.

Section batch.
Context {A : Type} `{TransitionAuthorization A}.

(** The checks before the loop and the loop itself, on the clones. *)
Definition stage_batch (e : SettlementEngine) (fills : list PublicFill)
    (proofs : list CollaborativeFillProof) (round_id : Digest32) (transition : A)
    (arriving : OrderCommitment) (arriving_remaining now : Z) :
    result SettlementError StagedBatch :=
  _ ← fail_if (Nat.eqb (length fills) 0
      || negb (Nat.eqb (length fills) (length proofs))
      || Nat.ltb MAX_MATCH_SLOTS (length fills)
      || is_zero round_id
      || existsb (λ fill, (f_quantity fill =? 0) || (f_price fill =? 0)) fills
      || existsb (λ fill, negb (bool_decide (f_taker_order fill = arriving))) fills) InvalidFill;
  arriving_id ← ok_or (record_id_for (se_reservations e) arriving)
    (Reservation "taker reservation is absent");
  arriving_record ← ok_or (bt_get arriving_id (rb_records (se_reservations e)))
    (Reservation "taker reservation is absent");
  _ ← fail_if (negb (is_active arriving_record) || (rec_expires_at arriving_record <? now))
    (Reservation "an inactive or expired arriving reservation cannot settle");
  filled_quantity ← ok_or (checked_sum (map f_quantity fills))
    (Reservation "fill quantity overflowed");
  _ ← fail_if (match checked_add filled_quantity arriving_remaining with
               | Some total => negb (total =? rec_original_quantity arriving_record)
               | None => true
               end)
    (Reservation "fills and arriving remainder do not conserve order quantity");
  _ ← fail_if (has_duplicate (map f_maker_order fills))
    (Reservation "one resting order cannot appear twice in an atomic match batch");
  _ ← map_err (λ _, ProofFailure "transition proof statement mismatch")
    (verify_settlement_binding transition (rec_market_id arriving_record) arriving fills
       (se_transition_committee_trust_root e));
  let market_proof_digest := ts_mpc_output_digest (auth_statement transition) in
  _ ← fail_if (is_zero market_proof_digest)
    (ProofFailure "transition omitted the MPC public-output digest");
  pq_committee ← ok_or (se_collaborative_pq_policy e)
    (ProofFailure "MPC PQ settlement committee is not pinned in DeFMI");
  frost_public ← ok_or (se_collaborative_public_key e)
    (ProofFailure "MPC settlement committee is not pinned in DeFMI");
  st ← for_each (settle_fill {|
      tm_market_id := rec_market_id arriving_record;
      tm_round_id := round_id;
      tm_market_proof_digest := market_proof_digest;
      tm_frost_public := frost_public;
      tm_pq_committee := pq_committee;
      tm_now := now |})
    {| sb_reservations := se_reservations e;
       sb_participants := se_participants e;
       sb_spent := se_spent_instructions e;
       sb_members := [] |}
    (enumerate (zip fills proofs));
  '(b1, taker_remaining) ← staged (reconcile_arriving_collaborative arriving arriving_remaining)
    (sb_reservations st);
  '(b2, _) ← staged (refresh_all (sb_participants st)) b1;
  let '(final_securities, final_cash) := ledgers_from_participants (sb_participants st) in
  _ ← fail_if (negb (ledger_conserved final_securities) || negb (ledger_conserved final_cash))
    Insolvent;
  _ ← fail_if (negb (Nat.eqb (size (sb_spent st))
      (size (se_spent_instructions e) + length fills))) ReplayAccepted;
  Ok {| sb_reservations := b2;
        sb_participants := sb_participants st;
        sb_spent := sb_spent st;
        sb_members := set_last_taker taker_remaining (sb_members st) |}.

(** The canonical step both batches end with: the height, the finality
    evidence, the installation of the staged state, and the receipt. *)
Definition commit_batch (transition : A) (st : StagedBatch) :
    method SettlementEngine SettlementError OclobSettlementReceipt :=
  e ← self;
  let before := state_snapshot e in
  let reservation_after_root := reservation_root (sb_reservations st) in
  let '(final_securities, final_cash) := ledgers_from_participants (sb_participants st) in
  let securities_after := ledger_snapshot final_securities in
  let cash_after := ledger_snapshot final_cash in
  let transition_digest := statement_digest (auth_statement transition) in
  let batch_digest := settlement_batch_digest transition_digest (sb_members st) in
  let before_root := combined_root (ss_securities_root before) (ss_cash_root before)
    (ss_reservation_root before) in
  let after_root := combined_root securities_after cash_after reservation_after_root in
  height ← try (next_height e);
  _ ← set_self (with_reservations (se_reservations e) height e);
  let canonical := {|
    ca_transaction_id := hex_encode batch_digest;
    ca_block_id := hex_encode (sha256 (ascii_bytes "OCLOB:DEFMI-BLOCK:v1"
      ++ d_bytes batch_digest ++ d_bytes after_root));
    ca_height := height;
    ca_statement := transition_digest;
    ca_before_state_root := before_root;
    ca_after_state_root := after_root |} in
  r1 ← try (map_err Finality (readback_new (resource_id "OCLOB:SECURITIES-RAIL") after_root));
  r2 ← try (map_err Finality (readback_new (resource_id "OCLOB:CASH-RAIL") after_root));
  application_binding ← try (map_err Finality manifest_digest);
  receipt_digest ← try (map_err Finality (accept_canonical_transition application_binding
    canonical transition_digest before_root [r1; r2]));
  _ ← set_self (with_settled (sb_participants st) (sb_reservations st) (sb_spent st)
        (with_reservations (se_reservations e) height e));
  mret {| sr_batch_digest := batch_digest;
          sr_members := sb_members st;
          sr_amount_range_is_threshold := true;
          sr_price_range_is_threshold := true;
          sr_settlement_authorization_quorum := 3;
          sr_post_match_participant_signatures := 0;
          sr_securities_before_root := ss_securities_root before;
          sr_securities_after_root := securities_after;
          sr_cash_before_root := ss_cash_root before;
          sr_cash_after_root := cash_after;
          sr_reservation_before_root := ss_reservation_root before;
          sr_reservation_after_root := reservation_after_root;
          sr_arriving_reservation_zkpi_digest := None;
          sr_arriving_reservation_instruction_nullifier := None;
          sr_arriving_reservation_proof_digest := None;
          sr_canonical_state_root := after_root;
          sr_canonical_receipt_digest := receipt_digest;
          sr_canonical_height := height;
          sr_avalanche_transaction_id := None;
          sr_avalanche_block_id := None;
          sr_replay_rejected := true;
          sr_solvent := true |}.

Definition settle_batch_collaborative (fills : list PublicFill)
    (proofs : list CollaborativeFillProof) (round_id : Digest32) (transition : A)
    (arriving : OrderCommitment) (arriving_remaining now : Z) :
    method SettlementEngine SettlementError OclobSettlementReceipt :=
  e ← self;
  st ← try (stage_batch e fills proofs round_id transition arriving arriving_remaining now);
  commit_batch transition st.

End batch.

End engine.
