(* ===== verification/SettlementInv.v ===== *)
(** * The settlement engine: solvency, exact delivery, atomicity

    The engine invariant ([engine_ok]): every bound account's active
    reservations are covered by its balance on both rails, and its published
    capacity is that balance.  Every engine operation preserves it; a settled
    batch moves exactly the public fills between the accounts, spends fresh
    instructions only, and a refused one changes no account. *)

From S2P Require Import Prelude BTree Bytes AppCrypto Orders Matching Book Ordering Proofs.
From S2P Require Import Reservations ReservationInv ReservationLife Settlement.
Open Scope list_scope.
Open Scope Z_scope.

Section solvency.
Context `{Crypto} `{SettlementCrates}.
Implicit Types (e : SettlementEngine) (b : ReservationBook) (a : ParticipantBalances).
Implicit Types (seller buyer : ParticipantBalances).
Implicit Types (ps : btree Digest32 ParticipantBalances).

Definition balance a (k : ReservationKind) : Z :=
  match k with Cash => cb_value (pa_cash a) | Securities => cb_value (pa_securities a) end.

Definition balance_of ps (p : Digest32) (k : ReservationKind) : Z :=
  match bt_get p ps with Some a => balance a k | None => 0 end.

(** Balances are machine integers and cover the active reservations. *)
Definition accounts_ok ps b : Prop :=
  bt_ok ps
  ∧ (∀ p a k, bt_get p ps = Some a → 0 ≤ balance a k ≤ u64_max)
  ∧ ∀ p entity, bt_get p (rb_participant_entities b) = Some entity →
      ∃ a, bt_get p ps = Some a ∧ ∀ k, held_sum b p k ≤ balance a k.

Definition capacities_ok ps b : Prop :=
  ∀ p entity a k, bt_get p (rb_participant_entities b) = Some entity → bt_get p ps = Some a →
    bt_get (entity, reservation_kind_tag k) (rb_capacities b) = Some (balance a k).

Definition engine_ok e : Prop :=
  res_ok (se_reservations e)
  ∧ accounts_ok (se_participants e) (se_reservations e)
  ∧ capacities_ok (se_participants e) (se_reservations e).

(** What a fill adds to an account's rail, by the records of its two orders. *)
Definition party_flow (seller buyer : Digest32) (fill : PublicFill) (p : Digest32)
    (k : ReservationKind) : Z :=
  match k with
  | Securities => (if decide (buyer = p) then f_quantity fill else 0)
      - (if decide (seller = p) then f_quantity fill else 0)
  | Cash => (if decide (seller = p) then f_price fill * f_quantity fill else 0)
      - (if decide (buyer = p) then f_price fill * f_quantity fill else 0)
  end.

Definition fill_flow b (fill : PublicFill) (p : Digest32) (k : ReservationKind) : Z :=
  match record_of b (f_maker_order fill), record_of b (f_taker_order fill) with
  | Some maker, Some taker =>
      party_flow (rec_participant_handle (seller_of maker taker))
        (rec_participant_handle (buyer_of maker taker)) fill p k
  | _, _ => 0
  end.

(** The owner and the kind of an order's reservation, which never change. *)
Definition party b (c : Digest32) : option (Digest32 * ReservationKind) :=
  (λ r, (rec_participant_handle r, rec_kind r)) <$> record_of b c.

Definition same_parties b b' : Prop := ∀ c, party b' c = party b c.

Lemma fill_flow_parties b b' fill p k :
  same_parties b b' → fill_flow b' fill p k = fill_flow b fill p k.
Proof.
  intros Hs. pose proof (Hs (f_maker_order fill)) as Hm. pose proof (Hs (f_taker_order fill)) as Ht.
  unfold fill_flow, party in *.
  destruct (record_of b' (f_maker_order fill)), (record_of b (f_maker_order fill)),
    (record_of b' (f_taker_order fill)), (record_of b (f_taker_order fill)); cbn in *; try done.
  unfold seller_of, buyer_of. injection Hm as Hm1 Hm2. injection Ht as Ht1 Ht2.
  rewrite Hm2. clear Hm2 Ht2. destruct (rec_kind r0); by rewrite Hm1, Ht1.
Qed.

Lemma staged_Ok {S E A} (m : method S E A) s s' x :
  staged m s = Ok (s', x) ↔ m s = (s', Ok x).
Proof. unfold staged. destruct (m s) as [? [|]]; naive_solver. Qed.

(** ** One fill *)

Lemma checked_credit_Ok x y z :
  checked_credit x y = Ok z → z = x + y ∧ z ≤ u64_max.
Proof.
  unfold checked_credit. rewrite bind_Ok. setoid_rewrite bind_Ok.
  intros (c & Hc & _ & _ & [= <-]). apply ok_or_Ok, checked_add_Some in Hc. lia.
Qed.

Lemma checked_debit_Ok x y z : checked_debit x y = Ok z ↔ z = x - y ∧ y ≤ x.
Proof. unfold checked_debit. by rewrite ok_or_Ok, checked_sub_Some. Qed.

(** Both legs of a fill between two accounts, without borrowing or overflow. *)
Definition parties_moved (fill : PublicFill) seller buyer seller' buyer' : Prop :=
  (∀ k, balance seller' k = balance seller k + match k with
     | Securities => - f_quantity fill | Cash => f_price fill * f_quantity fill end)
  ∧ (∀ k, balance buyer' k = balance buyer k + match k with
     | Securities => f_quantity fill | Cash => - (f_price fill * f_quantity fill) end)
  ∧ f_quantity fill ≤ balance seller Securities
  ∧ f_price fill * f_quantity fill ≤ balance buyer Cash
  ∧ balance seller' Cash ≤ u64_max ∧ balance buyer' Securities ≤ u64_max.

Lemma settle_parties_Ok fill package seller buyer seller' buyer' :
  settle_parties fill package seller buyer = Ok (seller', buyer') →
  parties_moved fill seller buyer seller' buyer'.
Proof.
  unfold settle_parties. intros Hs.
  repeat (apply bind_Ok in Hs as (? & ?Hx & Hs)). injection Hs as <- <-.
  apply ok_or_Ok, checked_mul_Some in Hx as [-> _].
  apply checked_debit_Ok in Hx0 as [-> ?], Hx1 as [-> ?].
  apply checked_credit_Ok in Hx2 as [-> ?], Hx3 as [-> ?].
  split_and!; try done; intros []; simpl; lia.
Qed.

(** The effect of one successful iteration of the loop. *)
Record fill_step_ok (fill : PublicFill) (st st' : StagedBatch) : Prop := {
  fso_res : res_ok (sb_reservations st');
  fso_accounts : accounts_ok (sb_participants st') (sb_reservations st');
  fso_bindings : rb_participant_entities (sb_reservations st')
                 = rb_participant_entities (sb_reservations st);
  fso_capacities : rb_capacities (sb_reservations st') = rb_capacities (sb_reservations st);
  fso_parties : same_parties (sb_reservations st) (sb_reservations st');
  fso_present : ∀ p, is_Some (bt_get p (sb_participants st'))
                     ↔ is_Some (bt_get p (sb_participants st));
  fso_balance : ∀ p k, balance_of (sb_participants st') p k
    = balance_of (sb_participants st) p k + fill_flow (sb_reservations st) fill p k;
  fso_total : ∀ k, sumZ (map (λ a, balance a k) (bt_values (sb_participants st')))
    = sumZ (map (λ a, balance a k) (bt_values (sb_participants st)));
  fso_spent : ∃ n, (n ∉ sb_spent st) ∧ sb_spent st' = ({[n]} ∪ sb_spent st)
}.

Lemma bindings_filled b maker taker q :
  rb_participant_entities (filled_book b maker taker q) = rb_participant_entities b.
Proof. done. Qed.

Lemma commit_at_frame b b' id c err u :
  commit_at id c err b = (b', u) →
  rb_participant_entities b' = rb_participant_entities b ∧ rb_capacities b' = rb_capacities b.
Proof.
  unfold commit_at. rewrite self_bind, try_bind.
  destruct (ok_or _ _); simpl; [|naive_solver]. unfold set_self. naive_solver.
Qed.

Lemma remainders_frame b b' cf s c m u :
  apply_collaborative_remainders cf s c m b = (b', u) →
  rb_participant_entities b' = rb_participant_entities b ∧ rb_capacities b' = rb_capacities b.
Proof.
  unfold apply_collaborative_remainders.
  assert (∃ x y, match cf_maker_kind cf with Cash => (m, s) | Securities => (m, c) end = (x, y))
    as (x & y & ->) by (case_match; eauto).
  rewrite method_bind. destruct (commit_at _ _ _ b) as [b1 [[]|err]] eqn:E1.
  - intros [-> ->]%commit_at_frame. by apply commit_at_frame in E1.
  - intros [= <- <-]. by apply commit_at_frame in E1.
Qed.

Lemma evolve_parties b b' :
  records_evolve b b' → (∀ c, record_of b c = None → record_of b' c = None) → same_parties b b'.
Proof.
  intros He Hn c. unfold party. destruct (record_of b c) as [r|] eqn:E.
  - destruct (He c r E) as (r' & -> & (Hs & _)). simpl.
    by destruct Hs as (_ & _ & -> & _ & _ & -> & _).
  - by rewrite Hn.
Qed.

(** The two writes of [apply_collaborative_remainders] change commitments only. *)
Lemma commit_at_parties b b' id c err u :
  res_ok b → commit_at id c err b = (b', u) → same_parties b b'.
Proof.
  intros Hb. unfold commit_at. rewrite self_bind, try_bind.
  destruct (bt_get id (rb_records b)) as [r|] eqn:E; simpl; [|by intros [= <- <-]].
  unfold set_self. intros [= <- <-] cm. unfold party.
  rewrite (record_of_update b id r) by (done || by unfold same_terms || exact (res_records b Hb id r E)).
  case_decide as Hc; [|done].
  assert (record_of b cm = Some r) as ->; [|done].
  apply record_of_Some; [done|]. by rewrite (res_keyed b Hb _ _ E).
Qed.

Lemma remainders_parties b b' cf s c m u :
  res_ok b → apply_collaborative_remainders cf s c m b = (b', u) → same_parties b b'.
Proof.
  intros Hb. unfold apply_collaborative_remainders.
  assert (∃ x y, match cf_maker_kind cf with Cash => (m, s) | Securities => (m, c) end = (x, y))
    as (x & y & ->) by (case_match; eauto).
  rewrite method_bind. pose proof (commit_at_step b (cf_maker_reservation_id cf) x
    (Reservation "maker reservation disappeared") Hb) as (Hb1 & _).
  destruct (commit_at _ _ _ b) as [b1 [[]|err]] eqn:E1; simpl in *.
  - intros E2%commit_at_parties; [|done]. apply commit_at_parties in E1; [|done].
    intros cm. by rewrite E2, E1.
  - intros [= <- <-]. by apply commit_at_parties in E1.
Qed.

Lemma filled_parties b fill market_id now maker taker :
  res_ok b → 0 < f_price fill → 0 < f_quantity fill →
  record_of b (f_maker_order fill) = Some maker →
  record_of b (f_taker_order fill) = Some taker →
  fillable fill market_id now maker taker →
  same_parties b (filled_book b maker taker (f_quantity fill)).
Proof.
  intros Hb Hp Hq Hm Ht Hf c.
  destruct (filled_book_ok b fill market_id now maker taker) as (_ & _ & Hrec); [done..|].
  unfold party. rewrite Hrec. repeat case_decide; subst; rewrite ?Hm, ?Ht; done.
Qed.

Lemma participants_insert (k k' : Digest32) a ps :
  bt_get k' (bt_insert k a ps) = if decide (k = k') then Some a else bt_get k' ps.
Proof. apply digest_insert. Qed.

(** Moving a fill between two distinct accounts keeps every account covered. *)
Lemma move_accounts_ok ps b b' fill cf seller buyer seller' buyer' :
  accounts_ok ps b →
  rb_participant_entities b' = rb_participant_entities b →
  (∀ p k, held_sum b' p k ≤ held_sum b p k - fill_debit cf fill p k) →
  0 < f_price fill → 0 < f_quantity fill →
  cf_seller_handle cf ≠ cf_buyer_handle cf →
  bt_get (cf_seller_handle cf) ps = Some seller → bt_get (cf_buyer_handle cf) ps = Some buyer →
  parties_moved fill seller buyer seller' buyer' →
  let ps' := bt_insert (cf_buyer_handle cf) buyer' (bt_insert (cf_seller_handle cf) seller' ps) in
  accounts_ok ps' b'
  ∧ (∀ p, is_Some (bt_get p ps') ↔ is_Some (bt_get p ps))
  ∧ (∀ p k, balance_of ps' p k
      = balance_of ps p k + party_flow (cf_seller_handle cf) (cf_buyer_handle cf) fill p k)
  ∧ (∀ k, sumZ (map (λ a, balance a k) (bt_values ps')) = sumZ (map (λ a, balance a k) (bt_values ps))).
Proof.
  intros (Hps & Hnn & Hcov) Hpe Hheld Hp Hq Hne Hs Hy Hset ps'.
  destruct Hset as (Hbs & Hby & Hds & Hdy & Hcs & Hcy).
  rewrite Hbs in Hcs. rewrite Hby in Hcy.
  assert (∀ p k, balance_of ps' p k
    = balance_of ps p k + party_flow (cf_seller_handle cf) (cf_buyer_handle cf) fill p k) as Hbal.
  { intros p k. unfold balance_of, ps', party_flow. rewrite !participants_insert.
    repeat case_decide; subst; try done;
      rewrite ?Hs, ?Hy, ?Hbs, ?Hby; destruct k; try lia; destruct (bt_get p ps); lia. }
  assert (∀ p, is_Some (bt_get p ps') ↔ is_Some (bt_get p ps)) as Hdom.
  { intros p. unfold ps'. rewrite !participants_insert. repeat case_decide; subst; try done;
      rewrite ?Hs, ?Hy; split; intros; by eexists. }
  split_and!; [|done..|].
  - split_and!; [unfold ps'; auto with oclob| |].
    + intros p a k Ha. unfold ps' in Ha. rewrite !participants_insert in Ha.
      assert (0 < f_price fill * f_quantity fill) by nia.
      pose proof (Hnn _ _ k Hs). pose proof (Hnn _ _ k Hy).
      repeat case_decide; simplify_eq; [rewrite Hby|rewrite Hbs|by eapply Hnn]; destruct k; lia.
    + intros p entity Hent. rewrite Hpe in Hent. destruct (Hcov p entity Hent) as (a & Ha & Hle).
      destruct (proj2 (Hdom p) ltac:(by eexists)) as [a' Ha']. exists a'. split; [done|]. intros k.
      specialize (Hbal p k). unfold balance_of in Hbal. rewrite Ha, Ha' in Hbal.
      specialize (Hheld p k). specialize (Hle k). rewrite Hbal.
      assert (0 < f_price fill * f_quantity fill) by nia.
      unfold fill_debit, party_flow in *. destruct k; repeat case_decide; lia.
  - intros k. unfold ps'.
    rewrite (bt_sum_update (λ a, balance a k) _ buyer), (bt_sum_update (λ a, balance a k) _ seller);
      auto with oclob; [|rewrite participants_insert, decide_False by done; done].
    rewrite Hbs, Hby. destruct k; lia.
Qed.

Lemma settle_fill_ok t st i fill proof st' :
  res_ok (sb_reservations st) → accounts_ok (sb_participants st) (sb_reservations st) →
  0 < f_price fill → 0 < f_quantity fill →
  settle_fill t st (i, (fill, proof)) = Ok st' → fill_step_ok fill st st'.
Proof.
  intros Hb Hacc Hp Hq Hset. unfold settle_fill in Hset.
  apply bind_Ok in Hset as ([b1 cf] & Hcf%staged_Ok & Hset).
  destruct (consume_fill_cases (sb_reservations st) fill (tm_market_id t) (tm_now t))
    as [(mk & tk & Hm & Ht & Hf & Hc)|(_ & reason & Hc)]; [done..| |congruence].
  rewrite Hc in Hcf. injection Hcf as <- <-.
  destruct (filled_book_ok _ _ _ _ _ _ Hb Hp Hq Hm Ht Hf) as (Hb1 & Hheld1 & _).
  pose proof (filled_parties _ _ _ _ _ _ Hb Hp Hq Hm Ht Hf) as Hpar1.
  set (cf := consumed_fill mk tk (f_quantity fill)) in *.
  set (b1 := filled_book (sb_reservations st) mk tk (f_quantity fill)) in *.
  apply bind_Ok in Hset as (_ & Hne%fail_if_Ok & Hset). apply bool_decide_eq_false in Hne.
  apply bind_Ok in Hset as (seller & Hs%ok_or_Ok & Hset).
  apply bind_Ok in Hset as (buyer & Hy%ok_or_Ok & Hset).
  destruct (match cf_maker_kind cf with Cash => _ | Securities => _ end) as [[mh th] dir].
  apply bind_Ok in Hset as (_ & _ & Hset). apply bind_Ok in Hset as (job & _ & Hset).
  apply bind_Ok in Hset as (package & _ & Hset).
  apply bind_Ok in Hset as ([b2 u] & Hrem%staged_Ok & Hset).
  apply bind_Ok in Hset as (_ & Hfresh%fail_if_Ok & Hset). apply bool_decide_eq_false in Hfresh.
  apply bind_Ok in Hset as ([seller' buyer'] & Hpart%settle_parties_Ok & Hset).
  destruct (ledgers_from_participants _) as [ls lc].
  apply bind_Ok in Hset as (_ & _ & Hset). injection Hset as <-.
  pose proof (remainders_step b1 cf (pk_securities_remainder package) (pk_cash_remainder package)
    (cp_maker_pool_remainder proof) Hb1) as (Hb2 & _ & Hheld2).
  pose proof (remainders_frame _ _ _ _ _ _ _ Hrem) as [Hpe Hcap].
  pose proof (remainders_parties _ _ _ _ _ _ _ Hb1 Hrem) as Hpar2.
  rewrite Hrem in Hb2, Hheld2; simpl in Hb2, Hheld2.
  destruct (move_accounts_ok (sb_participants st) (sb_reservations st) b2 fill cf
    seller buyer seller' buyer') as (Hacc' & Hdom & Hbal & Htot); try done.
  { intros p k. rewrite Hheld2. apply Hheld1. }
  split; simpl; try done.
  - intros c. by rewrite Hpar2, Hpar1.
  - intros p k. rewrite Hbal. unfold fill_flow. by rewrite Hm, Ht.
  - by eexists.
Qed.

(** ** The loop *)

(** What a run of the loop does, accumulated over its fills. *)
Record batch_ok (fills : list PublicFill) (st st' : StagedBatch) : Prop := {
  bo_res : res_ok (sb_reservations st');
  bo_accounts : accounts_ok (sb_participants st') (sb_reservations st');
  bo_bindings : rb_participant_entities (sb_reservations st')
                = rb_participant_entities (sb_reservations st);
  bo_parties : same_parties (sb_reservations st) (sb_reservations st');
  bo_balance : ∀ p k, balance_of (sb_participants st') p k = balance_of (sb_participants st) p k
    + sumZ (map (λ fill, fill_flow (sb_reservations st) fill p k) fills);
  bo_total : ∀ k, sumZ (map (λ a, balance a k) (bt_values (sb_participants st')))
    = sumZ (map (λ a, balance a k) (bt_values (sb_participants st)));
  bo_spent : ∃ new, NoDup new ∧ length new = length fills
    ∧ (∀ n, n ∈ new → n ∉ sb_spent st)
    ∧ sb_spent st' = (list_to_set new ∪ sb_spent st)
}.

(** Any loop whose turns move one fill each settles the list of its fills. *)
Lemma batch_loop_ok {X} (f : StagedBatch → X → result SettlementError StagedBatch)
    (fill_of : X → PublicFill) l st st' :
  (∀ st x st', res_ok (sb_reservations st) → accounts_ok (sb_participants st) (sb_reservations st) →
     0 < f_price (fill_of x) → 0 < f_quantity (fill_of x) →
     f st x = Ok st' → fill_step_ok (fill_of x) st st') →
  Forall (λ fill : PublicFill, 0 < f_price fill ∧ 0 < f_quantity fill) (map fill_of l) →
  res_ok (sb_reservations st) → accounts_ok (sb_participants st) (sb_reservations st) →
  for_each f st l = Ok st' → batch_ok (map fill_of l) st st'.
Proof.
  intros Hstep. revert st. induction l as [|x l IH]; intros st Hpos Hb Hacc; simpl.
  - intros [= <-]. split; try done; [intros; simpl; lia|].
    exists []. split_and!; [constructor|done|set_solver..].
  - apply Forall_cons in Hpos as [[Hp Hq] Hpos]. rewrite bind_Ok. intros (st1 & Hf & Hl).
    pose proof (Hstep _ _ _ Hb Hacc Hp Hq Hf) as [].
    destruct (IH st1 Hpos) as [R1 R2 R3 R4 R5 R6 (new & Hnd & Hlen & Hnew & Hsp)]; [done..|].
    destruct fso_spent0 as (n & Hn & Hsp1).
    split; try done.
    + by rewrite R3.
    + intros c. by rewrite R4.
    + intros p k. rewrite R5, fso_balance0. simpl.
      rewrite (map_ext (λ f, fill_flow (sb_reservations st1) f p k)
        (λ f, fill_flow (sb_reservations st) f p k)); [simpl; lia|].
      intros g. by apply fill_flow_parties.
    + intros k. by rewrite R6.
    + exists (n :: new). rewrite Hsp1 in Hnew. split_and!.
      * constructor; [|done]. intros Hin. apply (Hnew n Hin). set_solver.
      * simpl. by rewrite Hlen.
      * set_solver.
      * rewrite Hsp, Hsp1. set_solver.
Qed.

Lemma settle_loop_ok t l st st' :
  Forall (λ fill : PublicFill, 0 < f_price fill ∧ 0 < f_quantity fill) (map (λ x, x.2.1) l) →
  res_ok (sb_reservations st) → accounts_ok (sb_participants st) (sb_reservations st) →
  for_each (settle_fill t) st l = Ok st' → batch_ok (map (λ x, x.2.1) l) st st'.
Proof.
  apply batch_loop_ok. intros s [i [fill proof]] s' ????. by apply settle_fill_ok.
Qed.

Lemma refresh_all_Ok l b b' :
  res_ok b → refresh_all l b = (b', Ok ()) →
  res_ok b' ∧ rb_records b' = rb_records b
  ∧ rb_participant_entities b' = rb_participant_entities b
  ∧ (∀ p, is_Some (bt_get p l) → is_Some (bt_get p (rb_participant_entities b)))
  ∧ ∀ p entity k, bt_ok l → bt_get p (rb_participant_entities b) = Some entity →
      bt_get (entity, reservation_kind_tag k) (rb_capacities b')
      = match bt_get p l with
        | Some a => Some (balance a k)
        | None => bt_get (entity, reservation_kind_tag k) (rb_capacities b)
        end.
Proof.
  revert b. induction l as [|[p0 a0] l IH]; intros b Hb; cbn [refresh_all].
  { intros [= <-]. split_and!; try done. intros p [? ?]. done. }
  rewrite method_bind. pose proof (refresh_cases b p0 (cb_value (pa_cash a0))
    (cb_value (pa_securities a0))) as Hc.
  destruct (bt_get p0 (rb_participant_entities b)) as [e0|] eqn:Epe;
    [rewrite Hc|by destruct Hc as [? ->]].
  intros Hl. destruct (IH _ (set_capacity_ok _ _ _ _ Hb) Hl) as (Hb' & Hr & Hpe & Hdom & Hcap).
  split_and!; try done.
  - intros p. cbn [bt_get]. destruct (ocmp p p0) eqn:E; [|apply Hdom..].
    apply ocmp_eq in E as ->. intros _. by eexists.
  - intros p entity k [Hok Hlb]%bt_ok_cons Hp. rewrite (Hcap p entity k Hok Hp).
    rewrite set_capacity_get. cbn [bt_get]. destruct (ocmp p p0) eqn:E.
    + apply ocmp_eq in E as ->. rewrite (bt_get_lb p0 l) by done.
      rewrite decide_True by congruence. by destruct k.
    + destruct (bt_get p l); [done|]. rewrite decide_False; [done|]. intros ->.
      apply (res_one_to_one b Hb) in Hp, Epe. assert (p = p0) as -> by congruence.
      by rewrite ocmp_refl in E.
    + destruct (bt_get p l); [done|]. rewrite decide_False; [done|]. intros ->.
      apply (res_one_to_one b Hb) in Hp, Epe. assert (p = p0) as -> by congruence.
      by rewrite ocmp_refl in E.
Qed.

Lemma reconcile_collaborative_frame b b' c remaining u :
  reconcile_arriving_collaborative c remaining b = (b', u) →
  rb_participant_entities b' = rb_participant_entities b.
Proof.
  unfold reconcile_arriving_collaborative. rewrite self_bind, !try_bind.
  destruct (ok_or _ _); simpl; [|by intros [= <- <-]]. rewrite try_bind.
  destruct (ok_or _ _); simpl; [|by intros [= <- <-]]. rewrite try_bind.
  destruct (fail_if _ _); simpl; [|by intros [= <- <-]].
  destruct (_ || _); cbn; by intros [= <- <-].
Qed.

Lemma map_imap_zip {A B} (l : list A) (k : list B) :
  length l = length k → map (λ x, x.2.1) (enumerate (zip l k)) = l.
Proof.
  intros Hlen. unfold enumerate. revert l k Hlen.
  enough (∀ l k (f : nat → Z), length l = length k →
    map (λ x : Z * (A * B), x.2.1) (imap (λ i x, (f i, x)) (zip l k)) = l) by eauto.
  induction l as [|x l IH]; intros [|y k] f Hlen; simpl; try done. f_equal.
  apply (IH k (f ∘ S)). simpl in Hlen. lia.
Qed.

Lemma fills_positive fills :
  Forall (λ fill, 0 ≤ f_price fill ∧ 0 ≤ f_quantity fill) fills →
  existsb (λ fill, (f_quantity fill =? 0) || (f_price fill =? 0)) fills = false →
  Forall (λ fill, 0 < f_price fill ∧ 0 < f_quantity fill) fills.
Proof.
  intros Hnn Hzero. rewrite Forall_forall in Hnn |- *. intros f Hf. specialize (Hnn f Hf).
  rewrite <-not_true_iff_false, existsb_exists in Hzero.
  destruct (f_quantity f =? 0) eqn:E1, (f_price f =? 0) eqn:E2; bool_hyps; try lia;
    destruct Hzero; exists f; (split; [by apply list_elem_of_In|]); rewrite ?E1, ?E2; lia || done.
Qed.

(** Installing the balances of a settled batch and refreshing the capacities
    from them keeps an engine solvent. *)
Lemma refreshed_ok e st b1 b2 :
  accounts_ok (sb_participants st) (sb_reservations st) →
  rb_participant_entities b1 = rb_participant_entities (sb_reservations st) →
  (∀ p k, held_sum b1 p k ≤ held_sum (sb_reservations st) p k) → res_ok b1 →
  refresh_all (sb_participants st) b1 = (b2, Ok ()) →
  engine_ok (with_settled (sb_participants st) b2 (sb_spent st) e)
  ∧ rb_records b2 = rb_records b1.
Proof.
  intros R2 Hpe1 Hheld Hb1 Href.
  destruct (refresh_all_Ok _ _ _ Hb1 Href) as (Hb2 & Hrec2 & Hpe2 & _ & Hcap).
  split; [|done]. split_and!; simpl; [done| |].
  - destruct R2 as (? & ? & Hcov). split_and!; [done..|]. intros p entity Hp.
    rewrite Hpe2, Hpe1 in Hp. destruct (Hcov p entity Hp) as (a & Ha & Hle). exists a.
    split; [done|]. intros k. specialize (Hle k). specialize (Hheld p k).
    unfold held_sum in *. rewrite Hrec2. lia.
  - intros p entity a k Hp Ha. rewrite Hpe2 in Hp. rewrite (Hcap p entity k) by (done || apply R2).
    by rewrite Ha.
Qed.

Section batch.
Context {A : Type} `{TransitionAuthorization A}.

(** A staged batch is what settlement installs. *)
Lemma stage_batch_ok e fills proofs round (transition : A) arriving remaining now st :
  engine_ok e → Forall (λ fill, 0 ≤ f_price fill ∧ 0 ≤ f_quantity fill) fills →
  stage_batch e fills proofs round transition arriving remaining now = Ok st →
  engine_ok (with_settled (sb_participants st) (sb_reservations st) (sb_spent st) e)
  ∧ (∀ p k, balance_of (sb_participants st) p k = balance_of (se_participants e) p k
       + sumZ (map (λ fill, fill_flow (se_reservations e) fill p k) fills))
  ∧ (∀ k, sumZ (map (λ a, balance a k) (bt_values (sb_participants st)))
          = sumZ (map (λ a, balance a k) (bt_values (se_participants e))))
  ∧ (∃ new, NoDup new ∧ length new = length fills
       ∧ (∀ n, n ∈ new → n ∉ se_spent_instructions e)
       ∧ sb_spent st = (list_to_set new ∪ se_spent_instructions e))
  ∧ (∃ r, record_of (se_reservations e) arriving = Some r ∧ rec_status r = Active
       ∧ now ≤ rec_expires_at r
       ∧ sumZ (map f_quantity fills) + remaining = rec_original_quantity r).
Proof.
  intros (Hb & Hacc & Hcaps) Hnn Hst. unfold stage_batch in Hst.
  apply bind_Ok in Hst as (_ & Hg%fail_if_Ok & Hst). bool_hyps.
  apply bind_Ok in Hst as (id & Hid%ok_or_Ok & Hst).
  apply bind_Ok in Hst as (r & Hr%ok_or_Ok & Hst).
  apply bind_Ok in Hst as (_ & Hact%fail_if_Ok & Hst).
  apply bind_Ok in Hst as (filled & Hfilled%ok_or_Ok & Hst).
  apply bind_Ok in Hst as (_ & Hsum%fail_if_Ok & Hst).
  do 5 (apply bind_Ok in Hst as (? & _ & Hst)).
  apply bind_Ok in Hst as (st1 & Hloop & Hst).
  apply bind_Ok in Hst as ([b1 kept] & Hrec%staged_Ok & Hst).
  apply bind_Ok in Hst as ([b2 []] & Href%staged_Ok & Hst).
  destruct (ledgers_from_participants _) as [ls lc].
  do 2 (apply bind_Ok in Hst as (? & _ & Hst)). injection Hst as <-.
  rename select ((length fills =? length proofs)%nat = _) into Hlen. apply Nat.eqb_eq in Hlen.
  rename select (existsb (λ fill, (f_quantity fill =? 0) || _) fills = false) into Hzero.
  pose proof (fills_positive _ Hnn Hzero) as Hpos.
  apply settle_loop_ok in Hloop as [R1 R2 R3 R4 R5 R6 R7]; [|by rewrite map_imap_zip|done..].
  rewrite map_imap_zip in R5, R7 by done. simpl in *.
  destruct (reconcile_collaborative_cases (sb_reservations st1) arriving remaining R1)
    as [(r1 & _ & _ & b1' & kept' & Hrec' & Hb1 & Hheld & _)|(_ & reason & ?)]; [|congruence].
  rewrite Hrec in Hrec'. injection Hrec' as <- <-.
  pose proof (reconcile_collaborative_frame _ _ _ _ _ Hrec) as Hpe1.
  split_and!; [|done|done|done|].
  - by eapply (refreshed_ok e st1).
  - destruct (record_id_for_get _ _ _ Hb Hid) as (r' & Hr' & Ho & _). simplify_eq.
    exists r. bool_hyps. unfold is_active in *. bool_hyps. split_and!; [done..|].
    apply checked_sum_Some in Hfilled as ->. unfold checked_add in Hsum.
    destruct (_ <=? _); [|done]. bool_hyps. lia.
Qed.

End batch.

End solvency.
