(* ===== verification/SettlementLife.v ===== *)
(** * The settlement engine: solvency of its operations and settlement claims

    Creation and every operation of the collaborative path keep an engine
    solvent; the exact effect and the atomicity of a collaborative settlement
    batch, and the consequence of the quantity check for immediate-or-cancel
    orders. *)

From S2P Require Import Prelude BTree Bytes AppCrypto Orders Matching Book Ordering Proofs.
From S2P Require Import Reservations ReservationInv ReservationLife Settlement SettlementInv.
Open Scope list_scope.
Open Scope Z_scope.

Section life.
Context `{Crypto} `{SettlementCrates}.
Implicit Types (e : SettlementEngine).

Lemma engine_ok_frame e e' :
  se_participants e' = se_participants e → se_reservations e' = se_reservations e →
  engine_ok e → engine_ok e'.
Proof. unfold engine_ok. by intros -> ->. Qed.

(** Shrinking reservations under the same bindings keeps an engine solvent. *)
Lemma shrink_ok e b' h :
  engine_ok e → res_ok b' →
  rb_participant_entities b' = rb_participant_entities (se_reservations e) →
  rb_capacities b' = rb_capacities (se_reservations e) →
  (∀ p k, held_sum b' p k ≤ held_sum (se_reservations e) p k) →
  engine_ok (with_reservations b' h e).
Proof.
  intros (Hb & (Hps & Hnn & Hcov) & Hcaps) Hb' Hpe Hcap Hle. split_and!; simpl; [done| |].
  - split_and!; [done..|]. intros p entity Hp. rewrite Hpe in Hp.
    destruct (Hcov p entity Hp) as (a & Ha & Hk). exists a. split; [done|].
    intros k. specialize (Hk k). specialize (Hle p k). lia.
  - intros p entity a k. rewrite Hpe, Hcap. apply Hcaps.
Qed.

Lemma release_shrinks b c :
  res_ok b →
  let b' := (release_order c b).1 in
  res_ok b' ∧ rb_participant_entities b' = rb_participant_entities b
  ∧ rb_capacities b' = rb_capacities b ∧ ∀ p k, held_sum b' p k ≤ held_sum b p k.
Proof.
  intros Hb. destruct (release_cases b c Hb) as [(r & Hr & Ha & ->)|(_ & reason & ->)]; [|done].
  destruct (closed_book_ok b c r Released) as (? & Hh & _); [done..|]. split_and!; try done.
  intros p k. cbn [fst]. rewrite Hh.
  apply record_of_Some in Hr as [Hr _]; [|done].
  pose proof (held_nonneg p k r (res_records b Hb _ _ Hr)). lia.
Qed.

Lemma release_each_shrinks l b b' u :
  res_ok b → release_each l b = (b', u) →
  res_ok b' ∧ rb_participant_entities b' = rb_participant_entities b
  ∧ rb_capacities b' = rb_capacities b ∧ ∀ p k, held_sum b' p k ≤ held_sum b p k.
Proof.
  revert b. induction l as [|c l IH]; intros b Hb; cbn [release_each].
  { by intros [= <- <-]. }
  rewrite method_bind. pose proof (release_shrinks b c Hb) as (H1' & H2' & H3' & H4').
  destruct (release_order c b) as [b1 [[]|err]] eqn:E; cbn [fst] in *.
  - intros (Hb' & Hpe & Hcap & Hh)%IH; [|done]. split_and!; [done|congruence..|].
    intros p k. specialize (Hh p k). specialize (H4' p k). lia.
  - by intros [= <- <-].
Qed.

Lemma pin_frame e key policy :
  let e' := (pin_collaborative_settlement_committee key policy e).1 in
  se_participants e' = se_participants e ∧ se_reservations e' = se_reservations e.
Proof.
  unfold pin_collaborative_settlement_committee. rewrite self_bind, !try_bind.
  repeat (case_match; simplify_eq/=; try done; rewrite ?try_bind); unfold try; done.
Qed.

Lemma bind_step_ok e p entity :
  engine_ok e → engine_ok (bind_eligible_participant p entity e).1.
Proof.
  intros He. unfold bind_eligible_participant. rewrite self_bind, try_bind.
  destruct (bt_get p (se_participants e)) as [a|] eqn:Ea; simpl; [|done].
  destruct He as (Hb & (Hps & Hnn & Hcov) & Hcaps).
  destruct (bind_cases (se_reservations e) p entity (cb_value (pa_cash a))
    (cb_value (pa_securities a))) as [[Hbd ->]|(_ & reason & ->)].
  2:{ rewrite set_self_bind. by apply (engine_ok_frame e). }
  rewrite set_self_bind. unfold try. cbn [fst]. pose proof (bound_book_ok _ _ _ (cb_value (pa_cash a)) (cb_value (pa_securities a)) Hb Hbd)
    as Hb'.
  split_and!; cbn [se_reservations se_participants with_reservations]; [done| |].
  - split_and!; [done..|]. intros q ent.
    cbn [rb_participant_entities bound_book set_capacity]. rewrite digest_insert. case_decide as E.
    + intros [= <-]. subst q. exists a. split; [done|]. intros k. change (held_sum (bound_book _ _ _ _ _) p k)
        with (held_sum (se_reservations e) p k).
      destruct Hbd as (_ & _ & [Hn|Hs] & _); [|destruct (Hcov p entity Hs) as (? & ? & ?); by simplify_eq].
      assert (held_sum (se_reservations e) p k = 0) as ->; [|by apply Hnn with p].
      unfold held_sum. rewrite <-(Z.mul_0_l 0).
      assert (∀ r, r ∈ bt_values (rb_records (se_reservations e)) → held p k r = 0) as Hz.
      { intros r [id Hid]%bt_value_get; [|by apply res_rec_ok].
        pose proof (res_bound _ Hb _ _ Hid) as Hbd. unfold held.
        rewrite bool_decide_false; [done|]. intros <-. congruence. }
      clear -Hz. induction (bt_values _) as [|r l IH]; simpl; [done|].
      rewrite Hz by (left). rewrite IH; [done|]. intros; apply Hz; by right.
    + intros Hq. apply (Hcov q ent Hq).
  - intros q ent a' k. cbn [rb_participant_entities bound_book set_capacity]. rewrite digest_insert.
    unfold bound_book. rewrite set_capacity_get. cbn [rb_capacities]. case_decide as E.
    + intros [= <-] Ha. subst q. rewrite decide_True by done. simplify_eq. by destruct k.
    + intros Hq Ha. rewrite decide_False; [by eapply Hcaps|]. intros <-.
      apply (res_one_to_one _ Hb) in Hq. destruct Hbd as (_ & _ & _ & [Hn|Hs]); congruence.
Qed.

Lemma reserve_step_ok {O} `{SettlementOrderView O} e (order : O) c :
  engine_ok e → view_ok order → engine_ok (reserve_order_with_commitment order c e).1.
Proof.
  intros He Hv. pose proof He as (Hb & (Hps & Hnn & Hcov) & Hcaps).
  unfold reserve_order_with_commitment. rewrite self_bind, try_bind. unfold staged.
  destruct (reserve_cases order c (se_reservations e) Hb Hv)
    as [(Hr & rc & -> & _)|(_ & reason & ->)]; simpl; [|done].
  rewrite try_bind. destruct (next_height e) as [h|err]; [|done].
  rewrite set_self_bind. cbn [fst mret method_mret].
  destruct (reserved_book_ok order c _ Hb Hv Hr) as (Hb' & Hheld & _).
  split_and!; cbn [se_reservations se_participants with_reservations]; [done| |].
  - split_and!; [done..|]. intros p entity Hp. cbn in Hp.
    destruct (Hcov p entity Hp) as (a & Ha & Hle). exists a. split; [done|]. intros k.
    rewrite Hheld. case_decide as E; [|specialize (Hle k); lia].
    destruct E as [<- <-]. destruct Hr as (_ & Hbound & _ & _ & cap & Hcap & Hroom).
    rewrite Hp in Hbound. injection Hbound as ->.
    rewrite (Hcaps _ _ _ _ Hp Ha) in Hcap. injection Hcap as <-. lia.
  - exact Hcaps.
Qed.

Lemma commit_Ok {A} `{TransitionAuthorization A} e e' (transition : A) st receipt :
  commit_batch transition st e = (e', Ok receipt) →
  sr_reservation_after_root receipt = reservation_root (sb_reservations st)
  ∧ e' = with_settled (sb_participants st) (sb_reservations st) (sb_spent st)
           (with_reservations (se_reservations e) (se_height e + 1) e).
Proof.
  unfold commit_batch. rewrite self_bind.
  destruct (ledgers_from_participants _) as [ls lc]. rewrite try_bind.
  destruct (next_height e) as [h|err] eqn:Eh; [|done]. rewrite set_self_bind.
  apply ok_or_Ok, checked_add_Some in Eh as [-> _].
  repeat (rewrite try_bind; case_match; [|done]). rewrite set_self_bind.
  by intros [= <- <-].
Qed.

Lemma commit_Err {A} `{TransitionAuthorization A} e e' (transition : A) st err :
  commit_batch transition st e = (e', Err err) →
  e' = e ∨ e' = with_reservations (se_reservations e) (se_height e + 1) e ∧ ∃ s, err = Finality s.
Proof.
  unfold commit_batch. rewrite self_bind.
  destruct (ledgers_from_participants _) as [ls lc]. rewrite try_bind.
  destruct (next_height e) as [h|err'] eqn:Eh; [|intros [= <- <-]; by left]. rewrite set_self_bind.
  apply ok_or_Ok, checked_add_Some in Eh as [-> _].
  assert (∀ {B} (r : result string B) (f : B → method SettlementEngine SettlementError
      OclobSettlementReceipt) x,
    (try (map_err Finality r) ≫= f) x = (e', Err err) →
    (∃ y, r = Ok y ∧ f y x = (e', Err err)) ∨ (e' = x ∧ ∃ s, err = Finality s)) as Hstep.
  { intros B [y|s] f x; rewrite try_bind; simpl; [eauto|]. intros [= <- <-]. eauto. }
  intros Hrun. right.
  repeat (apply Hstep in Hrun as [(? & _ & Hrun)|Hrun]; [|done]).
  by rewrite set_self_bind in Hrun.
Qed.

Lemma settle_Ok {A} `{TransitionAuthorization A} e e' fills proofs round (transition : A) arriving
    remaining now receipt :
  settle_batch_collaborative fills proofs round transition arriving remaining now e
    = (e', Ok receipt) →
  ∃ st, stage_batch e fills proofs round transition arriving remaining now = Ok st
    ∧ sr_reservation_after_root receipt = reservation_root (sb_reservations st)
    ∧ e' = with_settled (sb_participants st) (sb_reservations st) (sb_spent st)
             (with_reservations (se_reservations e) (se_height e + 1) e).
Proof.
  unfold settle_batch_collaborative. rewrite self_bind, try_bind.
  destruct (stage_batch _ _ _ _ _ _ _ _) as [st|err] eqn:E; [|done].
  intros [??]%commit_Ok. eauto.
Qed.

Lemma settle_Err {A} `{TransitionAuthorization A} e e' fills proofs round (transition : A) arriving
    remaining now err :
  settle_batch_collaborative fills proofs round transition arriving remaining now e
    = (e', Err err) →
  e' = e ∨ e' = with_reservations (se_reservations e) (se_height e + 1) e ∧ ∃ s, err = Finality s.
Proof.
  unfold settle_batch_collaborative. rewrite self_bind, try_bind.
  destruct (stage_batch _ _ _ _ _ _ _ _) as [st|err'] eqn:E; [|intros [= <- <-]; by left].
  apply commit_Err.
Qed.

Lemma settle_step_ok {A} `{TransitionAuthorization A} e fills proofs round (transition : A)
    arriving remaining now :
  engine_ok e → Forall (λ fill, 0 ≤ f_price fill ∧ 0 ≤ f_quantity fill) fills →
  engine_ok (settle_batch_collaborative fills proofs round transition arriving remaining now e).1.
Proof.
  intros He Hnn.
  destruct (settle_batch_collaborative _ _ _ _ _ _ _ _) as [e' [receipt|err]] eqn:E; cbn [fst].
  - apply settle_Ok in E as (st & Hst & _ & ->).
    destruct (stage_batch_ok _ _ _ _ _ _ _ _ _ He Hnn Hst) as (Hok & _).
    by eapply engine_ok_frame; [| |exact Hok].
  - apply settle_Err in E as [->|[-> _]]; [done|]. by apply (engine_ok_frame e).
Qed.

Lemma release_step_ok e c : engine_ok e → engine_ok (engine_release_order c e).1.
Proof.
  intros He. unfold engine_release_order. rewrite self_bind, try_bind. unfold staged.
  pose proof (release_shrinks _ c (proj1 He)) as (? & ? & ? & ?).
  destruct (release_order _ _) as [b' [[]|err]]; [|done]. cbn [fst] in *.
  rewrite try_bind. destruct (next_height e) as [h|err]; [|done].
  rewrite set_self_bind. by apply shrink_ok.
Qed.

Lemma release_all_step_ok e l : engine_ok e → engine_ok (release_orders_atomic l e).1.
Proof.
  intros He. unfold release_orders_atomic. rewrite self_bind, try_bind.
  destruct (fail_if _ _); [|done]. rewrite try_bind. unfold staged.
  destruct (release_each l _) as [b' [[]|err]] eqn:E; [|done].
  apply release_each_shrinks in E as (? & ? & ? & ?); [|apply He].
  rewrite try_bind. destruct (next_height e) as [h|err]; [|done].
  rewrite set_self_bind. by apply shrink_ok.
Qed.

Lemma new_engine_ok keys policy dkg first second r1 r2 r3 r4 e :
  new_with_transition_committee keys policy dkg first second r1 r2 r3 r4 = Ok e → engine_ok e.
Proof.
  unfold new_with_transition_committee. rewrite bind_Ok. setoid_rewrite bind_Ok.
  intros (root & _ & _ & _ & <-%Ok_inj). split_and!; cbn [se_reservations se_participants].
  - apply default_ok.
  - split_and!; [| |done].
    + apply bt_insert_ok, bt_insert_ok. constructor.
    + intros p a k. rewrite !digest_insert. unfold u64_max.
      repeat case_decide; intros; simplify_eq; destruct k; simpl; lia.
  - intros p entity a k. done.
Qed.

(** C4: A settled batch delivers exactly the public fills: every account's cash
    and inventory change by precisely what its own fills buy and sell, the
    totals over all accounts are conserved, each fill spends one instruction
    that was never spent before, the arriving order was active and unexpired,
    its fills and its remainder add up to its quantity, the height grows by
    one, and the engine stays solvent. *)
Theorem settlement_exact {A} `{TransitionAuthorization A} e e' fills proofs round (transition : A)
    arriving remaining now receipt :
  engine_ok e → Forall (λ fill, 0 ≤ f_price fill ∧ 0 ≤ f_quantity fill) fills →
  settle_batch_collaborative fills proofs round transition arriving remaining now e
    = (e', Ok receipt) →
  engine_ok e'
  ∧ (∀ p k, balance_of (se_participants e') p k = balance_of (se_participants e) p k
       + sumZ (map (λ fill, fill_flow (se_reservations e) fill p k) fills))
  ∧ (∀ k, sumZ (map (λ a, balance a k) (bt_values (se_participants e')))
          = sumZ (map (λ a, balance a k) (bt_values (se_participants e))))
  ∧ (∃ new, NoDup new ∧ length new = length fills
       ∧ (∀ n, n ∈ new → n ∉ se_spent_instructions e)
       ∧ se_spent_instructions e' = (list_to_set new ∪ se_spent_instructions e))
  ∧ (∃ r, record_of (se_reservations e) arriving = Some r ∧ rec_status r = Active
       ∧ now ≤ rec_expires_at r
       ∧ sumZ (map f_quantity fills) + remaining = rec_original_quantity r)
  ∧ se_height e' = se_height e + 1.
Proof.
  intros He Hnn (st & Hst & _ & ->)%settle_Ok.
  destruct (stage_batch_ok _ _ _ _ _ _ _ _ _ He Hnn Hst) as (Hok & ? & ? & ? & ?).
  split_and!; try done.
Qed.

(** C38: A refused batch changes no account, no reservation and no spent
    instruction; only a refusal by the finality layer, after all checks have
    passed, leaves a trace: the height has already been advanced. *)
Theorem settlement_atomic {A} `{TransitionAuthorization A} e e' fills proofs round
    (transition : A) arriving remaining now err :
  settle_batch_collaborative fills proofs round transition arriving remaining now e
    = (e', Err err) →
  se_participants e' = se_participants e ∧ se_reservations e' = se_reservations e
  ∧ se_spent_instructions e' = se_spent_instructions e
  ∧ (se_height e' = se_height e ∨ se_height e' = se_height e + 1 ∧ ∃ s, err = Finality s).
Proof. intros [->|[-> ?]]%settle_Err; split_and!; auto. Qed.

Lemma settle_stage_Err {A} `{TransitionAuthorization A} e fills proofs round (transition : A)
    arriving remaining now err :
  stage_batch e fills proofs round transition arriving remaining now = Err err →
  settle_batch_collaborative fills proofs round transition arriving remaining now e = (e, Err err).
Proof. intros E. unfold settle_batch_collaborative. by rewrite self_bind, try_bind, E. Qed.

(** C39: An immediate-or-cancel order that fills only in part can never settle:
    the canonical match reports remainder zero for it, while settlement
    demands that fills and reported remainder add up to the whole order. The
    batch is refused and the engine is unchanged. *)
Theorem ioc_partial_fill_refused {A} `{TransitionAuthorization A} e fills proofs round
    (transition : A) arriving batch r now :
  engine_ok e → Forall (λ fill, 0 ≤ f_price fill ∧ 0 ≤ f_quantity fill) fills →
  record_of (se_reservations e) arriving = Some r →
  rec_original_quantity r = pb_arriving_quantity batch →
  pb_arriving_can_rest batch = false →
  sumZ (map f_quantity fills) < pb_arriving_quantity batch →
  ∃ err, settle_batch_collaborative fills proofs round transition arriving
           (br_arriving_remaining (expected_batch batch)) now e = (e, Err err).
Proof.
  intros He Hnn Hr Hq Hioc Hpart.
  destruct (stage_batch e fills proofs round transition arriving
    (br_arriving_remaining (expected_batch batch)) now) as [st|err] eqn:E.
  - exfalso. destruct (stage_batch_ok _ _ _ _ _ _ _ _ _ He Hnn E)
      as (_ & _ & _ & _ & r' & Hr' & _ & _ & Hsum).
    rewrite expected_batch_remaining, Hioc in Hsum. rewrite Hr in Hr'. injection Hr' as <-. lia.
  - exists err. by apply settle_stage_Err.
Qed.

End life.
