(* ===== verification/Canonical.v ===== *)
(** * Two-phase canonical settlement

    The prepare/accept protocol of [oclob-settlement/src/lib.rs]: an isolated
    candidate engine is built and verified against the finalized state, its
    account changes are bound into one digest, and the live engine is replaced
    only when the canonical adapter returns evidence for exactly that binding
    while the live state is still the one the candidate was built from. The
    optimistic reference a prepared transition carries along is omitted. *)

From S2P Require Import Prelude BTree Bytes AppCrypto Orders Matching Book Ordering Proofs.
From S2P Require Import Reservations ReservationInv ReservationLife Settlement SettlementInv.
From S2P Require Import SettlementLife.
Open Scope string_scope.
Open Scope list_scope.
Open Scope Z_scope.

Record CanonicalSettlementAcceptance := mk_acceptance {
  acc_transaction_id : bytes;
  acc_block_id : bytes;
  acc_height : Z;
  acc_statement : Digest32;
  acc_before_state_root : Digest32;
  acc_after_state_root : Digest32;
  acc_receipt_digest : Digest32;
  acc_application_binding : Digest32;
  acc_binding_digest : Digest32
}.

Definition verify_acceptance (a : CanonicalSettlementAcceptance)
    (application_binding binding_digest : Digest32) : result SettlementError () :=
  fail_if (Nat.eqb (length (acc_transaction_id a)) 0
      || Nat.eqb (length (acc_block_id a)) 0
      || (acc_height a =? 0)
      || is_zero (acc_statement a)
      || is_zero (acc_receipt_digest a)
      || bool_decide (acc_before_state_root a = acc_after_state_root a)
      || negb (bool_decide (acc_application_binding a = application_binding))
      || negb (bool_decide (acc_binding_digest a = binding_digest)))
    (Finality "canonical settlement acceptance is incomplete").

Section canonical.
Context `{Crypto} `{SettlementCrates}.

Record PreparedCanonicalBatch := mk_prepared_batch {
  pcb_candidate : SettlementEngine;
  pcb_base_snapshot : SettlementStateSnapshot;
  pcb_receipt : OclobSettlementReceipt;
  pcb_market_id : bytes;
  pcb_transition_digest : Digest32;
  pcb_payment_instruction_digest : Digest32;
  pcb_proof_digest : Digest32;
  pcb_application_binding : Digest32;
  pcb_binding_digest : Digest32;
  pcb_account_openings : list CanonicalAccountOpening;
  pcb_account_deltas : list CanonicalAccountDelta;
  pcb_deadline : Z
}.

Record PreparedCanonicalReservation := mk_prepared_reservation {
  pcr_candidate : SettlementEngine;
  pcr_base_snapshot : SettlementStateSnapshot;
  pcr_receipt : ReservationReceipt;
  pcr_market_id : bytes;
  pcr_transition_digest : Digest32;
  pcr_payment_instruction_digest : Digest32;
  pcr_proof_digest : Digest32;
  pcr_instruction_nullifier : Digest32;
  pcr_application_binding : Digest32;
  pcr_binding_digest : Digest32;
  pcr_account_openings : list CanonicalAccountOpening;
  pcr_account_deltas : list CanonicalAccountDelta;
  pcr_deadline : Z
}.

Inductive PreparedCanonicalTransition :=
| PreparedReservation (value : PreparedCanonicalReservation)
| PreparedSettlement (value : PreparedCanonicalBatch).

Inductive AppliedCanonicalTransition :=
| AppliedReservation (receipt : ReservationReceipt)
| AppliedSettlement (receipt : OclobSettlementReceipt).

Definition accept_batch (p : PreparedCanonicalBatch) (a : CanonicalSettlementAcceptance) :
    method SettlementEngine SettlementError OclobSettlementReceipt :=
  engine ← self;
  _ ← try (fail_if (negb (bool_decide (state_snapshot engine = pcb_base_snapshot p)))
    CanonicalDivergence);
  _ ← try (verify_acceptance a (pcb_application_binding p) (pcb_binding_digest p));
  let r := pcb_receipt p in
  let candidate := pcb_candidate p in
  _ ← set_self (with_reservations (se_reservations candidate) (acc_height a) candidate);
  mret {| sr_batch_digest := sr_batch_digest r;
          sr_members := sr_members r;
          sr_amount_range_is_threshold := sr_amount_range_is_threshold r;
          sr_price_range_is_threshold := sr_price_range_is_threshold r;
          sr_settlement_authorization_quorum := sr_settlement_authorization_quorum r;
          sr_post_match_participant_signatures := sr_post_match_participant_signatures r;
          sr_securities_before_root := sr_securities_before_root r;
          sr_securities_after_root := sr_securities_after_root r;
          sr_cash_before_root := sr_cash_before_root r;
          sr_cash_after_root := sr_cash_after_root r;
          sr_reservation_before_root := sr_reservation_before_root r;
          sr_reservation_after_root := sr_reservation_after_root r;
          sr_arriving_reservation_zkpi_digest := sr_arriving_reservation_zkpi_digest r;
          sr_arriving_reservation_instruction_nullifier :=
            sr_arriving_reservation_instruction_nullifier r;
          sr_arriving_reservation_proof_digest := sr_arriving_reservation_proof_digest r;
          sr_canonical_state_root := acc_after_state_root a;
          sr_canonical_receipt_digest := acc_receipt_digest a;
          sr_canonical_height := acc_height a;
          sr_avalanche_transaction_id := Some (acc_transaction_id a);
          sr_avalanche_block_id := Some (acc_block_id a);
          sr_replay_rejected := sr_replay_rejected r;
          sr_solvent := sr_solvent r |}.

Definition accept_reservation (p : PreparedCanonicalReservation)
    (a : CanonicalSettlementAcceptance) :
    method SettlementEngine SettlementError ReservationReceipt :=
  engine ← self;
  _ ← try (fail_if (negb (bool_decide (state_snapshot engine = pcr_base_snapshot p)))
    CanonicalDivergence);
  _ ← try (verify_acceptance a (pcr_application_binding p) (pcr_binding_digest p));
  let r := pcr_receipt p in
  let candidate := pcr_candidate p in
  _ ← set_self (with_reservations (se_reservations candidate) (acc_height a) candidate);
  mret {| rr_reservation_id := rr_reservation_id r;
          rr_order_commitment := rr_order_commitment r;
          rr_kind := rr_kind r;
          rr_reserved := rr_reserved r;
          rr_state_root := rr_state_root r;
          rr_canonical_receipt_digest := acc_receipt_digest a;
          rr_canonical_height := acc_height a;
          rr_zkpi_digest := rr_zkpi_digest r;
          rr_instruction_nullifier := rr_instruction_nullifier r;
          rr_proof_digest := rr_proof_digest r;
          rr_avalanche_transaction_id := Some (acc_transaction_id a);
          rr_avalanche_block_id := Some (acc_block_id a) |}.

Definition canonical_accept (t : PreparedCanonicalTransition) (a : CanonicalSettlementAcceptance) :
    method SettlementEngine SettlementError AppliedCanonicalTransition :=
  match t with
  | PreparedReservation value => r ← accept_reservation value a; mret (AppliedReservation r)
  | PreparedSettlement value => r ← accept_batch value a; mret (AppliedSettlement r)
  end.

Definition binding_digest_of (t : PreparedCanonicalTransition) : Digest32 :=
  match t with
  | PreparedReservation value => pcr_binding_digest value
  | PreparedSettlement value => pcb_binding_digest value
  end.

Definition application_binding_of (t : PreparedCanonicalTransition) : Digest32 :=
  match t with
  | PreparedReservation value => pcr_application_binding value
  | PreparedSettlement value => pcb_application_binding value
  end.

Definition operation_id (t : PreparedCanonicalTransition) : Digest32 :=
  domain_digest "OCLOB:DEFMI:CANONICAL-OPERATION:v1" (d_bytes (binding_digest_of t)).

Definition canonical_nullifier (t : PreparedCanonicalTransition) : Digest32 :=
  match t with
  | PreparedReservation value => pcr_instruction_nullifier value
  | PreparedSettlement value =>
      domain_digest "OCLOB:DEFMI:SETTLEMENT-NULLIFIER:v1"
        (d_bytes (sr_batch_digest (pcb_receipt value)))
  end.

(** The compare-and-swap base, and the state the acceptance installs. *)
Definition base_of (t : PreparedCanonicalTransition) : SettlementStateSnapshot :=
  match t with
  | PreparedReservation value => pcr_base_snapshot value
  | PreparedSettlement value => pcb_base_snapshot value
  end.

Definition candidate_of (t : PreparedCanonicalTransition) : SettlementEngine :=
  match t with
  | PreparedReservation value => pcr_candidate value
  | PreparedSettlement value => pcb_candidate value
  end.

Section prepare.
Context {O : Type} `{SettlementOrderView O} {A : Type} `{TransitionAuthorization A}.

Definition PROOF_QUORUM : list Z := [1; 2; 3].

Definition prove_range (value : ValueShares) (context : string) :
    result SettlementError ThresholdRangeProof :=
  contributions ← collect (λ party, ok_or (node_contribution value party)
    (ProofFailure "missing proof party")) PROOF_QUORUM;
  map_err ProofFailure (joint_prove_range_from_contributions contributions PROOF_QUORUM context).

(** The scalars [OsRng] supplies. *)
Record ZkpiRandom := mk_random {
  zr_amount_blinding : Scalar;
  zr_price_blinding : Scalar;
  zr_asset_blinding : Scalar
}.

Definition build_reservation_zkpi (rnd : ZkpiRandom) (e : SettlementEngine) (order : O)
    (transition_digest : Digest32) (now : Z) : result SettlementError (Digest32 * Digest32 * Digest32) :=
  _ ← fail_if ((settlement_expires_at order <? now)
      || (saturating_add now 3600 <? settlement_expires_at order))
    (Reservation "canonical reservation expiry is outside the one-hour zkPI horizon");
  participant ← ok_or (bt_get (settlement_participant_handle order) (se_participants e))
    (Reservation "participant account is absent");
  amount ← map_err ProofFailure
    (deal_bits (settlement_reservation_limit order) (zr_amount_blinding rnd) RANGE_BITS);
  price ← map_err ProofFailure (deal_bits 1 (zr_price_blinding rnd) RANGE_BITS);
  amount_range ← prove_range amount AMOUNT_RANGE_CONTEXT;
  price_range ← prove_range price PRICE_RANGE_CONTEXT;
  let asset_index := match settlement_side order with Buy => 0 | Sell => 3 end in
  let asset_commitment := commit_u64 asset_index (zr_asset_blinding rnd) in
  let escrow := domain_digest "OCLOB:DEFMI:RESERVATION-HANDLE:v1"
    (d_bytes (settlement_reservation_id order)) in
  let nonce := domain_digest "OCLOB:ZKPI:RESERVATION-NONCE:v1"
    (d_bytes (settlement_commitment order) ++ d_bytes transition_digest) in
  partial ← map_err Cryptography (from_threshold_ranges (vs_commitment amount)
    (vs_commitment price) asset_commitment amount_range price_range (pa_handle participant)
    (escrow_point escrow) (settlement_expires_at order) nonce transition_digest);
  signature ← map_err ProofFailure (frost_sign (partial_digest partial));
  let instruction := sealed partial signature in
  _ ← map_err Cryptography (own_venue_verify instruction now);
  Ok (sha256 (in_wire instruction), in_nullifier instruction,
      domain_digest "OCLOB:ZKPI:RESERVATION-RANGES:v1" (in_wire instruction)).

Definition prepare_canonical_reservation (rnd : ZkpiRandom) (e candidate : SettlementEngine)
    (receipt : ReservationReceipt) (order : O) (certificate : OrderCertificate) (transition : A)
    (now : Z) : result SettlementError PreparedCanonicalTransition :=
  _ ← map_err (λ _, ProofFailure "transition proof statement mismatch")
    (verify_admission_binding transition certificate (se_transition_committee_trust_root e));
  _ ← validate_active_order (se_reservations candidate) order;
  let base := state_snapshot e in
  let after := state_snapshot candidate in
  let market := settlement_market_id order in
  _ ← fail_if (negb (ss_height after =? saturating_add (ss_height base) 1)
      || negb (bool_decide (rr_order_commitment receipt = settlement_commitment order))
      || negb (bool_decide (rr_reservation_id receipt = settlement_reservation_id order))
      || negb (rr_reserved receipt =? settlement_reservation_limit order)
      || negb (bool_decide (rr_state_root receipt = ss_reservation_root after))
      || negb (bool_decide (ss_securities_root after = ss_securities_root base))
      || negb (bool_decide (ss_cash_root after = ss_cash_root base))) CanonicalDivergence;
  account_openings ← canonical_account_openings e market;
  after_accounts ← canonical_account_openings candidate market;
  deltas ← canonical_account_deltas account_openings after_accounts;
  _ ← fail_if (match deltas with
               | [d] => negb (bool_decide (ad_handle d = canonical_reservation_state_handle market))
                   || negb (bool_decide (ad_asset_id d = canonical_reservation_state_asset_id market))
                   || negb (bool_decide (ad_before_commitment d = ss_reservation_root base))
                   || negb (bool_decide (ad_after_commitment d = ss_reservation_root after))
               | _ => true
               end) CanonicalDivergence;
  let transition_digest := statement_digest (auth_statement transition) in
  '(payment, nullifier, range) ← build_reservation_zkpi rnd e order transition_digest now;
  let proof_digest := domain_digest "OCLOB:DEFMI:RESERVATION-PROOF:v1"
    (d_bytes transition_digest
     ++ d_bytes (ts_eligibility_proof_digest (auth_statement transition)) ++ d_bytes range) in
  application_binding ← map_err Finality manifest_digest;
  Ok (PreparedReservation {|
    pcr_candidate := candidate;
    pcr_base_snapshot := base;
    pcr_receipt := {|
      rr_reservation_id := rr_reservation_id receipt;
      rr_order_commitment := rr_order_commitment receipt;
      rr_kind := rr_kind receipt;
      rr_reserved := rr_reserved receipt;
      rr_state_root := rr_state_root receipt;
      rr_canonical_receipt_digest := rr_canonical_receipt_digest receipt;
      rr_canonical_height := rr_canonical_height receipt;
      rr_zkpi_digest := Some payment;
      rr_instruction_nullifier := Some nullifier;
      rr_proof_digest := Some proof_digest;
      rr_avalanche_transaction_id := rr_avalanche_transaction_id receipt;
      rr_avalanche_block_id := rr_avalanche_block_id receipt |};
    pcr_market_id := market;
    pcr_transition_digest := transition_digest;
    pcr_payment_instruction_digest := payment;
    pcr_proof_digest := proof_digest;
    pcr_instruction_nullifier := nullifier;
    pcr_application_binding := application_binding;
    pcr_binding_digest := canonical_binding_digest application_binding
      (rr_order_commitment receipt) transition_digest payment proof_digest
      (ss_reservation_root base) (ss_reservation_root after) deltas;
    pcr_account_openings := account_openings;
    pcr_account_deltas := deltas;
    pcr_deadline := settlement_expires_at order |}).

(** The body both batch preparations share: [settle] runs on a clone. *)
Definition prepare_batch_with
    (settle : method SettlementEngine SettlementError OclobSettlementReceipt)
    (e : SettlementEngine) (transition : A) (arriving : O) (now : Z) :
    result SettlementError PreparedCanonicalBatch :=
  let base := state_snapshot e in
  let market := settlement_market_id arriving in
  account_openings ← canonical_account_openings e market;
  '(candidate, receipt) ← staged settle e;
  after_accounts ← canonical_account_openings candidate market;
  deltas ← canonical_account_deltas account_openings after_accounts;
  _ ← fail_if (Nat.eqb (length deltas) 0) CanonicalDivergence;
  let transition_digest := statement_digest (auth_statement transition) in
  application_binding ← map_err Finality manifest_digest;
  let payment := digest_member_field "OCLOB:ZKPI-BATCH:v1" (sr_members receipt) mb_zkpi_digest in
  let proof := digest_member_field "OCLOB:DVP-PROOF-BATCH:v1" (sr_members receipt)
    mb_package_digest in
  deadline ← ok_or (checked_add now 600) (Finality "settlement deadline overflowed");
  Ok {| pcb_candidate := candidate;
        pcb_base_snapshot := base;
        pcb_receipt := receipt;
        pcb_market_id := market;
        pcb_transition_digest := transition_digest;
        pcb_payment_instruction_digest := payment;
        pcb_proof_digest := proof;
        pcb_application_binding := application_binding;
        pcb_binding_digest := canonical_binding_digest application_binding
          (sr_batch_digest receipt) transition_digest payment proof
          (sr_reservation_before_root receipt) (sr_reservation_after_root receipt) deltas;
        pcb_account_openings := account_openings;
        pcb_account_deltas := deltas;
        pcb_deadline := deadline |}.

Definition prepare_canonical_batch_collaborative (e : SettlementEngine) (fills : list PublicFill)
    (proofs : list CollaborativeFillProof) (round_id : Digest32) (transition : A) (arriving : O)
    (arriving_remaining now : Z) : result SettlementError PreparedCanonicalBatch :=
  prepare_batch_with (settle_batch_collaborative fills proofs round_id transition
    (settlement_commitment arriving) arriving_remaining now) e transition arriving now.

(** [CollaborativeCanonicalAdmissionBatch]. *)
Record AdmissionBatch := mk_admission {
  am_reserved_candidate : SettlementEngine;
  am_reservation_receipt : ReservationReceipt;
  am_fills : list PublicFill;
  am_proofs : list CollaborativeFillProof;
  am_round_id : Digest32;
  am_transition : A;
  am_certificate : OrderCertificate;
  am_arriving : O;
  am_arriving_remaining : Z;
  am_now : Z
}.

(** The body both admission preparations share: the reserved [candidate] is
    checked against the live engine, then [prepare] is rebased onto it. *)
Definition prepare_admission_with (payment_domain proof_domain : string) (rnd : ZkpiRandom)
    (e candidate : SettlementEngine) (receipt : ReservationReceipt) (fills : list PublicFill)
    (transition : A) (certificate : OrderCertificate) (arriving : O) (now : Z)
    (prepare : result SettlementError PreparedCanonicalBatch) :
    result SettlementError PreparedCanonicalTransition :=
  _ ← map_err (λ _, ProofFailure "transition proof statement mismatch")
    (verify_execution_binding transition certificate (settlement_commitment arriving)
       fills (se_transition_committee_trust_root e));
  _ ← validate_active_order (se_reservations candidate) arriving;
  let base := state_snapshot e in
  let reserved := state_snapshot candidate in
  let market := settlement_market_id arriving in
  _ ← fail_if (negb (ss_height reserved =? saturating_add (ss_height base) 1)
      || negb (bool_decide (ss_securities_root reserved = ss_securities_root base))
      || negb (bool_decide (ss_cash_root reserved = ss_cash_root base))
      || negb (bool_decide (rr_order_commitment receipt = settlement_commitment arriving))
      || negb (bool_decide (rr_reservation_id receipt = settlement_reservation_id arriving))
      || negb (rr_reserved receipt =? settlement_reservation_limit arriving)
      || negb (bool_decide (rr_state_root receipt = ss_reservation_root reserved))
      || negb (bool_decide (se_spent_instructions candidate = se_spent_instructions e)))
    CanonicalDivergence;
  account_openings ← canonical_account_openings e market;
  reserved_accounts ← canonical_account_openings candidate market;
  reservation_delta ← canonical_account_deltas account_openings reserved_accounts;
  _ ← fail_if (match reservation_delta with
               | [d] => negb (bool_decide (ad_handle d = canonical_reservation_state_handle market))
                   || negb (bool_decide (ad_asset_id d = canonical_reservation_state_asset_id market))
               | _ => true
               end) CanonicalDivergence;
  let transition_digest := statement_digest (auth_statement transition) in
  '(payment, nullifier, range) ← build_reservation_zkpi rnd e arriving transition_digest now;
  let reservation_proof_digest := domain_digest "OCLOB:DEFMI:ADMISSION-RESERVATION-PROOF:v1"
    (d_bytes transition_digest ++ d_bytes (certificate_digest certificate)
     ++ d_bytes (ts_eligibility_proof_digest (auth_statement transition)) ++ d_bytes range) in
  prepared ← prepare;
  after_accounts ← canonical_account_openings (pcb_candidate prepared) market;
  deltas ← canonical_account_deltas account_openings after_accounts;
  let r := pcb_receipt prepared in
  _ ← fail_if (negb (existsb (λ d,
        bool_decide (ad_handle d = canonical_reservation_state_handle market)
        && bool_decide (ad_asset_id d = canonical_reservation_state_asset_id market)
        && bool_decide (ad_before_commitment d = ss_reservation_root base)
        && bool_decide (ad_after_commitment d = sr_reservation_after_root r)) deltas))
    CanonicalDivergence;
  let payment_all := domain_digest payment_domain
    (d_bytes payment ++ d_bytes (pcb_payment_instruction_digest prepared)) in
  let proof_all := domain_digest proof_domain
    (d_bytes reservation_proof_digest ++ d_bytes (pcb_proof_digest prepared)) in
  Ok (PreparedSettlement {|
    pcb_candidate := pcb_candidate prepared;
    pcb_base_snapshot := base;
    pcb_receipt := {|
      sr_batch_digest := sr_batch_digest r;
      sr_members := sr_members r;
      sr_amount_range_is_threshold := sr_amount_range_is_threshold r;
      sr_price_range_is_threshold := sr_price_range_is_threshold r;
      sr_settlement_authorization_quorum := sr_settlement_authorization_quorum r;
      sr_post_match_participant_signatures := sr_post_match_participant_signatures r;
      sr_securities_before_root := sr_securities_before_root r;
      sr_securities_after_root := sr_securities_after_root r;
      sr_cash_before_root := sr_cash_before_root r;
      sr_cash_after_root := sr_cash_after_root r;
      sr_reservation_before_root := ss_reservation_root base;
      sr_reservation_after_root := sr_reservation_after_root r;
      sr_arriving_reservation_zkpi_digest := Some payment;
      sr_arriving_reservation_instruction_nullifier := Some nullifier;
      sr_arriving_reservation_proof_digest := Some reservation_proof_digest;
      sr_canonical_state_root := sr_canonical_state_root r;
      sr_canonical_receipt_digest := sr_canonical_receipt_digest r;
      sr_canonical_height := sr_canonical_height r;
      sr_avalanche_transaction_id := sr_avalanche_transaction_id r;
      sr_avalanche_block_id := sr_avalanche_block_id r;
      sr_replay_rejected := sr_replay_rejected r;
      sr_solvent := sr_solvent r |};
    pcb_market_id := pcb_market_id prepared;
    pcb_transition_digest := pcb_transition_digest prepared;
    pcb_payment_instruction_digest := payment_all;
    pcb_proof_digest := proof_all;
    pcb_application_binding := pcb_application_binding prepared;
    pcb_binding_digest := canonical_binding_digest (pcb_application_binding prepared)
      (sr_batch_digest r) (pcb_transition_digest prepared) payment_all proof_all
      (ss_reservation_root base) (sr_reservation_after_root r) deltas;
    pcb_account_openings := account_openings;
    pcb_account_deltas := deltas;
    pcb_deadline := Z.min (pcb_deadline prepared) (settlement_expires_at arriving) |}).

Definition prepare_canonical_admission_batch_collaborative (rnd : ZkpiRandom)
    (e : SettlementEngine) (m : AdmissionBatch) :
    result SettlementError PreparedCanonicalTransition :=
  prepare_admission_with "OCLOB:ZKPI-ADMISSION-AND-DVP:v2"
    "OCLOB:ADMISSION-AND-COLLABORATIVE-DVP-PROOF:v1" rnd e (am_reserved_candidate m)
    (am_reservation_receipt m) (am_fills m) (am_transition m) (am_certificate m) (am_arriving m)
    (am_now m)
    (prepare_canonical_batch_collaborative (am_reserved_candidate m) (am_fills m) (am_proofs m)
       (am_round_id m) (am_transition m) (am_arriving m) (am_arriving_remaining m) (am_now m)).

End prepare.

(** ** Compare-and-swap *)

Lemma account_deltas_change before after deltas d :
  account_deltas before after = Ok deltas → d ∈ deltas →
  ad_before_commitment d ≠ ad_after_commitment d.
Proof.
  revert after deltas. induction before as [|x before IH]; intros [|y after] deltas; simpl;
    try by intros [= <-] ?%elem_of_nil.
  rewrite bind_Ok. intros (_ & _ & Hl). apply bind_Ok in Hl as (ds & Hds & [= <-]).
  case_bool_decide as E; [by eapply IH|]. intros [->|Hin]%elem_of_cons; [done|by eapply IH].
Qed.

Lemma canonical_deltas_change before after deltas d :
  canonical_account_deltas before after = Ok deltas → d ∈ deltas →
  ad_before_commitment d ≠ ad_after_commitment d.
Proof.
  unfold canonical_account_deltas. rewrite bind_Ok. intros (_ & _ & Hd). by eapply account_deltas_change.
Qed.

Lemma canonical_accept_cases t a live :
  if decide (state_snapshot live = base_of t
             ∧ verify_acceptance a (application_binding_of t) (binding_digest_of t) = Ok ())
  then ∃ applied, canonical_accept t a live
         = (with_reservations (se_reservations (candidate_of t)) (acc_height a) (candidate_of t),
            Ok applied)
  else ∃ err, canonical_accept t a live = (live, Err err)
         ∧ (state_snapshot live ≠ base_of t → err = CanonicalDivergence).
Proof.
  destruct t as [v|v]; cbn -[verify_acceptance]; unfold accept_reservation, accept_batch;
    rewrite method_bind, self_bind, try_bind; case_decide as E.
  1,3: destruct E as [E1 E2]; rewrite E1, bool_decide_true by done; cbn -[verify_acceptance];
    rewrite E2; by eexists.
  all: case_bool_decide as E1; cbn -[verify_acceptance]; [|by eexists];
    destruct (verify_acceptance _ _ _) as [[]|err]; [naive_solver|]; by eexists.
Qed.

Section prepared.
Context {O : Type} `{SettlementOrderView O} {A : Type} `{TransitionAuthorization A}.

(** The two ways a transition is prepared from a live engine [e]. *)
Inductive prepared (e : SettlementEngine) : PreparedCanonicalTransition → Prop :=
| prepared_reservation rnd candidate receipt (order : O) certificate (transition : A) now t :
    engine_ok candidate →
    prepare_canonical_reservation rnd e candidate receipt order certificate transition now = Ok t →
    prepared e t
| prepared_admission rnd (m : AdmissionBatch) t :
    engine_ok (am_reserved_candidate m) →
    Forall (λ fill, 0 ≤ f_price fill ∧ 0 ≤ f_quantity fill) (am_fills m) →
    prepare_canonical_admission_batch_collaborative (O := O) (A := A) rnd e m = Ok t →
    prepared e t.

Lemma prepare_reservation_Ok rnd e candidate receipt (order : O) certificate (transition : A) now t :
  prepare_canonical_reservation rnd e candidate receipt order certificate transition now = Ok t →
  base_of t = state_snapshot e ∧ candidate_of t = candidate
  ∧ reservation_root (se_reservations candidate) ≠ reservation_root (se_reservations e).
Proof.
  unfold prepare_canonical_reservation. intros Hp.
  do 5 (apply bind_Ok in Hp as (? & _ & Hp)).
  apply bind_Ok in Hp as (deltas & Hd & Hp). apply bind_Ok in Hp as (_ & Hg%fail_if_Ok & Hp).
  apply bind_Ok in Hp as ([[payment nullifier] range] & _ & Hp).
  apply bind_Ok in Hp as (app & _ & Hp). apply Ok_inj in Hp as <-.
  split_and!; [done..|]. destruct deltas as [|d [|]]; [done| |done].
  apply (canonical_deltas_change _ _ _ d) in Hd; [|left]. bool_hyps.
  unfold state_snapshot in *. destruct (ledgers_from_participants (se_participants e)),
    (ledgers_from_participants (se_participants candidate)). simpl in *. congruence.
Qed.

(** A prepared batch is the settled clone; its receipt names the clone's root. *)
Lemma prepare_batch_Ok settle e (transition : A) (arriving : O) now p :
  prepare_batch_with settle e transition arriving now = Ok p →
  settle e = (pcb_candidate p, Ok (pcb_receipt p)) ∧ pcb_base_snapshot p = state_snapshot e.
Proof.
  unfold prepare_batch_with. intros Hp. apply bind_Ok in Hp as (? & _ & Hp).
  apply bind_Ok in Hp as ([candidate receipt] & Hs%staged_Ok & Hp).
  do 5 (apply bind_Ok in Hp as (? & _ & Hp)). by apply Ok_inj in Hp as <-.
Qed.

Lemma prepare_admission_Ok d1 d2 rnd e candidate receipt fills (transition : A) certificate
    (arriving : O) now prep t :
  prepare_admission_with d1 d2 rnd e candidate receipt fills transition certificate arriving now
    prep = Ok t →
  base_of t = state_snapshot e
  ∧ ∃ p, prep = Ok p ∧ candidate_of t = pcb_candidate p
      ∧ sr_reservation_after_root (pcb_receipt p) ≠ reservation_root (se_reservations e).
Proof.
  unfold prepare_admission_with. intros Hp.
  do 7 (apply bind_Ok in Hp as (? & _ & Hp)).
  apply bind_Ok in Hp as ([[payment nullifier] range] & _ & Hp).
  apply bind_Ok in Hp as (p & -> & Hp). apply bind_Ok in Hp as (accounts & _ & Hp).
  apply bind_Ok in Hp as (deltas & Hd & Hp). apply bind_Ok in Hp as (_ & Hg%fail_if_Ok & Hp).
  apply Ok_inj in Hp as <-. cbn [candidate_of base_of pcb_candidate pcb_base_snapshot].
  split; [done|]. exists p. split_and!; [done..|].
  apply negb_false_iff, existsb_exists in Hg as (d & Hin%list_elem_of_In & Hg).
  apply (canonical_deltas_change _ _ _ d) in Hd; [|done]. bool_hyps.
  unfold state_snapshot in *. destruct (ledgers_from_participants (se_participants e)).
  simpl in *. congruence.
Qed.

Lemma prepared_ok e t :
  prepared e t →
  base_of t = state_snapshot e ∧ engine_ok (candidate_of t)
  ∧ ss_reservation_root (state_snapshot (candidate_of t)) ≠ ss_reservation_root (base_of t).
Proof.
  assert (∀ x, ss_reservation_root (state_snapshot x) = reservation_root (se_reservations x)) as Hx.
  { intros x. unfold state_snapshot. by destruct (ledgers_from_participants _). }
  destruct 1 as [rnd candidate receipt order cert tr now t Hok Hp|rnd m t Hok Hnn Hp].
  - apply prepare_reservation_Ok in Hp as (-> & -> & Hne). by rewrite !Hx.
  - apply prepare_admission_Ok in Hp as (-> & p & [Hs _]%prepare_batch_Ok & -> & Hne).
    rewrite !Hx. pose proof Hs as (st & Hst & Hroot & He)%settle_Ok. split_and!; [done| |].
    + pose proof (settle_step_ok _ (am_fills m) (am_proofs m) (am_round_id m) (am_transition m)
        (settlement_commitment (am_arriving m)) (am_arriving_remaining m) (am_now m) Hok Hnn) as Hso.
      by rewrite Hs in Hso.
    + rewrite He. cbn [se_reservations with_settled]. by rewrite <-Hroot.
Qed.


End prepared.

End canonical.
