(* ===== verification/Compat.v ===== *)
(** * The compatibility settlement path

    [settle_batch], [prepare_canonical_batch] and
    [prepare_canonical_admission_batch] of [oclob-settlement/src/lib.rs]: the
    batch that builds its own zero-knowledge packages from the accounts'
    scalar openings.  The service settles through this path.  The DeFMI
    package builder and verifier are another crate: [CompatCrates], with the
    one law the engine relies on, that the carried balances are the holdings
    less the two legs. *)

From S2P Require Import Prelude BTree Bytes AppCrypto Orders Matching Book Ordering Proofs.
From S2P Require Import Reservations ReservationInv ReservationLife Settlement SettlementInv.
From S2P Require Import SettlementLife Canonical.
Open Scope string_scope.
Open Scope list_scope.
Open Scope Z_scope.

(** What the payer side holds before a package, and what it carries away. *)
Record Holdings `{Points} := mk_holdings {
  hd_securities_balance : Z;
  hd_securities_blinding : Scalar;
  hd_cash_balance : Z;
  hd_cash_blinding : Scalar
}.

Record Carry `{Points} := mk_carry {
  cr_securities_balance : Z;
  cr_securities_blinding : Scalar;
  cr_cash_balance : Z;
  cr_cash_blinding : Scalar;
  cr_cash_amount_blinding : Scalar;
  cr_securities_amount_blinding : Scalar
}.

Arguments mk_holdings {_}.
Arguments mk_carry {_}.

Class CompatCrates `{SettlementCrates} := {
  DvpPackage : Type;
  scalar_add : Scalar → Scalar → Scalar;
  package_nullifier : DvpPackage → Digest32;
  package_digest : DvpPackage → Digest32;
  instruction_digest : Instruction → bytes;
  build_package : Instruction → Ledger → Ledger → Z → Z → Holdings → Scalar * Scalar →
    result string (DvpPackage * Carry);
  defmi_settle : Ledger → Ledger → DvpPackage → Z → result string () * (Digest32 * Digest32)
}.

(** A package of [quantity] at [price] takes exactly its legs from the holdings. *)
Class CompatLaws `{CompatCrates} := {
  build_package_carry : ∀ i securities cash quantity price holdings openings package carry,
    build_package i securities cash quantity price holdings openings = Ok (package, carry) →
    cr_securities_balance carry = hd_securities_balance holdings - quantity
    ∧ quantity ≤ hd_securities_balance holdings
    ∧ cr_cash_balance carry = hd_cash_balance holdings - price * quantity
    ∧ price * quantity ≤ hd_cash_balance holdings
}.

Section compat.
Context `{Crypto} `{CompatCrates}.
Context {O : Type} `{SettlementOrderView O} {A : Type} `{TransitionAuthorization A}.

Definition fill_nonce (transition_digest : Digest32) (index : Z) (fill : PublicFill) : Digest32 :=
  sha256 (ascii_bytes "OCLOB:ZKPI-NONCE:v2" ++ d_bytes transition_digest ++ u64_be index
    ++ d_bytes (f_maker_order fill) ++ d_bytes (f_taker_order fill)
    ++ u64_be (f_price fill) ++ u64_be (f_quantity fill)).

(** The threshold instruction of one fill, signed by the engine's committee. *)
Definition fill_instruction (rnd : ZkpiRandom) (transition_digest : Digest32) (now index : Z)
    (fill : PublicFill) (seller buyer : ParticipantBalances) :
    result SettlementError Instruction :=
  amount ← map_err ProofFailure (deal_bits (f_quantity fill) (zr_amount_blinding rnd) RANGE_BITS);
  price ← map_err ProofFailure (deal_bits (f_price fill) (zr_price_blinding rnd) RANGE_BITS);
  amount_range ← prove_range amount AMOUNT_RANGE_CONTEXT;
  price_range ← prove_range price PRICE_RANGE_CONTEXT;
  let asset_commitment := commit_u64 3 (zr_asset_blinding rnd) in
  partial ← map_err Cryptography (from_threshold_ranges (vs_commitment amount)
    (vs_commitment price) asset_commitment amount_range price_range (pa_handle buyer)
    (pa_handle seller) (saturating_add now 600) (fill_nonce transition_digest index fill)
    transition_digest);
  signature ← map_err ProofFailure (frost_sign (partial_digest partial));
  Ok (sealed partial signature).

(** The balances the two parties hold after the package. *)
Definition carry_parties (fill : PublicFill) (carry : Carry) (seller buyer : ParticipantBalances)
    (seller_cash_opening buyer_securities_opening : Scalar) :
    result SettlementError (ParticipantBalances * ParticipantBalances) :=
  cash_value ← ok_or (checked_mul (f_price fill) (f_quantity fill))
    (Reservation "cash fill overflowed");
  seller_cash ← checked_credit (cb_value (pa_cash seller)) cash_value;
  buyer_securities ← checked_credit (cb_value (pa_securities buyer)) (f_quantity fill);
  Ok ({| pa_handle := pa_handle seller;
         pa_securities := balance_opened (cr_securities_balance carry) (cr_securities_blinding carry);
         pa_cash := balance_opened seller_cash
           (scalar_add seller_cash_opening (cr_cash_amount_blinding carry)) |},
      {| pa_handle := pa_handle buyer;
         pa_securities := balance_opened buyer_securities
           (scalar_add buyer_securities_opening (cr_securities_amount_blinding carry));
         pa_cash := balance_opened (cr_cash_balance carry) (cr_cash_blinding carry) |}).

Definition compat_fill (rnd : Z → ZkpiRandom) (market_id : bytes) (transition_digest : Digest32)
    (now : Z) (st : StagedBatch) (item : Z * PublicFill) : result SettlementError StagedBatch :=
  let '(index, fill) := item in
  '(b1, consumed) ← staged (consume_fill fill market_id now) (sb_reservations st);
  _ ← fail_if (bool_decide (cf_seller_handle consumed = cf_buyer_handle consumed))
    (Reservation "self-trading orders cannot produce a DvP between one account");
  seller ← ok_or (bt_get (cf_seller_handle consumed) (sb_participants st))
    (Reservation "seller account is absent");
  buyer ← ok_or (bt_get (cf_buyer_handle consumed) (sb_participants st))
    (Reservation "buyer account is absent");
  instruction ← fill_instruction (rnd index) transition_digest now index fill seller buyer;
  let zkpi_digest := sha256 (instruction_digest instruction) in
  _ ← fail_if (negb (in_is_threshold instruction))
    (ProofFailure "zkPI was not assembled from threshold range proofs");
  seller_securities_opening ← ok_or (cb_opening (pa_securities seller))
    (ProofFailure "legacy settlement cannot reopen an MPC-updated securities account");
  seller_cash_opening ← ok_or (cb_opening (pa_cash seller))
    (ProofFailure "legacy settlement cannot reopen an MPC-updated cash account");
  buyer_cash_opening ← ok_or (cb_opening (pa_cash buyer))
    (ProofFailure "legacy settlement cannot reopen an MPC-updated cash account");
  buyer_securities_opening ← ok_or (cb_opening (pa_securities buyer))
    (ProofFailure "legacy settlement cannot reopen an MPC-updated securities account");
  let '(current_securities, current_cash) := ledgers_from_participants (sb_participants st) in
  '(package, carry) ← map_err Cryptography (build_package instruction current_securities
    current_cash (f_quantity fill) (f_price fill)
    (mk_holdings (cb_value (pa_securities seller)) seller_securities_opening
       (cb_value (pa_cash buyer)) buyer_cash_opening)
    (zr_amount_blinding (rnd index), zr_price_blinding (rnd index)));
  let instruction_nullifier := package_nullifier package in
  _ ← fail_if (bool_decide (instruction_nullifier ∈ sb_spent st)) ReplayAccepted;
  let '(status, (securities_after, cash_after)) :=
    defmi_settle current_securities current_cash package now in
  _ ← map_err Cryptography status;
  '(seller_after, buyer_after) ← carry_parties fill carry seller buyer seller_cash_opening
    buyer_securities_opening;
  let participants := bt_insert (cf_buyer_handle consumed) buyer_after
    (bt_insert (cf_seller_handle consumed) seller_after (sb_participants st)) in
  let '(expected_securities, expected_cash) := ledgers_from_participants participants in
  _ ← fail_if (negb (bool_decide (securities_after = ledger_snapshot expected_securities))
      || negb (bool_decide (cash_after = ledger_snapshot expected_cash))) CanonicalDivergence;
  Ok {| sb_reservations := b1;
        sb_participants := participants;
        sb_spent := {[instruction_nullifier]} ∪ sb_spent st;
        sb_members := sb_members st ++ [{|
          mb_instruction_nullifier := instruction_nullifier;
          mb_zkpi_digest := zkpi_digest;
          mb_package_digest := package_digest package;
          mb_maker_order := f_maker_order fill;
          mb_taker_order := f_taker_order fill;
          mb_maker_reservation_remaining := cf_maker_remaining consumed;
          mb_taker_reservation_remaining := cf_taker_remaining consumed |}] |}.

(** The checks before the loop, the loop on the clones, and the closing checks. *)
Definition stage_compat (rnd : Z → ZkpiRandom) (e : SettlementEngine) (fills : list PublicFill)
    (transition : A) (arriving : O) (arriving_remaining now : Z) :
    result SettlementError StagedBatch :=
  _ ← fail_if (Nat.eqb (length fills) 0
      || existsb (λ fill, (f_quantity fill =? 0) || (f_price fill =? 0)) fills) InvalidFill;
  _ ← fail_if (existsb (λ fill,
        negb (bool_decide (f_taker_order fill = settlement_commitment arriving))) fills)
    (Reservation "atomic batch contains a fill from another arriving order");
  _ ← fail_if (settlement_expires_at arriving <? now)
    (Reservation "an expired arriving order cannot settle");
  filled_quantity ← ok_or (checked_sum (map f_quantity fills))
    (Reservation "fill quantity overflowed");
  _ ← fail_if (match checked_add filled_quantity arriving_remaining with
               | Some total => negb (total =? settlement_quantity arriving)
               | None => true
               end)
    (Reservation "fills and arriving remainder do not conserve order quantity");
  _ ← fail_if (has_duplicate (map f_maker_order fills))
    (Reservation "one resting order cannot appear twice in an atomic match batch");
  _ ← map_err (λ _, ProofFailure "transition proof statement mismatch")
    (verify_settlement_binding transition (settlement_market_id arriving)
       (settlement_commitment arriving) fills (se_transition_committee_trust_root e));
  st ← for_each (compat_fill rnd (settlement_market_id arriving)
      (statement_digest (auth_statement transition)) now)
    {| sb_reservations := se_reservations e;
       sb_participants := se_participants e;
       sb_spent := se_spent_instructions e;
       sb_members := [] |}
    (enumerate fills);
  '(b1, taker_remaining) ← staged (reconcile_arriving arriving arriving_remaining)
    (sb_reservations st);
  '(b2, _) ← staged (refresh_all (sb_participants st)) b1;
  let '(final_securities, final_cash) := ledgers_from_participants (sb_participants st) in
  _ ← fail_if (negb (ledger_conserved final_securities) || negb (ledger_conserved final_cash))
    Insolvent;
  _ ← fail_if (negb (Nat.eqb (size (sb_spent st))
      (size (se_spent_instructions e) + length fills))) ReplayAccepted;
  Ok {| sb_reservations := b2;
        sb_participants := sb_participants st;
        sb_spent := sb_spent st;
        sb_members := set_last_taker taker_remaining (sb_members st) |}.

Definition settle_batch (rnd : Z → ZkpiRandom) (fills : list PublicFill) (transition : A)
    (arriving : O) (arriving_remaining now : Z) :
    method SettlementEngine SettlementError OclobSettlementReceipt :=
  e ← self;
  st ← try (stage_compat rnd e fills transition arriving arriving_remaining now);
  commit_batch transition st.

Definition prepare_canonical_batch (rnd : Z → ZkpiRandom) (e : SettlementEngine)
    (fills : list PublicFill) (transition : A) (arriving : O) (arriving_remaining now : Z) :
    result SettlementError PreparedCanonicalBatch :=
  prepare_batch_with (settle_batch rnd fills transition arriving arriving_remaining now) e
    transition arriving now.

(** [CanonicalAdmissionBatch]. *)
Record CanonicalAdmissionBatch := mk_canonical_admission {
  ab_reserved_candidate : SettlementEngine;
  ab_reservation_receipt : ReservationReceipt;
  ab_fills : list PublicFill;
  ab_transition : A;
  ab_certificate : OrderCertificate;
  ab_arriving : O;
  ab_arriving_remaining : Z;
  ab_now : Z
}.

Definition prepare_canonical_admission_batch (zrnd : ZkpiRandom) (rnd : Z → ZkpiRandom)
    (e : SettlementEngine) (m : CanonicalAdmissionBatch) :
    result SettlementError PreparedCanonicalTransition :=
  prepare_admission_with "OCLOB:ZKPI-ADMISSION-AND-DVP:v1" "OCLOB:ADMISSION-AND-DVP-PROOF:v1"
    zrnd e (ab_reserved_candidate m) (ab_reservation_receipt m) (ab_fills m) (ab_transition m)
    (ab_certificate m) (ab_arriving m) (ab_now m)
    (prepare_canonical_batch rnd (ab_reserved_candidate m) (ab_fills m) (ab_transition m)
       (ab_arriving m) (ab_arriving_remaining m) (ab_now m)).

End compat.
