(* ===== verification/CompatLife.v ===== *)
(** * The compatibility settlement path: solvency and exact effect

    A batch settled from scalar openings keeps the engine solvent, moves
    exactly the public fills, and changes the reservation book by exactly the
    fills' consumption and the reconciliation of the arriving order. *)

From S2P Require Import Prelude BTree Bytes AppCrypto Orders Matching Book Ordering Proofs.
From S2P Require Import Reservations ReservationInv ReservationLife Settlement SettlementInv.
From S2P Require Import SettlementLife Canonical Compat.
Open Scope list_scope.
Open Scope Z_scope.

(** The reservation book after a list of fills, each consumed in turn. *)
Inductive fills_run `{Points} (market_id : bytes) (now : Z) :
    list PublicFill → ReservationBook → ReservationBook → Prop :=
| run_no_fill b : fills_run market_id now [] b b
| run_fill fill fills b maker taker b' :
    record_of b (f_maker_order fill) = Some maker →
    record_of b (f_taker_order fill) = Some taker →
    fillable fill market_id now maker taker →
    fills_run market_id now fills (filled_book b maker taker (f_quantity fill)) b' →
    fills_run market_id now (fill :: fills) b b'.

Section compat_life.
Context `{Crypto} `{CompatLaws}.
Context {O : Type} `{SettlementOrderView O} {A : Type} `{TransitionAuthorization A}.
Implicit Types (e : SettlementEngine) (b : ReservationBook) (st : StagedBatch).

Lemma carry_parties_Ok i ls lc fill seller buyer o1 o2 o3 o4 openings package carry seller' buyer' :
  build_package i ls lc (f_quantity fill) (f_price fill)
    (mk_holdings (cb_value (pa_securities seller)) o1 (cb_value (pa_cash buyer)) o2) openings
    = Ok (package, carry) →
  carry_parties fill carry seller buyer o3 o4 = Ok (seller', buyer') →
  parties_moved fill seller buyer seller' buyer'.
Proof.
  intros (Hs & Hs' & Hc & Hc')%build_package_carry Hp. simpl in *. unfold carry_parties in Hp.
  apply bind_Ok in Hp as (cash & Hcash%ok_or_Ok & Hp).
  apply checked_mul_Some in Hcash as [-> _].
  apply bind_Ok in Hp as (sc & [-> ?]%checked_credit_Ok & Hp).
  apply bind_Ok in Hp as (bs & [-> ?]%checked_credit_Ok & Hp). injection Hp as <- <-.
  unfold parties_moved. split_and!; try done; intros []; simpl; lia.
Qed.

Lemma compat_fill_ok rnd market_id digest now st i fill st' :
  res_ok (sb_reservations st) → accounts_ok (sb_participants st) (sb_reservations st) →
  0 < f_price fill → 0 < f_quantity fill →
  compat_fill rnd market_id digest now st (i, fill) = Ok st' →
  fill_step_ok fill st st'
  ∧ ∃ maker taker, record_of (sb_reservations st) (f_maker_order fill) = Some maker
      ∧ record_of (sb_reservations st) (f_taker_order fill) = Some taker
      ∧ fillable fill market_id now maker taker
      ∧ sb_reservations st' = filled_book (sb_reservations st) maker taker (f_quantity fill).
Proof.
  intros Hb Hacc Hp Hq Hset. unfold compat_fill in Hset.
  apply bind_Ok in Hset as ([b1 cf] & Hcf%staged_Ok & Hset).
  destruct (consume_fill_cases (sb_reservations st) fill market_id now)
    as [(mk & tk & Hm & Ht & Hf & Hc)|(_ & reason & Hc)]; [done..| |congruence].
  rewrite Hc in Hcf. injection Hcf as <- <-.
  destruct (filled_book_ok _ _ _ _ _ _ Hb Hp Hq Hm Ht Hf) as (Hb1 & Hheld & _).
  pose proof (filled_parties _ _ _ _ _ _ Hb Hp Hq Hm Ht Hf) as Hpar.
  set (cf := consumed_fill mk tk (f_quantity fill)) in *.
  apply bind_Ok in Hset as (_ & Hne%fail_if_Ok & Hset). apply bool_decide_eq_false in Hne.
  apply bind_Ok in Hset as (seller & Hs%ok_or_Ok & Hset).
  apply bind_Ok in Hset as (buyer & Hy%ok_or_Ok & Hset).
  do 6 (apply bind_Ok in Hset as (? & _ & Hset)).
  destruct (ledgers_from_participants (sb_participants st)) as [ls lc].
  apply bind_Ok in Hset as ([package carry] & Hbuild%map_err_Ok & Hset).
  apply bind_Ok in Hset as (_ & Hfresh%fail_if_Ok & Hset). apply bool_decide_eq_false in Hfresh.
  destruct (defmi_settle _ _ _ _) as [status [sa ca]].
  apply bind_Ok in Hset as (_ & _ & Hset).
  apply bind_Ok in Hset as ([seller' buyer'] & Hpart & Hset).
  apply (carry_parties_Ok _ _ _ _ _ _ _ _ _ _ _ _ _ _ _ Hbuild) in Hpart.
  destruct (ledgers_from_participants _) as [es ec].
  apply bind_Ok in Hset as (_ & _ & Hset). injection Hset as <-.
  destruct (move_accounts_ok (sb_participants st) (sb_reservations st)
    (filled_book (sb_reservations st) mk tk (f_quantity fill)) fill cf seller buyer seller' buyer')
    as (Hacc' & Hdom & Hbal & Htot); try done.
  split; [|by exists mk, tk]. split; simpl; try done.
  - intros p k. rewrite Hbal. unfold fill_flow. by rewrite Hm, Ht.
  - by eexists.
Qed.

Lemma map_snd_enumerate {X} (l : list X) : map snd (enumerate l) = l.
Proof.
  unfold enumerate. enough (∀ f : nat → Z, map snd (imap (λ i x, (f i, x)) l) = l) by eauto.
  induction l as [|x l IH]; intros f; simpl; [done|]. f_equal. apply (IH (f ∘ S)).
Qed.

Lemma compat_loop_ok rnd market_id digest now l st st' :
  Forall (λ fill, 0 < f_price fill ∧ 0 < f_quantity fill) (map snd l) →
  res_ok (sb_reservations st) → accounts_ok (sb_participants st) (sb_reservations st) →
  for_each (compat_fill rnd market_id digest now) st l = Ok st' →
  batch_ok (map snd l) st st'
  ∧ fills_run market_id now (map snd l) (sb_reservations st) (sb_reservations st').
Proof.
  intros Hpos Hb Hacc Hl. split.
  { eapply batch_loop_ok; [|done..]. intros s [i f] s' ????. by apply compat_fill_ok. }
  revert st Hpos Hb Hacc Hl. induction l as [|[i fill] l IH]; intros st Hpos Hb Hacc; simpl.
  - intros [= <-]. constructor.
  - apply Forall_cons in Hpos as [[Hp Hq] Hpos]. rewrite bind_Ok. intros (st1 & Hf & Hl).
    destruct (compat_fill_ok _ _ _ _ _ _ _ _ Hb Hacc Hp Hq Hf) as ([] & mk & tk & Hm & Ht & Hfill & Hres).
    econstructor; [done..|]. cbn [snd] in *. rewrite <-Hres. by apply IH.
Qed.

(** Fills change quantities only, and the arriving order's by their sum. *)
Lemma after_fill_terms r q : same_terms r (after_fill r q).
Proof. by unfold same_terms. Qed.

Lemma same_terms_trans r1 r2 r3 : same_terms r1 r2 → same_terms r2 r3 → same_terms r1 r3.
Proof.
  unfold same_terms. intros (-> & -> & -> & -> & -> & -> & -> & -> & -> & -> & -> & ->) ?. done.
Qed.

Lemma fills_run_taker market_id now fills b b' c r :
  fills_run market_id now fills b b' → res_ok b →
  Forall (λ fill, 0 < f_price fill ∧ 0 < f_quantity fill) fills →
  Forall (λ fill, f_taker_order fill = c) fills → record_of b c = Some r →
  res_ok b' ∧ ∃ r', record_of b' c = Some r' ∧ same_terms r r'
    ∧ rec_remaining_quantity r' = rec_remaining_quantity r - sumZ (map f_quantity fills).
Proof.
  intros Hrun. revert r. induction Hrun as [b|f fills b mk tk b' Hm Ht Hf Hrun IH]; intros r Hb Hpos Hc Hr.
  { split; [done|]. exists r. split_and!; [done|by unfold same_terms|simpl; lia]. }
  apply Forall_cons in Hpos as [[Hp Hq] Hpos], Hc as [Hct Hc].
  destruct (filled_book_ok _ _ _ _ _ _ Hb Hp Hq Hm Ht Hf) as (Hb1 & _ & Hrec).
  rewrite Hct, Hr in Ht. injection Ht as <-. destruct Hf as (_ & Hne & _).
  destruct (IH (after_fill r (f_quantity f))) as (Hb' & r' & Hr' & Hterms & Hqty); try done.
  { rewrite Hrec, decide_False by congruence. by rewrite decide_True. }
  split; [done|]. exists r'. split_and!; [done|by eapply same_terms_trans; [apply after_fill_terms|]|].
  rewrite Hqty. simpl. lia.
Qed.

Lemma terms_match_same (order : O) r r' : same_terms r r' → terms_match order r → terms_match order r'.
Proof.
  unfold same_terms, terms_match. intros (_ & _ & _ & _ & _ & -> & -> & -> & _ & -> & _). done.
Qed.

Lemma reconcile_frame (order : O) b b' remaining u :
  reconcile_arriving order remaining b = (b', u) →
  rb_participant_entities b' = rb_participant_entities b.
Proof.
  unfold reconcile_arriving. rewrite self_bind, !try_bind.
  repeat (case_match; simplify_eq/=; try done; rewrite ?try_bind);
    try (by intros [= <- <-]); unfold set_self; cbn; by intros [= <- <-].
Qed.

(** What staging a batch establishes. *)
Record compat_ok e (arriving : O) fills (remaining now : Z) st : Prop := {
  co_engine : engine_ok (with_settled (sb_participants st) (sb_reservations st) (sb_spent st) e);
  co_balance : ∀ p k, balance_of (sb_participants st) p k = balance_of (se_participants e) p k
    + sumZ (map (λ fill, fill_flow (se_reservations e) fill p k) fills);
  co_takers : Forall (λ fill, f_taker_order fill = settlement_commitment arriving) fills;
  co_positive : Forall (λ fill, 0 < f_price fill ∧ 0 < f_quantity fill) fills;
  co_quantity : sumZ (map f_quantity fills) + remaining = settlement_quantity arriving;
  co_records : ∃ b1 r1, fills_run (settlement_market_id arriving) now fills (se_reservations e) b1
    ∧ res_ok b1 ∧ record_of b1 (settlement_commitment arriving) = Some r1
    ∧ rec_remaining_quantity r1 = remaining
    ∧ rb_records (sb_reservations st) = rb_records (reconciled_book b1 r1)
}.

Lemma stage_compat_ok rnd e fills (transition : A) (arriving : O) remaining now st r :
  engine_ok e → Forall (λ fill, 0 ≤ f_price fill ∧ 0 ≤ f_quantity fill) fills → 0 ≤ remaining →
  record_of (se_reservations e) (settlement_commitment arriving) = Some r →
  terms_match arriving r →
  stage_compat rnd e fills transition arriving remaining now = Ok st →
  compat_ok e arriving fills remaining now st.
Proof.
  intros (Hb & Hacc & Hcaps) Hnn Hrem Hr Hterms Hst. unfold stage_compat in Hst.
  apply bind_Ok in Hst as (_ & Hg%fail_if_Ok & Hst). bool_hyps.
  rename select (existsb (λ fill, (f_quantity fill =? 0) || _) fills = false) into Hzero.
  pose proof (fills_positive _ Hnn Hzero) as Hpos.
  apply bind_Ok in Hst as (_ & Htk%fail_if_Ok & Hst).
  assert (Forall (λ fill, f_taker_order fill = settlement_commitment arriving) fills) as Htakers.
  { rewrite Forall_forall. intros f Hf. rewrite <-not_true_iff_false, existsb_exists in Htk.
    destruct (decide (f_taker_order f = settlement_commitment arriving)) as [|Hn]; [done|].
    destruct Htk. exists f. split; [by apply list_elem_of_In|]. by rewrite bool_decide_false. }
  apply bind_Ok in Hst as (_ & _ & Hst).
  apply bind_Ok in Hst as (filled & Hfilled%ok_or_Ok & Hst).
  apply bind_Ok in Hst as (_ & Hsum%fail_if_Ok & Hst).
  do 2 (apply bind_Ok in Hst as (? & _ & Hst)).
  apply bind_Ok in Hst as (st1 & Hloop & Hst).
  apply bind_Ok in Hst as ([b1 kept] & Hrec%staged_Ok & Hst).
  apply bind_Ok in Hst as ([b2 []] & Href%staged_Ok & Hst).
  destruct (ledgers_from_participants _) as [ls lc].
  do 2 (apply bind_Ok in Hst as (? & _ & Hst)). apply Ok_inj in Hst as <-.
  apply compat_loop_ok in Hloop as [[R1 R2 R3 R4 R5 R6 R7] Hrun]; [|by rewrite map_snd_enumerate|done..].
  rewrite map_snd_enumerate in R5, Hrun. simpl in Hrun.
  destruct (fills_run_taker _ _ _ _ _ _ r Hrun Hb Hpos Htakers Hr) as (_ & r1 & Hr1 & Hsame & Hqty).
  pose proof (reconcile_cases (sb_reservations st1) arriving remaining r1 R1 Hr1
    (terms_match_same _ _ _ Hsame Hterms) Hrem) as Hc.
  case_decide as Hq; destruct Hc as [? Hc]; [|congruence]. rewrite Hc in Hrec. injection Hrec as <- _.
  destruct (reconciled_book_ok _ _ _ R1 Hr1) as [Hb1 Hheld].
  pose proof (reconcile_frame _ _ _ _ _ Hc) as Hpe.
  destruct (refreshed_ok e st1 _ b2 R2 Hpe Hheld Hb1 Href) as [Heng Hrecs].
  split; try done.
  - apply checked_sum_Some in Hfilled as ->. unfold checked_add in Hsum.
    destruct (_ <=? _); [|done]. bool_hyps. lia.
  - exists (sb_reservations st1), r1. by split_and!.
Qed.

Lemma settle_batch_Ok rnd e e' fills (transition : A) (arriving : O) remaining now receipt :
  settle_batch rnd fills transition arriving remaining now e = (e', Ok receipt) →
  ∃ st, stage_compat rnd e fills transition arriving remaining now = Ok st
    ∧ sr_reservation_after_root receipt = reservation_root (sb_reservations st)
    ∧ e' = with_settled (sb_participants st) (sb_reservations st) (sb_spent st)
             (with_reservations (se_reservations e) (se_height e + 1) e).
Proof.
  unfold settle_batch. rewrite self_bind, try_bind.
  destruct (stage_compat _ _ _ _ _ _ _) as [st|err] eqn:E; [|done].
  intros [??]%commit_Ok. eauto.
Qed.

End compat_life.
