(* ===== verification/EngineLife.v ===== *)
(** * Every engine the settlement API can produce

    The reachable engines: creation, every public method of
    [SettlementEngine] that takes it mutably, on both settlement paths, and
    the two-phase canonical acceptance with each of the five ways a transition
    is prepared. All of them are solvent. *)

From S2P Require Import Prelude BTree Bytes AppCrypto Orders Matching Book Ordering Proofs.
From S2P Require Import Reservations ReservationInv ReservationLife Settlement SettlementInv.
From S2P Require Import SettlementLife Canonical Compat CompatLife.
Open Scope list_scope.
Open Scope Z_scope.

(** Quantities and prices are unsigned in the code. *)
Definition fills_unsigned (fills : list PublicFill) : Prop :=
  Forall (λ fill, 0 ≤ f_price fill ∧ 0 ≤ f_quantity fill) fills.

(** The arriving order a settlement presents is the one reserved under its
    commitment: the scalar-opening path reconciles by the presented terms. *)
Definition presents_reserved `{SettlementCrates} {O} `{SettlementOrderView O} (e : SettlementEngine)
    (arriving : O) : Prop :=
  ∀ r, record_of (se_reservations e) (settlement_commitment arriving) = Some r →
    terms_match arriving r.

Section engine_life.
Context `{Crypto} `{CompatLaws}.
Implicit Types (e live candidate : SettlementEngine) (fills : list PublicFill).

(** [t] was prepared for the live engine [e] from the engine [candidate]. *)
Inductive prepared_over {O A} `{SettlementOrderView O} `{TransitionAuthorization A} (e : SettlementEngine) :
    SettlementEngine → PreparedCanonicalTransition → Prop :=
| over_reservation candidate rnd receipt (order : O) certificate (transition : A) now t :
    prepare_canonical_reservation rnd e candidate receipt order certificate transition now = Ok t →
    prepared_over e candidate t
| over_batch rnd fills (transition : A) (arriving : O) remaining now p :
    fills_unsigned fills → 0 ≤ remaining → presents_reserved e arriving →
    prepare_canonical_batch rnd e fills transition arriving remaining now = Ok p →
    prepared_over e e (PreparedSettlement p)
| over_batch_collaborative fills proofs round (transition : A) (arriving : O) remaining now p :
    fills_unsigned fills →
    prepare_canonical_batch_collaborative e fills proofs round transition arriving remaining now
      = Ok p →
    prepared_over e e (PreparedSettlement p)
| over_admission zrnd rnd (m : CanonicalAdmissionBatch (O := O) (A := A)) t :
    fills_unsigned (ab_fills m) → 0 ≤ ab_arriving_remaining m →
    presents_reserved (ab_reserved_candidate m) (ab_arriving m) →
    prepare_canonical_admission_batch zrnd rnd e m = Ok t →
    prepared_over e (ab_reserved_candidate m) t
| over_admission_collaborative rnd (m : AdmissionBatch (O := O) (A := A)) t :
    fills_unsigned (am_fills m) →
    prepare_canonical_admission_batch_collaborative rnd e m = Ok t →
    prepared_over e (am_reserved_candidate m) t.

(** Any engine value a client of the crate can hold, whatever its calls
    returned. A candidate is itself such an engine: a clone, on which calls
    were made. [PreparedCanonicalBatch::accept] is the settlement case of
    [canonical_accept]. *)
Inductive reachable : SettlementEngine → Prop :=
| reach_new keys policy dkg first second r1 r2 r3 r4 e :
    new_with_transition_committee keys policy dkg first second r1 r2 r3 r4 = Ok e → reachable e
| reach_pin e key policy :
    reachable e → reachable (pin_collaborative_settlement_committee key policy e).1
| reach_bind e p entity : reachable e → reachable (bind_eligible_participant p entity e).1
| reach_reserve {O} `{SettlementOrderView O} e (order : O) c :
    reachable e → view_ok order → reachable (reserve_order_with_commitment order c e).1
| reach_release e c : reachable e → reachable (engine_release_order c e).1
| reach_release_all e l : reachable e → reachable (release_orders_atomic l e).1
| reach_settle {O A} `{SettlementOrderView O} `{TransitionAuthorization A} e rnd fills
    (transition : A) (arriving : O) remaining now :
    reachable e → fills_unsigned fills → 0 ≤ remaining → presents_reserved e arriving →
    reachable (settle_batch rnd fills transition arriving remaining now e).1
| reach_settle_collaborative {A} `{TransitionAuthorization A} e fills proofs round
    (transition : A) arriving remaining now :
    reachable e → fills_unsigned fills →
    reachable
      (settle_batch_collaborative fills proofs round transition arriving remaining now e).1
| reach_accept {O A} `{SettlementOrderView O} `{TransitionAuthorization A} e candidate t a live :
    prepared_over (O := O) (A := A) e candidate t → reachable candidate → reachable live →
    reachable (canonical_accept t a live).1.

Section path.
Context {O : Type} `{SettlementOrderView O} {A : Type} `{TransitionAuthorization A}.

(** A staged compatibility batch has found the arriving order's reservation. *)
Lemma stage_compat_record rnd e fills (transition : A) (arriving : O) remaining now st :
  engine_ok e → fills_unsigned fills →
  stage_compat rnd e fills transition arriving remaining now = Ok st →
  ∃ r, record_of (se_reservations e) (settlement_commitment arriving) = Some r.
Proof.
  intros (Hb & Hacc & _) Hnn Hst. unfold stage_compat in Hst.
  apply bind_Ok in Hst as (_ & Hg%fail_if_Ok & Hst). bool_hyps.
  rename select (existsb (λ fill, (f_quantity fill =? 0) || _) fills = false) into Hzero.
  pose proof (fills_positive _ Hnn Hzero) as Hpos.
  apply bind_Ok in Hst as (_ & Htk%fail_if_Ok & Hst).
  do 5 (apply bind_Ok in Hst as (? & _ & Hst)).
  apply bind_Ok in Hst as (st1 & Hloop & _).
  apply compat_loop_ok in Hloop as [_ Hrun]; [|by rewrite map_snd_enumerate|done..].
  rewrite map_snd_enumerate in Hrun. cbn [sb_reservations] in Hrun.
  inversion Hrun as [|f fills' b mk tk b' _ Ht]; subst; [done|].
  simpl in Htk. apply orb_false_iff in Htk as [Htk _].
  apply negb_false_iff, bool_decide_eq_true in Htk. rewrite <-Htk. by exists tk.
Qed.

Lemma settle_batch_step_ok rnd e fills (transition : A) (arriving : O) remaining now :
  engine_ok e → fills_unsigned fills → 0 ≤ remaining → presents_reserved e arriving →
  engine_ok (settle_batch rnd fills transition arriving remaining now e).1.
Proof.
  intros He Hnn Hrem Hpres.
  destruct (settle_batch _ _ _ _ _ _ _) as [e' [receipt|err]] eqn:E; cbn [fst].
  - apply settle_batch_Ok in E as (st & Hst & _ & ->).
    destruct (stage_compat_record _ _ _ _ _ _ _ _ He Hnn Hst) as [r Hr].
    destruct (stage_compat_ok _ _ _ _ _ _ _ _ _ He Hnn Hrem Hr (Hpres r Hr) Hst) as [Hok].
    by eapply engine_ok_frame; [| |exact Hok].
  - unfold settle_batch in E. rewrite self_bind, try_bind in E.
    destruct (stage_compat _ _ _ _ _ _ _) as [st|err']; [|by injection E as <- _].
    apply commit_Err in E as [->|[-> _]]; [done|]. by apply (engine_ok_frame e).
Qed.

(** Whatever the way of preparing, the engine an acceptance would install is solvent. *)
Lemma prepared_over_ok e candidate t :
  prepared_over (O := O) (A := A) e candidate t → engine_ok candidate → engine_ok (candidate_of t).
Proof.
  intros Hp Hok. destruct Hp as [candidate rnd receipt order cert tr now t Hp
    |rnd fills tr arr rem now p Hnn Hrem Hpres Hp|fills proofs round tr arr rem now p Hnn Hp
    |zrnd rnd m t Hnn Hrem Hpres Hp|rnd m t Hnn Hp].
  - by apply prepare_reservation_Ok in Hp as (_ & -> & _).
  - apply prepare_batch_Ok in Hp as [Hs _]. cbn [candidate_of].
    pose proof (settle_batch_step_ok rnd e fills tr arr rem now Hok Hnn Hrem Hpres) as Hso.
    by rewrite Hs in Hso.
  - apply prepare_batch_Ok in Hp as [Hs _]. cbn [candidate_of].
    pose proof (settle_step_ok e fills proofs round tr (settlement_commitment arr) rem now Hok Hnn)
      as Hso. by rewrite Hs in Hso.
  - apply prepare_admission_Ok in Hp as (_ & p & [Hs _]%prepare_batch_Ok & -> & _).
    pose proof (settle_batch_step_ok rnd _ (ab_fills m) (ab_transition m) (ab_arriving m)
      (ab_arriving_remaining m) (ab_now m) Hok Hnn Hrem Hpres) as Hso. by rewrite Hs in Hso.
  - apply prepare_admission_Ok in Hp as (_ & p & [Hs _]%prepare_batch_Ok & -> & _).
    pose proof (settle_step_ok _ (am_fills m) (am_proofs m) (am_round_id m) (am_transition m)
      (settlement_commitment (am_arriving m)) (am_arriving_remaining m) (am_now m) Hok Hnn) as Hso.
    by rewrite Hs in Hso.
Qed.

Lemma accept_step_ok e candidate t a live :
  prepared_over (O := O) (A := A) e candidate t → engine_ok candidate → engine_ok live →
  engine_ok (canonical_accept t a live).1.
Proof.
  intros Hp Hc Hlive. apply prepared_over_ok in Hp; [|done].
  pose proof (canonical_accept_cases t a live) as Hacc.
  case_decide; destruct Hacc as [x Hacc]; [|destruct Hacc as [Hacc _]]; rewrite Hacc; cbn [fst];
    [|done]. by eapply engine_ok_frame; [| |exact Hp].
Qed.

End path.

Lemma reachable_ok e : reachable e → engine_ok e.
Proof.
  induction 1; eauto using new_engine_ok, bind_step_ok, reserve_step_ok, release_step_ok,
    release_all_step_ok, settle_step_ok, settle_batch_step_ok, accept_step_ok.
  destruct (pin_frame e key policy) as [? ?]. by apply (engine_ok_frame e).
Qed.

(** C3: The exchange never over-promises: from engine creation, through any
    sequence of committee pinning, bindings, reservations, releases,
    settlements on the collaborative and on the scalar-opening path, canonical
    acceptances of transitions prepared in any of the five ways, and failed
    calls, every bound participant's active reservations on each rail stay
    within its balance, and its portfolio reports exactly balance, reserved
    amount and their difference, without saturation or overflow. Amounts are
    unsigned, reserved orders are valid views, and a settlement on the
    scalar-opening path presents the arriving order that was reserved. *)
Theorem engine_solvent e p entity :
  reachable e →
  bt_get p (rb_participant_entities (se_reservations e)) = Some entity →
  ∃ a, bt_get p (se_participants e) = Some a
    ∧ (∀ k, 0 ≤ held_sum (se_reservations e) p k ≤ balance a k ≤ u64_max)
    ∧ participant_portfolio e p = Ok {|
        pf_securities := balance a Securities;
        pf_cash := balance a Cash;
        pf_reserved_securities := held_sum (se_reservations e) p Securities;
        pf_reserved_cash := held_sum (se_reservations e) p Cash;
        pf_available_securities :=
          balance a Securities - held_sum (se_reservations e) p Securities;
        pf_available_cash := balance a Cash - held_sum (se_reservations e) p Cash |}.
Proof.
  intros (Hb & (_ & Hnn & Hcov) & _)%reachable_ok Hp.
  destruct (Hcov p entity Hp) as (a & Ha & Hle). exists a. split; [done|].
  assert (∀ k, 0 ≤ held_sum (se_reservations e) p k ≤ balance a k ≤ u64_max) as Hk.
  { intros k. pose proof (held_sum_nonneg (se_reservations e) p k Hb). specialize (Hle k).
    specialize (Hnn p a k Ha). lia. }
  split; [done|].
  assert (∀ k, reserved_for (se_reservations e) p k = Ok (held_sum (se_reservations e) p k)) as Hr.
  { intros k. apply reserved_for_held; [done|]. specialize (Hk k). lia. }
  unfold participant_portfolio. rewrite Ha; cbn [ok_or]. rewrite Ok_bind, !Hr, !Ok_bind.
  pose proof (Hk Cash). pose proof (Hk Securities). unfold saturating_sub.
  cbn [balance] in *. by rewrite !Z.max_l by lia.
Qed.

End engine_life.
