(* ===== verification/Backing.v ===== *)
(** * Every resting order is backed by its reservation

    The relation between the private book and the reservation book: the
    resting orders are exactly the orders with an active reservation, which
    carries the order's own terms and the very quantity that still rests.
    How each step of the two books changes it. *)

From S2P Require Import Prelude BTree Bytes AppCrypto Orders Matching Book BookInv BookMatch.
From S2P Require Import BookApply Reservations ReservationInv ReservationLife.
From S2P Require Import Ordering Proofs Settlement Canonical Compat CompatLife.
Open Scope list_scope.
Open Scope Z_scope.

Section backing.
Context `{Crypto} `{Points}.
Implicit Types (r : ReservationRecord) (b : ReservationBook) (m : Records) (c : Digest32).

(** The reservation made for [order]. *)
Definition record_for (order : SecretOrder) r : Prop :=
  same_terms (new_record order point_identity) r.

Definition backed b m c : Prop :=
  match m !! c, record_of b c with
  | Some o, Some r => rec_status r = Active ∧ record_for (ro_secret o) r
      ∧ rec_remaining_quantity r = ro_remaining o
  | Some _, None => False
  | None, Some r => rec_status r ≠ Active
  | None, None => True
  end.

Definition backs b m : Prop := ∀ c, backed b m c.

(** The same for all orders but one, which is on its way into the book. *)
Definition backs_except c0 b m : Prop := ∀ c, c ≠ c0 → backed b m c.

Lemma record_of_records b b' : rb_records b' = rb_records b → ∀ c, record_of b' c = record_of b c.
Proof. intros Hr c. unfold record_of, record_id_for. by rewrite Hr. Qed.

Lemma backs_records b b' m : rb_records b' = rb_records b → backs b m → backs b' m.
Proof. intros Hr Hb c. specialize (Hb c). unfold backed in *. by rewrite (record_of_records b). Qed.

Lemma order_view_ok order : order_valid order = true → view_ok order.
Proof.
  intros Hv. pose proof (order_valid_reserve order Hv) as (Hc & ? & ? & _ & ?).
  unfold order_valid in Hv. repeat (apply andb_true_iff in Hv as [Hv ?]).
  repeat match goal with H : is_u64 _ = true |- _ => apply is_u64_spec in H end.
  unfold view_ok, covers; simpl. split_and!; try lia. destruct (o_side order); simpl; lia.
Qed.

(** ** One fill *)

Lemma after_fill_status r q :
  rec_status (after_fill r q) = Active ↔ rec_remaining_quantity r - q ≠ 0.
Proof. unfold after_fill; simpl. destruct (Z.eqb_spec (rec_remaining_quantity r - q) 0); naive_solver. Qed.

Lemma backs_fill b m fill market_id now maker taker :
  res_ok b → 0 < f_price fill → 0 < f_quantity fill →
  record_of b (f_maker_order fill) = Some maker →
  record_of b (f_taker_order fill) = Some taker →
  fillable fill market_id now maker taker →
  backs_except (f_taker_order fill) b m →
  backs_except (f_taker_order fill) (filled_book b maker taker (f_quantity fill)) (spec_fill m fill)
  ∧ spec_fill m fill !! f_taker_order fill = m !! f_taker_order fill.
Proof.
  intros Hb Hp Hq Hm Ht Hf Hbk.
  destruct (filled_book_ok _ _ _ _ _ _ Hb Hp Hq Hm Ht Hf) as (_ & _ & Hrec).
  destruct Hf as (_ & Hne & _ & _ & _ & _ & _ & Hact & _).
  pose proof (Hbk _ Hne) as Hmk. unfold backed in Hmk. rewrite Hm in Hmk.
  destruct (m !! f_maker_order fill) as [o|] eqn:Eo; [|done]. destruct Hmk as (_ & Hfor & Hqty).
  unfold spec_fill. rewrite Eo. split.
  2:{ unfold set_left. destruct (_ =? 0); [by rewrite lookup_delete_ne|by rewrite lookup_insert_ne]. }
  intros c Hc. unfold backed. rewrite Hrec, (decide_False (P := f_taker_order fill = c)) by done.
  case_decide as E; [subst c|].
  - unfold set_left. rewrite <-Hqty. pose proof (after_fill_status maker (f_quantity fill)) as Hst.
    destruct (Z.eqb_spec (rec_remaining_quantity maker - f_quantity fill) 0) as [E0|E0].
    + rewrite lookup_delete_eq. rewrite Hst. lia.
    + rewrite lookup_insert_eq. split_and!; [by apply Hst| |done]. simpl.
      by eapply same_terms_trans; [exact Hfor|apply after_fill_terms].
  - specialize (Hbk c Hc). unfold backed in Hbk. unfold set_left.
    destruct (_ =? 0); [by rewrite lookup_delete_ne|by rewrite lookup_insert_ne].
Qed.

Lemma backs_fills market_id now fills b b' c0 :
  fills_run market_id now fills b b' → ∀ m, res_ok b →
  Forall (λ fill, 0 < f_price fill ∧ 0 < f_quantity fill) fills →
  Forall (λ fill, f_taker_order fill = c0) fills →
  backs_except c0 b m →
  backs_except c0 b' (spec_fills m fills) ∧ spec_fills m fills !! c0 = m !! c0.
Proof.
  induction 1 as [b|f fills b mk tk b' Hm Ht Hf Hrun IH]; intros m Hb Hpos Hc Hbk; [done|].
  apply Forall_cons in Hpos as [[Hp Hq] Hpos], Hc as [Hct Hc].
  destruct (filled_book_ok _ _ _ _ _ _ Hb Hp Hq Hm Ht Hf) as (Hb1 & _).
  destruct (backs_fill b m f market_id now mk tk) as [Hbk1 Hl]; [done..|by rewrite Hct|].
  rewrite Hct in Hbk1, Hl. rewrite spec_fills_cons, <-Hl. by apply IH.
Qed.

(** ** The arriving order *)

Lemma backs_reserve (order : SecretOrder) (pt : RistrettoPoint) b m :
  res_ok b → view_ok order → reservable order pt b → backs b m →
  let b' := set_records (bt_insert (o_reservation_id order) (new_record order pt) (rb_records b)) b in
  backs_except (commitment order) b' m ∧ m !! commitment order = None
  ∧ record_of b' (commitment order) = Some (new_record order pt).
Proof.
  intros Hb Hv Hr Hbk b'. destruct (reserved_book_ok order pt b Hb Hv Hr) as (_ & _ & Hrec).
  simpl in Hrec. split_and!.
  - intros cm Hne. unfold backed, b'. rewrite Hrec, decide_False by congruence. apply Hbk.
  - destruct Hr as (_ & _ & _ & Hfresh & _). specialize (Hbk (commitment order)).
    unfold backed in Hbk. destruct (m !! commitment order); [|done].
    change (record_of b (commitment order) = None) in Hfresh. by rewrite Hfresh in Hbk.
  - unfold b'. by rewrite Hrec, decide_True.
Qed.

(** A remainder rests in both books, or in neither. *)
Lemma backs_rest order authority seq rem b m r r' b' :
  res_ok b → backs_except (commitment order) b m → m !! commitment order = None →
  a_commitment authority = commitment order →
  record_for order r' →
  (rec_status r' = Active ↔ 0 < rem ∧ o_time_in_force order = GoodTilCancelled) →
  (rec_status r' = Active → rec_remaining_quantity r' = rem) →
  record_of b (commitment order) = Some r →
  (∀ c, record_of b' c = if decide (commitment order = c) then Some r' else record_of b c) →
  backs b' (spec_rest order authority seq rem m).
Proof.
  intros Hb Hbk Hnone Ha Hfor Hst Hqty Hr Hrec c. unfold backed. rewrite Hrec.
  unfold spec_rest. rewrite Ha. destruct (decide (commitment order = c)) as [<-|Hne].
  - destruct ((0 <? rem) && _) eqn:E; bool_hyps.
    + rewrite lookup_insert_eq. assert (rec_status r' = Active) as Hac by (apply Hst; split; [lia|done]).
      split_and!; auto.
    + rewrite Hnone. intros [? Ht]%Hst. apply andb_false_iff in E as [E|E]; bool_hyps; [lia|done].
  - specialize (Hbk c ltac:(congruence)). unfold backed in Hbk.
    destruct ((0 <? rem) && _); [by rewrite lookup_insert_ne|done].
Qed.

(** ** Releases *)

Lemma backs_release c b b' m :
  res_ok b → backs_except c b m → release_order c b = (b', Ok ()) →
  res_ok b' ∧ backs b' (delete c m).
Proof.
  intros Hb Hbk Hrel. destruct (release_cases b c Hb) as [(r & Hr & _ & E)|(_ & reason & E)];
    rewrite E in Hrel; [|done]. injection Hrel as <-.
  destruct (closed_book_ok b c r Released) as (Hb' & _ & Hrec); [done..|]. split; [done|].
  intros c'. unfold backed. rewrite Hrec. case_decide as Hc; [subst c'|].
  - by rewrite lookup_delete_eq.
  - rewrite lookup_delete_ne by done. apply (Hbk c'). congruence.
Qed.

Lemma backs_release_each l b b' m :
  res_ok b → backs b m → release_each l b = (b', Ok ()) →
  res_ok b' ∧ backs b' (foldl (λ m c, delete c m) m l).
Proof.
  revert b m. induction l as [|c l IH]; intros b m Hb Hbk; cbn [release_each foldl].
  { by intros [= <-]. }
  rewrite method_bind. destruct (release_order c b) as [b1 [[]|err]] eqn:E; [|done].
  apply (backs_release c b b1 m) in E as [Hb1 Hbk1]; [|done|by intros ? _]. by apply IH.
Qed.

Lemma foldl_delete m l c :
  foldl (λ m c, delete c m) m l !! c = if decide (c ∈ l) then None else m !! c.
Proof.
  revert m. induction l as [|x l IH]; intros m; simpl; [done|].
  rewrite IH. destruct (decide (c ∈ l)).
  - by rewrite decide_True by (by right).
  - destruct (decide (c = x)) as [->|].
    + rewrite lookup_delete_eq, decide_True by left. done.
    + rewrite lookup_delete_ne by done. rewrite decide_False; [done|].
      intros [?|?]%elem_of_cons; done.
Qed.

End backing.
