(* ===== verification/Eligibility.v ===== *)
(** * DeKYX eligibility at the admission boundary

    [OclobEligibilityVerifier] of [oclob-dekyx/src/lib.rs]: an anonymous
    presentation must name exactly this order and this venue, verify under the
    pinned issuer, and is consumed once.  The credential system is another
    crate: the parameters of [Dekyx]. *)

From S2P Require Import Prelude BTree Bytes Orders.
Open Scope string_scope.
Open Scope list_scope.
Open Scope Z_scope.

(** The fields of the crate's records the adapter reads. *)
Record PresentationContext := mk_presentation_context {
  pc_scope_digest : Digest32;
  pc_audience_digest : Digest32;
  pc_action_digest : Digest32;
  pc_request_digest : Digest32;
  pc_valid_until : Z
}.

Record AnonymousPresentation := mk_presentation {
  ap_context : PresentationContext;
  ap_nullifier : Digest32;
  ap_proof : bytes
}.

Record EligibilityRequirement := mk_requirement {
  er_is_legal_entity : bool;  (* [subject_kind == SubjectKind::LegalEntity] *)
  er_issuer_id : Digest32;
  er_issuer_key_epoch : Z;
  er_scope_digest : Digest32
}.

Record VerifiedOrderEligibility := mk_eligibility {
  vo_subject_nullifier : Digest32;
  vo_subject_line_id : Digest32;
  vo_proof_digest : Digest32;
  vo_valid_until : Z
}.

Inductive EligibilityError :=
| Configuration
| ContextMismatch
| DeKyx (reason : string).

Class Dekyx := {
  IssuerDirectory : Type;
  CredentialVerifier : Type;
  PresentationLedger : Type;
  directory_verifier : IssuerDirectory → Digest32 → Z → result string CredentialVerifier;
  verify_eligibility : CredentialVerifier → EligibilityRequirement → PresentationContext →
    AnonymousPresentation → Z → result string VerifiedOrderEligibility;
  presentation_ledger_default : PresentationLedger;
  presentation_consume : Digest32 → PresentationContext →
    method PresentationLedger string ()
}.

Section eligibility.
Context `{Dekyx}.

Record OclobEligibilityVerifier := mk_verifier {
  ev_directory : IssuerDirectory;
  ev_requirement : EligibilityRequirement;
  ev_consumed : PresentationLedger;
  ev_audience_digest : Digest32;
  ev_action_digest : Digest32
}.

Definition verifier_new (directory : IssuerDirectory) (requirement : EligibilityRequirement)
    (audience_digest action_digest : Digest32) : result EligibilityError OclobEligibilityVerifier :=
  _ ← fail_if (is_zero audience_digest || is_zero action_digest
      || negb (er_is_legal_entity requirement)) Configuration;
  _ ← map_err DeKyx (directory_verifier directory (er_issuer_id requirement)
    (er_issuer_key_epoch requirement));
  Ok {| ev_directory := directory;
        ev_requirement := requirement;
        ev_consumed := presentation_ledger_default;
        ev_audience_digest := audience_digest;
        ev_action_digest := action_digest |}.

Definition verify_order (order_commitment order_nullifier : Digest32) (order_expires_at : Z)
    (evidence : AnonymousPresentation) (now : Z) :
    method OclobEligibilityVerifier EligibilityError VerifiedOrderEligibility :=
  v ← self;
  let context := ap_context evidence in
  _ ← try (fail_if
      (negb (bool_decide (pc_scope_digest context = er_scope_digest (ev_requirement v)))
      || negb (bool_decide (pc_audience_digest context = ev_audience_digest v))
      || negb (bool_decide (pc_action_digest context = ev_action_digest v))
      || negb (bool_decide (pc_request_digest context = order_commitment))
      || (pc_valid_until context <? order_expires_at)
      || negb (bool_decide (ap_nullifier evidence = order_nullifier))) ContextMismatch);
  verifier ← try (map_err DeKyx (directory_verifier (ev_directory v)
    (er_issuer_id (ev_requirement v)) (er_issuer_key_epoch (ev_requirement v))));
  verified ← try (map_err DeKyx
    (verify_eligibility verifier (ev_requirement v) context evidence now));
  let '(consumed, r) :=
    presentation_consume (vo_subject_nullifier verified) context (ev_consumed v) in
  _ ← set_self {| ev_directory := ev_directory v;
                  ev_requirement := ev_requirement v;
                  ev_consumed := consumed;
                  ev_audience_digest := ev_audience_digest v;
                  ev_action_digest := ev_action_digest v |};
  _ ← try (map_err DeKyx r);
  mret verified.

End eligibility.
