(* ===== verification/Service.v ===== *)
(** * The exchange service

    [OclobService] of [oclob-service/src/lib.rs]: the seam from admission to
    settlement.  Every operation works on clones of the book, the committee,
    the engine and the eligibility ledger and installs them together; the MPC
    runner is the only component an unfinished submission touches.  With
    [PreparedOclobSubmission], the two-phase acceptance.

    The text of an error (derived code in the source) is kept as the error
    itself in [Cause]. *)

From S2P Require Import Prelude BTree Bytes AppCrypto Orders Matching Circuit MpcRunner Book.
From S2P Require Import Ordering Proofs Reservations Settlement Canonical Compat Eligibility.
Open Scope string_scope.
Open Scope list_scope.
Open Scope Z_scope.

Inductive Cause :=
| FromOrder (e : OrderError)
| FromEligibility (e : EligibilityError)
| FromOrdering (e : OrderingError)
| FromMpc (e : MpcError)
| FromProof (e : ProofError)
| FromSettlement (e : SettlementError)
| FromText (s : string).

(** [ServiceError]; the prefix keeps the source's names apart from the types. *)
Inductive ServiceError :=
| SvcOrder (cause : Cause)
| SvcEligibility (cause : Cause)
| SvcOrdering (cause : Cause)
| SvcMpc (cause : Cause)
| SvcProof (cause : Cause)
| SvcSettlement (cause : Cause)
| SvcCanonicalUncertain (cause : Cause)
| SvcQueue (cause : Cause).

Definition retryable (e : ServiceError) : bool :=
  match e with
  | SvcOrdering _ | SvcMpc _ | SvcProof _ | SvcSettlement _ => true
  | _ => false
  end.

Definition order_failed {A} (r : result OrderError A) : result ServiceError A :=
  map_err (λ e, SvcOrder (FromOrder e)) r.
Definition eligibility_failed {A} (r : result EligibilityError A) : result ServiceError A :=
  map_err (λ e, SvcEligibility (FromEligibility e)) r.
Definition ordering_failed {A} (r : result OrderingError A) : result ServiceError A :=
  map_err (λ e, SvcOrdering (FromOrdering e)) r.
Definition mpc_failed {A} (r : result MpcError A) : result ServiceError A :=
  map_err (λ e, SvcMpc (FromMpc e)) r.
Definition proof_failed {A} (r : result ProofError A) : result ServiceError A :=
  map_err (λ e, SvcProof (FromProof e)) r.
Definition settlement_failed {A} (r : result SettlementError A) : result ServiceError A :=
  map_err (λ e, SvcSettlement (FromSettlement e)) r.

Section service.
Context `{Crypto} `{CompatCrates} `{Dekyx}.

Record OclobService := mk_service {
  os_market_id : bytes;
  os_book : PrivateBook;
  os_ordering : OrderingCommittee;
  os_mpc : MpcRunner;
  os_settlement : SettlementEngine;
  os_eligibility : OclobEligibilityVerifier;
  os_demo_handles : Digest32 * Digest32
}.

Definition with_mpc (m : MpcRunner) (s : OclobService) : OclobService :=
  {| os_market_id := os_market_id s; os_book := os_book s; os_ordering := os_ordering s;
     os_mpc := m; os_settlement := os_settlement s; os_eligibility := os_eligibility s;
     os_demo_handles := os_demo_handles s |}.

(** The three (or four) assignments every successful operation ends with. *)
Definition install (book : PrivateBook) (ordering : OrderingCommittee)
    (settlement : SettlementEngine) (eligibility : OclobEligibilityVerifier) (s : OclobService) :
    OclobService :=
  {| os_market_id := os_market_id s; os_book := book; os_ordering := ordering;
     os_mpc := os_mpc s; os_settlement := settlement; os_eligibility := eligibility;
     os_demo_handles := os_demo_handles s |}.

(** What the outside supplies to one submission: the MPC round, the scalar of
    the reservation commitment and the scalars of the settlement proofs. *)
Record submission_io := mk_submission_io {
  sio_round : round_io;
  sio_reserve : Scalar;
  sio_zkpi : ZkpiRandom;
  sio_fills : Z → ZkpiRandom
}.

Record OclobExpiryReceipt := mk_expiry_receipt {
  er_certificate : OrderCertificate;
  er_transition : ExpiryTransition;
  er_proof : ExpiryProof;
  er_reservation_release : ReservationBatchReleaseReceipt
}.

Record OclobCancellationReceipt := mk_cancellation_receipt {
  cr_certificate : OrderCertificate;
  cr_transition : CancellationTransition;
  cr_proof : CancellationProof;
  cr_reservation_release : ReservationReleaseReceipt
}.

Record OclobExecutionReceipt {P : Type} := mk_execution_receipt {
  xr_expired_before : option OclobExpiryReceipt;
  xr_certificate : OrderCertificate;
  xr_reservation : ReservationReceipt;
  xr_eligibility : VerifiedOrderEligibility;
  xr_mpc : MpcBatchReceipt;
  xr_book_transition : BookTransition;
  xr_transition_proof : P;
  xr_settlement : option OclobSettlementReceipt;
  xr_reservation_release : option ReservationReleaseReceipt
}.
#[global] Arguments OclobExecutionReceipt : clear implicits.
#[global] Arguments mk_execution_receipt {_}.

Record StagedSubmission {P V : Type} := mk_staged_submission {
  sg_settlement_order : SecretOrder;
  sg_book : PrivateBook;
  sg_ordering : OrderingCommittee;
  sg_settlement : SettlementEngine;
  sg_eligibility : OclobEligibilityVerifier;
  sg_certificate : OrderCertificate;
  sg_reservation : ReservationReceipt;
  sg_verified_eligibility : VerifiedOrderEligibility;
  sg_mpc : MpcBatchReceipt;
  sg_book_transition : BookTransition;
  sg_transition_proof : P;
  sg_verified_transition : V
}.
#[global] Arguments StagedSubmission : clear implicits.
#[global] Arguments mk_staged_submission {_ _}.

Record PreparedOclobSubmission {P : Type} := mk_prepared_submission {
  pp_base_book_root : Digest32;
  pp_base_settlement : SettlementStateSnapshot;
  pp_book : PrivateBook;
  pp_ordering : OrderingCommittee;
  pp_settlement : SettlementEngine;
  pp_eligibility : OclobEligibilityVerifier;
  pp_certificate : OrderCertificate;
  pp_reservation : ReservationReceipt;
  pp_verified_eligibility : VerifiedOrderEligibility;
  pp_mpc : MpcBatchReceipt;
  pp_book_transition : BookTransition;
  pp_transition_proof : P;
  pp_canonical : PreparedCanonicalTransition
}.
#[global] Arguments PreparedOclobSubmission : clear implicits.
#[global] Arguments mk_prepared_submission {_}.

(** ** Construction and views *)

(** [OclobService::new], given the engine and the compiled runner. *)
Definition service_new (market_id : bytes) (settlement : result SettlementError SettlementEngine)
    (demo_handles : Digest32 * Digest32) (mpc : result MpcError MpcRunner)
    (eligibility : OclobEligibilityVerifier) : result ServiceError OclobService :=
  settlement ← settlement_failed settlement;
  book ← order_failed (book_new market_id);
  ordering ← ordering_failed deterministic_for_demo;
  mpc ← mpc_failed mpc;
  Ok {| os_market_id := market_id; os_book := book; os_ordering := ordering; os_mpc := mpc;
        os_settlement := settlement; os_eligibility := eligibility;
        os_demo_handles := demo_handles |}.

Definition public_book (s : OclobService) : PublicBookSnapshot := public_snapshot (os_book s).

Definition settlement_state (s : OclobService) : SettlementStateSnapshot :=
  state_snapshot (os_settlement s).

Definition service_portfolio (s : OclobService) (participant : Digest32) :
    result ServiceError ParticipantPortfolio :=
  settlement_failed (participant_portfolio (os_settlement s) participant).

Definition verify_transition_for_settlement (s : OclobService) (proof : TransitionProof) :
    result ServiceError VerifiedTransitionProof :=
  proof_failed (into_verified proof (cm_keys (os_ordering s)) (cm_policy (os_ordering s))).

Definition check_eligibility (s : OclobService) (order : SecretOrder) : result ServiceError () :=
  fail_if (negb (bool_decide (o_market_id order = os_market_id s)))
    (SvcOrder (FromText "order is for another market")).

(** ** Expiry and cancellation *)

Definition expire_due (now : Z) : method OclobService ServiceError (option OclobExpiryReceipt) :=
  s ← self;
  let expired_orders := expired_commitments (os_book s) now in
  if Nat.eqb (length expired_orders) 0 then mret None else
  let command := expiry_commitment (os_market_id s) now expired_orders in
  '(ordering, certificate) ← try (ordering_failed
    (staged (certify (os_market_id s) command (saturating_add now 60) now) (os_ordering s)));
  '(book, transition) ← try (order_failed
    (staged (apply_expiry now command (oc_sequence certificate)) (os_book s)));
  statement ← try (proof_failed (expiry_statement certificate transition));
  proof ← try (proof_failed
    (expiry_attest statement (transition_signers ordering) (cm_policy ordering)));
  _ ← try (proof_failed (expiry_verify proof (cm_keys ordering) (cm_policy ordering)));
  '(settlement, release) ← try (settlement_failed
    (staged (release_orders_atomic expired_orders) (os_settlement s)));
  _ ← set_self (install book ordering settlement (os_eligibility s) s);
  mret (Some {| er_certificate := certificate; er_transition := transition; er_proof := proof;
                er_reservation_release := release |}).

Definition cancel (cancellation : SecretCancellation) (now : Z) :
    method OclobService ServiceError OclobCancellationReceipt :=
  s ← self;
  '(ordering, certificate) ← try (ordering_failed
    (staged (certify (os_market_id s) (cancellation_commitment cancellation)
       (saturating_add now 60) now) (os_ordering s)));
  '(book, transition) ← try (order_failed
    (staged (apply_cancellation cancellation (oc_sequence certificate)) (os_book s)));
  statement ← try (proof_failed (cancellation_statement certificate transition));
  proof ← try (proof_failed
    (cancellation_attest statement (transition_signers ordering) (cm_policy ordering)));
  _ ← try (proof_failed (cancellation_verify proof (cm_keys ordering) (cm_policy ordering)));
  '(settlement, release) ← try (settlement_failed
    (staged (engine_release_order (x_target cancellation)) (os_settlement s)));
  _ ← set_self (install book ordering settlement (os_eligibility s) s);
  mret {| cr_certificate := certificate; cr_transition := transition; cr_proof := proof;
          cr_reservation_release := release |}.

(** ** Staging a submission *)

Definition stage_with_assurance {P V} (io : submission_io)
    (assure : TransitionStatement → OrderingCommittee → result ServiceError (P * V))
    (order : SecretOrder) (authority : OrderAuthority) (evidence : AnonymousPresentation)
    (now : Z) : method OclobService ServiceError (StagedSubmission P V) :=
  s ← self;
  _ ← try (check_eligibility s order);
  _ ← try (order_failed (authority_verify authority order now));
  _ ← try (order_failed (validate_market_rules order p1));
  _ ← try (fail_if (exceeds_fixed_match_capacity (os_book s) order now)
    (SvcOrder (FromText "one order may match at most 8 resting orders in the fixed circuit")));
  '(eligibility, verified) ← try (eligibility_failed
    (staged (verify_order (commitment order) (o_dekyx_nullifier order) (o_expires_at order)
       evidence now) (os_eligibility s)));
  '(bound, _) ← try (settlement_failed
    (staged (bind_eligible_participant (o_participant_handle order)
       (vo_subject_nullifier verified)) (os_settlement s)));
  '(settlement, reservation) ← try (settlement_failed
    (staged (reserve_order order (sio_reserve io)) bound));
  '(ordering, certificate) ← try (ordering_failed
    (staged (certify (os_market_id s) (a_commitment authority) (o_expires_at order) now)
       (os_ordering s)));
  private_input ← try (order_failed (private_match_batch (os_book s) order now));
  let '(runner, round) := execute_batch (sio_round io) private_input (os_mpc s) in
  _ ← set_self (with_mpc runner s);
  mpc ← try (mpc_failed round);
  '(book, transition) ← try (order_failed
    (staged (apply_mpc_batch_result order authority (oc_sequence certificate) now
       (rc_result mpc)) (os_book s)));
  statement ← try (proof_failed
    (from_batch_execution certificate transition mpc (vo_proof_digest verified)));
  '(transition_proof, verified_transition) ← try (assure statement ordering);
  mret {| sg_settlement_order := order;
          sg_book := book;
          sg_ordering := ordering;
          sg_settlement := settlement;
          sg_eligibility := eligibility;
          sg_certificate := certificate;
          sg_reservation := reservation;
          sg_verified_eligibility := verified;
          sg_mpc := mpc;
          sg_book_transition := transition;
          sg_transition_proof := transition_proof;
          sg_verified_transition := verified_transition |}.

(** The closure of [stage_submission]: the committee attests and re-verifies. *)
Definition joint_proof (statement : TransitionStatement) (ordering : OrderingCommittee) :
    result ServiceError (TransitionProof * VerifiedTransitionProof) :=
  proof ← proof_failed
    (transition_attest statement (transition_signers ordering) (cm_policy ordering));
  _ ← proof_failed (transition_verify proof (cm_keys ordering) (cm_policy ordering));
  verified ← proof_failed (into_verified proof (cm_keys ordering) (cm_policy ordering));
  Ok (proof, verified).

Definition stage_submission (io : submission_io) (order : SecretOrder)
    (authority : OrderAuthority) (evidence : AnonymousPresentation) (now : Z) :
    method OclobService ServiceError (StagedSubmission TransitionProof VerifiedTransitionProof) :=
  stage_with_assurance io joint_proof order authority evidence now.

(** ** One-phase submission *)

(** Settle the staged fills, or release an unfilled immediate-or-cancel order. *)
Definition settle_staged (io : submission_io)
    (g : StagedSubmission TransitionProof VerifiedTransitionProof) (now : Z) :
    result ServiceError
      (SettlementEngine * (option OclobSettlementReceipt * option ReservationReleaseReceipt)) :=
  let fills := bt_fills (sg_book_transition g) in
  if Nat.eqb (length fills) 0 then
    match o_time_in_force (sg_settlement_order g) with
    | ImmediateOrCancel =>
        '(e, release) ← settlement_failed
          (staged (engine_release_order (commitment (sg_settlement_order g))) (sg_settlement g));
        Ok (e, (None, Some release))
    | GoodTilCancelled => Ok (sg_settlement g, (None, None))
    end
  else
    '(e, settled) ← settlement_failed
      (staged (settle_batch (sio_fills io) fills (sg_verified_transition g)
         (sg_settlement_order g) (bt_arriving_remaining (sg_book_transition g)) now)
         (sg_settlement g));
    Ok (e, (Some settled, None)).

Definition submit (io : submission_io) (order : SecretOrder) (authority : OrderAuthority)
    (evidence : AnonymousPresentation) (now : Z) :
    method OclobService ServiceError (OclobExecutionReceipt TransitionProof) :=
  expired_before ← expire_due now;
  g ← stage_submission io order authority evidence now;
  '(settlement, (settled, release)) ← try (settle_staged io g now);
  s ← self;
  _ ← set_self (install (sg_book g) (sg_ordering g) settlement (sg_eligibility g) s);
  mret {| xr_expired_before := expired_before;
          xr_certificate := sg_certificate g;
          xr_reservation := sg_reservation g;
          xr_eligibility := sg_verified_eligibility g;
          xr_mpc := sg_mpc g;
          xr_book_transition := sg_book_transition g;
          xr_transition_proof := sg_transition_proof g;
          xr_settlement := settled;
          xr_reservation_release := release |}.

(** ** Two-phase submission *)

Definition prepare_staged {P V} `{TransitionAuthorization V} (io : submission_io)
    (s : OclobService) (g : StagedSubmission P V) (now : Z) :
    result ServiceError (PreparedOclobSubmission P) :=
  let fills := bt_fills (sg_book_transition g) in
  _ ← fail_if (Nat.eqb (length fills) 0
      && bool_decide (o_time_in_force (sg_settlement_order g) = ImmediateOrCancel))
    (SvcSettlement (FromText
      "a no-fill immediate-or-cancel order needs one atomic reserve-release transition"));
  canonical ← settlement_failed
    (if Nat.eqb (length fills) 0
     then prepare_canonical_reservation (sio_zkpi io) (os_settlement s) (sg_settlement g)
            (sg_reservation g) (sg_settlement_order g) (sg_certificate g)
            (sg_verified_transition g) now
     else prepare_canonical_admission_batch (sio_zkpi io) (sio_fills io) (os_settlement s) {|
            ab_reserved_candidate := sg_settlement g;
            ab_reservation_receipt := sg_reservation g;
            ab_fills := fills;
            ab_transition := sg_verified_transition g;
            ab_certificate := sg_certificate g;
            ab_arriving := sg_settlement_order g;
            ab_arriving_remaining := bt_arriving_remaining (sg_book_transition g);
            ab_now := now |});
  Ok {| pp_base_book_root := ps_state_root (public_snapshot (os_book s));
        pp_base_settlement := state_snapshot (os_settlement s);
        pp_book := sg_book g;
        pp_ordering := sg_ordering g;
        pp_settlement := os_settlement s;
        pp_eligibility := sg_eligibility g;
        pp_certificate := sg_certificate g;
        pp_reservation := sg_reservation g;
        pp_verified_eligibility := sg_verified_eligibility g;
        pp_mpc := sg_mpc g;
        pp_book_transition := sg_book_transition g;
        pp_transition_proof := sg_transition_proof g;
        pp_canonical := canonical |}.

Definition prepare_canonical_submit (io : submission_io) (order : SecretOrder)
    (authority : OrderAuthority) (evidence : AnonymousPresentation) (now : Z) :
    method OclobService ServiceError (PreparedOclobSubmission TransitionProof) :=
  s ← self;
  _ ← try (fail_if (negb (Nat.eqb (length (expired_commitments (os_book s) now)) 0))
    (SvcSettlement (FromText
      "expired reservations must reach canonical finality before a new execution")));
  g ← stage_submission io order authority evidence now;
  s ← self;
  try (prepare_staged io s g now).

(** [PreparedOclobSubmission::accept]. *)
Definition accepted_reservation (reservation : ReservationReceipt)
    (settlement : OclobSettlementReceipt) : ReservationReceipt := {|
  rr_reservation_id := rr_reservation_id reservation;
  rr_order_commitment := rr_order_commitment reservation;
  rr_kind := rr_kind reservation;
  rr_reserved := rr_reserved reservation;
  rr_state_root := sr_reservation_after_root settlement;
  rr_canonical_receipt_digest := sr_canonical_receipt_digest settlement;
  rr_canonical_height := sr_canonical_height settlement;
  rr_zkpi_digest := sr_arriving_reservation_zkpi_digest settlement;
  rr_instruction_nullifier := sr_arriving_reservation_instruction_nullifier settlement;
  rr_proof_digest := sr_arriving_reservation_proof_digest settlement;
  rr_avalanche_transaction_id := sr_avalanche_transaction_id settlement;
  rr_avalanche_block_id := sr_avalanche_block_id settlement
|}.

Definition service_accept {P} (p : PreparedOclobSubmission P)
    (acceptance : CanonicalSettlementAcceptance) :
    method OclobService ServiceError (OclobExecutionReceipt P) :=
  s ← self;
  _ ← try (fail_if
      (negb (bool_decide (ps_state_root (public_snapshot (os_book s)) = pp_base_book_root p))
       || negb (bool_decide (state_snapshot (os_settlement s) = pp_base_settlement p)))
    (SvcSettlement (FromText
      "prepared OCLOB execution is stale against current service state")));
  '(settlement, applied) ← try (settlement_failed
    (staged (canonical_accept (pp_canonical p) acceptance) (pp_settlement p)));
  let '(reservation, settled) :=
    match applied with
    | AppliedReservation reservation => (reservation, None)
    | AppliedSettlement settlement =>
        (accepted_reservation (pp_reservation p) settlement, Some settlement)
    end in
  _ ← set_self (install (pp_book p) (pp_ordering p) settlement (pp_eligibility p) s);
  mret {| xr_expired_before := None;
          xr_certificate := pp_certificate p;
          xr_reservation := reservation;
          xr_eligibility := pp_verified_eligibility p;
          xr_mpc := pp_mpc p;
          xr_book_transition := pp_book_transition p;
          xr_transition_proof := pp_transition_proof p;
          xr_settlement := settled;
          xr_reservation_release := None |}.

Definition canonical_result {P} (r : OclobExecutionReceipt P) : Digest32 * Z :=
  match xr_settlement r with
  | Some settlement => (sr_canonical_receipt_digest settlement, sr_canonical_height settlement)
  | None =>
      match xr_reservation_release r with
      | Some release => (rl_canonical_receipt_digest release, rl_canonical_height release)
      | None => (rr_canonical_receipt_digest (xr_reservation r),
                 rr_canonical_height (xr_reservation r))
      end
  end.

End service.
