(* ===== verification/OptimisticService.v ===== *)
(** * Optimistic submissions

    [oclob-service/src/optimistic.rs]: the matcher runs as for any submission,
    but the transition is proposed to the shared optimistic protocol instead
    of being attested by the committee; the pending submission becomes a
    prepared one when the protocol has finalised exactly its proposal.  The
    protocol (SDK) enters as the class [OptimisticSdk]. *)

From S2P Require Import Prelude BTree Bytes AppCrypto Orders Matching Circuit MpcRunner Book.
From S2P Require Import Ordering Proofs Reservations Settlement Canonical Compat Eligibility.
From S2P Require Import Service.
Open Scope string_scope.
Open Scope list_scope.
Open Scope Z_scope.

Class OptimisticSdk := {
  Proposal : Type;
  proposal_eq_dec :: EqDecision Proposal;
  CanonicalOptimisticFinality : Type;
  finality_proposal : CanonicalOptimisticFinality → Proposal;
  finality_claim : CanonicalOptimisticFinality → Claim;
  NodeExecutionAdmission : Type;
  admission_context : NodeExecutionAdmission → ExecutionContext;
  sign_admitted_optimistic_execution : NodeExecutionAdmission → Digest32 → result string Proposal;
  client_propose : Proposal → result string ()
}.

Section optimistic_service.
Context `{Crypto} `{Json} `{CompatCrates} `{Dekyx} `{OptimisticSdk}.

Record PendingOclobSubmission := mk_pending {
  pn_base_book_root : Digest32;
  pn_base_settlement : SettlementStateSnapshot;
  pn_staged : StagedSubmission Proposal TransitionStatement;
  pn_verifier : TransitionChallengeVerifier
}.

(** The committee's evidence, made only when the proposal is challenged. *)
Definition challenge_proof (p : PendingOclobSubmission) : result ServiceError TransitionProof :=
  proof_failed (transition_attest (sg_verified_transition (pn_staged p))
    (transition_signers (sg_ordering (pn_staged p))) (cm_policy (sg_ordering (pn_staged p)))).

(** [PendingOclobSubmission::finalize]. *)
Definition finalize (io : submission_io) (p : PendingOclobSubmission) (s : OclobService)
    (finality : CanonicalOptimisticFinality) (now : Z) :
    result ServiceError (PreparedOclobSubmission FinalizedOptimisticTransition) :=
  let g := pn_staged p in
  _ ← fail_if
      (negb (bool_decide (ps_state_root (public_snapshot (os_book s)) = pn_base_book_root p))
       || negb (bool_decide (state_snapshot (os_settlement s) = pn_base_settlement p)))
    (SvcSettlement (FromText "provisional OCLOB execution is stale against the current book"));
  _ ← fail_if (negb (bool_decide (finality_proposal finality = sg_transition_proof g)))
    (SvcSettlement (FromText "canonical finality names another provisional execution"));
  authorization ← map_err (λ e, SvcSettlement (FromText e))
    (from_canonical (finality_claim finality) (sg_verified_transition g) (pn_verifier p));
  prepare_staged io s {|
    sg_settlement_order := sg_settlement_order g;
    sg_book := sg_book g;
    sg_ordering := sg_ordering g;
    sg_settlement := sg_settlement g;
    sg_eligibility := sg_eligibility g;
    sg_certificate := sg_certificate g;
    sg_reservation := sg_reservation g;
    sg_verified_eligibility := sg_verified_eligibility g;
    sg_mpc := sg_mpc g;
    sg_book_transition := sg_book_transition g;
    sg_transition_proof := authorization;
    sg_verified_transition := authorization |} now.

(** The closure of [prepare_optimistic_submit]: the host admits the input, one
    node signs the output, the client proposes it. *)
Definition propose_transition (verifier : TransitionChallengeVerifier)
    (admit_input : TransitionStatement → TransitionChallengeVerifier →
      result string NodeExecutionAdmission)
    (statement : TransitionStatement) (_ : OrderingCommittee) :
    result ServiceError (Proposal * TransitionStatement) :=
  admission ← map_err (λ e, SvcSettlement (FromText e)) (admit_input statement verifier);
  _ ← fail_if
      (negb (bool_decide (cx_input_root (admission_context admission)
                = transition_input_root statement))
       || negb (bool_decide (cx_verifier (admission_context admission) = cv_identity verifier)))
    (SvcProof (FromText "canonical admission differs from the executed OCLOB input"));
  proposal ← map_err (λ e, SvcProof (FromText e))
    (sign_admitted_optimistic_execution admission (statement_digest statement));
  _ ← map_err (λ e, SvcSettlement (FromText e)) (client_propose proposal);
  Ok (proposal, statement).

Definition prepare_optimistic_submit (io : submission_io)
    (admit_input : TransitionStatement → TransitionChallengeVerifier →
      result string NodeExecutionAdmission)
    (order : SecretOrder) (authority : OrderAuthority) (evidence : AnonymousPresentation)
    (now : Z) : method OclobService ServiceError PendingOclobSubmission :=
  s ← self;
  _ ← try (fail_if (negb (Nat.eqb (length (expired_commitments (os_book s) now)) 0))
    (SvcSettlement (FromText "expired reservations must reach canonical finality first")));
  let base_book_root := ps_state_root (public_snapshot (os_book s)) in
  let base_settlement := state_snapshot (os_settlement s) in
  verifier ← try (proof_failed
    (challenge_verifier_new (cm_keys (os_ordering s)) (cm_policy (os_ordering s))));
  staged ← stage_with_assurance io (propose_transition verifier admit_input) order authority
    evidence now;
  mret {| pn_base_book_root := base_book_root;
          pn_base_settlement := base_settlement;
          pn_staged := staged;
          pn_verifier := verifier |}.

End optimistic_service.
