(* ===== verification/Queue.v ===== *)
(** * The durable submission queue

    [DurableOclobQueue] of [oclob-service/src/lib.rs]: signed submissions wait,
    encrypted and in order, in the shared corporate outbox until the MPC quorum
    is healthy, and every claimed request ends in exactly one outbox record or
    stays claimable.  The outbox (SDK) and [serde_json] on the envelope are the
    class [CorporateOutbox]; its methods return the outbox they leave. *)

From S2P Require Import Prelude BTree Bytes AppCrypto Orders Matching Circuit MpcRunner Book.
From S2P Require Import Ordering Proofs Reservations Settlement Canonical Compat Eligibility.
From S2P Require Import Service.
Open Scope string_scope.
Open Scope list_scope.
Open Scope Z_scope.

Definition QUEUED_SUBMISSION_VERSION : Z := 1.
Definition DEFAULT_MAX_QUEUED_SUBMISSION_BYTES : Z := 64 * 1024.

Record QueuedSubmissionEnvelope := mk_envelope {
  qe_version : Z;
  qe_order_wire : bytes;
  qe_authority : OrderAuthority;
  qe_eligibility : AnonymousPresentation
}.

Record QueuedSubmissionReceipt := mk_queued_receipt {
  qr_request_id : bytes;
  qr_request_digest : Digest32;
  qr_sequence : Z;
  qr_expires_at : Z;
  qr_already_present : bool
}.

(** Types of the outbox crate. *)
Inductive EnqueueOutcome := Enqueued (sequence : Z) | AlreadyPresent (sequence : Z).

Record ClaimedRequest := mk_claimed {
  cq_request_id : bytes;
  cq_request_digest : Digest32;
  cq_signed_request : bytes
}.

Inductive QueueAction :=
| QExpire (request_id : bytes) (request_digest : Digest32)
| QDispatch (claimed : ClaimedRequest).

Inductive CoverAction :=
| CoverDummy
| CoverExpire (request_id : bytes) (request_digest : Digest32)
| CoverReal (claimed : ClaimedRequest).

Record CoverSlot := mk_cover_slot { cs_slot : Z; cs_due_at : Z; cs_action : CoverAction }.

Record CanonicalReceipt := mk_canonical_receipt {
  cn_defmi_network_id : string;
  cn_transaction_id : bytes;
  cn_ledger_height : Z;
  cn_request_digest : Digest32;
  cn_finalized_at : Z
}.

Class CorporateOutbox := {
  Outbox : Type;
  outbox_new : string → bytes → Z → Z → result string Outbox;
  initialize_if_missing : method Outbox string ();
  enqueue_first_seen : bytes → bytes → Z → Z → method Outbox string EnqueueOutcome;
  claim_next : Z → bool → Z → method Outbox string (option QueueAction);
  claim_cover_slot : Z → bool → Z → Z → method Outbox string (option CoverSlot);
  record_pre_reserve_abort : bytes → Digest32 → Z → method Outbox string ();
  record_settlement : bytes → Digest32 → CanonicalReceipt → method Outbox string ();
  mark_manual_review : bytes → Digest32 → Z → Cause → method Outbox string ();
  json_envelope : QueuedSubmissionEnvelope → option bytes;
  json_parse_envelope : bytes → option QueuedSubmissionEnvelope
}.

Section queue.
Context `{Crypto} `{CompatCrates} `{Dekyx} `{CorporateOutbox}.

(** [QueuedSubmissionEnvelope::encode] and [decode]. *)
Definition envelope_encode (order : SecretOrder) (authority : OrderAuthority)
    (eligibility : AnonymousPresentation) : result ServiceError bytes :=
  ok_or (json_envelope {|
      qe_version := QUEUED_SUBMISSION_VERSION;
      qe_order_wire := to_secret_wire order;
      qe_authority := authority;
      qe_eligibility := eligibility |}) (SvcQueue (FromText "serde_json")).

Definition envelope_decode (b : bytes) :
    result Cause (SecretOrder * OrderAuthority * AnonymousPresentation) :=
  envelope ← ok_or (json_parse_envelope b) (FromText "queued submission envelope is malformed");
  _ ← fail_if (negb (qe_version envelope =? QUEUED_SUBMISSION_VERSION))
    (FromText "queued submission version is unsupported");
  order ← map_err FromOrder (from_secret_wire (qe_order_wire envelope));
  _ ← fail_if (negb (bool_decide (a_commitment (qe_authority envelope) = commitment order)))
    (FromText "queued authority belongs to another order");
  Ok (order, qe_authority envelope, qe_eligibility envelope).

Record DurableOclobQueue := mk_queue {
  dq_outbox : Outbox;
  dq_defmi_network_id : string;
  dq_retry_after_seconds : Z
}.

Definition with_outbox (b : Outbox) (q : DurableOclobQueue) : DurableOclobQueue :=
  {| dq_outbox := b; dq_defmi_network_id := dq_defmi_network_id q;
     dq_retry_after_seconds := dq_retry_after_seconds q |}.

(** One call on the outbox, with its error as the queue's. *)
Definition on_outbox {A} (m : method Outbox string A) : method DurableOclobQueue ServiceError A :=
  λ q, let '(b, r) := m (dq_outbox q) in
       (with_outbox b q, map_err (λ e, SvcQueue (FromText e)) r).

Definition queue_open (path : string) (passphrase : bytes) (defmi_network_id : string)
    (max_entries retry_after_seconds : Z) : result ServiceError DurableOclobQueue :=
  _ ← fail_if (bool_decide (defmi_network_id = "") || (retry_after_seconds =? 0))
    (SvcQueue (FromText "DeFMI network id and retry interval are required"));
  outbox ← map_err (λ e, SvcQueue (FromText e))
    (outbox_new path passphrase max_entries DEFAULT_MAX_QUEUED_SUBMISSION_BYTES);
  '(outbox, _) ← map_err (λ e, SvcQueue (FromText e)) (staged initialize_if_missing outbox);
  Ok {| dq_outbox := outbox; dq_defmi_network_id := defmi_network_id;
        dq_retry_after_seconds := retry_after_seconds |}.

Definition enqueue (order : SecretOrder) (authority : OrderAuthority)
    (eligibility : AnonymousPresentation) (accepted_at : Z) :
    method DurableOclobQueue ServiceError QueuedSubmissionReceipt :=
  _ ← try (order_failed (authority_verify authority order accepted_at));
  let request_id := hex_encode (commitment order) in
  signed_request ← try (envelope_encode order authority eligibility);
  let request_digest := sha256 signed_request in
  outcome ← on_outbox (enqueue_first_seen request_id signed_request accepted_at
    (o_expires_at order));
  let '(sequence, already_present) :=
    match outcome with
    | Enqueued sequence => (sequence, false)
    | AlreadyPresent sequence => (sequence, true)
    end in
  mret {| qr_request_id := request_id;
          qr_request_digest := request_digest;
          qr_sequence := sequence;
          qr_expires_at := o_expires_at order;
          qr_already_present := already_present |}.

(** ** The worker *)

(** Why a request was rejected: a reason text, or a displayed error. *)
Inductive RejectReason := Because (cause : Cause) | Displayed (error : ServiceError).

(** [QueueWorkerResult]. *)
Inductive QueueWorkerResult {A : Type} :=
| Idle
| WaitingForMpc
| DummyCover (slot due_at : Z)
| Expired (request_id : bytes)
| Executed (request_id : bytes) (receipt : OclobExecutionReceipt A)
| RetryableFailure (request_id : bytes) (reason : ServiceError)
| Rejected (request_id : bytes) (reason : RejectReason).
#[global] Arguments QueueWorkerResult : clear implicits.

(** The worker runs on the queue and on the state of the executor. *)
Definition on_queue {S A} (m : method DurableOclobQueue ServiceError A) :
    method (DurableOclobQueue * S) ServiceError A :=
  λ '(q, s), let '(q', r) := m q in ((q', s), r).

Definition on_executor {S A} (m : method S ServiceError A) :
    method (DurableOclobQueue * S) ServiceError (result ServiceError A) :=
  λ '(q, s), let '(s', r) := m s in ((q, s'), Ok r).

Section worker.
Context {S A : Type}.
Variable execute : SecretOrder → OrderAuthority → AnonymousPresentation → Z →
  method S ServiceError (OclobExecutionReceipt A).

Definition dispatch_with (claimed : ClaimedRequest) (now : Z) :
    method (DurableOclobQueue * S) ServiceError (QueueWorkerResult A) :=
  let request_id := cq_request_id claimed in
  let request_digest := cq_request_digest claimed in
  match envelope_decode (cq_signed_request claimed) with
  | Err reason =>
      _ ← on_queue (on_outbox (mark_manual_review request_id request_digest now reason));
      mret (Rejected request_id (Because reason))
  | Ok (order, authority, eligibility) =>
      outcome ← on_executor (execute order authority eligibility now);
      match outcome with
      | Ok receipt =>
          let '(transaction_digest, height) := canonical_result receipt in
          '(q, _) ← self;
          _ ← on_queue (on_outbox (record_settlement request_id request_digest {|
            cn_defmi_network_id := dq_defmi_network_id q;
            cn_transaction_id := hex_encode transaction_digest;
            cn_ledger_height := height;
            cn_request_digest := request_digest;
            cn_finalized_at := now |}));
          mret (Executed request_id receipt)
      | Err (SvcCanonicalUncertain reason) =>
          _ ← on_queue (on_outbox (mark_manual_review request_id request_digest now reason));
          mret (Rejected request_id (Because reason))
      | Err error =>
          if retryable error then mret (RetryableFailure request_id error)
          else
            _ ← on_queue (on_outbox (record_pre_reserve_abort request_id request_digest now));
            mret (Rejected request_id (Displayed error))
      end
  end.

Definition idle_or_waiting (mpc_quorum_healthy : bool) : QueueWorkerResult A :=
  if mpc_quorum_healthy then Idle else WaitingForMpc.

Definition pump_with (now : Z) (mpc_quorum_healthy : bool) :
    method (DurableOclobQueue * S) ServiceError (QueueWorkerResult A) :=
  '(q, _) ← self;
  action ← on_queue (on_outbox (claim_next now mpc_quorum_healthy (dq_retry_after_seconds q)));
  match action with
  | None => mret (idle_or_waiting mpc_quorum_healthy)
  | Some (QExpire request_id request_digest) =>
      _ ← on_queue (on_outbox (record_pre_reserve_abort request_id request_digest now));
      mret (Expired request_id)
  | Some (QDispatch claimed) => dispatch_with claimed now
  end.

Definition pump_cover_with (now : Z) (mpc_quorum_healthy : bool) (interval_seconds : Z) :
    method (DurableOclobQueue * S) ServiceError (QueueWorkerResult A) :=
  '(q, _) ← self;
  slot ← on_queue (on_outbox (claim_cover_slot now mpc_quorum_healthy (dq_retry_after_seconds q)
    interval_seconds));
  match slot with
  | None => mret (idle_or_waiting mpc_quorum_healthy)
  | Some slot =>
      match cs_action slot with
      | CoverDummy => mret (DummyCover (cs_slot slot) (cs_due_at slot))
      | CoverExpire request_id request_digest =>
          _ ← on_queue (on_outbox (record_pre_reserve_abort request_id request_digest now));
          mret (Expired request_id)
      | CoverReal claimed => dispatch_with claimed now
      end
  end.

End worker.

(** The worker on the one-phase service. *)
Definition pump (io : submission_io) (now : Z) (mpc_quorum_healthy : bool) :
    method (DurableOclobQueue * OclobService) ServiceError (QueueWorkerResult TransitionProof) :=
  pump_with (submit io) now mpc_quorum_healthy.

Definition pump_cover_slot (io : submission_io) (now : Z) (mpc_quorum_healthy : bool)
    (interval_seconds : Z) :
    method (DurableOclobQueue * OclobService) ServiceError (QueueWorkerResult TransitionProof) :=
  pump_cover_with (submit io) now mpc_quorum_healthy interval_seconds.

End queue.
