(* ===== verification/ServiceInv.v ===== *)
(** * The invariant of the exchange service

    The book, the certified log and the settlement engine move together:
    every operation keeps the book well formed, as long as the log and with
    the same admitted commands, the engine solvent, and every resting order
    backed by its own reservation.  Proved for single operations and for the
    staged clones of a submission, whichever path installs them. *)

From S2P Require Import Prelude BTree Bytes AppCrypto Orders Matching Circuit MpcRunner Book.
From S2P Require Import BookInv BookMatch BookApply BookLife Ordering Proofs.
From S2P Require Import Reservations ReservationInv ReservationLife.
From S2P Require Import Settlement SettlementInv SettlementLife Canonical Compat CompatLife.
From S2P Require Import Backing Eligibility Service.
Open Scope list_scope.
Open Scope Z_scope.

(** ** Successful methods *)

Lemma try_bind_Ok {S E A B} (r : result E A) (f : A → method S E B) s s' b :
  (try r ≫= f) s = (s', Ok b) ↔ ∃ a, r = Ok a ∧ f a s = (s', Ok b).
Proof. rewrite try_bind. destruct r; naive_solver. Qed.

(** Names the next successful step of the method hypothesis [H]. *)
Tactic Notation "next_step" ident(H) "as" simple_intropattern(p) :=
  apply try_bind_Ok in H as p.

Section invariant.
Context `{Crypto} `{CompatLaws} `{Dekyx}.
Implicit Types (s : OclobService) (e : SettlementEngine) (b : PrivateBook) (m : OrderingCommittee).

(** ** Engine calls *)

Lemma bind_eligible_Ok e e' p entity :
  engine_ok e → bind_eligible_participant p entity e = (e', Ok ()) →
  engine_ok e' ∧ rb_records (se_reservations e') = rb_records (se_reservations e).
Proof.
  intros He Hb. pose proof (bind_step_ok e p entity He) as He'. rewrite Hb in He'.
  split; [done|]. unfold bind_eligible_participant in Hb. rewrite self_bind in Hb.
  next_step Hb as (a & _ & Hb).
  destruct (bind_cases (se_reservations e) p entity (cb_value (pa_cash a))
    (cb_value (pa_securities a))) as [[_ Hc]|(_ & reason & Hc)]; rewrite Hc, set_self_bind in Hb;
    [|done]. by injection Hb as <-.
Qed.

Lemma reserve_Ok e e' (order : SecretOrder) random receipt :
  engine_ok e → view_ok order → reserve_order order random e = (e', Ok receipt) →
  engine_ok e' ∧ ∃ pt, reservable order pt (se_reservations e)
    ∧ se_reservations e' = set_records
        (bt_insert (o_reservation_id order) (new_record order pt) (rb_records (se_reservations e)))
        (se_reservations e).
Proof.
  intros He Hv Hr. unfold reserve_order in Hr. set (pt := commit_u64 _ _) in Hr.
  pose proof (reserve_step_ok e order pt He Hv) as He'. rewrite Hr in He'.
  split; [done|]. exists pt. unfold reserve_order_with_commitment in Hr. rewrite self_bind in Hr.
  next_step Hr as ([b' rc] & Hs%staged_Ok & Hr). next_step Hr as (h & _ & Hr).
  rewrite set_self_bind in Hr. injection Hr as <- _.
  destruct (reserve_cases order pt (se_reservations e)) as [(? & rc' & E & _)|(_ & reason & E)];
    [apply He|done|..]; rewrite E in Hs; [|done]. by injection Hs as <- _.
Qed.

Lemma engine_release_Ok e e' c receipt :
  engine_release_order c e = (e', Ok receipt) →
  release_order c (se_reservations e) = (se_reservations e', Ok ()).
Proof.
  unfold engine_release_order. rewrite self_bind. intros Hr.
  next_step Hr as ([b' []] & Hs%staged_Ok & Hr). next_step Hr as (h & _ & Hr).
  rewrite set_self_bind in Hr. by injection Hr as <- _.
Qed.

Lemma release_all_Ok e e' l receipt :
  release_orders_atomic l e = (e', Ok receipt) →
  release_each l (se_reservations e) = (se_reservations e', Ok ()).
Proof.
  unfold release_orders_atomic. rewrite self_bind. intros Hr. next_step Hr as (_ & _ & Hr).
  next_step Hr as ([b' []] & Hs%staged_Ok & Hr). next_step Hr as (h & _ & Hr).
  rewrite set_self_bind in Hr. by injection Hr as <- _.
Qed.

(** ** The committee *)

Lemma certify_Ok m m' market c exp now o :
  certify market c exp now m = (m', Ok o) → log_wf (cm_log m) →
  Z.of_nat (length (lg_certificates (cm_log m))) < u64_max →
  log_wf (cm_log m') ∧ oc_commitment o = c
  ∧ oc_sequence o = Z.of_nat (length (lg_certificates (cm_log m))) + 1
  ∧ lg_certificates (cm_log m') = lg_certificates (cm_log m) ++ [o]
  ∧ lg_commitments (cm_log m') = {[c]} ∪ lg_commitments (cm_log m).
Proof.
  intros Hc Hlog Hlt. unfold certify in Hc. destruct (log_contains _ _); [done|].
  destruct (collect_votes _ _ _ _ _ _ _) as [voters [votes|err]]; [|done].
  simpl in Hc. destruct (append _ _ _ _ _) as [log r] eqn:E in Hc. destruct r; [|done].
  injection Hc as <- <-. pose proof (append_wf _ _ _ _ _ _ _ Hlog Hlt E) as Hwf.
  apply append_cases in E as [(err & ? & _)|(_ & _ & _ & _ & _ & ->)]; [done|].
  split_and!; [done..| |done|done]. by apply next_sequence_eq.
Qed.

(** ** The book *)

Lemma match_applied b b' order authority seq now result t :
  book_wf b → order_valid order = true → bk_sequence b < u64_max →
  apply_mpc_batch_result order authority seq now result b = (b', Ok t) →
  match_outcome b order authority seq (bt_fills t) (bt_arriving_remaining t) b'
  ∧ a_commitment authority = commitment order
  ∧ Forall (λ fill, 0 ≤ f_price fill ∧ 0 ≤ f_quantity fill) (bt_fills t)
  ∧ bt_arriving_remaining t = match o_time_in_force order with
      | GoodTilCancelled => o_quantity order - sumZ (map f_quantity (bt_fills t))
      | ImmediateOrCancel => 0
      end
  ∧ 0 ≤ bt_arriving_remaining t.
Proof.
  intros Hwf Hv Hmax Happ. destruct (apply_batch_cases _ _ _ _ _ _ _ _ Hwf Hv Hmax Happ)
    as [(err & [=] & _)|(Hadm & t' & batch & [= <-] & Hb & ->)].
  destruct (apply_batch_spec _ _ _ _ _ _ Hwf Hadm Hb) as (b1 & t1 & Happ1 & Hout & Hf & Hr & _).
  rewrite Happ in Happ1. injection Happ1 as <- <-.
  destruct (admissible_facts _ _ _ _ _ Hwf Hadm) as (_ & _ & _ & _ & Hc & Hq).
  destruct (batch_slots_ready b order now batch Hwf ltac:(lia) Hb) as (_ & _ & (Ht & Hrem & HF) & Hin).
  assert (pb_arriving_quantity batch = o_quantity order
    ∧ pb_arriving_can_rest batch = bool_decide (o_time_in_force order = GoodTilCancelled))
    as [Hqb Hcr] by by apply match_batch_Ok in Hb as [_ ->].
  rewrite Hf, Hr. split_and!; [done|done| | |].
  - apply Forall_forall. intros f (r & sl & Hrs & Hm & ->)%elem_of_fills_of. simpl.
    destruct (Hin _ Hrs) as (o & Ho & Hro). simpl in Hro.
    apply elem_of_lookup_zip_with in Hrs as (i & r' & sl' & [= <- <-] & Hi & Hsi).
    destruct (Forall2_lookup_lr _ _ _ _ _ _ HF Hi Hsi) as (? & _ & Hp & _).
    destruct (Hp Hm) as (_ & _ & ->). split; [|lia]. subst r. simpl.
    apply elem_of_filter_list in Ho as [Ho _]. destruct (ordered_resting b order o Hwf Ho) as (Hbo & _).
    destruct (wf_resting b o Hwf) as (sd & p & Hv' & _); [done|].
    apply order_valid_reserve in Hv'. lia.
  - rewrite Hrem, Hcr, Hqb, fills_quantity; [by destruct (o_time_in_force order)|].
    eapply Forall2_impl; [done|]. intros r sl (Hs & Hp & _) Hm.
    destruct (decide (0 < slot_trade_quantity sl)) as [Hpos|]; [|lia]. apply Hp in Hpos. congruence.
  - rewrite Hrem. destruct (pb_arriving_can_rest batch); lia.
Qed.

(** ** The invariant *)

(** The book, the log and the engine of one market. *)
Record ledgers_ok (market : bytes) b m e : Prop := {
  lo_book : book_wf b;
  lo_log : log_wf (cm_log m);
  lo_engine : engine_ok e;
  lo_market : bk_market_id b = market;
  lo_sequence : bk_sequence b = Z.of_nat (length (lg_certificates (cm_log m)));
  lo_admitted : bk_admitted b = lg_commitments (cm_log m);
  lo_backed : backs (se_reservations e) (book_map b)
}.

Definition service_ok s : Prop :=
  ledgers_ok (os_market_id s) (os_book s) (os_ordering s) (os_settlement s).

(** A certified command advances the book and the log together. *)
Lemma ledgers_step market b m e b' m' e' c exp now o :
  ledgers_ok market b m e → bk_sequence b < u64_max →
  certify market c exp now m = (m', Ok o) →
  book_wf b' → bk_market_id b' = bk_market_id b → bk_sequence b' = oc_sequence o →
  bk_admitted b' = {[c]} ∪ bk_admitted b →
  engine_ok e' → backs (se_reservations e') (book_map b') →
  ledgers_ok market b' m' e'.
Proof.
  intros [] Hlt Hc Hwf Hmk Hseq Had He Hbk. rewrite lo_sequence0 in Hlt.
  destruct (certify_Ok _ _ _ _ _ _ _ Hc lo_log0 Hlt) as (Hlog & _ & Hos & Hcs & Hcm).
  split; try done; [congruence|..].
  - rewrite Hseq, Hos, Hcs, length_app. simpl. lia.
  - congruence.
Qed.

(** ** Expiry and cancellation *)

Lemma backs_ext rb (M M' : Records) : (∀ c, M !! c = M' !! c) → backs rb M → backs rb M'.
Proof. intros E Hb c. specialize (Hb c). unfold backed in *. by rewrite <-E. Qed.

Lemma expire_due_Ok s s' now r :
  service_ok s → bk_sequence (os_book s) < u64_max →
  expire_due now s = (s', Ok r) →
  service_ok s' ∧ os_market_id s' = os_market_id s
  ∧ bk_sequence (os_book s') ≤ bk_sequence (os_book s) + 1.
Proof.
  intros Hs Hlt Hx. pose proof Hs as Hs0. destruct Hs0. unfold expire_due in Hx.
  rewrite self_bind in Hx. destruct (Nat.eqb _ 0) eqn:E0.
  { injection Hx as <- _. split_and!; [done..|lia]. }
  set (l := expired_commitments _ _) in *. set (command := expiry_commitment _ _ _) in *.
  next_step Hx as ([m' o] & Hc%map_err_Ok%staged_Ok & Hx).
  next_step Hx as ([b' t] & Hb%map_err_Ok%staged_Ok & Hx).
  do 3 (next_step Hx as (? & _ & Hx)).
  next_step Hx as ([e' rel] & He%map_err_Ok%staged_Ok & Hx).
  rewrite set_self_bind in Hx. injection Hx as <- _.
  destruct (apply_expiry_cases (os_book s) now command (oc_sequence o) lo_book0 Hlt)
    as [(err & Herr & _)|([[Hseq _] _] & b1 & t1 & Hb1 & Hwf & Hmap & _ & _ & Hmk & Hsq & Had)].
  { by rewrite Hb in Herr. }
  rewrite Hb in Hb1. injection Hb1 as <- <-.
  split_and!; [|done|by rewrite <-Hsq].
  pose proof (release_all_step_ok (os_settlement s) l lo_engine0) as Heng. rewrite He in Heng.
  apply release_all_Ok in He.
  apply (backs_release_each l _ _ (book_map (os_book s))) in He as [_ Hbk]; [|apply lo_engine0|done].
  eapply ledgers_step; [exact Hs|done|exact Hc|done..| |done|done|].
  { pose proof (wf_sequence _ lo_book0). rewrite BookApply.next_sequence in Hseq by lia. cbn. lia. }
  eapply backs_ext; [|exact Hbk]. intros c. cbn [os_book install]. rewrite foldl_delete, Hmap.
  rewrite map_lookup_filter. destruct (book_map (os_book s) !! c) as [ro|] eqn:Ex; simpl.
  - destruct (expired now ro) eqn:Ed.
    + rewrite decide_True; [|by apply elem_of_expired; eauto]. by rewrite option_guard_False.
    + rewrite decide_False; [by rewrite option_guard_True|].
      intros (ro1 & ? & ?)%elem_of_expired; [congruence|done].
  - by destruct (decide _).
Qed.

Lemma cancel_Ok s s' cancellation now r :
  service_ok s → bk_sequence (os_book s) < u64_max →
  cancel cancellation now s = (s', Ok r) → service_ok s' ∧ os_market_id s' = os_market_id s.
Proof.
  intros Hs Hlt Hx. pose proof Hs as Hs0. destruct Hs0. unfold cancel in Hx. rewrite self_bind in Hx.
  next_step Hx as ([m' o] & Hc%map_err_Ok%staged_Ok & Hx).
  next_step Hx as ([b' t] & Hb%map_err_Ok%staged_Ok & Hx).
  do 3 (next_step Hx as (? & _ & Hx)).
  next_step Hx as ([e' rel] & He%map_err_Ok%staged_Ok & Hx).
  rewrite set_self_bind in Hx. injection Hx as <- _. split; [|done].
  destruct (apply_cancellation_cases (os_book s) cancellation (oc_sequence o) lo_book0 Hlt)
    as [(err & Herr & _)|(b1 & t1 & ro & Hb1 & _ & _ & _ & Hwf & Hmap & _ & _ & Hmk & Hsq & Had)];
    [congruence|].
  rewrite Hb in Hb1. injection Hb1 as <- <-.
  pose proof (release_step_ok (os_settlement s) (x_target cancellation) lo_engine0) as Heng.
  rewrite He in Heng. apply engine_release_Ok in He.
  apply (backs_release _ _ _ (book_map (os_book s))) in He as [_ Hbk];
    [|apply lo_engine0|by intros ? _].
  eapply ledgers_step; [exact Hs|done|exact Hc|done..|]. cbn. by rewrite Hmap.
Qed.

(** ** A staged submission *)

(** What staging [order] on [s] establishes of its clones: the engine holds the
    order's reservation, the committee certified it and the book matched it. *)
Record staged_ok s (order : SecretOrder) (authority : OrderAuthority)
    (g_book : PrivateBook) (g_ordering : OrderingCommittee) (g_settlement : SettlementEngine)
    (t : BookTransition) : Prop := {
  st_engine : engine_ok g_settlement;
  st_certified : ∃ exp now o,
    certify (os_market_id s) (a_commitment authority) exp now (os_ordering s) = (g_ordering, Ok o)
    ∧ match_outcome (os_book s) order authority (oc_sequence o) (bt_fills t)
        (bt_arriving_remaining t) g_book;
  st_commitment : a_commitment authority = commitment order;
  st_nonneg : Forall (λ fill, 0 ≤ f_price fill ∧ 0 ≤ f_quantity fill) (bt_fills t);
  st_remaining : bt_arriving_remaining t = match o_time_in_force order with
      | GoodTilCancelled => o_quantity order - sumZ (map f_quantity (bt_fills t))
      | ImmediateOrCancel => 0
      end;
  st_remaining_nonneg : 0 ≤ bt_arriving_remaining t;
  st_backed : backs_except (commitment order) (se_reservations g_settlement) (book_map (os_book s));
  st_fresh : book_map (os_book s) !! commitment order = None;
  st_record : ∃ pt, record_of (se_reservations g_settlement) (commitment order)
    = Some (new_record order pt)
}.

Definition staged_of {P V} (g : StagedSubmission P V) s authority : Prop :=
  staged_ok s (sg_settlement_order g) authority (sg_book g) (sg_ordering g) (sg_settlement g)
    (sg_book_transition g).

Lemma stage_Ok {P V} io (assure : _ → _ → result ServiceError (P * V)) order authority evidence now
    s s' g :
  service_ok s → order_valid order = true → bk_sequence (os_book s) < u64_max →
  stage_with_assurance io assure order authority evidence now s = (s', Ok g) →
  (∃ runner, s' = with_mpc runner s) ∧ sg_settlement_order g = order ∧ staged_of g s authority.
Proof.
  intros [] Hv Hlt Hx. unfold stage_with_assurance in Hx. rewrite self_bind in Hx.
  do 4 (next_step Hx as (_ & _ & Hx)).
  next_step Hx as ([elig ver] & _ & Hx).
  next_step Hx as ([bound []] & Hb%map_err_Ok%staged_Ok & Hx).
  next_step Hx as ([e' rc] & Hr%map_err_Ok%staged_Ok & Hx).
  next_step Hx as ([m' o] & Hc%map_err_Ok%staged_Ok & Hx).
  next_step Hx as (batch & _ & Hx).
  destruct (execute_batch _ _ _) as [runner round]. rewrite set_self_bind in Hx.
  next_step Hx as (mpc & _ & Hx).
  next_step Hx as ([b' t] & Ha%map_err_Ok%staged_Ok & Hx).
  next_step Hx as (statement & _ & Hx). next_step Hx as ([pf vf] & _ & Hx).
  injection Hx as <- <-. split_and!; [by eexists|done|].
  pose proof (order_view_ok order Hv) as Hview.
  destruct (bind_eligible_Ok _ _ _ _ lo_engine0 Hb) as [He1 Hrec1].
  destruct (reserve_Ok _ _ _ _ _ He1 Hview Hr) as (He2 & pt & Hres & Hres').
  destruct (backs_reserve order pt (se_reservations bound) (book_map (os_book s)))
    as (Hbk & Hfresh & Hrec); [apply He1|done|done|by eapply backs_records|].
  rewrite <-Hres' in Hbk, Hrec.
  destruct (match_applied _ _ _ _ _ _ _ _ lo_book0 Hv Hlt Ha) as (? & ? & ? & ? & ?).
  split; eauto 10.
Qed.

(** Installing the staged book and log with an engine that backs them. *)
Lemma staged_installed s order authority g_book g_ordering g_settlement t e' :
  service_ok s → bk_sequence (os_book s) < u64_max →
  staged_ok s order authority g_book g_ordering g_settlement t → engine_ok e' →
  (∀ seq, backs (se_reservations e') (spec_rest order authority seq (bt_arriving_remaining t)
     (spec_fills (book_map (os_book s)) (bt_fills t)))) →
  ledgers_ok (os_market_id s) g_book g_ordering e'.
Proof.
  intros Hs Hlt [_ (exp & now & o & Hc & Hwf & Hmap & Hmk & Hseq & Had)] He Hbk.
  eapply ledgers_step; [exact Hs|done|exact Hc|done..|]. rewrite Hmap. apply Hbk.
Qed.

(** ** The engine that is installed *)

Section installed.
Context (s : OclobService) (order : SecretOrder) (authority : OrderAuthority).
Context (g_book : PrivateBook) (g_ordering : OrderingCommittee) (g_settlement : SettlementEngine).
Context (t : BookTransition).
Hypothesis Hst : staged_ok s order authority g_book g_ordering g_settlement t.
Hypothesis Hvalid : order_valid order = true.

(** What the arriving order and the fills leave of the resting orders. *)
Local Abbreviation rested := (λ seq, spec_rest order authority seq (bt_arriving_remaining t)
  (spec_fills (book_map (os_book s)) (bt_fills t))).

(** An unfilled good-til-cancelled order keeps its reservation. *)
Lemma unfilled_backed e' :
  bt_fills t = [] → o_time_in_force order = GoodTilCancelled →
  se_reservations e' = se_reservations g_settlement →
  ∀ seq, backs (se_reservations e') (rested seq).
Proof.
  intros Hf Htif -> seq. destruct Hst as [He _ Ha _ Hrem _ Hbk Hnone [pt Hrec]].
  rewrite Htif, Hf in *. simpl in *. pose proof (order_valid_reserve order Hvalid) as (_ & _ & ? & _).
  eapply (backs_rest order authority seq _ _ _ _ (new_record order pt));
    [apply He|done|done|done|by unfold record_for, same_terms| | |done|].
  - rewrite Hrem. simpl. split; [|done]. split; [|done]. lia.
  - simpl. lia.
  - intros c. case_decide; [congruence|done].
Qed.

(** An unfilled immediate-or-cancel order is released again. *)
Lemma released_backed e' receipt :
  bt_fills t = [] → o_time_in_force order = ImmediateOrCancel →
  engine_release_order (commitment order) g_settlement = (e', Ok receipt) →
  engine_ok e' ∧ ∀ seq, backs (se_reservations e') (rested seq).
Proof.
  intros Hf Htif Hrel. destruct Hst as [He _ Ha _ Hrem _ Hbk Hnone _].
  pose proof (release_step_ok g_settlement (commitment order) He) as He'. rewrite Hrel in He'.
  split; [done|]. apply engine_release_Ok in Hrel.
  apply (backs_release _ _ _ (book_map (os_book s))) in Hrel as [_ Hb]; [|apply He|done].
  intros seq. unfold spec_rest. rewrite Htif, Hf, andb_false_r. simpl.
  by rewrite delete_id in Hb.
Qed.

(** A settled batch consumes exactly what the book's fills take. *)
Lemma settled_backed {A} `{TransitionAuthorization A} rnd (transition : A) now e' receipt :
  settle_batch rnd (bt_fills t) transition order (bt_arriving_remaining t) now g_settlement
    = (e', Ok receipt) →
  engine_ok e' ∧ ∀ seq, backs (se_reservations e') (rested seq).
Proof.
  intros Hset. destruct Hst as [He _ Ha Hnn _ Hrem Hbk Hnone [pt Hrec]].
  apply settle_batch_Ok in Hset as (st & Hstage & _ & ->).
  destruct (stage_compat_ok rnd g_settlement (bt_fills t) transition order
    (bt_arriving_remaining t) now st (new_record order pt)) as [Heng _ Htk Hpos _ Hrecs];
    [done..|by unfold terms_match|done|].
  split; [by apply (engine_ok_frame _ _ eq_refl eq_refl Heng)|]. intros seq.
  destruct Hrecs as (b1 & r1 & Hrun & Hb1 & Hr1 & Hq1 & Heq).
  destruct (backs_fills _ _ _ _ _ (commitment order) Hrun (book_map (os_book s)))
    as [Hbk1 Hl]; [apply He|done..|].
  destruct (fills_run_taker _ _ _ _ _ _ _ Hrun (proj1 He) Hpos Htk Hrec) as (_ & r1' & E & Hterms & _).
  change (settlement_commitment order) with (commitment order) in *.
  assert (r1' = r1) as -> by congruence.
  destruct (reconciled_book_record b1 (commitment order) r1 Hb1 Hr1) as (r' & Hs' & Hact & Hqty & Hrc).
  apply (backs_records (reconciled_book b1 r1)); [exact Heq|].
  assert (record_for order r') as Hfor.
  { eapply same_terms_trans; [|exact Hs']. eapply same_terms_trans; [|exact Hterms].
    by unfold same_terms. }
  assert (rec_time_in_force r1 = o_time_in_force order) as Htif.
  { by destruct Hterms as (_ & _ & _ & _ & _ & _ & _ & -> & _). }
  eapply backs_rest; [exact Hb1|exact Hbk1|congruence|done|exact Hfor| | |exact Hr1|exact Hrc].
  - rewrite Hact, Hq1, Htif. split; intros []; split; try done; lia.
  - rewrite <-Hq1. done.
Qed.

End installed.

(** ** Whole operations *)

Lemma settle_staged_Ok io g s authority now e' x :
  staged_of g s authority → order_valid (sg_settlement_order g) = true →
  settle_staged io g now = Ok (e', x) →
  engine_ok e' ∧ ∀ seq, backs (se_reservations e')
    (spec_rest (sg_settlement_order g) authority seq (bt_arriving_remaining (sg_book_transition g))
       (spec_fills (book_map (os_book s)) (bt_fills (sg_book_transition g)))).
Proof.
  intros Hst Hv Hset. unfold settle_staged in Hset.
  destruct (Nat.eqb_spec (length (bt_fills (sg_book_transition g))) 0) as [El|El].
  - apply nil_length_inv in El. destruct (o_time_in_force (sg_settlement_order g)) eqn:Et.
    + injection Hset as <- _. split; [exact (st_engine _ _ _ _ _ _ _ Hst)|]. by eapply unfilled_backed.
    + apply bind_Ok in Hset as ([e1 rel] & Hr%map_err_Ok%staged_Ok & Hset).
      injection Hset as <- _. eapply released_backed; [exact Hst|done|done|exact Hr].
  - apply bind_Ok in Hset as ([e1 rc] & Hr%map_err_Ok%staged_Ok & Hset).
    injection Hset as <- _. exact (settled_backed _ _ _ _ _ _ _ Hst _ (sg_verified_transition g) _ _ _ Hr).
Qed.

Lemma submit_Ok io order authority evidence now s s' r :
  service_ok s → order_valid order = true → bk_sequence (os_book s) + 1 < u64_max →
  submit io order authority evidence now s = (s', Ok r) →
  service_ok s' ∧ os_market_id s' = os_market_id s.
Proof.
  intros Hs Hv Hlt Hx. unfold submit in Hx.
  apply method_bind_Ok in Hx as (s1 & x & He & Hx).
  apply method_bind_Ok in Hx as (s2 & g & Hg & Hx).
  next_step Hx as ([e' [settled release]] & Hset & Hx).
  rewrite self_bind, set_self_bind in Hx. injection Hx as <- _.
  apply expire_due_Ok in He as (Hs1 & Hmk & Hsq); [|done|lia].
  apply stage_Ok in Hg as ([runner ->] & <- & Hst); [|done..|lia].
  split; [|done]. destruct (settle_staged_Ok _ _ _ _ _ _ _ Hst Hv Hset) as [He' Hbk].
  apply (staged_installed s1 _ _ _ _ _ _ e' Hs1 ltac:(lia) Hst He' Hbk).
Qed.

(** What a submission prepared on a service of [market] will install. *)
Definition prepared_for {P} (market : bytes) (p : PreparedOclobSubmission P) : Prop :=
  ledgers_ok market (pp_book p) (pp_ordering p) (candidate_of (pp_canonical p)).

Lemma prepare_staged_Ok {P V} `{TransitionAuthorization V} io s s1 (g : StagedSubmission P V) now
    authority p :
  service_ok s → bk_sequence (os_book s) < u64_max → staged_of g s authority →
  order_valid (sg_settlement_order g) = true →
  prepare_staged io s1 g now = Ok p → prepared_for (os_market_id s) p.
Proof.
  intros Hs Hlt Hst Hv Hp. unfold prepare_staged in Hp.
  apply bind_Ok in Hp as (_ & Hioc%fail_if_Ok & Hp).
  apply bind_Ok in Hp as (canonical & Hc%map_err_Ok & Hp). injection Hp as <-.
  unfold prepared_for. cbn [pp_book pp_ordering pp_canonical].
  destruct (Nat.eqb_spec (length (bt_fills (sg_book_transition g))) 0) as [El|El]; simpl in Hioc.
  - apply nil_length_inv in El. apply prepare_reservation_Ok in Hc as (_ & -> & _).
    apply (staged_installed s _ _ _ _ _ _ _ Hs Hlt Hst); [exact (st_engine _ _ _ _ _ _ _ Hst)|].
    eapply unfilled_backed; [done..| |done]. bool_hyps. by destruct (o_time_in_force _).
  - apply prepare_admission_Ok in Hc as (_ & q & [Hset _]%prepare_batch_Ok & -> & _).
    apply (settled_backed _ _ _ _ _ _ _ Hst _ (sg_verified_transition g)) in Hset as [He Hbk].
    by apply (staged_installed s _ _ _ _ _ _ _ Hs Hlt Hst).
Qed.

Lemma prepare_submit_Ok io order authority evidence now s s' p :
  service_ok s → order_valid order = true → bk_sequence (os_book s) < u64_max →
  prepare_canonical_submit io order authority evidence now s = (s', Ok p) →
  (∃ runner, s' = with_mpc runner s) ∧ prepared_for (os_market_id s) p.
Proof.
  intros Hs Hv Hlt Hx. unfold prepare_canonical_submit in Hx. rewrite self_bind in Hx.
  next_step Hx as (_ & _ & Hx). apply method_bind_Ok in Hx as (s1 & g & Hg & Hx).
  apply stage_Ok in Hg as (Hrun & <- & Hst); [|done..]. rewrite self_bind in Hx.
  unfold try in Hx. injection Hx as <- Hp. split; [done|]. exact (prepare_staged_Ok _ _ _ g _ _ _ Hs Hlt Hst Hv Hp).
Qed.

Lemma service_accept_Ok {P} (p : PreparedOclobSubmission P) a s s' r :
  prepared_for (os_market_id s) p → service_accept p a s = (s', Ok r) →
  service_ok s' ∧ os_market_id s' = os_market_id s.
Proof.
  intros Hp Hx. unfold service_accept in Hx. rewrite self_bind in Hx.
  next_step Hx as (_ & _ & Hx). next_step Hx as ([e applied] & Ha%map_err_Ok%staged_Ok & Hx).
  pose proof (canonical_accept_cases (pp_canonical p) a (pp_settlement p)) as Hc.
  case_decide; destruct Hc as [? Hc]; [|destruct Hc; congruence]. rewrite Ha in Hc.
  injection Hc as -> _. destruct Hp.
  destruct applied; rewrite set_self_bind in Hx; injection Hx as <- _; by split.
Qed.

End invariant.
