(* ===== verification/ServiceLife.v ===== *)
(** * Runs of the exchange service

    Any interleaving of expiries, cancellations, one-phase submissions,
    preparations and acceptances, by committee proof or by the optimistic
    protocol, failed calls included. *)

From S2P Require Import Prelude BTree Bytes AppCrypto Orders Matching Circuit MpcRunner Book.
From S2P Require Import BookInv BookApply BookLife Ordering Proofs.
From S2P Require Import Reservations ReservationInv ReservationLife.
From S2P Require Import Settlement SettlementInv SettlementLife Canonical Compat CompatLife.
From S2P Require Import Backing Eligibility Service OptimisticService ServiceInv.
Open Scope list_scope.
Open Scope Z_scope.

Lemma try_bind_Err {S E A B} (r : result E A) (f : A → method S E B) s s' err :
  (try r ≫= f) s = (s', Err err) → s' = s ∨ ∃ a, f a s = (s', Err err).
Proof. rewrite try_bind. destruct r; [by eauto|]. intros [= <- _]. by left. Qed.

(** A method that only tries before its last assignment fails in place. *)
Ltac fails_in_place Hx :=
  repeat first
    [ done
    | rewrite set_self_bind in Hx
    | match type of Hx with (let '(_, _) := ?x in _) _ = _ => destruct x end
    | apply try_bind_Err in Hx as [?|[? Hx]]; [done|] ].

Section life.
Context `{Crypto} `{Json} `{CompatLaws} `{Dekyx} `{OptimisticSdk}.
Implicit Types (s : OclobService).

(** ** Failed operations *)

Lemma expire_due_Err now s s' err : expire_due now s = (s', Err err) → s' = s.
Proof.
  intros Hx. unfold expire_due in Hx. rewrite self_bind in Hx. destruct (Nat.eqb _ 0); [done|].
  fails_in_place Hx.
Qed.

Lemma cancel_Err cancellation now s s' err : cancel cancellation now s = (s', Err err) → s' = s.
Proof. intros Hx. unfold cancel in Hx. rewrite self_bind in Hx. fails_in_place Hx. Qed.

(** Staging touches the MPC runner only, whatever it returns. *)
Lemma with_mpc_id s : with_mpc (os_mpc s) s = s.
Proof. by destruct s. Qed.

Lemma try_frame {A B} (r : result ServiceError A) (f : A → method OclobService ServiceError B) s :
  (∀ a, ∃ runner, (f a s).1 = with_mpc runner s) → ∃ runner, ((try r ≫= f) s).1 = with_mpc runner s.
Proof. intros Hf. rewrite try_bind. destruct r; [apply Hf|]. exists (os_mpc s). by rewrite with_mpc_id. Qed.

Lemma stage_frame {P V} io (assure : _ → _ → result ServiceError (P * V)) order authority evidence
    now s :
  ∃ runner, (stage_with_assurance io assure order authority evidence now s).1 = with_mpc runner s.
Proof.
  unfold stage_with_assurance. rewrite self_bind.
  do 4 (apply try_frame; intros _). apply try_frame; intros [elig ver].
  apply try_frame; intros [bound u]. apply try_frame; intros [e rc]. apply try_frame; intros [m o].
  apply try_frame; intros batch. destruct (execute_batch _ _ _) as [runner round].
  rewrite set_self_bind. exists runner.
  rewrite try_bind. destruct (mpc_failed round) as [mpc|]; [|done].
  rewrite try_bind. destruct (order_failed _) as [[b t]|]; [|done].
  rewrite try_bind. destruct (proof_failed _) as [statement|]; [|done].
  rewrite try_bind. by destruct (assure statement m) as [[pf vf]|].
Qed.

Lemma prepare_submit_frame io order authority evidence now s :
  ∃ runner, (prepare_canonical_submit io order authority evidence now s).1 = with_mpc runner s.
Proof.
  unfold prepare_canonical_submit. rewrite self_bind. apply try_frame; intros _.
  rewrite method_bind. unfold stage_submission.
  destruct (stage_frame io joint_proof order authority evidence now s) as [runner Hr].
  exists runner. by destruct (stage_with_assurance _ _ _ _ _ _ _) as [s1 [g|err]].
Qed.

Lemma optimistic_frame io admit_input order authority evidence now s :
  ∃ runner, (prepare_optimistic_submit io admit_input order authority evidence now s).1
    = with_mpc runner s.
Proof.
  unfold prepare_optimistic_submit. rewrite self_bind. apply try_frame; intros _.
  apply try_frame; intros verifier. rewrite method_bind.
  destruct (stage_frame io (propose_transition verifier admit_input) order authority evidence now s)
    as [runner Hr].
  exists runner. by destruct (stage_with_assurance _ _ _ _ _ _ _) as [s1 [g|err]].
Qed.

Lemma submit_Err io order authority evidence now s s' err :
  submit io order authority evidence now s = (s', Err err) →
  s' = s ∨ ∃ s1 x runner, expire_due now s = (s1, Ok x) ∧ s' = with_mpc runner s1.
Proof.
  unfold submit. rewrite method_bind. destruct (expire_due now s) as [s1 [x|err1]] eqn:E1.
  2:{ intros [= <- _]. left. by eapply expire_due_Err. }
  rewrite method_bind. unfold stage_submission.
  destruct (stage_frame io joint_proof order authority evidence now s1) as [runner Hr].
  destruct (stage_with_assurance _ _ _ _ _ _ _) as [s2 [g|err2]]; simpl in Hr; subst s2.
  - intros [->|[[e' []] Hx]]%try_bind_Err; [eauto 10|]. by rewrite self_bind, set_self_bind in Hx.
  - intros [= <- _]. eauto 10.
Qed.

Lemma service_accept_Err {P} (p : PreparedOclobSubmission P) a s s' err :
  service_accept p a s = (s', Err err) → s' = s.
Proof.
  intros Hx. unfold service_accept in Hx. rewrite self_bind in Hx.
  apply try_bind_Err in Hx as [?|[_ Hx]]; [done|].
  apply try_bind_Err in Hx as [?|[[e applied] Hx]]; [done|]. by destruct applied.
Qed.

(** C36: Failed calls leave the exchange as it was.  A refused cancellation,
    expiry or acceptance changes nothing at all; a preparation, accepted or
    refused, touches the MPC runner only; a refused submission keeps at most
    the expiry it had already committed, and the MPC runner. *)
Theorem service_atomic s cancellation now io order authority evidence
    (p : PreparedOclobSubmission TransitionProof) acceptance :
  match cancel cancellation now s with (s', Err _) => s' = s | _ => True end
  ∧ match expire_due now s with (s', Err _) => s' = s | _ => True end
  ∧ match service_accept p acceptance s with (s', Err _) => s' = s | _ => True end
  ∧ (∃ runner, (prepare_canonical_submit io order authority evidence now s).1 = with_mpc runner s)
  ∧ match submit io order authority evidence now s with
    | (s', Err _) => s' = s
        ∨ ∃ s1 x runner, expire_due now s = (s1, Ok x) ∧ s' = with_mpc runner s1
    | _ => True
    end.
Proof.
  split_and!; [..|apply prepare_submit_frame|]; case_match; case_match; try done;
    eauto using cancel_Err, expire_due_Err, service_accept_Err, submit_Err.
Qed.

(** ** Runs *)

Lemma new_service_ok keys policy dkg first second r1 r2 r3 r4 market handles mpc eligibility s :
  service_new market (new_with_transition_committee keys policy dkg first second r1 r2 r3 r4)
    handles mpc eligibility = Ok s → service_ok s ∧ os_market_id s = market.
Proof.
  intros Hn. unfold service_new in Hn. apply bind_Ok in Hn as (e & He%map_err_Ok & Hn).
  apply bind_Ok in Hn as (b & [Hwf ->]%map_err_Ok%book_new_wf & Hn).
  apply bind_Ok in Hn as (m & Hm%map_err_Ok & Hn). apply bind_Ok in Hn as (runner & _ & Hn).
  injection Hn as <-. split; [|done].
  unfold deterministic_for_demo in Hm. do 2 (apply bind_Ok in Hm as (? & _ & Hm)).
  injection Hm as <-. pose proof (new_engine_ok _ _ _ _ _ _ _ _ _ _ He) as Heng.
  split; try done.
  - split; simpl; [by intros i o|constructor|done|unfold u64_max; lia].
  - unfold new_with_transition_committee in He. do 2 (apply bind_Ok in He as (? & _ & He)).
    injection He as <-. by intros c.
Qed.

(** One call, whatever it returns. *)
Inductive service_step : OclobService → OclobService → Prop :=
| sstep_expire s now : service_step s (expire_due now s).1
| sstep_cancel s cancellation now : service_step s (cancel cancellation now s).1
| sstep_submit s io order authority evidence now :
    order_valid order = true → service_step s (submit io order authority evidence now s).1
| sstep_prepare s io order authority evidence now :
    service_step s (prepare_canonical_submit io order authority evidence now s).1
| sstep_optimistic s io admit_input order authority evidence now :
    service_step s (prepare_optimistic_submit io admit_input order authority evidence now s).1.

(** A run from [s0]; an acceptance may come at any time after its preparation,
    and the sequence counter does not wrap. *)
Inductive service_run (s0 : OclobService) : OclobService → Prop :=
| srun_new : service_run s0 s0
| srun_step s s' :
    service_run s0 s → bk_sequence (os_book s) + 1 < u64_max → service_step s s' →
    service_run s0 s'
| srun_accept s1 s1' io order authority evidence now p s acceptance :
    service_run s0 s1 → bk_sequence (os_book s1) + 1 < u64_max → order_valid order = true →
    prepare_canonical_submit io order authority evidence now s1 = (s1', Ok p) →
    service_run s0 s →
    service_run s0 (service_accept p acceptance s).1
| srun_accept_optimistic s1 s1' io admit_input order authority evidence now pending s2 finality
    now' p s acceptance :
    service_run s0 s1 → bk_sequence (os_book s1) + 1 < u64_max → order_valid order = true →
    prepare_optimistic_submit io admit_input order authority evidence now s1 = (s1', Ok pending) →
    service_run s0 s2 → finalize io pending s2 finality now' = Ok p →
    service_run s0 s →
    service_run s0 (service_accept p acceptance s).1.

Lemma service_ok_mpc runner s : service_ok s → service_ok (with_mpc runner s).
Proof. done. Qed.

Lemma service_step_ok s s' :
  service_step s s' → service_ok s → bk_sequence (os_book s) + 1 < u64_max →
  service_ok s' ∧ os_market_id s' = os_market_id s.
Proof.
  intros Hstep Hs Hlt. destruct Hstep
    as [s now|s x now|s io order au ev now Hv|s io order au ev now|s io ad order au ev now].
  - destruct (expire_due now s) as [s' [r|err]] eqn:E; cbn [fst].
    + by apply expire_due_Ok in E as (? & ? & _); [|done|lia].
    + by apply expire_due_Err in E as ->.
  - destruct (cancel x now s) as [s' [r|err]] eqn:E; cbn [fst].
    + by apply cancel_Ok in E; [|done|lia].
    + by apply cancel_Err in E as ->.
  - destruct (submit io order au ev now s) as [s' [r|err]] eqn:E; cbn [fst].
    + by apply submit_Ok in E.
    + apply submit_Err in E as [->|(s1 & r & runner & E & ->)]; [done|].
      by apply expire_due_Ok in E as (? & ? & _); [|done|lia].
  - by destruct (prepare_submit_frame io order au ev now s) as [runner ->].
  - by destruct (optimistic_frame io ad order au ev now s) as [runner ->].
Qed.

(** A finalised submission installs what was staged, whenever it was finalised. *)
Lemma finalize_Ok io admit_input order authority evidence now s s' pending s2 finality now' p :
  service_ok s → order_valid order = true → bk_sequence (os_book s) < u64_max →
  prepare_optimistic_submit io admit_input order authority evidence now s = (s', Ok pending) →
  finalize io pending s2 finality now' = Ok p → prepared_for (os_market_id s) p.
Proof.
  intros Hs Hv Hlt Hx Hf. unfold prepare_optimistic_submit in Hx. rewrite self_bind in Hx.
  next_step Hx as (_ & _ & Hx). next_step Hx as (verifier & _ & Hx).
  apply method_bind_Ok in Hx as (s1 & g & Hg & Hx). injection Hx as _ <-.
  apply stage_Ok in Hg as (_ & <- & Hst); [|done..].
  unfold finalize in Hf. cbn [pn_staged pn_verifier] in Hf.
  do 2 (apply bind_Ok in Hf as (_ & _ & Hf)). apply bind_Ok in Hf as (auth & _ & Hf).
  eapply (prepare_staged_Ok (V := FinalizedOptimisticTransition)); [exact Hs|exact Hlt|..|exact Hf];
    [exact Hst|exact Hv].
Qed.

Lemma accept_ok {P} (p : PreparedOclobSubmission P) a s :
  prepared_for (os_market_id s) p → service_ok s →
  service_ok (service_accept p a s).1
  ∧ os_market_id (service_accept p a s).1 = os_market_id s.
Proof.
  intros Hp Hs. destruct (service_accept p a s) as [s' [r|err]] eqn:E; cbn [fst].
  - by eapply service_accept_Ok.
  - by apply service_accept_Err in E as ->.
Qed.

Lemma service_run_ok s0 s :
  service_ok s0 → service_run s0 s → service_ok s ∧ os_market_id s = os_market_id s0.
Proof.
  intros Hs0. induction 1 as [|s s' Hrun [IH Hm] Hlt Hstep
    |s1 s1' io order au ev now p s a Hrun1 [IH1 Hm1] Hlt Hv Hp Hrun [IH Hm]
    |s1 s1' io ad order au ev now pn s2 fin now' p s a Hr1 [IH1 Hm1] Hlt Hv Hp Hr2 _ Hf Hr [IH Hm]].
  - done.
  - destruct (service_step_ok _ _ Hstep IH Hlt). split; congruence.
  - apply prepare_submit_Ok in Hp as [_ Hp]; [|done..|lia]. rewrite Hm1, <-Hm in Hp. rewrite <-Hm.
    by apply accept_ok.
  - pose proof (finalize_Ok _ _ _ _ _ _ _ _ _ _ _ _ _ IH1 Hv ltac:(lia) Hp Hf) as Hok.
    rewrite Hm1, <-Hm in Hok. rewrite <-Hm. by apply accept_ok.
Qed.

(** C5: Every resting order is backed, on every run of the exchange.  Whatever
    the interleaving of submissions, preparations, acceptances (attested or
    optimistic), cancellations, expiries and failed calls, the book stays well formed, its sequence is the
    length of the certified chain and its admitted commands are exactly the
    certified ones; the engine stays solvent; and an order rests in the private
    book if and only if it has an active reservation, made with the order's own
    terms and open for exactly the quantity that still rests. *)
Theorem service_backed keys policy dkg first second r1 r2 r3 r4 market handles mpc eligibility s0 s :
  service_new market (new_with_transition_committee keys policy dkg first second r1 r2 r3 r4)
    handles mpc eligibility = Ok s0 →
  service_run s0 s →
  book_wf (os_book s) ∧ log_wf (cm_log (os_ordering s)) ∧ engine_ok (os_settlement s)
  ∧ bk_sequence (os_book s) = Z.of_nat (length (lg_certificates (cm_log (os_ordering s))))
  ∧ bk_admitted (os_book s) = list_to_set (map oc_commitment (lg_certificates (cm_log (os_ordering s))))
  ∧ (∀ c o, book_map (os_book s) !! c = Some o →
      ∃ r, record_of (se_reservations (os_settlement s)) c = Some r ∧ rec_status r = Active
        ∧ record_for (ro_secret o) r ∧ rec_remaining_quantity r = ro_remaining o)
  ∧ (∀ c r, record_of (se_reservations (os_settlement s)) c = Some r → rec_status r = Active →
      is_Some (book_map (os_book s) !! c)).
Proof.
  intros Hnew Hrun. destruct (new_service_ok _ _ _ _ _ _ _ _ _ _ _ _ _ _ Hnew) as [Hs0 _].
  destruct (service_run_ok _ _ Hs0 Hrun) as [[Hwf Hlog Heng _ Hseq Had Hbk] _].
  split_and!; try done.
  - rewrite Had. apply lw_commitments, Hlog.
  - intros c o Ho. specialize (Hbk c). unfold backed in Hbk. rewrite Ho in Hbk.
    destruct (record_of _ c); [eauto|done].
  - intros c r Hr Hact. specialize (Hbk c). unfold backed in Hbk.
    rewrite Hr in Hbk. destruct (book_map _ !! c); [eauto|done].
Qed.

End life.
