(* ===== verification/QueueLife.v ===== *)
(** * What the queue delivers

    A queued submission reaches the service as it was signed, once per claim,
    and its answer decides the one outbox record it leaves. *)

From S2P Require Import Prelude BTree Bytes AppCrypto Orders Matching Circuit MpcRunner Book.
From S2P Require Import Ordering Proofs Reservations Settlement Canonical Compat Eligibility.
From S2P Require Import Service OptimisticService ServiceLife Queue.
Open Scope list_scope.
Open Scope Z_scope.

(** [serde_json] reads back what it wrote. *)
Class EnvelopeLaws `{CorporateOutbox} := {
  envelope_json_roundtrip : ∀ e b, json_envelope e = Some b → json_parse_envelope b = Some e
}.

Section delivery.
Context `{Crypto} `{Json} `{CompatLaws} `{Dekyx} `{OptimisticSdk} `{EnvelopeLaws}.
Implicit Types (q : DurableOclobQueue) (s : OclobService).

(** The envelope carries the exact signed submission. *)
Lemma envelope_roundtrip order authority evidence b :
  order_valid order = true → a_commitment authority = commitment order →
  envelope_encode order authority evidence = Ok b →
  envelope_decode b = Ok (order, authority, evidence).
Proof.
  intros Hv Hc Hb%ok_or_Ok%envelope_json_roundtrip. unfold envelope_decode. rewrite Hb; cbn [ok_or].
  rewrite Ok_bind. cbn [qe_version qe_order_wire qe_authority qe_eligibility]. rewrite Z.eqb_refl.
  cbn [negb fail_if]. rewrite Ok_bind, from_to_secret_wire by done. cbn [map_err].
  by rewrite Ok_bind, bool_decide_true by done.
Qed.

Lemma enqueue_Ok order authority evidence accepted_at q q' receipt :
  enqueue order authority evidence accepted_at q = (q', Ok receipt) →
  authority_verify authority order accepted_at = Ok ()
  ∧ ∃ signed, envelope_encode order authority evidence = Ok signed
      ∧ qr_request_id receipt = hex_encode (commitment order)
      ∧ qr_request_digest receipt = sha256 signed.
Proof.
  unfold enqueue. rewrite try_bind.
  destruct (authority_verify authority order accepted_at) as [[]|]; [|done]. cbn [order_failed map_err].
  rewrite try_bind. destruct (envelope_encode _ _ _) as [signed|]; [|done]. rewrite method_bind.
  destruct (on_outbox _ q) as [q1 [outcome|]]; [|done].
  intros Hr. split; [done|]. exists signed. destruct outcome; by injection Hr as _ <-.
Qed.

(** What one dispatched request may leave behind in the service. *)
Definition unsubmitted s s' (now : Z) : Prop :=
  s' = s ∨ ∃ s1 x runner, expire_due now s = (s1, Ok x) ∧ s' = with_mpc runner s1.

Definition recorded q q' (m : method Outbox string ()) : Prop :=
  ∃ b, m (dq_outbox q) = (b, Ok ()) ∧ q' = with_outbox b q.

Lemma on_outbox_Ok q q' (m : method Outbox string ()) u :
  on_outbox m q = (q', Ok u) ↔ recorded q q' m.
Proof.
  unfold on_outbox, recorded. destruct u, (m (dq_outbox q)) as [b [[]|e]]; simpl; naive_solver.
Qed.

(** C37: The queue delivers what was signed.  A submission that was enqueued is
    dispatched, from the stored bytes, to the service exactly as it was signed,
    and [submit] runs once; the answer decides the outbox record: an execution
    is recorded with its canonical digest and height, an uncertain outcome goes
    to manual review, a retryable failure records nothing, any other failure
    aborts the request; and after every failure the service holds nothing of
    the order (at most an expiry committed before, and the MPC runner). *)
Theorem queue_delivers order authority evidence accepted_at q0 q1 receipt :
  order_valid order = true →
  enqueue order authority evidence accepted_at q0 = (q1, Ok receipt) →
  ∃ signed, envelope_encode order authority evidence = Ok signed
    ∧ qr_request_digest receipt = sha256 signed
    ∧ ∀ io now q s, let id := qr_request_id receipt in let digest := qr_request_digest receipt in
      let claimed := mk_claimed id digest signed in
      let '(s1, outcome) := submit io order authority evidence now s in
      match dispatch_with (submit io) claimed now (q, s) with
      | ((_, s'), Err _) => s' = s1
      | ((q', s'), Ok result) => s' = s1 ∧
          match result with
          | Executed id' r => id' = id ∧ outcome = Ok r
              ∧ recorded q q' (record_settlement id digest (mk_canonical_receipt
                  (dq_defmi_network_id q) (hex_encode (canonical_result r).1)
                  (canonical_result r).2 digest now))
          | RetryableFailure id' e => id' = id ∧ outcome = Err e ∧ retryable e = true ∧ q' = q
              ∧ unsubmitted s s' now
          | Rejected id' (Because cause) => id' = id ∧ outcome = Err (SvcCanonicalUncertain cause)
              ∧ recorded q q' (mark_manual_review id digest now cause) ∧ unsubmitted s s' now
          | Rejected id' (Displayed e) => id' = id ∧ outcome = Err e ∧ retryable e = false
              ∧ recorded q q' (record_pre_reserve_abort id digest now) ∧ unsubmitted s s' now
          | _ => False
          end
      end.
Proof.
  intros Hv (Ha & signed & He & _ & Hd)%enqueue_Ok.
  exists signed. split_and!; [done..|]. intros io now q s id digest. cbv zeta.
  destruct (submit io order authority evidence now s) as [s1 outcome] eqn:Hs.
  unfold dispatch_with. cbn [cq_request_id cq_request_digest cq_signed_request].
  rewrite (envelope_roundtrip order authority evidence) by
    (done || by eapply authority_verify_commitment).
  rewrite method_bind. cbn [on_executor]. rewrite Hs.
  destruct outcome as [r|e].
  - destruct (canonical_result r) as [d h] eqn:Ec. rewrite self_bind, method_bind.
    cbn [on_queue]. destruct (on_outbox _ q) as [q' [u|err]] eqn:Eo; [|done].
    apply on_outbox_Ok in Eo. cbn [mret method_mret]. by rewrite Ec.
  - apply submit_Err in Hs.
    destruct e as [c|c|c|c|c|c|c|c]; cbn [retryable]; try (by split_and!);
      rewrite method_bind; cbn [on_queue]; destruct (on_outbox _ q) as [q' [u|err]] eqn:Eo;
      try done; apply on_outbox_Ok in Eo; by split_and!.
Qed.

End delivery.
