(* ===== verification/Edge.v ===== *)
(** * The participant edge

    The receiving half of [oclob-edge/src/lib.rs]: the public manifest of an
    order, one node's share of it and of its capability key, the sealed
    envelopes they travel in, and the settlement capability, each with the
    checks of the source in its order.  The curve, the KEM, the AEAD, base64,
    [serde_json] and the reservation SDK are the class [EdgeCrates]. *)

From S2P Require Import Prelude BTree Bytes AppCrypto Orders Matching Book Reservations MpcRunner.
From stdpp Require Export vector fin list.
Open Scope string_scope.
Open Scope list_scope.
Open Scope Z_scope.

Definition MAX_CORRUPT_PARTIES : nat := 2.
Definition MATCH_FIELD_COUNT : nat := 6.
Definition SETTLEMENT_FIELD_COUNT : nat := 2.
Definition VSS_COEFFICIENTS : nat := 3.
Definition SETTLEMENT_KEY_THRESHOLD : nat := 3.
(** Both are [MAX_CORRUPT_PARTIES + 1]. *)
Abbreviation SETTLEMENT_KEY_COEFFICIENTS := VSS_COEFFICIENTS (only parsing).
Definition SEALED_SHARE_CLEAR_BYTES : Z := 64 * 1024.
Definition SEALED_CAPABILITY_KEY_SHARE_CLEAR_BYTES : Z := 32 * 1024.
Definition SEALED_SETTLEMENT_CAPABILITY_CLEAR_BYTES : Z := 64 * 1024.

Definition MANIFEST_DOMAIN : bytes := ascii_bytes "OCLOB:EDGE-MANIFEST:v2".
Definition MANIFEST_SIGNATURE_DOMAIN : bytes := ascii_bytes "OCLOB:EDGE-MANIFEST-SIGNATURE:v2".
Definition SHARE_SIGNATURE_DOMAIN : bytes := ascii_bytes "OCLOB:EDGE-SHARE-SIGNATURE:v2".
Definition SHARE_ENVELOPE_DOMAIN : bytes := ascii_bytes "OCLOB:EDGE-SHARE-ENVELOPE:v2".
Definition SHARE_CLEAR_DOMAIN : bytes := ascii_bytes "OCLOB:EDGE-SHARE-CLEAR:v2".
Definition SETTLEMENT_CAPABILITY_COMMITMENT_DOMAIN : bytes :=
  ascii_bytes "OCLOB:SETTLEMENT-CAPABILITY-COMMITMENT:v2".
Definition SETTLEMENT_CAPABILITY_SIGNATURE_DOMAIN : bytes :=
  ascii_bytes "OCLOB:SETTLEMENT-CAPABILITY-SIGNATURE:v2".
Definition CAPABILITY_KEY_SHARE_SIGNATURE_DOMAIN : bytes :=
  ascii_bytes "OCLOB:CAPABILITY-KEY-SHARE-SIGNATURE:v2".
Definition CAPABILITY_KEY_SHARE_DIGEST_DOMAIN : bytes :=
  ascii_bytes "OCLOB:CAPABILITY-KEY-SHARE-DIGEST:v2".
Definition CAPABILITY_KEY_SHARE_ENVELOPE_DOMAIN : bytes :=
  ascii_bytes "OCLOB:CAPABILITY-KEY-SHARE-ENVELOPE:v2".
Definition CAPABILITY_KEY_SHARE_CLEAR_DOMAIN : bytes :=
  ascii_bytes "OCLOB:CAPABILITY-KEY-SHARE-CLEAR:v2".
Definition SETTLEMENT_CAPABILITY_ENVELOPE_DOMAIN : bytes :=
  ascii_bytes "OCLOB:THRESHOLD-SETTLEMENT-CAPABILITY:v2".
Definition SETTLEMENT_CAPABILITY_CLEAR_DOMAIN : bytes :=
  ascii_bytes "OCLOB:SETTLEMENT-CAPABILITY-CLEAR:v2".
Definition PREAUTHORIZED_SETTLEMENT_DOMAIN : bytes :=
  ascii_bytes "OCLOB:PREAUTHORIZED-SETTLEMENT:v2".
Definition RESERVATION_AUTHORITY_CLEAR_DOMAIN : bytes :=
  ascii_bytes "OCLOB:RESERVATION-AUTHORITY:v3".
Definition EDGE_VERSION : Z := 7.

(** [EdgeError]; [EDiverged] is a draw loop that found no value. *)
Inductive EdgeError :=
| EInput
| EManifest
| ESignature
| EShare
| EVss
| EEnvelope
| ECapability
| ECapabilityKeyShare
| ECapabilityKeyThreshold
| EReservationPermit
| EWire (reason : string)
| ECrypto (reason : string)
| EDiverged.

#[export] Instance edge_error_eq_dec : EqDecision EdgeError.
Proof. solve_decision. Defined.

(** ** Arrays and loops over them *)

(** [[T; n]] is [vec T n]; [for i in 0..n] runs over [fin n]. *)
Definition fin_range (n : nat) : list (fin n) := vec_to_list (fun_to_vec id).
Definition for_range {E n} (body : fin n → result E ()) : result E () :=
  for_each (λ _ i, body i) () (fin_range n).

(** [m[i][j]]. *)
Definition entry {A n k} (m : vec (vec A k) n) (i : fin n) (j : fin k) : A := (m !!! i) !!! j.

Definition array_bytes {n} (v : vec Digest32 n) : bytes := concat (map d_bytes (vec_to_list v)).
Definition matrix_bytes {n k} (m : vec (vec Digest32 k) n) : bytes :=
  concat (map array_bytes (vec_to_list m)).

(** ** The manifest *)

Record EdgeOrderManifest := mk_manifest {
  m_version : Z;
  m_market_id : bytes;
  m_commitment : OrderCommitment;
  m_retention_deadline : Z;
  m_eligibility_commitment : Digest32;
  m_source_order_commitment : Digest32;
  m_reservation_admission_digest : Digest32;
  m_settlement_capability_commitment : Digest32;
  m_settlement_key_commitments : vec Digest32 SETTLEMENT_KEY_COEFFICIENTS;
  m_field_commitments : vec (vec Digest32 VSS_COEFFICIENTS) MATCH_FIELD_COUNT;
  m_settlement_proof_enabled : bool;
  m_settlement_field_commitments : vec (vec Digest32 VSS_COEFFICIENTS) SETTLEMENT_FIELD_COUNT;
  m_signer : Digest32;
  m_signature : bytes
}.
#[export] Instance manifest_eq_dec : EqDecision EdgeOrderManifest.
Proof. solve_decision. Defined.

Definition uses_pretrade_reservation (m : EdgeOrderManifest) : bool :=
  negb (is_zero (m_reservation_admission_digest m)).

(** ** Shares and envelopes *)

Record PartyOrderShare := mk_share {
  sh_version : Z;
  sh_party : Z;
  sh_commitment : OrderCommitment;
  sh_value_shares : vec Digest32 MATCH_FIELD_COUNT;
  sh_blinding_shares : vec Digest32 MATCH_FIELD_COUNT;
  sh_settlement_value_shares : vec Digest32 SETTLEMENT_FIELD_COUNT;
  sh_settlement_blinding_shares : vec Digest32 SETTLEMENT_FIELD_COUNT;
  sh_reservation_admission : bytes;
  sh_signer : Digest32;
  sh_signature : bytes
}.

Record CapabilityKeyShare := mk_key_share {
  ck_version : Z;
  ck_party : Z;
  ck_order_commitment : OrderCommitment;
  ck_capability_commitment : Digest32;
  ck_value : Digest32;
  ck_signer : Digest32;
  ck_signature : bytes
}.

(** [NodeEncryptionKey(Vec<u8>)] and the seed of a [NodeDecryptionKey]. *)
Record NodeEncryptionKey := mk_encryption_key { nek_bytes : bytes }.
Record NodeDecryptionKey := mk_decryption_key { ndk_seed : bytes }.

Record SettlementCapabilityClear := mk_capability_clear {
  cc_version : Z;
  cc_order_wire : bytes;
  cc_eligibility_commitment : Digest32;
  cc_eligibility_evidence : bytes;
  cc_constant_blindings : vec Digest32 MATCH_FIELD_COUNT;
  cc_signer : Digest32;
  cc_signature : bytes
}.

Record SealedSettlementCapability := mk_sealed_capability {
  sc_version : Z;
  sc_order_commitment : OrderCommitment;
  sc_capability_commitment : Digest32;
  sc_nonce : bytes;
  sc_ciphertext : bytes
}.
#[export] Instance sealed_capability_eq_dec : EqDecision SealedSettlementCapability.
Proof. solve_decision. Defined.

Record SettlementCapabilityKey := mk_capability_key { sk_bytes : Digest32 }.

(** [ClaimAuthorizationEndpoint] and its [validate]. *)
Record ClaimAuthorizationEndpoint := mk_endpoint {
  ep_host : bytes;
  ep_port : Z;
  ep_server_name : bytes;
  ep_certificate_sha256 : Digest32
}.

Definition is_ascii (b : bytes) : bool := forallb (λ x, byte_val x <? 128) b.

Definition endpoint_validate (e : ClaimAuthorizationEndpoint) : result EdgeError () :=
  fail_if (Nat.eqb (length (ep_host e)) 0 || Nat.ltb 253 (length (ep_host e))
      || negb (is_ascii (ep_host e)) || (ep_port e =? 0)
      || Nat.eqb (length (ep_server_name e)) 0 || Nat.ltb 253 (length (ep_server_name e))
      || negb (is_ascii (ep_server_name e)) || is_zero (ep_certificate_sha256 e)) EEnvelope.

(** ** Other crates *)

(** [curve25519_dalek] (with [Pedersen::new(b"qomm:defmi:v1")]), the hybrid KEM
    of [zkfmi_crypto], ChaCha20-Poly1305, [base64], [serde_json] on the clear
    payloads, and the reservation SDK. [Rng] is the random supply a function
    takes ([RngCore] or the operating system's). *)
Class EdgeCrates `{Points} := {
  scalar_eq_dec :: EqDecision Scalar;
  s_zero : Scalar;
  s_one : Scalar;
  s_add : Scalar → Scalar → Scalar;
  s_sub : Scalar → Scalar → Scalar;
  s_mul : Scalar → Scalar → Scalar;
  s_opp : Scalar → Scalar;
  s_inv : Scalar → Scalar;
  s_from : Z → Scalar;
  s_to_bytes : Scalar → Digest32;
  s_from_canonical : Digest32 → option Scalar;
  p_mul : Scalar → RistrettoPoint → RistrettoPoint;
  basepoint : RistrettoPoint;
  decompress : Digest32 → option RistrettoPoint;
  pedersen : Scalar → Scalar → RistrettoPoint;
  Rng : Type;
  random_scalar : Rng → Rng * Scalar;
  fill_bytes : nat → Rng → Rng * bytes;
  Suite : Type;
  suite_eq_dec :: EqDecision Suite;
  X25519MlKem768 : Suite;
  kem_suite_encode : Suite → bytes;
  kem_public_key : bytes → bytes;
  encapsulate : bytes → Rng → Rng * result string (bytes * bytes);
  decapsulate : bytes → bytes → result string bytes;
  aead_seal : Digest32 → bytes → bytes → bytes → result string (bytes * bytes);
  aead_open : Digest32 → bytes → bytes → bytes → bytes → option bytes;
  base64_encode : bytes → bytes;
  base64_decode : bytes → option bytes;
  ReservationAdmission : Type;
  ReservationPermit : Type;
  ad_venue_id : ReservationAdmission → Digest32;
  ad_defmi_id : ReservationAdmission → Digest32;
  ad_order_commitment : ReservationAdmission → Digest32;
  ad_participant_handle : ReservationAdmission → Digest32;
  ad_amount_commitment : ReservationAdmission → Digest32;
  ad_side_commitment : ReservationAdmission → Digest32;
  ad_valid_until : ReservationAdmission → Z;
  ad_reservation_nullifier : ReservationAdmission → Digest32;
  admission_encode : ReservationAdmission → option bytes;
  admission_decode : bytes → option ReservationAdmission;
  admission_digest : ReservationAdmission → option Digest32;
  admission_check : ReservationAdmission → Digest32 → Digest32 → bytes → Z → bool;
  permit_check : ReservationPermit → Digest32 → Digest32 → bytes → Z → bool;
  verify_authority : ReservationAdmission → ReservationPermit → Scalar → bool;
  oclob_manifest_digest : option Digest32;
  json_share : PartyOrderShare → option bytes;
  parse_share : bytes → option PartyOrderShare;
  json_key_share : CapabilityKeyShare → option bytes;
  parse_key_share : bytes → option CapabilityKeyShare;
  json_capability : SettlementCapabilityClear → option bytes;
  parse_capability : bytes → option SettlementCapabilityClear;
  json_authority : ReservationAdmission * ReservationPermit * Digest32 * ClaimAuthorizationEndpoint
    → option bytes;
  parse_authority : bytes →
    option (ReservationAdmission * ReservationPermit * Digest32 * ClaimAuthorizationEndpoint)
}.

Record SealedPartyShare `{EdgeCrates} := mk_sealed_share {
  ss_version : Z;
  ss_party : Z;
  ss_commitment : OrderCommitment;
  ss_recipient : Digest32;
  ss_suite : Suite;
  ss_kem_ciphertext : bytes;
  ss_nonce : bytes;
  ss_ciphertext : bytes
}.

Record SealedCapabilityKeyShare `{EdgeCrates} := mk_sealed_key {
  sq_version : Z;
  sq_party : Z;
  sq_order_commitment : OrderCommitment;
  sq_capability_commitment : Digest32;
  sq_recipient : Digest32;
  sq_suite : Suite;
  sq_kem_ciphertext : bytes;
  sq_nonce : bytes;
  sq_ciphertext : bytes
}.

#[export] Instance sealed_share_eq_dec `{EdgeCrates} : EqDecision SealedPartyShare.
Proof. solve_decision. Defined.
#[export] Instance sealed_key_eq_dec `{EdgeCrates} : EqDecision SealedCapabilityKeyShare.
Proof. solve_decision. Defined.

(** ** HMAC and key derivation *)

Definition xor_pad (pad : Z) (block : bytes) : bytes :=
  map (λ b, byte_of (Z.lxor pad (byte_val b))) block.

Definition hmac_block `{Crypto} (key : bytes) : bytes :=
  let head := if Nat.ltb 64 (length key) then d_bytes (sha256 key) else key in
  head ++ replicate (64 - length head) Byte.x00.

Definition hmac_sha256 `{Crypto} (key body : bytes) : Digest32 :=
  let block := hmac_block key in
  sha256 (xor_pad 0x5c block ++ d_bytes (sha256 (xor_pad 0x36 block ++ body))).

Section edge.
Context `{Crypto} `{EdgeCrates}.

Definition node_key_fingerprint (k : NodeEncryptionKey) : Digest32 :=
  sha256 (ascii_bytes "OCLOB:HYBRID-NODE-KEY:v2" ++ nek_bytes k).

(** [32 + ML_KEM_768_EK_BYTES] bytes. *)
Definition valid_encoding (k : NodeEncryptionKey) : bool :=
  Nat.eqb (length (nek_bytes k)) (32 + 1184)
  && existsb (λ b, negb (byte_val b =? 0)) (take 32 (nek_bytes k)).

Definition node_public_key (k : NodeDecryptionKey) : NodeEncryptionKey :=
  mk_encryption_key (kem_public_key (ndk_seed k)).

Definition derive_envelope_key (shared : bytes) (party : Z) (commitment : OrderCommitment)
    (recipient : Digest32) (kem_ciphertext : bytes) : Digest32 :=
  let salt := SHARE_ENVELOPE_DOMAIN ++ d_bytes commitment ++ u16_be party in
  let pseudorandom := hmac_sha256 salt shared in
  hmac_sha256 (d_bytes pseudorandom)
    (SHARE_ENVELOPE_DOMAIN ++ d_bytes recipient ++ kem_ciphertext ++ d_bytes commitment
     ++ [Byte.x01]).

Definition derive_capability_key_share_envelope_key (shared : bytes) (party : Z)
    (order_commitment : OrderCommitment) (capability_commitment recipient : Digest32)
    (kem_ciphertext : bytes) : Digest32 :=
  let salt := CAPABILITY_KEY_SHARE_ENVELOPE_DOMAIN ++ d_bytes order_commitment
    ++ d_bytes capability_commitment ++ u16_be party in
  let pseudorandom := hmac_sha256 salt shared in
  hmac_sha256 (d_bytes pseudorandom)
    (CAPABILITY_KEY_SHARE_ENVELOPE_DOMAIN ++ d_bytes recipient ++ kem_ciphertext ++ u16_be party
     ++ d_bytes order_commitment ++ d_bytes capability_commitment ++ [Byte.x01]).

Definition envelope_aad (e : SealedPartyShare) : bytes :=
  SHARE_ENVELOPE_DOMAIN ++ u16_be (ss_version e) ++ u16_be (ss_party e)
  ++ d_bytes (ss_commitment e) ++ d_bytes (ss_recipient e) ++ kem_suite_encode (ss_suite e)
  ++ ss_kem_ciphertext e.

Definition capability_key_share_envelope_aad (e : SealedCapabilityKeyShare) : bytes :=
  CAPABILITY_KEY_SHARE_ENVELOPE_DOMAIN ++ u16_be (sq_version e) ++ u16_be (sq_party e)
  ++ d_bytes (sq_order_commitment e) ++ d_bytes (sq_capability_commitment e)
  ++ d_bytes (sq_recipient e) ++ kem_suite_encode (sq_suite e) ++ sq_kem_ciphertext e.

Definition settlement_envelope_aad (e : SealedSettlementCapability) : bytes :=
  SETTLEMENT_CAPABILITY_ENVELOPE_DOMAIN ++ u16_be (sc_version e)
  ++ d_bytes (sc_order_commitment e) ++ d_bytes (sc_capability_commitment e).

(** [encrypt] appends the 16-byte tag that [decrypt] splits off. *)
Definition encrypt (key : Digest32) (nonce clear aad : bytes) : result EdgeError bytes :=
  '(output, tag) ← map_err ECrypto (aead_seal key nonce clear aad);
  Ok (output ++ tag).

Definition decrypt (key : Digest32) (nonce encrypted aad : bytes) : result EdgeError bytes :=
  _ ← fail_if (Nat.ltb (length encrypted) 16) EEnvelope;
  let split := (length encrypted - 16)%nat in
  ok_or (aead_open key nonce (take split encrypted) (drop split encrypted) aad) EEnvelope.

(** ** Fixed-size clear frames *)

(** The prefix [domain || length || payload] of a frame of [size] bytes. *)
Definition decode_frame {A} (domain : bytes) (size : Z) (parse : bytes → option A)
    (clear : bytes) : result EdgeError A :=
  let start := length domain in
  _ ← fail_if (negb (Z.of_nat (length clear) =? size)
      || negb (bool_decide (take start clear = domain))) EEnvelope;
  let len := be_val (take 4 (drop start clear)) in
  let payload_start := (start + 4)%nat in
  _ ← fail_if (Z.of_nat (length clear) <? Z.of_nat payload_start + len) EEnvelope;
  ok_or (parse (take (Z.to_nat len) (drop payload_start clear))) EEnvelope.

Definition decode_fixed_clear : bytes → result EdgeError PartyOrderShare :=
  decode_frame SHARE_CLEAR_DOMAIN SEALED_SHARE_CLEAR_BYTES parse_share.

Definition decode_capability_key_share_clear : bytes → result EdgeError CapabilityKeyShare :=
  decode_frame CAPABILITY_KEY_SHARE_CLEAR_DOMAIN SEALED_CAPABILITY_KEY_SHARE_CLEAR_BYTES
    parse_key_share.

Definition decode_settlement_clear : bytes → result EdgeError SettlementCapabilityClear :=
  decode_frame SETTLEMENT_CAPABILITY_CLEAR_DOMAIN SEALED_SETTLEMENT_CAPABILITY_CLEAR_BYTES
    parse_capability.

(** ** Manifest checks *)

Definition unsigned_body (m : EdgeOrderManifest) : bytes :=
  MANIFEST_DOMAIN ++ u16_be (m_version m) ++ u16_be (Z.of_nat (length (m_market_id m)))
  ++ m_market_id m ++ u64_be (m_retention_deadline m) ++ d_bytes (m_eligibility_commitment m)
  ++ d_bytes (m_source_order_commitment m) ++ d_bytes (m_reservation_admission_digest m)
  ++ d_bytes (m_settlement_capability_commitment m)
  ++ array_bytes (m_settlement_key_commitments m) ++ matrix_bytes (m_field_commitments m)
  ++ [byte_of (if m_settlement_proof_enabled m then 1 else 0)]
  ++ matrix_bytes (m_settlement_field_commitments m) ++ d_bytes (m_signer m).

Definition derived_commitment (m : EdgeOrderManifest) : OrderCommitment :=
  sha256 (unsigned_body m).

Definition manifest_signature_body (c : OrderCommitment) : bytes :=
  MANIFEST_SIGNATURE_DOMAIN ++ d_bytes c.

Definition preauthorized_settlement_commitment (permit_digest : Digest32) : Digest32 :=
  sha256 (PREAUTHORIZED_SETTLEMENT_DOMAIN ++ d_bytes permit_digest).

(** Every entry decompresses. *)
Definition all_points {n k} (rows : vec (vec Digest32 k) n) : bool :=
  forallb (λ row, forallb (λ c, bool_decide (is_Some (decompress c))) (vec_to_list row))
    (vec_to_list rows).

(** A signature over [body] by the key with fingerprint [signer]. *)
Definition check_signature (signer : Digest32) (body raw : bytes) : result EdgeError () :=
  key ← map_err (λ _, ESignature) (vk_from_bytes signer);
  signature ← map_err (λ _, ESignature) (sig_try_from raw);
  map_err (λ _, ESignature) (verify_strict key body signature).

Definition manifest_verify (m : EdgeOrderManifest) (now : Z) : result EdgeError () :=
  _ ← fail_if (negb (m_version m =? EDGE_VERSION) || bad_market_id (m_market_id m)
      || (m_retention_deadline m <? now) || is_zero (m_eligibility_commitment m)
      || is_zero (m_source_order_commitment m) || is_zero (m_settlement_capability_commitment m)
      || negb (bool_decide (m_commitment m = derived_commitment m))) EManifest;
  _ ← fail_if (uses_pretrade_reservation m
      && (negb (m_settlement_proof_enabled m)
          || negb (bool_decide (m_settlement_capability_commitment m
               = preauthorized_settlement_commitment (m_reservation_admission_digest m)))))
    EManifest;
  _ ← fail_if (negb (all_points (m_field_commitments m))) EManifest;
  _ ← (if m_settlement_proof_enabled m then
         _ ← fail_if (negb (all_points (m_settlement_field_commitments m))) EManifest;
         fail_if (bool_decide (decompress (entry (m_settlement_field_commitments m) 0%fin 0%fin)
             = Some point_identity)) EManifest
       else
         fail_if (existsb (existsb (λ c, negb (is_zero c)))
             (map vec_to_list (vec_to_list (m_settlement_field_commitments m)))) EManifest);
  points ← collect (λ c, ok_or (decompress c) EManifest)
    (vec_to_list (m_settlement_key_commitments m));
  _ ← fail_if (bool_decide (head points = Some point_identity)) EManifest;
  check_signature (m_signer m) (manifest_signature_body (m_commitment m)) (m_signature m).

(** ** Shares *)

Definition canonical_scalar (b : Digest32) : result EdgeError Scalar :=
  ok_or (s_from_canonical b) EShare.

Definition scalar_of_party (party : Z) : Scalar := s_from (party + 1).

(** [right += point * power; power *= x] over the coefficients. *)
Fixpoint commitment_at (err : EdgeError) (x : Scalar) (right : RistrettoPoint) (power : Scalar)
    (cs : list Digest32) : result EdgeError RistrettoPoint :=
  match cs with
  | [] => Ok right
  | c :: cs =>
      point ← ok_or (decompress c) err;
      commitment_at err x (point_add right (p_mul power point)) (s_mul power x) cs
  end.

(** One field: the opened share lies on the committed polynomial. *)
Definition verify_field (x : Scalar) (value blinding : Digest32)
    (cs : vec Digest32 VSS_COEFFICIENTS) : result EdgeError () :=
  value ← canonical_scalar value;
  blinding ← canonical_scalar blinding;
  let left := pedersen value blinding in
  right ← commitment_at EManifest x point_identity s_one (vec_to_list cs);
  fail_if (negb (bool_decide (left = right))) EVss.

Definition share_signature_body (s : PartyOrderShare) : bytes :=
  SHARE_SIGNATURE_DOMAIN ++ u16_be (sh_version s) ++ u16_be (sh_party s)
  ++ d_bytes (sh_commitment s) ++ array_bytes (sh_value_shares s)
  ++ array_bytes (sh_blinding_shares s) ++ array_bytes (sh_settlement_value_shares s)
  ++ array_bytes (sh_settlement_blinding_shares s)
  ++ be_bytes 4 (Z.of_nat (length (sh_reservation_admission s))) ++ sh_reservation_admission s
  ++ d_bytes (sh_signer s).

Definition share_verify (s : PartyOrderShare) (m : EdgeOrderManifest) (expected_party now : Z) :
    result EdgeError () :=
  _ ← manifest_verify m now;
  _ ← fail_if (negb (sh_version s =? EDGE_VERSION) || negb (sh_party s =? expected_party)
      || (Z.of_nat MPC_PARTIES <=? sh_party s)
      || negb (bool_decide (sh_commitment s = m_commitment m))
      || negb (bool_decide (sh_signer s = m_signer m))) EShare;
  _ ← check_signature (sh_signer s) (share_signature_body s) (sh_signature s);
  let x := scalar_of_party (sh_party s) in
  _ ← for_range (λ f : fin MATCH_FIELD_COUNT, verify_field x (sh_value_shares s !!! f)
      (sh_blinding_shares s !!! f) (m_field_commitments m !!! f));
  if m_settlement_proof_enabled m then
    for_range (λ f : fin SETTLEMENT_FIELD_COUNT, verify_field x
      (sh_settlement_value_shares s !!! f) (sh_settlement_blinding_shares s !!! f)
      (m_settlement_field_commitments m !!! f))
  else
    fail_if (existsb (λ b, negb (is_zero b))
      (vec_to_list (sh_settlement_value_shares s)
       ++ vec_to_list (sh_settlement_blinding_shares s))) EShare.

Definition verify_admission_binding (a : ReservationAdmission) (m : EdgeOrderManifest) :
    result EdgeError () :=
  digest ← ok_or (admission_digest a) EReservationPermit;
  fail_if (negb (bool_decide (digest = m_reservation_admission_digest m))
      || negb (bool_decide (ad_order_commitment a = m_source_order_commitment m))
      || negb (bool_decide (ad_participant_handle a
                 = entry (m_settlement_field_commitments m) 0%fin 0%fin))
      || negb (bool_decide (ad_amount_commitment a
                 = entry (m_settlement_field_commitments m) 1%fin 0%fin))
      || negb (bool_decide (ad_side_commitment a = entry (m_field_commitments m) 0%fin 0%fin))
      || (ad_valid_until a <? m_retention_deadline m)) EReservationPermit.

Definition verified_reservation_admission (s : PartyOrderShare) (m : EdgeOrderManifest)
    (expected_venue expected_defmi : Digest32) (trusted_signer : bytes) (now : Z) :
    result EdgeError ReservationAdmission :=
  _ ← fail_if (negb (uses_pretrade_reservation m)
      || Nat.eqb (length (sh_reservation_admission s)) 0) EReservationPermit;
  wire ← ok_or (base64_decode (sh_reservation_admission s)) EReservationPermit;
  permit ← ok_or (admission_decode wire) EReservationPermit;
  application ← ok_or oclob_manifest_digest EReservationPermit;
  _ ← fail_if (negb (admission_check permit application expected_defmi trusted_signer now))
    EReservationPermit;
  _ ← fail_if (negb (bool_decide (ad_venue_id permit = expected_venue))) EReservationPermit;
  _ ← verify_admission_binding permit m;
  Ok permit.

(** ** Sealed shares *)

Definition share_wire_digest (e : SealedPartyShare) : Digest32 :=
  sha256 (SHARE_ENVELOPE_DOMAIN ++ u16_be (ss_version e) ++ u16_be (ss_party e)
    ++ d_bytes (ss_commitment e) ++ d_bytes (ss_recipient e) ++ kem_suite_encode (ss_suite e)
    ++ ss_kem_ciphertext e ++ ss_nonce e ++ put_bytes (ss_ciphertext e)).

Definition share_open (e : SealedPartyShare) (key : NodeDecryptionKey) (m : EdgeOrderManifest)
    (expected_party now : Z) : result EdgeError PartyOrderShare :=
  _ ← fail_if (negb (ss_version e =? EDGE_VERSION) || negb (ss_party e =? expected_party)
      || negb (bool_decide (ss_commitment e = m_commitment m))
      || negb (Z.of_nat (length (ss_ciphertext e)) =? SEALED_SHARE_CLEAR_BYTES + 16)
      || negb (bool_decide (ss_suite e = X25519MlKem768))
      || negb (bool_decide (node_key_fingerprint (node_public_key key) = ss_recipient e)))
    EEnvelope;
  shared ← map_err ECrypto (decapsulate (ndk_seed key) (ss_kem_ciphertext e));
  let derived := derive_envelope_key shared (ss_party e) (ss_commitment e) (ss_recipient e)
    (ss_kem_ciphertext e) in
  clear ← decrypt derived (ss_nonce e) (ss_ciphertext e) (envelope_aad e);
  share ← decode_fixed_clear clear;
  _ ← share_verify share m expected_party now;
  Ok share.

Definition key_share_signature_body (s : CapabilityKeyShare) : bytes :=
  CAPABILITY_KEY_SHARE_SIGNATURE_DOMAIN ++ u16_be (ck_version s) ++ u16_be (ck_party s)
  ++ d_bytes (ck_order_commitment s) ++ d_bytes (ck_capability_commitment s)
  ++ d_bytes (ck_value s) ++ d_bytes (ck_signer s).

Definition key_share_wire_digest (s : CapabilityKeyShare) : Digest32 :=
  sha256 (CAPABILITY_KEY_SHARE_DIGEST_DOMAIN ++ key_share_signature_body s
    ++ put_bytes (ck_signature s)).

Definition key_share_verify (s : CapabilityKeyShare) (m : EdgeOrderManifest)
    (expected_party now : Z) : result EdgeError () :=
  _ ← manifest_verify m now;
  _ ← fail_if (negb (ck_version s =? EDGE_VERSION) || negb (ck_party s =? expected_party)
      || (Z.of_nat MPC_PARTIES <=? ck_party s)
      || negb (bool_decide (ck_order_commitment s = m_commitment m))
      || negb (bool_decide (ck_capability_commitment s = m_settlement_capability_commitment m))
      || negb (bool_decide (ck_signer s = m_signer m))) ECapabilityKeyShare;
  scalar ← map_err (λ _, ECapabilityKeyShare) (canonical_scalar (ck_value s));
  expected ← commitment_at ECapabilityKeyShare (scalar_of_party (ck_party s)) point_identity s_one
    (vec_to_list (m_settlement_key_commitments m));
  _ ← fail_if (negb (bool_decide (p_mul scalar basepoint = expected))) ECapabilityKeyShare;
  check_signature (ck_signer s) (key_share_signature_body s) (ck_signature s).

Definition sealed_key_wire_digest (e : SealedCapabilityKeyShare) : Digest32 :=
  sha256 (CAPABILITY_KEY_SHARE_ENVELOPE_DOMAIN ++ u16_be (sq_version e) ++ u16_be (sq_party e)
    ++ d_bytes (sq_order_commitment e) ++ d_bytes (sq_capability_commitment e)
    ++ d_bytes (sq_recipient e) ++ kem_suite_encode (sq_suite e) ++ sq_kem_ciphertext e
    ++ sq_nonce e ++ put_bytes (sq_ciphertext e)).

Definition key_share_open (e : SealedCapabilityKeyShare) (key : NodeDecryptionKey)
    (m : EdgeOrderManifest) (expected_party now : Z) : result EdgeError CapabilityKeyShare :=
  _ ← fail_if (negb (sq_version e =? EDGE_VERSION) || negb (sq_party e =? expected_party)
      || negb (bool_decide (sq_order_commitment e = m_commitment m))
      || negb (bool_decide (sq_capability_commitment e = m_settlement_capability_commitment m))
      || negb (Z.of_nat (length (sq_ciphertext e))
               =? SEALED_CAPABILITY_KEY_SHARE_CLEAR_BYTES + 16)
      || negb (bool_decide (sq_suite e = X25519MlKem768))
      || negb (bool_decide (node_key_fingerprint (node_public_key key) = sq_recipient e)))
    EEnvelope;
  shared ← map_err ECrypto (decapsulate (ndk_seed key) (sq_kem_ciphertext e));
  let derived := derive_capability_key_share_envelope_key shared (sq_party e)
    (sq_order_commitment e) (sq_capability_commitment e) (sq_recipient e)
    (sq_kem_ciphertext e) in
  clear ← decrypt derived (sq_nonce e) (sq_ciphertext e) (capability_key_share_envelope_aad e);
  share ← decode_capability_key_share_clear clear;
  _ ← key_share_verify share m expected_party now;
  Ok share.

(** ** Settlement capability *)

Definition order_values (o : SecretOrder) : vec Scalar MATCH_FIELD_COUNT :=
  [# s_from (side_wire (o_side o)); s_from (o_limit_price o); s_from (o_quantity o);
     s_from (match o_time_in_force o with GoodTilCancelled => 1 | ImmediateOrCancel => 2 end);
     s_from (o_expires_at o);
     s_from (match o_time_in_force o with GoodTilCancelled => 1 | ImmediateOrCancel => 0 end)].

Definition settlement_capability_commitment (o : SecretOrder) (signer : Digest32) : Digest32 :=
  sha256 (SETTLEMENT_CAPABILITY_COMMITMENT_DOMAIN ++ put_bytes (to_secret_wire o)
    ++ d_bytes signer).

Definition verify_constant_terms (o : SecretOrder) (blindings : vec Digest32 MATCH_FIELD_COUNT)
    (m : EdgeOrderManifest) : result EdgeError () :=
  for_range (λ f : fin MATCH_FIELD_COUNT,
    blinding ← canonical_scalar (blindings !!! f);
    let expected := compress (pedersen (order_values o !!! f) blinding) in
    fail_if (negb (bool_decide (expected = entry (m_field_commitments m) f 0%fin))) ECapability).

Definition settlement_capability_signature_body (order_commitment : OrderCommitment)
    (capability_commitment eligibility_commitment : Digest32) (evidence : bytes)
    (blindings : vec Digest32 MATCH_FIELD_COUNT) : bytes :=
  d_bytes (sha256 (SETTLEMENT_CAPABILITY_SIGNATURE_DOMAIN ++ d_bytes order_commitment
    ++ d_bytes capability_commitment ++ d_bytes eligibility_commitment ++ put_bytes evidence
    ++ array_bytes blindings)).

(** The key opens the first Feldman commitment of the manifest. *)
Definition capability_key_check (key : SettlementCapabilityKey) (m : EdgeOrderManifest) :
    result EdgeError () :=
  scalar ← map_err (λ _, ECapabilityKeyShare) (canonical_scalar (sk_bytes key));
  fail_if (negb (bool_decide (compress (p_mul scalar basepoint)
      = m_settlement_key_commitments m !!! 0%fin))) ECapabilityKeyShare.

Definition capability_open (e : SealedSettlementCapability) (key : SettlementCapabilityKey)
    (m : EdgeOrderManifest) (now : Z) : result EdgeError VerifiedSettlementCapability :=
  _ ← manifest_verify m now;
  _ ← fail_if (negb (sc_version e =? EDGE_VERSION)
      || negb (bool_decide (sc_order_commitment e = m_commitment m))
      || negb (bool_decide (sc_capability_commitment e = m_settlement_capability_commitment m))
      || negb (Z.of_nat (length (sc_ciphertext e))
               =? SEALED_SETTLEMENT_CAPABILITY_CLEAR_BYTES + 16)) EEnvelope;
  _ ← capability_key_check key m;
  clear ← decrypt (sk_bytes key) (sc_nonce e) (sc_ciphertext e) (settlement_envelope_aad e);
  capability ← decode_settlement_clear clear;
  _ ← fail_if (negb (cc_version capability =? EDGE_VERSION)
      || negb (bool_decide (cc_signer capability = m_signer m))
      || negb (bool_decide (cc_eligibility_commitment capability = m_eligibility_commitment m))
      || Nat.eqb (length (cc_eligibility_evidence capability)) 0) ECapability;
  order ← map_err (λ _, ECapability) (from_secret_wire (cc_order_wire capability));
  _ ← fail_if (negb (bool_decide (o_market_id order = m_market_id m))
      || negb (o_expires_at order =? m_retention_deadline m)
      || negb (bool_decide (settlement_capability_commitment order (cc_signer capability)
                 = m_settlement_capability_commitment m))) ECapability;
  _ ← verify_constant_terms order (cc_constant_blindings capability) m;
  signature ← map_err (λ _, ESignature) (sig_try_from (cc_signature capability));
  signer ← map_err (λ _, ESignature) (vk_from_bytes (cc_signer capability));
  _ ← map_err (λ _, ESignature) (verify_strict signer
        (settlement_capability_signature_body (m_commitment m)
           (m_settlement_capability_commitment m) (m_eligibility_commitment m)
           (cc_eligibility_evidence capability) (cc_constant_blindings capability)) signature);
  Ok {| vc_order := order;
        vc_order_commitment := m_commitment m;
        vc_eligibility_commitment := m_eligibility_commitment m;
        vc_eligibility_evidence := cc_eligibility_evidence capability |}.

(** ** Reservation authority *)

Record VerifiedReservationAuthority := mk_authority {
  va_admission : ReservationAdmission;
  va_permit : ReservationPermit;
  va_reserve_reblinding : Scalar;
  va_endpoint : ClaimAuthorizationEndpoint;
  va_order_signer : Digest32
}.

(** [SealedReservationAuthority] wraps the sealed capability; [validate_envelope]
    and [open]. *)
Definition validate_envelope (e : SealedSettlementCapability) (m : EdgeOrderManifest) :
    result EdgeError () :=
  fail_if (negb (uses_pretrade_reservation m) || negb (sc_version e =? EDGE_VERSION)
      || negb (bool_decide (sc_order_commitment e = m_commitment m))
      || negb (bool_decide (sc_capability_commitment e = m_settlement_capability_commitment m))
      || negb (Z.of_nat (length (sc_ciphertext e))
               =? SEALED_SETTLEMENT_CAPABILITY_CLEAR_BYTES + 16)) EEnvelope.

Definition authority_open (e : SealedSettlementCapability) (key : SettlementCapabilityKey)
    (m : EdgeOrderManifest) (expected_venue expected_defmi : Digest32) (trusted_signer : bytes)
    (now : Z) : result EdgeError VerifiedReservationAuthority :=
  _ ← manifest_verify m now;
  _ ← validate_envelope e m;
  _ ← capability_key_check key m;
  clear ← decrypt (sk_bytes key) (sc_nonce e) (sc_ciphertext e) (settlement_envelope_aad e);
  '(admission, permit, reblinding, endpoint) ← decode_frame RESERVATION_AUTHORITY_CLEAR_DOMAIN
    SEALED_SETTLEMENT_CAPABILITY_CLEAR_BYTES parse_authority clear;
  _ ← endpoint_validate endpoint;
  _ ← fail_if (negb (bool_decide (ad_venue_id admission = expected_venue))) EReservationPermit;
  application ← ok_or oclob_manifest_digest EReservationPermit;
  _ ← fail_if (negb (admission_check admission application expected_defmi trusted_signer now))
    EReservationPermit;
  _ ← fail_if (negb (permit_check permit application expected_defmi trusted_signer now))
    EReservationPermit;
  reserve_reblinding ← canonical_scalar reblinding;
  _ ← fail_if (negb (verify_authority admission permit reserve_reblinding)) EReservationPermit;
  _ ← verify_admission_binding admission m;
  Ok {| va_admission := admission; va_permit := permit;
        va_reserve_reblinding := reserve_reblinding; va_endpoint := endpoint;
        va_order_signer := m_signer m |}.

(** ** Reconstruction of the capability key *)

(** The Lagrange weight of [party] at zero: the product loops of the source,
    which skip the party itself. *)
Definition lagrange_numerator (party : Z) (parties : list Z) : Scalar :=
  foldl (λ acc other, if other =? party then acc
           else s_mul acc (s_opp (scalar_of_party other))) s_one parties.
Definition lagrange_denominator (party : Z) (parties : list Z) : Scalar :=
  foldl (λ acc other, if other =? party then acc
           else s_mul acc (s_sub (scalar_of_party party) (scalar_of_party other))) s_one parties.

Fixpoint check_shares (m : EdgeOrderManifest) (now : Z) (seen : gset Z)
    (shares : list CapabilityKeyShare) : result EdgeError () :=
  match shares with
  | [] => Ok ()
  | s :: shares =>
      _ ← fail_if (bool_decide (ck_party s ∈ seen)) ECapabilityKeyThreshold;
      _ ← key_share_verify s m (ck_party s) now;
      check_shares m now ({[ck_party s]} ∪ seen) shares
  end.

Definition interpolate (shares : list CapabilityKeyShare) : result EdgeError Scalar :=
  let parties := map ck_party shares in
  for_each (λ secret s,
    evaluation ← map_err (λ _, ECapabilityKeyShare) (canonical_scalar (ck_value s));
    Ok (s_add secret (s_mul (s_mul evaluation (lagrange_numerator (ck_party s) parties))
          (s_inv (lagrange_denominator (ck_party s) parties))))) s_zero shares.

Definition reconstruct_settlement_capability_key (m : EdgeOrderManifest)
    (shares : list CapabilityKeyShare) (now : Z) : result EdgeError SettlementCapabilityKey :=
  _ ← manifest_verify m now;
  _ ← fail_if (Nat.ltb (length shares) SETTLEMENT_KEY_THRESHOLD
      || Nat.ltb MPC_PARTIES (length shares)) ECapabilityKeyThreshold;
  _ ← check_shares m now ∅ shares;
  secret ← interpolate shares;
  _ ← fail_if (bool_decide (secret = s_zero)
      || negb (bool_decide (compress (p_mul secret basepoint)
           = m_settlement_key_commitments m !!! 0%fin))) ECapabilityKeyThreshold;
  Ok (mk_capability_key (s_to_bytes secret)).

End edge.
