(* ===== verification/EdgeCreate.v ===== *)
(** * Building an order at the edge

    The sending half of [oclob-edge/src/lib.rs]: [EdgeOrderBundle] shares every
    field of an order with Pedersen VSS, shares the capability key with Feldman
    VSS, signs the manifest and the shares, checks them and seals one of each to
    every node; then the capability and the reservation authority are sealed
    under the shared key.  The random supply is the state of the methods. *)

From S2P Require Import Prelude BTree Bytes AppCrypto Orders Matching Book Reservations MpcRunner.
From S2P Require Import Edge.
Open Scope string_scope.
Open Scope list_scope.
Open Scope Z_scope.

(** [std::array::from_fn] and [for party in 0..n] with a body that draws
    randomness or fails. *)
Fixpoint collect_fin {S E A} {n : nat} : (fin n → method S E A) → method S E (vec A n) :=
  match n with
  | O => λ _, mret [#]
  | S n => λ body,
      a ← body 0%fin;
      v ← collect_fin (λ i, body (FS i));
      mret (a ::: v)
  end.

(** [zkpi::handles::Handle]. *)
Record Handle `{EdgeCrates} := mk_handle { h_secret : Scalar; h_point : RistrettoPoint }.

Record PreauthorizedReservation `{EdgeCrates} := mk_preauthorized {
  pa_permit : ReservationAdmission;
  pa_trusted_signer : bytes;
  pa_side_blinding : Scalar;
  pa_reserve_blinding : Scalar;
  pa_now : Z
}.

Record EdgeOrderBundle `{EdgeCrates} := mk_bundle {
  eb_manifest : EdgeOrderManifest;
  eb_sealed_shares : vec SealedPartyShare MPC_PARTIES;
  eb_sealed_capability_key_shares : vec SealedCapabilityKeyShare MPC_PARTIES;
  eb_settlement_capability_key : SettlementCapabilityKey;
  eb_constant_blindings : vec Digest32 MATCH_FIELD_COUNT
}.

Section create.
Context `{Crypto} `{EdgeCrates}.

Abbreviation edge_method := (method Rng EdgeError).

Definition random : edge_method Scalar := λ r, let '(r, s) := random_scalar r in (r, Ok s).
Definition random_bytes (n : nat) : edge_method bytes :=
  λ r, let '(r, b) := fill_bytes n r in (r, Ok b).

(** The loop runs until a draw is non-zero; [fuel] bounds the draws. *)
Fixpoint random_nonzero_scalar (fuel : nat) : edge_method Scalar :=
  match fuel with
  | O => try (Err EDiverged)
  | S fuel => value ← random; if bool_decide (value = s_zero) then random_nonzero_scalar fuel
              else mret value
  end.

Definition evaluate (c : vec Scalar VSS_COEFFICIENTS) (x : Scalar) : Scalar :=
  s_add (s_add (c !!! 0%fin) (s_mul (c !!! 1%fin) x)) (s_mul (s_mul (c !!! 2%fin) x) x).

(** A value polynomial and a blinding polynomial. *)
Definition Polynomials : Type := vec Scalar VSS_COEFFICIENTS * vec Scalar VSS_COEFFICIENTS.

Definition commit_polynomials (p : Polynomials) : vec Digest32 VSS_COEFFICIENTS :=
  fun_to_vec (λ c, compress (pedersen (p.1 !!! c) (p.2 !!! c))).

Definition share_of (party : fin MPC_PARTIES) (c : vec Scalar VSS_COEFFICIENTS) : Scalar :=
  evaluate c (s_from (Z.of_nat (fin_to_nat party) + 1)).

Definition draw_field (value : Scalar) (constant_blinding : option Scalar) :
    edge_method Polynomials :=
  v1 ← random; v2 ← random;
  b0 ← from_option mret random constant_blinding;
  b1 ← random; b2 ← random;
  mret ([# value; v1; v2], [# b0; b1; b2]).

(** The handle secret is shared without blinding. *)
Definition draw_handle (value : Scalar) : edge_method Polynomials :=
  v1 ← random; v2 ← random;
  mret ([# value; v1; v2], [# s_zero; s_zero; s_zero]).

Definition draw_settlement (handle : Handle) (order : SecretOrder)
    (preauthorized : option PreauthorizedReservation) :
    edge_method (vec Polynomials SETTLEMENT_FIELD_COUNT) :=
  handle_poly ← draw_handle (h_secret handle);
  reserve_poly ← draw_field (s_from (o_reservation_limit order))
    (pa_reserve_blinding <$> preauthorized);
  mret [# handle_poly; reserve_poly].

(** ** Sealing *)

(** The clear frame: domain, length, payload, random padding. *)
Definition encode_frame (domain : bytes) (size : Z) (payload : bytes) (too_long : EdgeError) :
    edge_method bytes :=
  let used := (length domain + 4 + length payload)%nat in
  _ ← try (fail_if (size <? Z.of_nat used) too_long);
  padding ← random_bytes (Z.to_nat size - used);
  mret (domain ++ be_bytes 4 (Z.of_nat (length payload)) ++ payload ++ padding).

Definition encode_fixed_clear (share : PartyOrderShare) : edge_method bytes :=
  encoded ← try (ok_or (json_share share) (EWire "serde_json"));
  encode_frame SHARE_CLEAR_DOMAIN SEALED_SHARE_CLEAR_BYTES encoded
    (EWire "party share exceeds fixed clear frame").

Definition encode_capability_key_share_clear (share : CapabilityKeyShare) : edge_method bytes :=
  encoded ← try (ok_or (json_key_share share) (EWire "serde_json"));
  encode_frame CAPABILITY_KEY_SHARE_CLEAR_DOMAIN SEALED_CAPABILITY_KEY_SHARE_CLEAR_BYTES encoded
    (EWire "capability-key share exceeds fixed clear frame").

Definition encode_settlement_clear (c : SettlementCapabilityClear) : edge_method bytes :=
  encoded ← try (ok_or (json_capability c) (EWire "serde_json"));
  encode_frame SETTLEMENT_CAPABILITY_CLEAR_DOMAIN SEALED_SETTLEMENT_CAPABILITY_CLEAR_BYTES encoded
    (EWire "settlement capability exceeds fixed clear frame").

Definition kem_encapsulate (recipient : NodeEncryptionKey) : edge_method (bytes * bytes) :=
  λ r, let '(r, e) := encapsulate (nek_bytes recipient) r in (r, map_err ECrypto e).

Definition seal_share (share : PartyOrderShare) (recipient : NodeEncryptionKey) :
    edge_method SealedPartyShare :=
  clear ← encode_fixed_clear share;
  '(kem_ciphertext, shared) ← kem_encapsulate recipient;
  let key := derive_envelope_key shared (sh_party share) (sh_commitment share)
    (node_key_fingerprint recipient) kem_ciphertext in
  nonce ← random_bytes 12;
  let envelope ciphertext := {|
    ss_version := EDGE_VERSION; ss_party := sh_party share; ss_commitment := sh_commitment share;
    ss_recipient := node_key_fingerprint recipient; ss_suite := X25519MlKem768;
    ss_kem_ciphertext := kem_ciphertext; ss_nonce := nonce; ss_ciphertext := ciphertext |} in
  ciphertext ← try (encrypt key nonce clear (envelope_aad (envelope [])));
  mret (envelope ciphertext).

Definition seal_capability_key_share (share : CapabilityKeyShare) (recipient : NodeEncryptionKey) :
    edge_method SealedCapabilityKeyShare :=
  clear ← encode_capability_key_share_clear share;
  '(kem_ciphertext, shared) ← kem_encapsulate recipient;
  let key := derive_capability_key_share_envelope_key shared (ck_party share)
    (ck_order_commitment share) (ck_capability_commitment share)
    (node_key_fingerprint recipient) kem_ciphertext in
  nonce ← random_bytes 12;
  let envelope ciphertext := {|
    sq_version := EDGE_VERSION; sq_party := ck_party share;
    sq_order_commitment := ck_order_commitment share;
    sq_capability_commitment := ck_capability_commitment share;
    sq_recipient := node_key_fingerprint recipient; sq_suite := X25519MlKem768;
    sq_kem_ciphertext := kem_ciphertext; sq_nonce := nonce; sq_ciphertext := ciphertext |} in
  ciphertext ← try (encrypt key nonce clear (capability_key_share_envelope_aad (envelope [])));
  mret (envelope ciphertext).

(** The clear bytes under the capability key; both capability and authority. *)
Definition seal_under_key (clear : bytes) (order_commitment : OrderCommitment)
    (capability_commitment : Digest32) (key : SettlementCapabilityKey) :
    edge_method SealedSettlementCapability :=
  nonce ← random_bytes 12;
  let envelope ciphertext := {|
    sc_version := EDGE_VERSION; sc_order_commitment := order_commitment;
    sc_capability_commitment := capability_commitment; sc_nonce := nonce;
    sc_ciphertext := ciphertext |} in
  ciphertext ← try (encrypt (sk_bytes key) nonce clear (settlement_envelope_aad (envelope [])));
  mret (envelope ciphertext).

Definition seal_settlement_clear (capability : SettlementCapabilityClear)
    (order_commitment : OrderCommitment) (capability_commitment : Digest32)
    (key : SettlementCapabilityKey) : edge_method SealedSettlementCapability :=
  clear ← encode_settlement_clear capability;
  seal_under_key clear order_commitment capability_commitment key.

(** ** The bundle *)

(** The checks on a supplied admission and its text inside the shares. *)
Definition preauthorized_text (application : Digest32) (order : SecretOrder)
    (p : PreauthorizedReservation) : result EdgeError bytes :=
  let permit := pa_permit p in
  _ ← fail_if (negb (admission_check permit application (ad_defmi_id permit)
      (pa_trusted_signer p) (pa_now p))) EReservationPermit;
  _ ← fail_if (negb (bool_decide (ad_order_commitment permit = commitment order))
      || negb (bool_decide (ad_participant_handle permit = o_participant_handle order))
      || (ad_valid_until permit <? o_expires_at order)
      || bool_decide (pa_side_blinding p = s_zero)
      || bool_decide (pa_reserve_blinding p = s_zero)) EReservationPermit;
  wire ← ok_or (admission_encode permit) EReservationPermit;
  Ok (base64_encode wire).

(** One node's share of the fields and of the capability key, to be signed. *)
Definition party_share (m : EdgeOrderManifest) (fields : vec Polynomials MATCH_FIELD_COUNT)
    (settlement : option (vec Polynomials SETTLEMENT_FIELD_COUNT)) (admission : bytes)
    (party : fin MPC_PARTIES) (signature : bytes) : PartyOrderShare :=
  let settlement_shares pick := match settlement with
    | Some ps => vmap (λ p, s_to_bytes (share_of party (pick p))) ps
    | None => fun_to_vec (λ _, s_to_bytes s_zero)
    end in
  {| sh_version := EDGE_VERSION; sh_party := Z.of_nat (fin_to_nat party);
     sh_commitment := m_commitment m;
     sh_value_shares := vmap (λ p : Polynomials, s_to_bytes (share_of party p.1)) fields;
     sh_blinding_shares := vmap (λ p : Polynomials, s_to_bytes (share_of party p.2)) fields;
     sh_settlement_value_shares := settlement_shares fst;
     sh_settlement_blinding_shares := settlement_shares snd;
     sh_reservation_admission := admission; sh_signer := m_signer m;
     sh_signature := signature |}.

Definition party_key_share (m : EdgeOrderManifest) (key_polynomial : vec Scalar VSS_COEFFICIENTS)
    (party : fin MPC_PARTIES) (signature : bytes) : CapabilityKeyShare :=
  {| ck_version := EDGE_VERSION; ck_party := Z.of_nat (fin_to_nat party);
     ck_order_commitment := m_commitment m;
     ck_capability_commitment := m_settlement_capability_commitment m;
     ck_value := s_to_bytes (share_of party key_polynomial); ck_signer := m_signer m;
     ck_signature := signature |}.

(** Signs and checks one node's pair of shares and seals them. *)
Definition deliver (m : EdgeOrderManifest) (fields : vec Polynomials MATCH_FIELD_COUNT)
    (settlement : option (vec Polynomials SETTLEMENT_FIELD_COUNT)) (admission : bytes)
    (key_polynomial : vec Scalar VSS_COEFFICIENTS) (signer : SigningKey)
    (node_keys : vec NodeEncryptionKey MPC_PARTIES) (party : fin MPC_PARTIES) :
    edge_method (SealedPartyShare * SealedCapabilityKeyShare) :=
  let share := party_share m fields settlement admission party in
  signature ← try (map_err (λ _, ESignature) (try_sign signer (share_signature_body (share []))));
  let share := share (sig_bytes signature) in
  _ ← try (share_verify share m (Z.of_nat (fin_to_nat party)) 0);
  sealed ← seal_share share (node_keys !!! party);
  let key_share := party_key_share m key_polynomial party in
  signature ← try (map_err (λ _, ESignature)
    (try_sign signer (key_share_signature_body (key_share []))));
  let key_share := key_share (sig_bytes signature) in
  _ ← try (key_share_verify key_share m (Z.of_nat (fin_to_nat party)) 0);
  sealed_key ← seal_capability_key_share key_share (node_keys !!! party);
  mret (sealed, sealed_key).

Definition create_inner (fuel : nat) (order : SecretOrder) (handle : option Handle)
    (preauthorized : option PreauthorizedReservation)
    (eligibility_commitment settlement_capability_commitment : Digest32) (signer : SigningKey)
    (node_keys : vec NodeEncryptionKey MPC_PARTIES) : edge_method EdgeOrderBundle :=
  _ ← try (fail_if (is_zero eligibility_commitment || is_zero settlement_capability_commitment
      || existsb (λ k, bool_decide (nek_bytes k = replicate 32 Byte.x00)) (vec_to_list node_keys)
      || from_option (λ h, negb (bool_decide (compress (h_point h) = o_participant_handle order)))
           false handle
      || (bool_decide (is_Some preauthorized) && bool_decide (handle = None))
      || (bool_decide (is_Some handle)
          && ((u32_max <? o_limit_price order) || (u32_max <? o_quantity order)
              || (u32_max <? o_reservation_limit order)))) EInput);
  application ← try (ok_or oclob_manifest_digest EReservationPermit);
  admission ← try (from_option (preauthorized_text application order) (Ok []) preauthorized);
  admission_dig ← try (from_option
    (λ p, ok_or (admission_digest (pa_permit p)) EReservationPermit) (Ok zero_digest)
    preauthorized);
  fields ← collect_fin (λ f : fin MATCH_FIELD_COUNT, draw_field (order_values order !!! f)
    (if bool_decide (f = 0%fin) then pa_side_blinding <$> preauthorized else None));
  settlement ← match handle with
    | Some h => ps ← draw_settlement h order preauthorized; mret (Some ps)
    | None => mret None
    end;
  let field_commitments := vmap commit_polynomials fields in
  let settlement_field_commitments := match settlement with
    | Some ps => vmap commit_polynomials ps
    | None => fun_to_vec (λ _, fun_to_vec (λ _, zero_digest))
    end in
  _ ← try (fail_if (from_option (λ p,
        negb (bool_decide (ad_side_commitment (pa_permit p) = entry field_commitments 0%fin 0%fin))
        || negb (bool_decide (ad_participant_handle (pa_permit p)
                   = entry settlement_field_commitments 0%fin 0%fin))
        || negb (bool_decide (ad_amount_commitment (pa_permit p)
                   = entry settlement_field_commitments 1%fin 0%fin))) false preauthorized)
      EReservationPermit);
  key_scalar ← random_nonzero_scalar fuel;
  k1 ← random; k2 ← random;
  let key_polynomial : vec Scalar VSS_COEFFICIENTS := [# key_scalar; k1; k2] in
  let manifest commitment signature := {|
    m_version := EDGE_VERSION; m_market_id := o_market_id order; m_commitment := commitment;
    m_retention_deadline := o_expires_at order;
    m_eligibility_commitment := eligibility_commitment;
    m_source_order_commitment := Orders.commitment order;
    m_reservation_admission_digest := admission_dig;
    m_settlement_capability_commitment := settlement_capability_commitment;
    m_settlement_key_commitments := vmap (λ c, compress (p_mul c basepoint)) key_polynomial;
    m_field_commitments := field_commitments;
    m_settlement_proof_enabled := bool_decide (is_Some handle);
    m_settlement_field_commitments := settlement_field_commitments;
    m_signer := vk_fingerprint (verifying_key signer); m_signature := signature |} in
  let commitment := derived_commitment (manifest zero_digest []) in
  signature ← try (map_err (λ _, ESignature)
    (try_sign signer (manifest_signature_body commitment)));
  let manifest := manifest commitment (sig_bytes signature) in
  _ ← try (manifest_verify manifest 0);
  deliveries ← collect_fin (deliver manifest fields settlement admission key_polynomial signer
    node_keys);
  mret {| eb_manifest := manifest;
          eb_sealed_shares := vmap fst deliveries;
          eb_sealed_capability_key_shares := vmap snd deliveries;
          eb_settlement_capability_key := mk_capability_key (s_to_bytes key_scalar);
          eb_constant_blindings := vmap (λ p : Polynomials, s_to_bytes (p.2 !!! 0%fin)) fields |}.

(** The three public constructors. *)
Definition bundle_create (fuel : nat) (order : SecretOrder)
    (eligibility_commitment settlement_capability_commitment : Digest32) (signer : SigningKey)
    (node_keys : vec NodeEncryptionKey MPC_PARTIES) : edge_method EdgeOrderBundle :=
  create_inner fuel order None None eligibility_commitment settlement_capability_commitment
    signer node_keys.

Definition create_with_settlement_handle (fuel : nat) (order : SecretOrder) (handle : Handle)
    (eligibility_commitment settlement_capability_commitment : Digest32) (signer : SigningKey)
    (node_keys : vec NodeEncryptionKey MPC_PARTIES) : edge_method EdgeOrderBundle :=
  create_inner fuel order (Some handle) None eligibility_commitment
    settlement_capability_commitment signer node_keys.

Definition create_with_reservation_admission (fuel : nat) (order : SecretOrder) (handle : Handle)
    (eligibility_commitment : Digest32) (permit : ReservationAdmission) (trusted_signer : bytes)
    (side_blinding reserve_blinding : Scalar) (signer : SigningKey)
    (node_keys : vec NodeEncryptionKey MPC_PARTIES) (now : Z) : edge_method EdgeOrderBundle :=
  permit_digest ← try (ok_or (admission_digest permit) EReservationPermit);
  create_inner fuel order (Some handle)
    (Some {| pa_permit := permit; pa_trusted_signer := trusted_signer;
             pa_side_blinding := side_blinding; pa_reserve_blinding := reserve_blinding;
             pa_now := now |})
    eligibility_commitment (preauthorized_settlement_commitment permit_digest) signer node_keys.

(** ** Material sealed under the capability key *)

Definition seal_reservation_authority (b : EdgeOrderBundle) (permit : ReservationPermit)
    (admission : ReservationAdmission) (reserve_reblinding : Scalar)
    (endpoint : ClaimAuthorizationEndpoint) : edge_method SealedSettlementCapability :=
  let m := eb_manifest b in
  _ ← try (fail_if (negb (uses_pretrade_reservation m)) EReservationPermit);
  _ ← try (verify_admission_binding admission m);
  _ ← try (fail_if (negb (verify_authority admission permit reserve_reblinding))
      EReservationPermit);
  _ ← try (endpoint_validate endpoint);
  encoded ← try (ok_or (json_authority (admission, permit, s_to_bytes reserve_reblinding, endpoint))
    EEnvelope);
  let used := (length RESERVATION_AUTHORITY_CLEAR_DOMAIN + 4 + length encoded)%nat in
  _ ← try (fail_if (SEALED_SETTLEMENT_CAPABILITY_CLEAR_BYTES <? Z.of_nat used) EEnvelope);
  filled ← random_bytes (Z.to_nat SEALED_SETTLEMENT_CAPABILITY_CLEAR_BYTES);
  let clear := RESERVATION_AUTHORITY_CLEAR_DOMAIN ++ be_bytes 4 (Z.of_nat (length encoded))
    ++ encoded ++ drop used filled in
  seal_under_key clear (m_commitment m) (m_settlement_capability_commitment m)
    (eb_settlement_capability_key b).

Definition seal_settlement_capability (b : EdgeOrderBundle) (order : SecretOrder)
    (eligibility_commitment : Digest32) (evidence : bytes) (signer : SigningKey) :
    edge_method SealedSettlementCapability :=
  let m := eb_manifest b in
  _ ← try (fail_if (is_zero eligibility_commitment || Nat.eqb (length evidence) 0
      || (SEALED_SETTLEMENT_CAPABILITY_CLEAR_BYTES / 2 <? Z.of_nat (length evidence))
      || negb (bool_decide (vk_fingerprint (verifying_key signer) = m_signer m))
      || uses_pretrade_reservation m
      || negb (bool_decide (eligibility_commitment = m_eligibility_commitment m))
      || negb (bool_decide (settlement_capability_commitment order (m_signer m)
                 = m_settlement_capability_commitment m))
      || negb (bool_decide (o_market_id order = m_market_id m))
      || negb (o_expires_at order =? m_retention_deadline m)) ECapability);
  _ ← try (verify_constant_terms order (eb_constant_blindings b) m);
  signature ← try (map_err (λ _, ESignature) (try_sign signer
    (settlement_capability_signature_body (m_commitment m) (m_settlement_capability_commitment m)
       eligibility_commitment evidence (eb_constant_blindings b))));
  seal_settlement_clear {|
      cc_version := EDGE_VERSION; cc_order_wire := to_secret_wire order;
      cc_eligibility_commitment := eligibility_commitment; cc_eligibility_evidence := evidence;
      cc_constant_blindings := eb_constant_blindings b; cc_signer := m_signer m;
      cc_signature := sig_bytes signature |}
    (m_commitment m) (m_settlement_capability_commitment m) (eb_settlement_capability_key b).

(** [into_deliveries]: one pair per node. *)
Definition into_deliveries (b : EdgeOrderBundle) :
    vec (Z * SealedPartyShare * SealedCapabilityKeyShare) MPC_PARTIES :=
  fun_to_vec (λ p, (Z.of_nat (fin_to_nat p), eb_sealed_shares b !!! p,
    eb_sealed_capability_key_shares b !!! p)).

End create.
