(* ===== verification/EdgeField.v ===== *)
(** * Scalars, points and interpolation

    What the edge relies on of the other crates ([EdgeLaws]), and the algebra
    behind verifiable sharing: the Lagrange weights of [reconstruct] recover the
    constant term of a degree-two polynomial from any three or more points, in
    the scalars and in the exponent. *)

From Stdlib Require Import Field.
From S2P Require Import Prelude BTree Bytes AppCrypto Orders Matching Book Reservations MpcRunner.
From S2P Require Import Edge EdgeCreate.
Open Scope string_scope.
Open Scope list_scope.
Open Scope Z_scope.

(** Text that JSON writes without escapes; base64 is such text. *)
Definition json_plain (t : bytes) : bool :=
  forallb (λ c, (32 <=? byte_val c) && (byte_val c <? 127)
    && negb (byte_val c =? 34) && negb (byte_val c =? 92)) t.

(** The scalars are a prime field with more than seven elements, the points a
    module over it with canonical encodings and a base point of that order;
    Pedersen commitments are linear; encodings (of [u16] members), base64, the wire
    form of an admission, the KEM and the AEAD round-trip; compact JSON writes a byte
    of an array in at most four characters and a text without escapes as it is. *)
Class EdgeLaws `{EdgeCrates} := {
  scalar_field : field_theory s_zero s_one s_add s_mul s_sub s_opp
    (λ a b, s_mul a (s_inv b)) s_inv (=);
  s_from_small : ∀ a b, 0 ≤ a ≤ 7 → 0 ≤ b ≤ 7 → s_from a = s_from b → a = b;
  s_from_bytes : ∀ s, s_from_canonical (s_to_bytes s) = Some s;
  s_zero_bytes : s_to_bytes s_zero = zero_digest;
  point_add_assoc : ∀ p q r, point_add p (point_add q r) = point_add (point_add p q) r;
  point_add_comm : ∀ p q, point_add p q = point_add q p;
  point_add_identity : ∀ p, point_add point_identity p = p;
  p_mul_zero : ∀ p, p_mul s_zero p = point_identity;
  p_mul_one : ∀ p, p_mul s_one p = p;
  p_mul_add_l : ∀ a b p, p_mul (s_add a b) p = point_add (p_mul a p) (p_mul b p);
  p_mul_add_r : ∀ a p q, p_mul a (point_add p q) = point_add (p_mul a p) (p_mul a q);
  p_mul_mul : ∀ a b p, p_mul (s_mul a b) p = p_mul a (p_mul b p);
  basepoint_order : ∀ s, p_mul s basepoint = point_identity → s = s_zero;
  decompress_compress : ∀ p, decompress (compress p) = Some p;
  decompress_canonical : ∀ d p, decompress d = Some p → compress p = d;
  pedersen_add : ∀ a b c d,
    pedersen (s_add a b) (s_add c d) = point_add (pedersen a c) (pedersen b d);
  pedersen_mul : ∀ k a c, pedersen (s_mul k a) (s_mul k c) = p_mul k (pedersen a c);
  fill_bytes_length : ∀ n r, length (fill_bytes n r).2 = n;
  encapsulate_ok : ∀ seed r, is_ok (encapsulate (kem_public_key seed) r).2 = true;
  decapsulate_ok : ∀ seed r ct shared, (encapsulate (kem_public_key seed) r).2 = Ok (ct, shared) →
    decapsulate seed ct = Ok shared;
  aead_seal_ok : ∀ key nonce clear aad, length nonce = 12%nat →
    is_ok (aead_seal key nonce clear aad) = true;
  aead_open_seal : ∀ key nonce clear aad c tag, aead_seal key nonce clear aad = Ok (c, tag) →
    length c = length clear ∧ length tag = 16%nat ∧ aead_open key nonce c tag aad = Some clear;
  parse_json_share : ∀ s, is_u16 (sh_version s) = true → is_u16 (sh_party s) = true →
    json_share s ≫= parse_share = Some s;
  parse_json_key_share : ∀ s, is_u16 (ck_version s) = true → is_u16 (ck_party s) = true →
    json_key_share s ≫= parse_key_share = Some s;
  parse_json_capability : ∀ c, is_u16 (cc_version c) = true →
    json_capability c ≫= parse_capability = Some c;
  base64_roundtrip : ∀ b, base64_decode (base64_encode b) = Some b;
  base64_plain : ∀ b, json_plain (base64_encode b) = true;
  base64_nonempty : ∀ b, base64_encode b = [] → b = [];
  admission_roundtrip : ∀ a w, admission_encode a = Some w → w ≠ [] ∧ admission_decode w = Some a;
  json_share_size : ∀ s b, json_share s = Some b → json_plain (sh_reservation_admission s) = true →
    Z.of_nat (length b) ≤ 4096 + 4 * Z.of_nat (length (sh_signature s))
      + Z.of_nat (length (sh_reservation_admission s));
  json_key_share_size : ∀ s b, json_key_share s = Some b →
    Z.of_nat (length b) ≤ 4096 + 4 * Z.of_nat (length (ck_signature s));
  json_capability_size : ∀ c b, json_capability c = Some b →
    Z.of_nat (length b) ≤ 4096 + 4 * Z.of_nat (length (cc_signature c)
      + length (cc_order_wire c) + length (cc_eligibility_evidence c))
}.

Section field.
Context `{Crypto} `{EdgeLaws}.

Add Field edge_scalars : scalar_field.

Declare Scope scalar_scope.
Delimit Scope scalar_scope with S.
Infix "+" := s_add : scalar_scope.
Infix "-" := s_sub : scalar_scope.
Infix "*" := s_mul : scalar_scope.
Notation "- x" := (s_opp x) : scalar_scope.
Notation "0" := s_zero : scalar_scope.
Notation "1" := s_one : scalar_scope.
Abbreviation X := scalar_of_party.

(** Party indices of the committee. *)
Definition is_party (p : Z) : Prop := 0 ≤ p < 7.

Lemma X_inj p q : is_party p → is_party q → X p = X q → p = q.
Proof. unfold scalar_of_party, is_party. intros ?? E. apply s_from_small in E; lia. Qed.

Lemma X_sub_nonzero p q : is_party p → is_party q → p ≠ q → (X p - X q)%S ≠ 0%S.
Proof.
  intros Hp Hq Hpq E. apply Hpq, X_inj; [done..|].
  transitivity (X p - X q + X q)%S; [ring|]. rewrite E. ring.
Qed.

Lemma s_mul_nonzero a b : a ≠ 0%S → b ≠ 0%S → (a * b)%S ≠ 0%S.
Proof.
  intros Ha Hb E. apply Hb. transitivity (s_inv a * (a * b))%S; [field; done|].
  rewrite E. ring.
Qed.

Lemma s_one_mul a : (1 * a)%S = a.
Proof. ring. Qed.

Lemma s_add_zero_l a : (0 + a)%S = a.
Proof. ring. Qed.

Lemma s_add_comm a b : (a + b)%S = (b + a)%S.
Proof. ring. Qed.

Lemma s_add_assoc a b c : (a + b + c)%S = (a + (b + c))%S.
Proof. ring. Qed.

Lemma s_mul_assoc a b c : (a * b * c)%S = (a * (b * c))%S.
Proof. ring. Qed.

Lemma s_mul_comm a b : (a * b)%S = (b * a)%S.
Proof. ring. Qed.

(** ** Weights *)

Definition ssum (l : list Scalar) : Scalar := foldr s_add s_zero l.

(** The product over the other parties. *)
Definition others (g : Z → Scalar) (p : Z) (ps : list Z) : Scalar :=
  foldr (λ o acc, if o =? p then acc else s_mul (g o) acc) s_one ps.

Lemma foldl_others g p ps a :
  foldl (λ acc o, if o =? p then acc else s_mul acc (g o)) a ps = (a * others g p ps)%S.
Proof.
  revert a. induction ps as [|o ps IH]; intros a; simpl; [ring|].
  rewrite IH. case_match; [done|]. ring.
Qed.

Lemma lagrange_numerator_others p ps :
  lagrange_numerator p ps = others (λ o, - X o)%S p ps.
Proof.
  unfold lagrange_numerator. rewrite (foldl_others (λ o, - X o)%S). ring.
Qed.

Lemma lagrange_denominator_others p ps :
  lagrange_denominator p ps = others (λ o, X p - X o)%S p ps.
Proof.
  unfold lagrange_denominator. rewrite (foldl_others (λ o, X p - X o)%S). ring.
Qed.

#[local] Instance others_perm g p : Proper ((≡ₚ) ==> (=)) (others g p).
Proof.
  induction 1 as [|o l k _ IH|o q l|l k j _ IH1 _ IH2]; simpl; [done| | |congruence].
  - by rewrite IH.
  - repeat case_match; try done. ring.
Qed.

Lemma others_nonzero p ps :
  is_party p → Forall is_party ps → others (λ o, X p - X o)%S p ps ≠ 0%S.
Proof.
  intros Hp. induction 1 as [|o ps Ho _ IH]; simpl.
  { apply (F_1_neq_0 scalar_field). }
  case_match eqn:E; [done|]. apply s_mul_nonzero; [|done].
  apply X_sub_nonzero; [done..|]. bool_hyps. congruence.
Qed.

Definition weight (p : Z) (ps : list Z) : Scalar :=
  s_mul (lagrange_numerator p ps) (s_inv (lagrange_denominator p ps)).

(** The interpolation at zero of a function on the parties. *)
Definition at_zero (ps : list Z) (f : Z → Scalar) : Scalar :=
  ssum (map (λ p, s_mul (f p) (weight p ps)) ps).

Lemma weight_perm p ps qs : ps ≡ₚ qs → weight p ps = weight p qs.
Proof.
  intros E. unfold weight. rewrite !lagrange_numerator_others, !lagrange_denominator_others.
  by rewrite E.
Qed.

#[local] Instance ssum_perm : Proper ((≡ₚ) ==> (=)) ssum.
Proof. induction 1; simpl; [done|congruence|ring|congruence]. Qed.

Lemma at_zero_perm ps qs f : ps ≡ₚ qs → at_zero ps f = at_zero qs f.
Proof.
  intros E. unfold at_zero. rewrite E. f_equal. apply map_ext. intros p.
  by rewrite (weight_perm p ps qs E).
Qed.

Lemma at_zero_ext ps f g : (∀ p, p ∈ ps → f p = g p) → at_zero ps f = at_zero ps g.
Proof.
  intros E. unfold at_zero. f_equal. apply list_fmap_ext. intros i p Hp.
  rewrite E; [done|]. by eapply list_elem_of_lookup_2.
Qed.

Lemma at_zero_linear ps f g a b :
  at_zero ps (λ p, a * f p + b * g p)%S = (a * at_zero ps f + b * at_zero ps g)%S.
Proof.
  unfold at_zero. generalize ps at 2 4 6 as qs. intros qs.
  induction qs as [|q qs IH]; simpl; [ring|]. rewrite IH. ring.
Qed.

(** A new node [a] divides out of the weights of the others. *)
Lemma weight_cons a p ps :
  is_party a → is_party p → Forall is_party ps → p ≠ a →
  ((X p - X a) * weight p (a :: ps))%S = ((- X a) * weight p ps)%S.
Proof.
  intros Ha Hp Hps Hpa. unfold weight.
  rewrite !lagrange_numerator_others, !lagrange_denominator_others. simpl.
  rewrite (proj2 (Z.eqb_neq a p)) by congruence.
  pose proof (others_nonzero p ps Hp Hps). pose proof (X_sub_nonzero p a Hp Ha Hpa).
  field. done.
Qed.

Lemma at_zero_step a ps g :
  NoDup (a :: ps) → Forall is_party (a :: ps) →
  at_zero (a :: ps) (λ p, (X p - X a) * g p)%S = ((- X a) * at_zero ps g)%S.
Proof.
  intros [Hin _]%NoDup_cons [Ha Hps]%Forall_cons. unfold at_zero. simpl.
  transitivity (ssum (map (λ p, (X p - X a) * g p * weight p (a :: ps))%S ps)); [ring|].
  assert (∀ qs, qs ⊆ ps →
    ssum (map (λ p, (X p - X a) * g p * weight p (a :: ps))%S qs)
    = ((- X a) * ssum (map (λ p, g p * weight p ps)%S qs))%S) as Hqs; [|by apply Hqs].
  induction qs as [|q qs IH]; intros Hsub; simpl; [ring|].
  assert (q ∈ ps) as Hq by (apply Hsub; left).
  rewrite IH by set_solver.
  replace ((X q - X a) * g q * weight q (a :: ps))%S
    with (g q * ((X q - X a) * weight q (a :: ps)))%S by ring.
  rewrite weight_cons; [ring|done| |done|set_solver].
  rewrite Forall_forall in Hps. by apply Hps.
Qed.

Lemma at_zero_one ps :
  NoDup ps → Forall is_party ps → ps ≠ [] → at_zero ps (λ _, 1%S) = 1%S.
Proof.
  remember (length ps) as n eqn:Hn. revert ps Hn.
  induction n as [|n IH]; intros [|a ps] Hn Hnd Hps Hne; simplify_eq/=.
  destruct ps as [|b ps].
  { unfold at_zero, weight, lagrange_numerator, lagrange_denominator. simpl.
    rewrite Z.eqb_refl. field. apply (F_1_neq_0 scalar_field). }
  assert (is_party a ∧ is_party b ∧ Forall is_party ps) as (Ha & Hb & Hp)
    by (inversion Hps as [|?? ? Hps']; inversion Hps'; done).
  assert (a ≠ b ∧ (a ∉ ps) ∧ (b ∉ ps) ∧ NoDup ps) as (Hab & ? & ? & ?).
  { apply NoDup_cons in Hnd as [? Hnd]. apply NoDup_cons in Hnd. set_solver. }
  assert (Forall is_party (a :: ps) ∧ Forall is_party (b :: ps) ∧ Forall is_party (b :: a :: ps))
    as (Hfa & Hfb & Hfba) by (rewrite !Forall_cons; done).
  assert (NoDup (a :: ps) ∧ NoDup (b :: ps) ∧ NoDup (b :: a :: ps)) as (Hna & Hnb & Hnba)
    by (rewrite !NoDup_cons; set_solver).
  pose proof (at_zero_step a (b :: ps) (λ _, 1%S) Hnd Hps) as Hstepa.
  pose proof (at_zero_step b (a :: ps) (λ _, 1%S) Hnba Hfba) as Hstepb.
  rewrite IH in Hstepa by done. rewrite IH in Hstepb by done.
  rewrite (at_zero_perm (b :: a :: ps) (a :: b :: ps)) in Hstepb by constructor.
  assert ((X b - X a) * at_zero (a :: b :: ps) (λ _, 1) = X b - X a)%S as E.
  { transitivity (at_zero (a :: b :: ps) (λ p, 1 * ((X p - X a) * 1) + (- (1)) * ((X p - X b) * 1)))%S.
    - transitivity (at_zero (a :: b :: ps) (λ p, (X b - X a) * 1 + 0 * 1))%S.
      + rewrite (at_zero_linear _ (λ _, 1) (λ _, 1))%S. ring.
      + apply at_zero_ext. intros p _. ring.
    - rewrite (at_zero_linear _ (λ p, (X p - X a) * 1) (λ p, (X p - X b) * 1))%S.
      rewrite Hstepa, Hstepb. ring. }
  pose proof (X_sub_nonzero b a Hb Ha ltac:(congruence)) as Hne'.
  transitivity (s_inv (X b - X a) * ((X b - X a) * at_zero (a :: b :: ps) (λ _, 1)))%S;
    [field; done|]. rewrite E. field. done.
Qed.

Lemma at_zero_X ps :
  NoDup ps → Forall is_party ps → (2 ≤ length ps)%nat → at_zero ps X = 0%S.
Proof.
  destruct ps as [|a [|b ps]]; simpl; [lia..|]. intros Hnd Hps _.
  transitivity (at_zero (a :: b :: ps) (λ p, 1 * ((X p - X a) * 1) + X a * 1))%S.
  { apply at_zero_ext. intros p _. ring. }
  rewrite (at_zero_linear _ (λ p, (X p - X a) * 1) (λ _, 1))%S, at_zero_step by done.
  apply NoDup_cons in Hnd as Hnd'. inversion Hps.
  rewrite !at_zero_one by naive_solver. ring.
Qed.

Lemma at_zero_X2 ps :
  NoDup ps → Forall is_party ps → (3 ≤ length ps)%nat → at_zero ps (λ p, X p * X p)%S = 0%S.
Proof.
  destruct ps as [|a ps]; simpl; [lia|]. intros Hnd Hps Hl.
  transitivity (at_zero (a :: ps) (λ p, 1 * ((X p - X a) * (1 * X p + X a * 1)) + (X a * X a) * 1))%S.
  { apply at_zero_ext. intros p _. ring. }
  rewrite (at_zero_linear _ (λ p, (X p - X a) * (1 * X p + X a * 1)) (λ _, 1))%S.
  rewrite (at_zero_step a ps (λ p, 1 * X p + X a * 1)%S) by done.
  rewrite (at_zero_linear _ X (λ _, 1))%S.
  apply NoDup_cons in Hnd as Hnd'. inversion Hps.
  rewrite !at_zero_one, at_zero_X by (naive_solver lia || (intros ->; simpl in *; lia)). ring.
Qed.

(** Any three or more shares of a degree-two polynomial give its constant term. *)
Lemma interpolate_polynomial ps (c : vec Scalar VSS_COEFFICIENTS) :
  NoDup ps → Forall is_party ps → (3 ≤ length ps)%nat →
  at_zero ps (λ p, evaluate c (X p)) = c !!! 0%fin.
Proof.
  intros Hnd Hps Hl. unfold evaluate.
  set (c0 := c !!! 0%fin). set (c1 := c !!! 1%fin). set (c2 := c !!! 2%fin).
  transitivity (at_zero ps (λ p, 1 * (c0 * 1 + c1 * X p) + c2 * (X p * X p)))%S.
  { apply at_zero_ext. intros p _. ring. }
  rewrite (at_zero_linear _ (λ p, c0 * 1 + c1 * X p) (λ p, X p * X p))%S.
  rewrite (at_zero_linear _ (λ _, 1) X)%S.
  rewrite at_zero_one, at_zero_X, at_zero_X2 by (done || lia || (intros ->; simpl in *; lia)).
  ring.
Qed.

(** ** In the exponent *)

Definition psum (l : list RistrettoPoint) : RistrettoPoint := foldr point_add point_identity l.

(** The committed polynomial at [x]. *)
Definition commitment_poly (c : vec RistrettoPoint VSS_COEFFICIENTS) (x : Scalar) :
    RistrettoPoint :=
  point_add (point_add (c !!! 0%fin) (p_mul x (c !!! 1%fin))) (p_mul (s_mul x x) (c !!! 2%fin)).

Lemma p_mul_identity a : p_mul a point_identity = point_identity.
Proof.
  rewrite <-(p_mul_zero point_identity) at 1. rewrite <-p_mul_mul.
  replace (a * 0)%S with (0)%S by ring. apply p_mul_zero.
Qed.

Lemma point_swap a b c d :
  point_add (point_add a b) (point_add c d) = point_add (point_add a c) (point_add b d).
Proof.
  rewrite <-!point_add_assoc. f_equal. rewrite !point_add_assoc. f_equal. apply point_add_comm.
Qed.

Lemma psum_weights ps (w f g h : Z → Scalar) P Q R :
  psum (map (λ p, p_mul (w p) (point_add (point_add (p_mul (f p) P) (p_mul (g p) Q))
                                 (p_mul (h p) R))) ps)
  = point_add (point_add (p_mul (ssum (map (λ p, f p * w p)%S ps)) P)
                         (p_mul (ssum (map (λ p, g p * w p)%S ps)) Q))
              (p_mul (ssum (map (λ p, h p * w p)%S ps)) R).
Proof.
  induction ps as [|p ps IH]; simpl.
  { by rewrite !p_mul_zero, !point_add_identity. }
  rewrite IH, !p_mul_add_l, !p_mul_add_r, <-!p_mul_mul.
  replace (w p * f p)%S with (f p * w p)%S by ring.
  replace (w p * g p)%S with (g p * w p)%S by ring.
  replace (w p * h p)%S with (h p * w p)%S by ring.
  rewrite point_swap. f_equal. apply point_swap.
Qed.

Lemma interpolate_exponent ps (c : vec RistrettoPoint VSS_COEFFICIENTS) :
  NoDup ps → Forall is_party ps → (3 ≤ length ps)%nat →
  psum (map (λ p, p_mul (weight p ps) (commitment_poly c (X p))) ps) = c !!! 0%fin.
Proof.
  intros Hnd Hps Hl. unfold commitment_poly.
  assert (psum (map (λ p, p_mul (weight p ps) (point_add (point_add (p_mul 1%S (c !!! 0%fin))
      (p_mul (X p) (c !!! 1%fin))) (p_mul (X p * X p)%S (c !!! 2%fin)))) ps)
    = point_add (point_add (p_mul (at_zero ps (λ _, 1%S)) (c !!! 0%fin))
        (p_mul (at_zero ps X) (c !!! 1%fin)))
        (p_mul (at_zero ps (λ p, X p * X p)%S) (c !!! 2%fin))) as E
    by exact (psum_weights ps (λ p, weight p ps) (λ _, 1%S) X (λ p, X p * X p)%S _ _ _).
  rewrite at_zero_one, at_zero_X, at_zero_X2 in E
    by (done || lia || (intros ->; simpl in *; lia)).
  rewrite !p_mul_zero, p_mul_one in E.
  transitivity (point_add (point_add (c !!! 0%fin) point_identity) point_identity).
  { by rewrite <-E. }
  by rewrite !(point_add_comm _ point_identity), !point_add_identity.
Qed.

Lemma p_mul_ssum l P : p_mul (ssum l) P = psum (map (λ s, p_mul s P) l).
Proof. induction l as [|s l IH]; simpl; [apply p_mul_zero|]. by rewrite p_mul_add_l, IH. Qed.

Lemma basepoint_inj a b : p_mul a basepoint = p_mul b basepoint → a = b.
Proof.
  intros E. assert ((a - b)%S = 0%S) as E'.
  { apply basepoint_order. transitivity (p_mul (a + (- (1)) * b)%S basepoint); [f_equal; ring|].
    rewrite p_mul_add_l, p_mul_mul, E, <-p_mul_mul, <-p_mul_add_l.
    replace (b + - (1) * b)%S with (0)%S by ring. apply p_mul_zero. }
  transitivity (a - b + b)%S; [ring|]. rewrite E'. ring.
Qed.

Lemma compress_inj p q : compress p = compress q → p = q.
Proof.
  intros E. apply (inj Some). by rewrite <-(decompress_compress p), E, decompress_compress.
Qed.

End field.
