(* ===== verification/EdgeShares.v ===== *)
(** * Shares at the edge

    A share that passes its check lies on the committed polynomial, so that any
    three distinct nodes recover the one key of a manifest and nobody else does:
    [reconstruct_settlement_capability_key] succeeds exactly on three to seven
    distinct verified shares and does not depend on which nodes answered. *)

From S2P Require Import Prelude BTree Bytes AppCrypto Orders Matching Book Reservations MpcRunner.
From S2P Require Import Edge EdgeCreate EdgeField.
Open Scope string_scope.
Open Scope list_scope.
Open Scope Z_scope.

(** ** Loops over arrays *)

Lemma elem_of_fin_range {n} (i : fin n) : i ∈ fin_range n.
Proof.
  unfold fin_range. apply elem_of_vlookup. exists i. by rewrite lookup_fun_to_vec.
Qed.

Lemma for_range_Ok {E n} (body : fin n → result E ()) u :
  for_range body = Ok u ↔ ∀ i, body i = Ok ().
Proof.
  unfold for_range. destruct u.
  assert (∀ l, for_each (λ _ i, body i) () l = Ok () ↔ ∀ i, i ∈ l → body i = Ok ()) as Hl.
  { induction l as [|i l IH]; simpl; [set_solver|]. rewrite bind_Ok. split.
    - intros ([] & Hi & Hl). rewrite IH in Hl. set_solver.
    - intros Hl. exists (). split; [|rewrite IH]; set_solver. }
  rewrite Hl. split; [|naive_solver]. intros Hb i. apply Hb, elem_of_fin_range.
Qed.

Lemma vec3_inv {A} (v : vec A VSS_COEFFICIENTS) : ∃ a b c, v = [# a; b; c].
Proof.
  revert v. refine (vec_S_inv _ _); intros a. refine (vec_S_inv _ _); intros b.
  refine (vec_S_inv _ _); intros c. refine (vec_0_inv _ _). by exists a, b, c.
Qed.

Section shares.
Context `{Crypto} `{EdgeLaws}.

Lemma commitment_at_poly err x (cs : vec Digest32 VSS_COEFFICIENTS)
    (c : vec RistrettoPoint VSS_COEFFICIENTS) :
  (∀ i, decompress (cs !!! i) = Some (c !!! i)) →
  commitment_at err x point_identity s_one (vec_to_list cs) = Ok (commitment_poly c x).
Proof.
  intros Hd. pose proof (Hd 0%fin) as H0'. pose proof (Hd 1%fin) as H1'.
  pose proof (Hd 2%fin) as H2'. destruct (vec3_inv cs) as (d0 & d1 & d2 & ->).
  simpl in *. rewrite H0', H1', H2'. simpl.
  unfold commitment_poly. by rewrite point_add_identity, p_mul_one, !s_one_mul.
Qed.

Lemma commitment_at_Ok err x (cs : vec Digest32 VSS_COEFFICIENTS) right :
  commitment_at err x point_identity s_one (vec_to_list cs) = Ok right →
  ∃ c : vec RistrettoPoint VSS_COEFFICIENTS,
    (∀ i, decompress (cs !!! i) = Some (c !!! i)) ∧ right = commitment_poly c x.
Proof.
  intros Hr.
  assert (∃ c : vec RistrettoPoint VSS_COEFFICIENTS, ∀ i, decompress (cs !!! i) = Some (c !!! i))
    as [c Hc].
  { destruct (vec3_inv cs) as (d0 & d1 & d2 & ->). simpl in Hr.
    destruct (decompress d0) as [p0|] eqn:E0; [simpl in Hr|done].
    destruct (decompress d1) as [p1|] eqn:E1; [simpl in Hr|done].
    destruct (decompress d2) as [p2|] eqn:E2; [|done].
    exists [# p0; p1; p2]. intros i. unfold VSS_COEFFICIENTS in i. by inv_all_vec_fin. }
  exists c. split; [done|]. rewrite (commitment_at_poly err x cs c Hc) in Hr. by simplify_eq.
Qed.

(** ** One node's key share *)

(** What a share that passes [key_share_verify] is. *)
Lemma key_share_verify_Ok s m party now :
  key_share_verify s m party now = Ok () →
  manifest_verify m now = Ok () ∧ ck_party s = party ∧ party < 7
  ∧ ∃ k (c : vec RistrettoPoint VSS_COEFFICIENTS),
      s_from_canonical (ck_value s) = Some k
      ∧ (∀ i, decompress (m_settlement_key_commitments m !!! i) = Some (c !!! i))
      ∧ p_mul k basepoint = commitment_poly c (scalar_of_party party).
Proof.
  unfold key_share_verify. intros Hv. apply bind_Ok in Hv as ([] & Hm & Hv).
  apply bind_Ok in Hv as ([] & Hf & Hv). apply bind_Ok in Hv as (k & Hk & Hv).
  apply bind_Ok in Hv as (e & He & Hv). apply bind_Ok in Hv as ([] & Heq & _).
  autorewrite with result in Hf, Hk, Heq. unfold canonical_scalar in Hk.
  autorewrite with result in Hk. bool_hyps.
  apply commitment_at_Ok in He as (c & Hc & ->). subst party.
  split_and!; [done..|]. exists k, c. done.
Qed.

Definition shares_verified (m : EdgeOrderManifest) (now : Z) (shares : list CapabilityKeyShare) :
    Prop :=
  manifest_verify m now = Ok ()
  ∧ Forall (λ s, key_share_verify s m (ck_party s) now = Ok ()) shares
  ∧ NoDup (map ck_party shares) ∧ (3 ≤ length shares ≤ 7)%nat.

Lemma check_shares_Ok m now seen shares :
  check_shares m now seen shares = Ok () ↔
  Forall (λ s, key_share_verify s m (ck_party s) now = Ok ()) shares
  ∧ NoDup (map ck_party shares) ∧ (∀ s, s ∈ shares → ck_party s ∉ seen).
Proof.
  revert seen. induction shares as [|s shares IH]; intros seen; simpl.
  { split; [intros _; repeat split; [constructor..|]; set_solver|done]. }
  rewrite Forall_cons, NoDup_cons. split.
  - intros Hc. apply bind_Ok in Hc as ([] & Hn & Hc). apply bind_Ok in Hc as ([] & Hv & Hs).
    apply IH in Hs as (? & ? & Hseen). apply fail_if_Ok in Hn. bool_hyps.
    split_and!; [done|done| |done|set_solver].
    intros (x & Ex & Hx)%list_elem_of_fmap. specialize (Hseen _ Hx). set_solver.
  - intros ([Hv Hvs] & [Hn Hnd] & Hseen). 
    rewrite bool_decide_eq_false_2 by (apply Hseen; set_solver). simpl. rewrite Hv. simpl.
    apply IH. split_and!; [done..|]. intros x Hx.
    apply not_elem_of_union. split; [|set_solver]. apply not_elem_of_singleton. intros E.
    apply Hn. rewrite <-E. by apply list_elem_of_fmap_2.
Qed.

(** The weighted sum [interpolate] computes. *)
Lemma interpolate_Ok (f : CapabilityKeyShare → Scalar) shares :
  (∀ s, s ∈ shares → s_from_canonical (ck_value s) = Some (f s)) →
  interpolate shares
  = Ok (ssum (map (λ s, s_mul (f s) (weight (ck_party s) (map ck_party shares))) shares)).
Proof.
  unfold interpolate. generalize (map ck_party shares) as ps. intros ps Hf.
  assert (∀ acc, for_each (λ secret s,
      evaluation ← map_err (λ _, ECapabilityKeyShare) (canonical_scalar (ck_value s));
      Ok (s_add secret (s_mul (s_mul evaluation (lagrange_numerator (ck_party s) ps))
            (s_inv (lagrange_denominator (ck_party s) ps))))) acc shares
    = Ok (s_add acc (ssum (map (λ s, s_mul (f s) (weight (ck_party s) ps)) shares)))) as Hacc.
  { induction shares as [|s shares IH]; intros acc; simpl.
    { by rewrite (s_add_comm acc), s_add_zero_l. }
    unfold canonical_scalar. rewrite (Hf s) by left. simpl. rewrite IH by set_solver.
    unfold weight. by rewrite s_add_assoc, s_mul_assoc. }
  by rewrite Hacc, s_add_zero_l.
Qed.

Definition share_scalar (s : CapabilityKeyShare) : Scalar :=
  default s_zero (s_from_canonical (ck_value s)).

(** The manifest commits to a key other than zero. *)
Lemma manifest_key_point m now :
  manifest_verify m now = Ok () →
  ∃ p, decompress (m_settlement_key_commitments m !!! 0%fin) = Some p ∧ p ≠ point_identity.
Proof.
  unfold manifest_verify. intros Hv. do 4 apply bind_Ok in Hv as ([] & _ & Hv).
  apply bind_Ok in Hv as (points & Hp & Hv). apply bind_Ok in Hv as ([] & Hz & _).
  apply collect_Ok in Hp. apply fail_if_Ok in Hz. bool_hyps.
  destruct (vec3_inv (m_settlement_key_commitments m)) as (d0 & d1 & d2 & E). rewrite E in *.
  simpl in *. inversion Hp as [|? p ? ? Hd]; subst. apply ok_or_Ok in Hd. simpl in Hz.
  exists p. split; [done|congruence].
Qed.

Lemma interpolate_key m now shares :
  shares_verified m now shares → Forall (λ s, 0 ≤ ck_party s) shares →
  ∃ k, interpolate shares = Ok k ∧ k ≠ s_zero
    ∧ compress (p_mul k basepoint) = m_settlement_key_commitments m !!! 0%fin.
Proof.
  intros (Hm & Hv & Hnd & Hl) Hpos. rewrite Forall_forall in Hv, Hpos.
  destruct (manifest_key_point m now Hm) as (p0 & Hp0 & Hne).
  assert (∃ c : vec RistrettoPoint VSS_COEFFICIENTS,
    (∀ i, decompress (m_settlement_key_commitments m !!! i) = Some (c !!! i))) as [c Hc].
  { destruct shares as [|s shares]; [simpl in *; lia|].
    destruct (key_share_verify_Ok s m _ now (Hv s ltac:(left))) as (_ & _ & _ & k & c & _ & Hc & _).
    by exists c. }
  assert (∀ s, s ∈ shares → s_from_canonical (ck_value s) = Some (share_scalar s)
    ∧ p_mul (share_scalar s) basepoint = commitment_poly c (scalar_of_party (ck_party s))) as Hs.
  { intros s Hin. unfold share_scalar.
    destruct (key_share_verify_Ok s m _ now (Hv s Hin)) as (_ & _ & _ & k & c' & Hk & Hc' & E).
    rewrite Hk. split; [done|]. simpl. rewrite E. f_equal. apply vec_eq. intros i.
    apply (inj Some). rewrite <-(Hc' i). apply Hc. }
  rewrite (interpolate_Ok share_scalar) by (intros s Hin; by apply Hs).
  eexists; split; [done|].
  assert (p_mul (ssum (map (λ s, s_mul (share_scalar s)
      (weight (ck_party s) (map ck_party shares))) shares)) basepoint = c !!! 0%fin) as E.
  { rewrite p_mul_ssum, map_map.
    rewrite <-(interpolate_exponent (map ck_party shares) c);
      [|done| |rewrite length_map; lia].
    - rewrite map_map. f_equal. apply list_fmap_ext. intros i s Hi%list_elem_of_lookup_2.
      rewrite s_mul_comm, p_mul_mul. by rewrite (proj2 (Hs s Hi)).
    - apply Forall_fmap, Forall_forall. intros s Hi. unfold is_party; simpl.
      split; [by apply Hpos|]. by destruct (key_share_verify_Ok s m _ now (Hv s Hi)) as (_ & _ & ? & _). }
  split.
  - intros Hz. rewrite Hz, p_mul_zero in E. apply Hne. apply (inj Some).
    rewrite <-Hp0, E. apply Hc.
  - rewrite E. apply decompress_canonical, Hc.
Qed.

Lemma reconstruct_key m now shares :
  shares_verified m now shares → Forall (λ s, 0 ≤ ck_party s) shares →
  ∃ k, reconstruct_settlement_capability_key m shares now = Ok (mk_capability_key (s_to_bytes k))
    ∧ compress (p_mul k basepoint) = m_settlement_key_commitments m !!! 0%fin.
Proof.
  intros Hs Hpos. destruct (interpolate_key m now shares Hs Hpos) as (k & Hk & Hz & Hc).
  exists k. split; [|done]. destruct Hs as (Hm & Hv & Hnd & Hl).
  unfold reconstruct_settlement_capability_key. rewrite Hm. simpl.
  rewrite (proj2 (Nat.ltb_ge _ _)) by (unfold SETTLEMENT_KEY_THRESHOLD; lia).
  rewrite (proj2 (Nat.ltb_ge _ _)) by (unfold MPC_PARTIES; lia). simpl.
  rewrite (proj2 (check_shares_Ok m now ∅ shares)) by set_solver. simpl.
  rewrite Hk. simpl. rewrite bool_decide_eq_false_2, bool_decide_eq_true_2 by done. done.
Qed.

Lemma reconstruct_verified m now shares key :
  reconstruct_settlement_capability_key m shares now = Ok key → shares_verified m now shares.
Proof.
  unfold reconstruct_settlement_capability_key. intros Hr.
  apply bind_Ok in Hr as ([] & Hm & Hr). apply bind_Ok in Hr as ([] & Hl & Hr).
  apply bind_Ok in Hr as ([] & Hc & _). apply fail_if_Ok in Hl. bool_hyps.
  apply check_shares_Ok in Hc as (? & ? & _).
  repeat match goal with E : (_ <? _)%nat = false |- _ => apply Nat.ltb_ge in E end.
  split_and!; done.
Qed.

(** C27: Which nodes answered does not matter: [reconstruct] succeeds exactly on three
    to seven shares of distinct parties that all pass their check, and every such
    set gives the same key, which opens the manifest's first commitment. *)
Theorem reconstruct_exact m now shares :
  Forall (λ s, is_u16 (ck_party s) = true) shares →
  (is_ok (reconstruct_settlement_capability_key m shares now) = true
   ↔ shares_verified m now shares)
  ∧ ∀ others key key',
      Forall (λ s, is_u16 (ck_party s) = true) others →
      reconstruct_settlement_capability_key m shares now = Ok key →
      reconstruct_settlement_capability_key m others now = Ok key' →
      key' = key ∧ capability_key_check key m = Ok ().
Proof.
  intros Hu. assert (∀ l, Forall (λ s, is_u16 (ck_party s) = true) l →
    Forall (λ s, 0 ≤ ck_party s) l) as Hpos.
  { intros l Hl. eapply Forall_impl; [exact Hl|]. intros s Hs. unfold is_u16 in Hs. by bool_hyps. }
  split.
  - split.
    + destruct (reconstruct_settlement_capability_key m shares now) eqn:E; [|done].
      intros _. by eapply reconstruct_verified.
    + intros Hs. destruct (reconstruct_key m now shares Hs (Hpos _ Hu)) as (k & -> & _). done.
  - intros others key key' Ho Hk Hk'.
    destruct (reconstruct_key m now shares) as (k & E & Hc);
      [by eapply reconstruct_verified|by apply Hpos|].
    destruct (reconstruct_key m now others) as (k' & E' & Hc');
      [by eapply reconstruct_verified|by apply Hpos|].
    rewrite E in Hk. rewrite E' in Hk'. simplify_eq. rewrite <-Hc in Hc'.
    apply compress_inj, basepoint_inj in Hc' as ->. split; [done|].
    unfold capability_key_check, canonical_scalar. simpl. rewrite s_from_bytes. simpl.
    by rewrite Hc, bool_decide_eq_true_2.
Qed.

End shares.
