(* ===== verification/EdgeSeal.v ===== *)
(** * Sealing and opening

    What the edge seals, the addressed node opens: frames, envelopes and the
    capability round-trip, and the shares of a polynomial pass the verifiable
    sharing check against its commitments. *)

From S2P Require Import Prelude BTree Bytes AppCrypto Orders Matching Book Reservations MpcRunner.
From S2P Require Import Edge EdgeCreate EdgeField EdgeShares.
Open Scope string_scope.
Open Scope list_scope.
Open Scope Z_scope.

Lemma be_val_4 n : Z.of_nat n < 2 ^ 32 → be_val (be_bytes 4 (Z.of_nat n)) = Z.of_nat n.
Proof. intros. rewrite be_val_be_bytes. apply Z.mod_small. change (8 * Z.of_nat 4) with 32. lia. Qed.

(** [collect_fin] runs its body once per index. *)
Lemma collect_fin_Ok {S E A n} (body : fin n → method S E A) s s' v :
  collect_fin body s = (s', Ok v) → ∀ i, ∃ s1 s2, body i s1 = (s2, Ok (v !!! i)).
Proof.
  revert s s'. induction n as [|n IH]; intros s s'; [intros _ i; inv_fin i|].
  simpl. intros Hr. step Hr as (s1 & a & Ha & Hr). step Hr as (s2 & w & Hw & Hr).
  apply mret_Ok in Hr as [-> <-]. intros i. inv_fin i; simpl; [by exists s, s1|].
  intros i. apply (IH (λ i, body (FS i)) w s1 s2 Hw i).
Qed.

Section seal.
Context `{Crypto} `{!CryptoLaws} `{EdgeLaws}.

(** ** Frames *)

Lemma random_bytes_Ok n r r' b : random_bytes n r = (r', Ok b) → length b = n.
Proof.
  unfold random_bytes. pose proof (fill_bytes_length n r) as Hl.
  destruct (fill_bytes n r) as [r1 b1]. by intros [= <- <-].
Qed.

Lemma decode_frame_framed {A} domain size parse payload padding (a : A) :
  Z.of_nat (length (domain ++ be_bytes 4 (Z.of_nat (length payload)) ++ payload ++ padding)) = size →
  size < 2 ^ 32 → parse payload = Some a →
  decode_frame domain size parse
    (domain ++ be_bytes 4 (Z.of_nat (length payload)) ++ payload ++ padding) = Ok a.
Proof.
  intros Hs Hlt Hp. unfold decode_frame. rewrite Hs, take_app_length.
  rewrite pass_guard by (by rewrite Z.eqb_refl, bool_decide_eq_true_2).
  rewrite drop_app_length, take_app_length' by (by rewrite length_be_bytes).
  revert Hs. rewrite !length_app, length_be_bytes. intros Hs.
  rewrite be_val_4 by lia. rewrite pass_guard by (apply Z.ltb_ge; lia).
  rewrite <-drop_drop, drop_app_length, drop_app_length' by (by rewrite length_be_bytes).
  by rewrite Nat2Z.id, take_app_length, Hp.
Qed.

Lemma encode_frame_Ok domain size payload err r r' clear :
  0 ≤ size → encode_frame domain size payload err r = (r', Ok clear) →
  ∃ padding, clear = domain ++ be_bytes 4 (Z.of_nat (length payload)) ++ payload ++ padding
    ∧ Z.of_nat (length clear) = size.
Proof.
  intros Hs. unfold encode_frame. intros Hr. step Hr as (r1 & [] & Hf & Hr).
  apply try_Ok in Hf as [-> Hf]. apply fail_if_Ok in Hf. bool_hyps.
  step Hr as (r2 & padding & Hp & Hr). apply mret_Ok in Hr as [_ <-].
  exists padding. split; [done|]. apply random_bytes_Ok in Hp.
  rewrite !length_app, length_be_bytes, Hp. lia.
Qed.

(** ** Envelopes *)

Lemma encrypt_decrypt key nonce clear aad c :
  encrypt key nonce clear aad = Ok c →
  decrypt key nonce c aad = Ok clear ∧ length c = (length clear + 16)%nat.
Proof.
  unfold encrypt, decrypt. intros Hr. step Hr as ([output tag] & Hs & [= <-]).
  apply map_err_Ok in Hs. destruct (aead_open_seal _ _ _ _ _ _ Hs) as (Hl & Ht & Ho).
  rewrite length_app, Ht, Hl. split; [|done].
  rewrite (proj2 (Nat.ltb_ge _ _)) by lia. simpl.
  replace (length clear + 16 - 16)%nat with (length output) by lia.
  by rewrite take_app_length, drop_app_length, Ho.
Qed.

Lemma kem_encapsulate_Ok key r r' ct shared :
  kem_encapsulate (node_public_key key) r = (r', Ok (ct, shared)) →
  decapsulate (ndk_seed key) ct = Ok shared.
Proof.
  unfold kem_encapsulate, node_public_key. simpl.
  pose proof (decapsulate_ok (ndk_seed key) r ct shared) as Hd.
  destruct (encapsulate _ r) as [r1 e]. simpl in Hd. intros [= _ He].
  apply Hd. destruct e; simpl in He; [|done]. by simplify_eq.
Qed.

Lemma parse_some {A B} (o : option A) (f : A → option B) b :
  o ≫= f = Some b → ∃ a, o = Some a ∧ f a = Some b.
Proof. apply bind_Some. Qed.

Lemma party_u16 p : 0 ≤ p → p < Z.of_nat MPC_PARTIES → is_u16 p = true.
Proof.
  intros. unfold is_u16, u16_max, MPC_PARTIES in *. apply andb_true_iff.
  rewrite !Z.leb_le. lia.
Qed.

(** A share sealed to a node is the share that node opens. *)
Lemma seal_share_open share key m now r r' e :
  seal_share share (node_public_key key) r = (r', Ok e) →
  share_verify share m (sh_party share) now = Ok () → 0 ≤ sh_party share →
  share_open e key m (sh_party share) now = Ok share.
Proof.
  unfold seal_share. intros Hr Hv Hpos. step Hr as (r1 & clear & Hc & Hr).
  step Hr as (r2 & [ct shared] & Hk & Hr). apply kem_encapsulate_Ok in Hk.
  step Hr as (r3 & nonce & Hn & Hr). step Hr as (r4 & c & He & Hr).
  apply try_Ok in He as [_ He]. apply mret_Ok in Hr as [_ <-].
  apply encrypt_decrypt in He as [Hd Hl].
  unfold encode_fixed_clear in Hc. step Hc as (r5 & encoded & Hj & Hc).
  apply try_Ok in Hj as [_ Hj]. apply ok_or_Ok in Hj.
  apply encode_frame_Ok in Hc as (padding & Hclear & Hsize); [|done].
  assert (sh_commitment share = m_commitment m ∧ sh_version share = EDGE_VERSION
    ∧ sh_party share < Z.of_nat MPC_PARTIES) as (Hm & Hver & Hlt).
  { unfold share_verify in Hv. step Hv as ([] & _ & Hv). step Hv as ([] & Hf & _).
    apply fail_if_Ok in Hf. by bool_hyps. }
  destruct (parse_some _ _ _ (parse_json_share share ltac:(by rewrite Hver)
    (party_u16 _ Hpos Hlt))) as (encoded' & Hj' & Hp).
  unfold share_open. simpl. rewrite !Z.eqb_refl, Hl, Nat2Z.inj_add, Hsize, Z.eqb_refl.
  rewrite !bool_decide_eq_true_2 by done. simpl. rewrite Hk. simpl.
  change (envelope_aad _) with (envelope_aad {|
    ss_version := EDGE_VERSION; ss_party := sh_party share; ss_commitment := sh_commitment share;
    ss_recipient := node_key_fingerprint (node_public_key key); ss_suite := X25519MlKem768;
    ss_kem_ciphertext := ct; ss_nonce := nonce; ss_ciphertext := [] |}).
  rewrite Hd. simpl. unfold decode_fixed_clear. subst clear.
  rewrite (decode_frame_framed _ _ _ _ _ share); [|done..|congruence]. simpl. by rewrite Hv.
Qed.

Lemma seal_key_share_open share key m now r r' e :
  seal_capability_key_share share (node_public_key key) r = (r', Ok e) →
  key_share_verify share m (ck_party share) now = Ok () → 0 ≤ ck_party share →
  key_share_open e key m (ck_party share) now = Ok share.
Proof.
  unfold seal_capability_key_share. intros Hr Hv Hpos. step Hr as (r1 & clear & Hc & Hr).
  step Hr as (r2 & [ct shared] & Hk & Hr). apply kem_encapsulate_Ok in Hk.
  step Hr as (r3 & nonce & Hn & Hr). step Hr as (r4 & c & He & Hr).
  apply try_Ok in He as [_ He]. apply mret_Ok in Hr as [_ <-].
  apply encrypt_decrypt in He as [Hd Hl].
  unfold encode_capability_key_share_clear in Hc. step Hc as (r5 & encoded & Hj & Hc).
  apply try_Ok in Hj as [_ Hj]. apply ok_or_Ok in Hj.
  apply encode_frame_Ok in Hc as (padding & Hclear & Hsize); [|done].
  assert (ck_order_commitment share = m_commitment m
    ∧ ck_capability_commitment share = m_settlement_capability_commitment m
    ∧ ck_version share = EDGE_VERSION ∧ ck_party share < Z.of_nat MPC_PARTIES)
    as (Hm & Hm' & Hver & Hlt).
  { unfold key_share_verify in Hv. step Hv as ([] & _ & Hv). step Hv as ([] & Hf & _).
    apply fail_if_Ok in Hf. by bool_hyps. }
  destruct (parse_some _ _ _ (parse_json_key_share share ltac:(by rewrite Hver)
    (party_u16 _ Hpos Hlt))) as (encoded' & Hj' & Hp).
  unfold key_share_open. simpl. rewrite !Z.eqb_refl, Hl, Nat2Z.inj_add, Hsize, Z.eqb_refl.
  rewrite !bool_decide_eq_true_2 by done. simpl. rewrite Hk. simpl.
  change (capability_key_share_envelope_aad _) with (capability_key_share_envelope_aad {|
    sq_version := EDGE_VERSION; sq_party := ck_party share;
    sq_order_commitment := ck_order_commitment share;
    sq_capability_commitment := ck_capability_commitment share;
    sq_recipient := node_key_fingerprint (node_public_key key); sq_suite := X25519MlKem768;
    sq_kem_ciphertext := ct; sq_nonce := nonce; sq_ciphertext := [] |}).
  rewrite Hd. simpl. unfold decode_capability_key_share_clear. subst clear.
  rewrite (decode_frame_framed _ _ _ _ _ share); [|done..|congruence]. simpl. by rewrite Hv.
Qed.

(** Clear bytes sealed under a capability key come back under it. *)
Lemma seal_under_key_decrypts clear oc cc key r r' e :
  seal_under_key clear oc cc key r = (r', Ok e) →
  sc_version e = EDGE_VERSION ∧ sc_order_commitment e = oc ∧ sc_capability_commitment e = cc
  ∧ length (sc_ciphertext e) = (length clear + 16)%nat
  ∧ decrypt (sk_bytes key) (sc_nonce e) (sc_ciphertext e) (settlement_envelope_aad e) = Ok clear.
Proof.
  unfold seal_under_key. intros Hr. step Hr as (r1 & nonce & _ & Hr).
  step Hr as (r2 & c & He & Hr). apply try_Ok in He as [_ He]. apply mret_Ok in Hr as [_ <-].
  apply encrypt_decrypt in He as [Hd Hl]. by split_and!.
Qed.

Lemma encode_settlement_decodes c r r' clear :
  encode_settlement_clear c r = (r', Ok clear) → cc_version c = EDGE_VERSION →
  decode_settlement_clear clear = Ok c
  ∧ Z.of_nat (length clear) = SEALED_SETTLEMENT_CAPABILITY_CLEAR_BYTES.
Proof.
  unfold encode_settlement_clear. intros Hc Hver. step Hc as (r5 & encoded & Hj & Hc).
  apply try_Ok in Hj as [_ Hj]. apply ok_or_Ok in Hj.
  apply encode_frame_Ok in Hc as (padding & -> & Hsize); [|done].
  destruct (parse_some _ _ _ (parse_json_capability c ltac:(by rewrite Hver))) as (encoded' & Hj' & Hp).
  split; [|done]. unfold decode_settlement_clear.
  apply decode_frame_framed; [done|done|congruence].
Qed.

(** The signer of an accepted manifest is a verification key. *)
Lemma manifest_signer_key m now :
  manifest_verify m now = Ok () →
  vk_from_bytes (m_signer m) = Ok (mk_verifying_key (m_signer m)).
Proof.
  unfold manifest_verify. intros Hv. do 4 step Hv as ([] & _ & Hv).
  step Hv as (points & _ & Hv). step Hv as ([] & _ & Hv). unfold check_signature in Hv.
  step Hv as (key & Hk & _). apply map_err_Ok in Hk. unfold vk_from_bytes in *.
  by case_bool_decide.
Qed.

End seal.
