(* ===== verification/EdgeLife.v ===== *)
(** * From the participant to the nodes and back

    What a bundle made by [create_inner] delivers: every node opens its own pair
    of shares until the order expires, any three nodes hold every field of the
    order and the capability key, and the capability sealed under that key opens
    to the participant's order. *)

From S2P Require Import Prelude BTree Bytes AppCrypto Orders Matching Book Reservations MpcRunner.
From S2P Require Import Edge EdgeCreate EdgeField EdgeShares EdgeSeal.
Open Scope string_scope.
Open Scope list_scope.
Open Scope Z_scope.

Abbreviation index p := (Z.of_nat (fin_to_nat p)).

Section life.
Context `{Crypto} `{!CryptoLaws} `{EdgeLaws}.

(** ** Time *)

Lemma manifest_verify_later m t now :
  manifest_verify m t = Ok () → now ≤ m_retention_deadline m → manifest_verify m now = Ok ().
Proof.
  unfold manifest_verify. intros Hv Hnow. step Hv as ([] & Hf & Hv).
  apply fail_if_Ok in Hf. rewrite pass_guard; [done|].
  bool_hyps. rewrite !orb_false_iff. split_and!; try done.
  - by rewrite negb_false_iff, Z.eqb_eq.
  - by apply Z.ltb_ge.
  - by rewrite negb_false_iff, bool_decide_eq_true.
Qed.

Lemma share_verify_later s m p t now :
  share_verify s m p t = Ok () → now ≤ m_retention_deadline m → share_verify s m p now = Ok ().
Proof.
  unfold share_verify. intros Hv Hnow. step Hv as ([] & Hm & Hv).
  by rewrite (manifest_verify_later _ _ _ Hm Hnow).
Qed.

Lemma key_share_verify_later s m p t now :
  key_share_verify s m p t = Ok () → now ≤ m_retention_deadline m →
  key_share_verify s m p now = Ok ().
Proof.
  unfold key_share_verify. intros Hv Hnow. step Hv as ([] & Hm & Hv).
  by rewrite (manifest_verify_later _ _ _ Hm Hnow).
Qed.

(** ** One delivery *)

Lemma deliver_opens m fields settlement admission kp signer node_keys p r r' e ek key now :
  deliver m fields settlement admission kp signer node_keys p r = (r', Ok (e, ek)) →
  node_keys !!! p = node_public_key key → now ≤ m_retention_deadline m →
  ∃ share ks,
    share_open e key m (index p) now = Ok share
    ∧ key_share_open ek key m (index p) now = Ok ks
    ∧ sh_party share = index p
    ∧ sh_value_shares share = vmap (λ q : Polynomials, s_to_bytes (share_of p q.1)) fields
    ∧ ck_party ks = index p ∧ ck_value ks = s_to_bytes (share_of p kp)
    ∧ key_share_verify ks m (index p) now = Ok ()
    ∧ sh_reservation_admission share = admission.
Proof.
  intros Hr Hk Hnow. unfold deliver in Hr. rewrite Hk in Hr.
  step Hr as (r1 & sg & _ & Hr). step Hr as (r2 & [] & Hv & Hr). apply try_Ok in Hv as [_ Hv].
  step Hr as (r3 & e' & He & Hr). step Hr as (r4 & sg' & _ & Hr).
  step Hr as (r5 & [] & Hv' & Hr). apply try_Ok in Hv' as [_ Hv'].
  step Hr as (r6 & ek' & Hek & Hr). apply mret_Ok in Hr as [_ [= <- <-]].
  apply (share_verify_later _ _ _ _ now) in Hv; [|done].
  apply (key_share_verify_later _ _ _ _ now) in Hv'; [|done].
  pose proof (seal_share_open _ key m now _ _ _ He Hv (Nat2Z.is_nonneg _)) as Ho.
  pose proof (seal_key_share_open _ key m now _ _ _ Hek Hv' (Nat2Z.is_nonneg _)) as Ho'.
  eexists _, _. split; [exact Ho|]. split; [exact Ho'|]. by split_and!.
Qed.

(** ** The whole bundle *)

Lemma draw_field_constant value blinding r r' q :
  draw_field value blinding r = (r', Ok q) → q.1 !!! 0%fin = value.
Proof.
  unfold draw_field. intros Hr. do 5 step Hr as (? & ? & _ & Hr).
  by apply mret_Ok in Hr as [_ <-].
Qed.

Lemma create_inner_Ok fuel order handle pre elig cap signer node_keys r r' b :
  create_inner fuel order handle pre elig cap signer node_keys r = (r', Ok b) →
  m_retention_deadline (eb_manifest b) = o_expires_at order
  ∧ m_market_id (eb_manifest b) = o_market_id order
  ∧ m_eligibility_commitment (eb_manifest b) = elig
  ∧ m_settlement_capability_commitment (eb_manifest b) = cap
  ∧ manifest_verify (eb_manifest b) 0 = Ok ()
  ∧ ∃ fields settlement admission (kp : vec Scalar VSS_COEFFICIENTS) signer',
      (∀ f, (fields !!! f).1 !!! 0%fin = order_values order !!! f)
      ∧ m_field_commitments (eb_manifest b) = vmap commit_polynomials fields
      ∧ m_settlement_key_commitments (eb_manifest b)
        = vmap (λ c, compress (p_mul c basepoint)) kp
      ∧ eb_settlement_capability_key b = mk_capability_key (s_to_bytes (kp !!! 0%fin))
      ∧ eb_constant_blindings b = vmap (λ q : Polynomials, s_to_bytes (q.2 !!! 0%fin)) fields
      ∧ ∀ p, ∃ s1 s2, deliver (eb_manifest b) fields settlement admission kp signer' node_keys p s1
          = (s2, Ok (eb_sealed_shares b !!! p, eb_sealed_capability_key_shares b !!! p)).
Proof.
  unfold create_inner. intros Hr. step Hr as (r1 & [] & _ & Hr).
  step Hr as (r2 & application & _ & Hr). step Hr as (r3 & admission & _ & Hr).
  step Hr as (r4 & adig & _ & Hr). step Hr as (r5 & fields & Hfields & Hr).
  step Hr as (r6 & settlement & _ & Hr). step Hr as (r7 & [] & _ & Hr).
  step Hr as (r8 & k0 & _ & Hr). step Hr as (r9 & k1 & _ & Hr). step Hr as (r10 & k2 & _ & Hr).
  step Hr as (r11 & sg & _ & Hr). step Hr as (r12 & [] & Hm & Hr). apply try_Ok in Hm as [_ Hm].
  step Hr as (r13 & deliveries & Hd & Hr). apply mret_Ok in Hr as [_ <-].
  split_and!; [done..|]. exists fields, settlement, admission, [# k0; k1; k2], signer.
  split_and!; try done.
  - intros f. destruct (collect_fin_Ok _ _ _ _ Hfields f) as (s1 & s2 & Hf).
    by eapply draw_field_constant.
  - intros p. destruct (collect_fin_Ok _ _ _ _ Hd p) as (s1 & s2 & Hp). exists s1, s2.
    etransitivity; [exact Hp|]. simpl. rewrite !vlookup_map. by destruct (deliveries !!! p).
Qed.

(** The shares carry the admission the order was created with, and the manifest binds it. *)
Lemma create_inner_admission fuel order handle pre elig cap signer node_keys r r' b :
  create_inner fuel order handle pre elig cap signer node_keys r = (r', Ok b) →
  ∃ text,
    (∀ p, ∃ fields settlement kp s1 s2,
       deliver (eb_manifest b) fields settlement text kp signer node_keys p s1
       = (s2, Ok (eb_sealed_shares b !!! p, eb_sealed_capability_key_shares b !!! p)))
    ∧ match pre with
      | None => uses_pretrade_reservation (eb_manifest b) = false
      | Some a => (∃ wire, admission_encode (pa_permit a) = Some wire ∧ text = base64_encode wire)
          ∧ verify_admission_binding (pa_permit a) (eb_manifest b) = Ok ()
      end.
Proof.
  unfold create_inner. intros Hr. step Hr as (r1 & [] & _ & Hr).
  step Hr as (r2 & application & _ & Hr). step Hr as (r3 & text & Htext & Hr).
  apply try_Ok in Htext as [_ Htext].
  step Hr as (r4 & adig & Hadig & Hr). apply try_Ok in Hadig as [_ Hadig].
  step Hr as (r5 & fields & _ & Hr). step Hr as (r6 & settlement & _ & Hr).
  step Hr as (r7 & [] & Hc & Hr). apply try_Ok in Hc as [_ Hc%fail_if_Ok].
  step Hr as (r8 & k0 & _ & Hr). step Hr as (r9 & k1 & _ & Hr). step Hr as (r10 & k2 & _ & Hr).
  step Hr as (r11 & sg & _ & Hr). step Hr as (r12 & [] & _ & Hr).
  step Hr as (r13 & deliveries & Hd & Hr). apply mret_Ok in Hr as [_ <-].
  exists text. split.
  { intros p. destruct (collect_fin_Ok _ _ _ _ Hd p) as (s1 & s2 & Hp).
    exists fields, settlement, [# k0; k1; k2], s1, s2.
    etransitivity; [exact Hp|]. simpl. rewrite !vlookup_map. by destruct (deliveries !!! p). }
  destruct pre as [a|]; [|by injection Hadig as <-]. simpl in Htext, Hadig, Hc.
  apply ok_or_Ok in Hadig. unfold preauthorized_text in Htext.
  step Htext as ([] & _ & Htext). step Htext as ([] & Hg & Htext). apply fail_if_Ok in Hg.
  step Htext as (wire & Hw & Htext). apply ok_or_Ok in Hw. injection Htext as <-.
  split; [by exists wire|]. unfold verify_admission_binding. rewrite Hadig. simpl ok_or.
  rewrite Ok_bind. apply fail_if_Ok. bool_hyps. rewrite !bool_decide_eq_true_2 by done. simpl.
  by apply Z.ltb_ge.
Qed.

(** ** Any three nodes *)

(** The value of a field a node holds, and the combination of several nodes'. *)
Definition field_scalar (s : PartyOrderShare) (f : fin MATCH_FIELD_COUNT) : Scalar :=
  default s_zero (s_from_canonical (sh_value_shares s !!! f)).

Definition recombine (ss : list PartyOrderShare) (f : fin MATCH_FIELD_COUNT) : Scalar :=
  ssum (map (λ s, s_mul (field_scalar s f) (weight (sh_party s) (map sh_party ss))) ss).

Lemma recombine_polynomial ss f (c : vec Scalar VSS_COEFFICIENTS) :
  NoDup (map sh_party ss) → Forall is_party (map sh_party ss) → (3 ≤ length ss)%nat →
  Forall (λ s, field_scalar s f = evaluate c (scalar_of_party (sh_party s))) ss →
  recombine ss f = c !!! 0%fin.
Proof.
  intros Hnd Hp Hl Hf. rewrite <-(interpolate_polynomial (map sh_party ss) c); [|done..|].
  - unfold recombine, at_zero. rewrite map_map. f_equal. apply list_fmap_ext.
    intros i s Hs. rewrite Forall_forall in Hf. rewrite Hf; [done|]. by eapply list_elem_of_lookup_2.
  - by rewrite length_map.
Qed.

Lemma index_is_party (p : fin MPC_PARTIES) : is_party (index p).
Proof. unfold is_party. pose proof (fin_to_nat_lt p). unfold MPC_PARTIES in *. lia. Qed.

Lemma map_index_NoDup (ps : list (fin MPC_PARTIES)) : NoDup ps → NoDup (map (λ p, index p) ps).
Proof. apply NoDup_fmap_2. intros p q E. apply (inj fin_to_nat). lia. Qed.

Lemma length_parties (ps : list (fin MPC_PARTIES)) : NoDup ps → (length ps ≤ 7)%nat.
Proof.
  intros Hnd. change 7%nat with (length (fin_range MPC_PARTIES)).
  apply submseteq_length, NoDup_submseteq; [done|]. intros p _. apply elem_of_fin_range.
Qed.

(** The opened pairs of a bundle. *)
Lemma bundle_opens fuel order handle pre elig cap signer node_keys r r' b
    (keys : fin MPC_PARTIES → NodeDecryptionKey) now :
  create_inner fuel order handle pre elig cap signer node_keys r = (r', Ok b) →
  (∀ p, node_keys !!! p = node_public_key (keys p)) → now ≤ o_expires_at order →
  manifest_verify (eb_manifest b) now = Ok ()
  ∧ ∃ (fields : vec (vec Scalar VSS_COEFFICIENTS) MATCH_FIELD_COUNT)
      (kp : vec Scalar VSS_COEFFICIENTS),
    (∀ f, entry fields f 0%fin = order_values order !!! f)
    ∧ compress (p_mul (kp !!! 0%fin) basepoint)
      = m_settlement_key_commitments (eb_manifest b) !!! 0%fin
    ∧ eb_settlement_capability_key b = mk_capability_key (s_to_bytes (kp !!! 0%fin))
    ∧ ∀ p, ∃ share ks,
      share_open (eb_sealed_shares b !!! p) (keys p) (eb_manifest b) (index p) now = Ok share
      ∧ key_share_open (eb_sealed_capability_key_shares b !!! p) (keys p) (eb_manifest b) (index p)
          now = Ok ks
      ∧ sh_party share = index p ∧ ck_party ks = index p
      ∧ (∀ f, field_scalar share f = evaluate (fields !!! f) (scalar_of_party (index p)))
      ∧ key_share_verify ks (eb_manifest b) (index p) now = Ok ().
Proof.
  intros Hr Hk Hnow. apply create_inner_Ok in Hr.
  destruct Hr as (Hdl & _ & _ & _ & Hm & fields & st & adm & kp & sg & Hc & _ & Hkc & Hkey & _ & Hd).
  assert (now ≤ m_retention_deadline (eb_manifest b)) as Hle by lia.
  split; [by eapply manifest_verify_later|].
  exists (vmap fst fields), kp. split_and!; [| |done|].
  - intros f. unfold entry. by rewrite vlookup_map.
  - by rewrite Hkc, vlookup_map.
  - intros p. destruct (Hd p) as (s1 & s2 & Hp).
    destruct (deliver_opens _ _ _ _ _ _ _ _ _ _ _ _ _ now Hp (Hk p) Hle)
      as (share & ks & Ho & Ho' & Hpa & Hva & Hpk & _ & Hv & _).
    exists share, ks. split_and!; try done. intros f. unfold field_scalar.
    by rewrite Hva, !vlookup_map, s_from_bytes.
Qed.

(** C8: Every node opens its own shares until the order expires; any three of them
    hold each field of the order and rebuild the capability key. *)
Theorem edge_delivers fuel order handle pre elig cap signer node_keys r r' b
    (keys : fin MPC_PARTIES → NodeDecryptionKey) now :
  create_inner fuel order handle pre elig cap signer node_keys r = (r', Ok b) →
  (∀ p, node_keys !!! p = node_public_key (keys p)) → now ≤ o_expires_at order →
  let m := eb_manifest b in
  let opens p := share_open (eb_sealed_shares b !!! p) (keys p) m (index p) now in
  let opens_key p :=
    key_share_open (eb_sealed_capability_key_shares b !!! p) (keys p) m (index p) now in
  (∀ p, is_ok (opens p) = true ∧ is_ok (opens_key p) = true)
  ∧ ∀ ps ss ks, NoDup ps → (3 ≤ length ps)%nat →
      Forall2 (λ p s, opens p = Ok s) ps ss → Forall2 (λ p k, opens_key p = Ok k) ps ks →
      (∀ f, recombine ss f = order_values order !!! f)
      ∧ reconstruct_settlement_capability_key m ks now = Ok (eb_settlement_capability_key b).
Proof.
  intros Hr Hk Hnow m opens opens_key.
  destruct (bundle_opens _ _ _ _ _ _ _ _ _ _ _ keys now Hr Hk Hnow)
    as (Hm & fields & kp & Hc & Hkc & Hkey & Hop).
  split; [intros p; destruct (Hop p) as (s & k & Ho & Ho' & _); unfold opens, opens_key, m;
          by rewrite Ho, Ho'|].
  intros ps ss ks Hnd Hl Hss Hks.
  assert (map sh_party ss = map (λ p, index p) ps) as Hparties.
  { clear -Hss Hop. induction Hss as [|p s ps ss Hs _ IH]; [done|]. simpl. rewrite IH. f_equal.
    destruct (Hop p) as (s' & k & Ho & _ & Hp & _). unfold opens, m in Hs. congruence. }
  assert (map ck_party ks = map (λ p, index p) ps) as Hkparties.
  { clear -Hks Hop. induction Hks as [|p k ps ks Hs _ IH]; [done|]. simpl. rewrite IH. f_equal.
    destruct (Hop p) as (s' & k' & _ & Ho & _ & Hp & _). unfold opens_key, m in Hs. congruence. }
  assert (Forall is_party (map (λ p, index p) ps)) as Hisp
    by (apply Forall_fmap, Forall_true; intros p; apply index_is_party).
  pose proof (map_index_NoDup ps Hnd) as Hnd'. split.
  - intros f. rewrite <-Hc. apply (recombine_polynomial ss f (fields !!! f));
      [by rewrite Hparties..|by rewrite <-(Forall2_length _ _ _ Hss)|].
    clear -Hss Hop. induction Hss as [|p s ps ss Hs _ IH]; constructor; [|done].
    destruct (Hop p) as (s' & k & Ho & _ & Hp & _ & Hf & _). unfold opens, m in Hs.
    assert (s' = s) as -> by congruence. by rewrite Hf, Hp.
  - assert (Forall (λ k, key_share_verify k m (ck_party k) now = Ok ()) ks) as Hv.
    { clear -Hks Hop. induction Hks as [|p k ps ks Hs _ IH]; constructor; [|done].
      destruct (Hop p) as (s' & k' & _ & Ho & _ & Hp & _ & Hv). unfold opens_key, m in *.
      assert (k' = k) as -> by congruence. by rewrite Hp. }
    destruct (reconstruct_key m now ks) as (k & -> & Hkc').
    + split_and!; [done|done|by rewrite Hkparties| |];
        rewrite <-(Forall2_length _ _ _ Hks); [done|by apply length_parties].
    + apply (Forall_fmap ck_party (λ p, 0 ≤ p)). change (ck_party <$> ks) with (map ck_party ks).
      rewrite Hkparties. eapply Forall_impl; [exact Hisp|]. unfold is_party. lia.
    + rewrite Hkey. unfold m in Hkc'. rewrite <-Hkc in Hkc'.
      by apply compress_inj, basepoint_inj in Hkc' as ->.
Qed.

(** ** The capability *)

(** A capability sealed under the bundle's key opens, under the key any three
    nodes rebuild, to the order and evidence it was sealed from. *)
Theorem capability_roundtrip fuel order handle pre elig cap signer node_keys r r' b
    sealed_order evidence r1 r2 e now :
  create_inner fuel order handle pre elig cap signer node_keys r = (r', Ok b) →
  order_valid sealed_order = true →
  seal_settlement_capability b sealed_order elig evidence signer r1 = (r2, Ok e) →
  now ≤ o_expires_at order →
  capability_open e (eb_settlement_capability_key b) (eb_manifest b) now
  = Ok {| vc_order := sealed_order;
          vc_order_commitment := m_commitment (eb_manifest b);
          vc_eligibility_commitment := elig;
          vc_eligibility_evidence := evidence |}.
Proof.
  intros Hr Hvalid Hs Hnow. apply create_inner_Ok in Hr.
  destruct Hr as (Hdl & Hmk & Hel & Hcap & Hm & fields & st & adm & kp & sg & _ & _ & Hkc & Hkey & _).
  unfold seal_settlement_capability in Hs. step Hs as (s1 & [] & Hf & Hs).
  apply try_Ok in Hf as [_ Hf]. apply fail_if_Ok in Hf. bool_hyps.
  step Hs as (s2 & [] & Hct & Hs). apply try_Ok in Hct as [_ Hct].
  step Hs as (s3 & signature & Hsg & Hs). apply try_Ok in Hsg as [_ Hsg].
  apply map_err_Ok in Hsg. unfold seal_settlement_clear in Hs.
  step Hs as (s4 & clear & Hc & Hs). apply encode_settlement_decodes in Hc as [Hdec Hsize]; [|done].
  apply seal_under_key_decrypts in Hs as (Hv & Ho & Hcc & Hl & Hdecrypt).
  pose proof (manifest_signer_key _ _ Hm) as Hkey'.
  pose proof (signed_validates _ _ _ Hsg) as Hval.
  pose proof (sign_then_verify _ _ _ Hsg) as Hver.
  unfold capability_open. rewrite (manifest_verify_later _ 0 now Hm) by lia. rewrite Ok_bind.
  rewrite pass_guard.
  2:{ rewrite Hv, Ho, Hcc, Hl, Nat2Z.inj_add, Hsize, !Z.eqb_refl.
      by rewrite !bool_decide_eq_true_2. }
  unfold capability_key_check, canonical_scalar. rewrite Hkey. simpl. rewrite s_from_bytes. simpl.
  rewrite Hkc, vlookup_map, bool_decide_eq_true_2 by done. simpl.
  rewrite Hkey in Hdecrypt. simpl in Hdecrypt. rewrite Hdecrypt. simpl. rewrite Hdec. simpl.
  rewrite <-H8, H12, !bool_decide_eq_true_2 by done. simpl.
  rewrite (from_to_secret_wire _ Hvalid). simpl.
  rewrite H5, Z.eqb_refl, !bool_decide_eq_true_2 by done. simpl.
  rewrite Hct. simpl. unfold sig_try_from.
  replace (mk_signature (sig_bytes signature)) with signature by (by destruct signature).
  rewrite Hval. simpl. rewrite Hkey'. simpl.
  replace (mk_verifying_key (m_signer (eb_manifest b))) with (verifying_key signer)
    by (unfold verifying_key in *; simpl in *; congruence).
  by rewrite Hver.
Qed.

End life.
