(* ===== verification/EdgeTotal.v ===== *)
(** * Creation succeeds

    [create_inner] checks its own manifest and every share before sealing it.
    On well-formed inputs these checks never fail: shares of a polynomial satisfy
    the verification equation of its commitments, signatures verify, and every
    payload fits its frame.  What randomness decides is only when the rejection
    loop for the capability key ends. *)

From S2P Require Import Prelude BTree Bytes AppCrypto Orders Matching Book Reservations MpcRunner.
From S2P Require Import Edge EdgeCreate EdgeField EdgeShares EdgeSeal EdgeLife.
Open Scope string_scope.
Open Scope list_scope.
Open Scope Z_scope.

(** Runs that cannot fail. *)
Definition succeeds {S E A} (m : method S E A) (P : A → Prop) : Prop :=
  ∀ s, ∃ s' a, m s = (s', Ok a) ∧ P a.

Lemma succeeds_bind {S E A B} (m : method S E A) (f : A → method S E B) P Q :
  succeeds m P → (∀ a, P a → succeeds (f a) Q) → succeeds (m ≫= f) Q.
Proof.
  intros Hm Hf s. destruct (Hm s) as (s1 & a & E1 & Ha). destruct (Hf a Ha s1) as (s2 & b & E2 & Hb).
  exists s2, b. split; [|done]. apply method_bind_Ok. eauto.
Qed.

Lemma succeeds_mret {S E A} (a : A) (P : A → Prop) : P a → succeeds (S := S) (E := E) (mret a) P.
Proof. intros Ha s. by exists s, a. Qed.

Lemma succeeds_try {S E A} (r : result E A) (a : A) (P : A → Prop) :
  r = Ok a → P a → succeeds (S := S) (try r) P.
Proof. intros -> Ha s. by exists s, a. Qed.

Lemma succeeds_weaken {S E A} (m : method S E A) (P Q : A → Prop) :
  succeeds m P → (∀ a, P a → Q a) → succeeds m Q.
Proof. intros Hm HPQ s. destruct (Hm s) as (s1 & a & E1 & Ha). eauto. Qed.

Lemma succeeds_collect {S E A n} (body : fin n → method S E A) (P : fin n → A → Prop) :
  (∀ i, succeeds (body i) (P i)) → succeeds (collect_fin body) (λ v, ∀ i, P i (v !!! i)).
Proof.
  induction n as [|n IH]; intros Hb.
  { apply succeeds_mret. intros i. inv_fin i. }
  simpl. eapply succeeds_bind; [apply (Hb 0%fin)|]. intros a Ha.
  eapply succeeds_bind; [apply (IH _ (λ i, P (FS i)) (λ i, Hb (FS i)))|]. intros v Hv.
  apply succeeds_mret. intros i. inv_fin i; [done|]. apply Hv.
Qed.

(** A step whose result is known. *)
Ltac succeed v :=
  eapply succeeds_bind; [by eapply (succeeds_try _ v (λ x, x = v))|]; intros ? ->.

Lemma existsb_not_true {A} (f : A → bool) l : Forall (λ x, f x = false) l → existsb f l = false.
Proof. induction 1 as [|x l E _ IH]; simpl; [done|]. by rewrite E. Qed.

Section total.
Context `{Crypto} `{!CryptoLaws} `{EdgeLaws}.

Lemma random_succeeds : succeeds random (λ _, True).
Proof. intros r. unfold random. destruct (random_scalar r) as [r' s]. eauto. Qed.

Lemma random_bytes_succeeds n : succeeds (random_bytes n) (λ b, length b = n).
Proof.
  intros r. unfold random_bytes. pose proof (fill_bytes_length n r).
  destruct (fill_bytes n r) as [r' b]. eauto.
Qed.

(** ** Counting draws *)

(** The supply after [n] scalars have been drawn, and the next scalar then. *)
Fixpoint nth_state (n : nat) (r : Rng) : Rng :=
  match n with
  | O => r
  | S n => nth_state n (random_scalar r).1
  end.
Definition nth_draw (n : nat) (r : Rng) : Scalar := (random_scalar (nth_state n r)).2.

Lemma nth_state_add k l r : nth_state (k + l) r = nth_state l (nth_state k r).
Proof. revert r. induction k as [|k IH]; intros r; simpl; [done|apply IH]. Qed.

(** [m] draws exactly [k] scalars and succeeds. *)
Definition draws {A} (k : nat) (m : method Rng EdgeError A) (P : A → Prop) : Prop :=
  ∀ r, ∃ a, m r = (nth_state k r, Ok a) ∧ P a.

Lemma draws_bind {A B} k l (m : method Rng EdgeError A) (f : A → method Rng EdgeError B) P Q :
  draws k m P → (∀ a, P a → draws l (f a) Q) → draws (k + l) (m ≫= f) Q.
Proof.
  intros Hm Hf r. destruct (Hm r) as (a & E1 & Ha). destruct (Hf a Ha (nth_state k r)) as (b & E2 & Hb).
  exists b. split; [|done]. rewrite nth_state_add. apply method_bind_Ok. eauto.
Qed.

Lemma draws_mret {A} (a : A) (P : A → Prop) : P a → draws 0 (mret a) P.
Proof. intros Ha r. by exists a. Qed.

Lemma draws_random : draws 1 random (λ _, True).
Proof. intros r. unfold random. simpl. destruct (random_scalar r) as [r' s]. eauto. Qed.

Fixpoint fin_total {n : nat} : (fin n → nat) → nat :=
  match n with
  | O => λ _, 0%nat
  | S n => λ k, (k 0%fin + fin_total (λ i, k (FS i)))%nat
  end.

Lemma draws_collect {A n} (k : fin n → nat) (body : fin n → method Rng EdgeError A)
    (P : fin n → A → Prop) :
  (∀ i, draws (k i) (body i) (P i)) →
  draws (fin_total k) (collect_fin body) (λ v, ∀ i, P i (v !!! i)).
Proof.
  induction n as [|n IH]; intros Hb.
  { apply draws_mret. intros i. inv_fin i. }
  simpl. eapply draws_bind; [apply (Hb 0%fin)|]. intros a Ha.
  rewrite <-(Nat.add_0_r (fin_total _)).
  eapply draws_bind; [apply (IH (λ i, k (FS i)) _ (λ i, P (FS i)) (λ i, Hb (FS i)))|]. intros v Hv.
  apply draws_mret. intros i. inv_fin i; [done|]. apply Hv.
Qed.

(** The rejection loop ends with the first scalar that is not zero, and only then. *)
Lemma random_nonzero_draw n fuel r :
  (n < fuel)%nat → nth_draw n r ≠ s_zero →
  ∃ r' s, random_nonzero_scalar fuel r = (r', Ok s) ∧ s ≠ s_zero.
Proof.
  revert fuel r. induction n as [|n IH]; intros [|fuel] r Hf Hd; [lia| |lia|];
    cbn [random_nonzero_scalar]; rewrite method_bind; unfold random at 1; unfold nth_draw in *; simpl in Hd;
    destruct (random_scalar r) as [r1 s]; simpl in Hd.
  - rewrite bool_decide_eq_false_2 by done. by exists r1, s.
  - case_bool_decide; [apply IH; [lia|done]|]. by exists r1, s.
Qed.

Lemma random_nonzero_starved fuel r :
  (∀ n, (n < fuel)%nat → nth_draw n r = s_zero) →
  random_nonzero_scalar fuel r = (nth_state fuel r, Err EDiverged).
Proof.
  revert r. induction fuel as [|fuel IH]; intros r Hz; [done|].
  pose proof (Hz 0%nat ltac:(lia)) as Hfirst. unfold nth_draw in *. simpl in Hfirst.
  cbn [random_nonzero_scalar nth_state]. rewrite method_bind. unfold random at 1.
  destruct (random_scalar r) as [r1 s] eqn:E. simpl in Hfirst. rewrite bool_decide_eq_true_2 by done.
  apply IH. intros n Hn. specialize (Hz (S n) ltac:(lia)). simpl in Hz. by rewrite E in Hz.
Qed.

(** [m] started on [r] succeeds. *)
Definition yields {A} (m : method Rng EdgeError A) (r : Rng) : Prop := ∃ r' a, m r = (r', Ok a).

(** One of the next [fuel] scalars is not zero. *)
Definition nonzero_within (fuel : nat) (r : Rng) : Prop :=
  ∃ n, (n < fuel)%nat ∧ nth_draw n r ≠ s_zero.

Lemma yields_draws {A B} k (m : method Rng EdgeError A) (f : A → method Rng EdgeError B) P r X :
  draws k m P → (∀ a, P a → yields (f a) (nth_state k r) ↔ X) → yields (m ≫= f) r ↔ X.
Proof.
  intros Hm Hf. destruct (Hm r) as (a & E & Ha). rewrite <-(Hf a Ha). unfold yields.
  by rewrite method_bind, E.
Qed.

Lemma yields_try {A B} (v : result EdgeError A) a (f : A → method Rng EdgeError B) r X :
  v = Ok a → (yields (f a) r ↔ X) → yields (try v ≫= f) r ↔ X.
Proof. intros -> <-. unfold yields. by rewrite try_bind. Qed.

Lemma yields_nonzero {B} fuel (f : Scalar → method Rng EdgeError B) r :
  (∀ s, s ≠ s_zero → succeeds (f s) (λ _, True)) →
  yields (random_nonzero_scalar fuel ≫= f) r ↔ nonzero_within fuel r.
Proof.
  intros Hf. unfold yields. rewrite method_bind. split.
  - intros Hy. destruct (decide (Forall (λ n, nth_draw n r = s_zero) (seq 0 fuel))) as [Hz|Hz].
    + rewrite random_nonzero_starved in Hy; [by destruct Hy as (? & ? & [=])|].
      intros n Hn. rewrite Forall_forall in Hz. apply Hz, elem_of_seq. lia.
    + apply not_Forall_Exists, Exists_exists in Hz as (n & Hn%elem_of_seq & Hd); [|apply _].
      exists n. split; [lia|done].
  - intros (n & Hn & Hd). destruct (random_nonzero_draw n fuel r Hn Hd) as (r1 & s & -> & Hs).
    destruct (Hf s Hs r1) as (r2 & b & E & _). eauto.
Qed.

(** ** Verifiable sharing is complete *)

Lemma pedersen_polynomial (q : Polynomials) x :
  pedersen (evaluate q.1 x) (evaluate q.2 x)
  = commitment_poly (fun_to_vec (λ c, pedersen (q.1 !!! c) (q.2 !!! c))) x.
Proof.
  unfold evaluate, commitment_poly. rewrite !lookup_fun_to_vec, !pedersen_add.
  rewrite !s_mul_assoc, !(s_mul_comm (_ !!! 1%fin)), !(s_mul_comm (_ !!! 2%fin)).
  by rewrite !pedersen_mul.
Qed.

Lemma commit_polynomials_points (q : Polynomials) i :
  decompress (commit_polynomials q !!! i)
  = Some ((fun_to_vec (λ c, pedersen (q.1 !!! c) (q.2 !!! c)) : vec _ VSS_COEFFICIENTS) !!! i).
Proof.
  unfold commit_polynomials. rewrite !lookup_fun_to_vec. apply decompress_compress.
Qed.

Lemma verify_field_share (q : Polynomials) x :
  verify_field x (s_to_bytes (evaluate q.1 x)) (s_to_bytes (evaluate q.2 x)) (commit_polynomials q)
  = Ok ().
Proof.
  unfold verify_field, canonical_scalar. rewrite !s_from_bytes. cbn [ok_or]. rewrite !Ok_bind.
  rewrite (commitment_at_poly _ _ _ _ (commit_polynomials_points q)), Ok_bind.
  by rewrite bool_decide_eq_true_2 by apply pedersen_polynomial.
Qed.

Lemma key_polynomial_point (kp : vec Scalar VSS_COEFFICIENTS) x :
  p_mul (evaluate kp x) basepoint = commitment_poly (vmap (λ c, p_mul c basepoint) kp) x.
Proof.
  unfold evaluate, commitment_poly. rewrite !vlookup_map, !p_mul_add_l.
  rewrite !s_mul_assoc, !(s_mul_comm (_ !!! 1%fin)), !(s_mul_comm (_ !!! 2%fin)).
  by rewrite !p_mul_mul.
Qed.

Lemma all_points_commit {n} (fields : vec Polynomials n) :
  all_points (vmap commit_polynomials fields) = true.
Proof.
  unfold all_points. apply Is_true_true, forallb_True, Forall_vlookup. intros i.
  apply forallb_True, Forall_vlookup. intros j. rewrite vlookup_map.
  apply bool_decide_spec. rewrite commit_polynomials_points. eauto.
Qed.

(** ** Signatures and frames *)

Lemma check_signature_signed signer body s :
  try_sign signer body = Ok s → is_zero (vk_fingerprint (verifying_key signer)) = false →
  check_signature (vk_fingerprint (verifying_key signer)) body (sig_bytes s) = Ok ().
Proof.
  intros Hs Hz. unfold check_signature, vk_from_bytes. unfold is_zero in Hz. rewrite Hz. simpl.
  unfold sig_try_from. replace (mk_signature (sig_bytes s)) with s by (by destruct s).
  rewrite (signed_validates _ _ _ Hs). simpl.
  change (mk_verifying_key (fingerprint (hybrid_public_key (seeds signer))))
    with (verifying_key signer).
  by rewrite (sign_then_verify _ _ _ Hs).
Qed.

Lemma signature_length signer body s :
  try_sign signer body = Ok s → length (sig_bytes s) = SIGNATURE_BYTES.
Proof.
  intros Hs. pose proof (signed_validates _ _ _ Hs) as Hv. unfold sig_validate in Hv.
  apply fail_if_Ok in Hv. bool_hyps. by apply Nat.eqb_eq.
Qed.

Lemma encode_frame_succeeds domain size payload err :
  Z.of_nat (length domain + 4 + length payload) ≤ size →
  succeeds (encode_frame domain size payload err) (λ _, True).
Proof.
  intros Hs. unfold encode_frame.
  eapply succeeds_bind; [eapply (succeeds_try _ () (λ _, True)); [|done]|].
  { apply fail_if_Ok, Z.ltb_ge. lia. }
  intros _ _. eapply succeeds_bind; [apply random_bytes_succeeds|]. intros p _.
  by apply succeeds_mret.
Qed.

Lemma kem_succeeds key : succeeds (kem_encapsulate (node_public_key key)) (λ _, True).
Proof.
  intros r. unfold kem_encapsulate, node_public_key. simpl.
  pose proof (encapsulate_ok (ndk_seed key) r) as Ho.
  destruct (encapsulate _ r) as [r' [e|]]; [|done]. simpl. eauto.
Qed.

Lemma encrypt_succeeds key nonce clear aad :
  length nonce = 12%nat → ∃ c, encrypt key nonce clear aad = Ok c.
Proof.
  intros Hn. unfold encrypt. pose proof (aead_seal_ok key nonce clear aad Hn) as Ho.
  destruct (aead_seal key nonce clear aad) as [[c t]|]; [|done]. simpl. eauto.
Qed.

Lemma json_some {A} (o : option bytes) (f : bytes → option A) a :
  o ≫= f = Some a → ∃ b, o = Some b.
Proof. intros (b & -> & _)%parse_some. eauto. Qed.

Lemma seal_share_succeeds share key :
  is_u16 (sh_version share) = true → is_u16 (sh_party share) = true →
  Z.of_nat (length (sh_signature share)) = 5371 →
  Z.of_nat (length (sh_reservation_admission share)) ≤ 30000 →
  json_plain (sh_reservation_admission share) = true →
  succeeds (seal_share share (node_public_key key)) (λ _, True).
Proof.
  intros Hver Hpa Hs Ha Hplain. unfold seal_share. eapply succeeds_bind with (P := λ _, True).
  { unfold encode_fixed_clear. destruct (json_some _ _ _ (parse_json_share share Hver Hpa)) as [b Hb].
    rewrite Hb. eapply succeeds_bind; [by eapply (succeeds_try _ b (λ x, x = b))|].
    intros ? ->. apply encode_frame_succeeds. pose proof (json_share_size _ _ Hb Hplain).
    unfold SEALED_SHARE_CLEAR_BYTES. change (length SHARE_CLEAR_DOMAIN) with 25%nat. lia. }
  intros clear _. eapply succeeds_bind; [apply kem_succeeds|]. intros [ct shared] _.
  eapply succeeds_bind; [apply random_bytes_succeeds|]. intros nonce Hn.
  destruct (encrypt_succeeds (derive_envelope_key shared (sh_party share) (sh_commitment share)
    (node_key_fingerprint (node_public_key key)) ct) nonce clear (envelope_aad {|
      ss_version := EDGE_VERSION; ss_party := sh_party share; ss_commitment := sh_commitment share;
      ss_recipient := node_key_fingerprint (node_public_key key); ss_suite := X25519MlKem768;
      ss_kem_ciphertext := ct; ss_nonce := nonce; ss_ciphertext := [] |}) Hn) as [c Hc].
  eapply succeeds_bind; [by eapply (succeeds_try _ c (λ _, True))|]. intros ? _.
  by apply succeeds_mret.
Qed.

Lemma seal_key_share_succeeds share key :
  is_u16 (ck_version share) = true → is_u16 (ck_party share) = true →
  Z.of_nat (length (ck_signature share)) = 5371 →
  succeeds (seal_capability_key_share share (node_public_key key)) (λ _, True).
Proof.
  intros Hver Hpa Hs. unfold seal_capability_key_share. eapply succeeds_bind with (P := λ _, True).
  { unfold encode_capability_key_share_clear.
    destruct (json_some _ _ _ (parse_json_key_share share Hver Hpa)) as [b Hb].
    rewrite Hb. eapply succeeds_bind; [by eapply (succeeds_try _ b (λ x, x = b))|].
    intros ? ->. apply encode_frame_succeeds. pose proof (json_key_share_size _ _ Hb).
    unfold SEALED_CAPABILITY_KEY_SHARE_CLEAR_BYTES.
    change (length CAPABILITY_KEY_SHARE_CLEAR_DOMAIN) with 35%nat. lia. }
  intros clear _. eapply succeeds_bind; [apply kem_succeeds|]. intros [ct shared] _.
  eapply succeeds_bind; [apply random_bytes_succeeds|]. intros nonce Hn.
  destruct (encrypt_succeeds (derive_capability_key_share_envelope_key shared (ck_party share)
    (ck_order_commitment share) (ck_capability_commitment share)
    (node_key_fingerprint (node_public_key key)) ct) nonce clear
    (capability_key_share_envelope_aad {|
      sq_version := EDGE_VERSION; sq_party := ck_party share;
      sq_order_commitment := ck_order_commitment share;
      sq_capability_commitment := ck_capability_commitment share;
      sq_recipient := node_key_fingerprint (node_public_key key); sq_suite := X25519MlKem768;
      sq_kem_ciphertext := ct; sq_nonce := nonce; sq_ciphertext := [] |}) Hn) as [c Hc].
  eapply succeeds_bind; [by eapply (succeeds_try _ c (λ _, True))|]. intros ? _.
  by apply succeeds_mret.
Qed.

(** ** The bundle *)

(** A manifest and shares as [create_inner] builds them. *)
Record well_formed (m : EdgeOrderManifest) (fields : vec Polynomials MATCH_FIELD_COUNT)
    (settlement : option (vec Polynomials SETTLEMENT_FIELD_COUNT))
    (kp : vec Scalar VSS_COEFFICIENTS) (signer : SigningKey) : Prop := {
  wf_verified : manifest_verify m 0 = Ok ();
  wf_fields : m_field_commitments m = vmap commit_polynomials fields;
  wf_settlement : match settlement with
    | Some ps => m_settlement_proof_enabled m = true
        ∧ m_settlement_field_commitments m = vmap commit_polynomials ps
    | None => m_settlement_proof_enabled m = false
    end;
  wf_key : m_settlement_key_commitments m = vmap (λ c, compress (p_mul c basepoint)) kp;
  wf_signer : m_signer m = vk_fingerprint (verifying_key signer);
  wf_nonzero : is_zero (m_signer m) = false
}.

Lemma index_u16 (p : fin MPC_PARTIES) : is_u16 (index p) = true.
Proof. pose proof (fin_to_nat_lt p). apply party_u16; lia. Qed.

Lemma share_of_index (p : fin MPC_PARTIES) c :
  share_of p c = evaluate c (scalar_of_party (index p)).
Proof. done. Qed.

Lemma party_share_verifies m fields settlement kp signer admission p sg :
  well_formed m fields settlement kp signer →
  try_sign signer (share_signature_body (party_share m fields settlement admission p [])) = Ok sg →
  share_verify (party_share m fields settlement admission p (sig_bytes sg)) m (index p) 0 = Ok ().
Proof.
  intros [Hm Hf Hst Hkp Hs Hz] Hsg. unfold share_verify. rewrite Hm, Ok_bind.
  pose proof (index_is_party p) as [Hp0 Hp1]. rewrite pass_guard.
  2:{ simpl. rewrite !Z.eqb_refl, !bool_decide_eq_true_2 by done. simpl.
      rewrite !orb_false_r. apply Z.leb_gt. change (Z.of_nat MPC_PARTIES) with 7. lia. }
  rewrite Hs in Hz. pose proof (check_signature_signed _ _ _ Hsg Hz) as Hc. rewrite <-Hs in Hc.
  change (check_signature (sh_signer _) _ _ ) with (check_signature (m_signer m)
    (share_signature_body (party_share m fields settlement admission p [])) (sig_bytes sg)).
  rewrite Hc, Ok_bind. apply bind_Ok. exists (). split.
  { apply for_range_Ok. intros f. simpl. rewrite Hf, !vlookup_map, !share_of_index.
    apply verify_field_share. }
  simpl. destruct settlement as [ps|].
  - destruct Hst as [-> ->]. apply for_range_Ok. intros f.
    rewrite !vlookup_map, !share_of_index. apply verify_field_share.
  - rewrite Hst. apply fail_if_Ok. simpl. rewrite s_zero_bytes. done.
Qed.

Lemma party_key_share_verifies m fields settlement kp signer p sg :
  well_formed m fields settlement kp signer →
  try_sign signer (key_share_signature_body (party_key_share m kp p [])) = Ok sg →
  key_share_verify (party_key_share m kp p (sig_bytes sg)) m (index p) 0 = Ok ().
Proof.
  intros [Hm Hf Hst Hkp Hs Hz] Hsg. unfold key_share_verify. rewrite Hm, Ok_bind.
  pose proof (index_is_party p) as [Hp0 Hp1]. rewrite pass_guard.
  2:{ simpl. rewrite !Z.eqb_refl, !bool_decide_eq_true_2 by done. simpl.
      rewrite !orb_false_r. apply Z.leb_gt. change (Z.of_nat MPC_PARTIES) with 7. lia. }
  unfold canonical_scalar. cbn [ck_value party_key_share ck_party]. rewrite s_from_bytes.
  cbn [ok_or map_err]. rewrite Ok_bind, share_of_index.
  rewrite (commitment_at_poly _ _ _ (vmap (λ c, p_mul c basepoint) kp)).
  2:{ intros i. rewrite Hkp, !vlookup_map. apply decompress_compress. }
  rewrite Ok_bind, pass_guard.
  2:{ apply negb_false_iff, bool_decide_eq_true_2, key_polynomial_point. }
  rewrite Hs in Hz. pose proof (check_signature_signed _ _ _ Hsg Hz) as Hc. by rewrite <-Hs in Hc.
Qed.

Lemma deliver_succeeds m fields settlement admission kp signer node_keys p key :
  well_formed m fields settlement kp signer →
  Z.of_nat (length admission) ≤ 30000 → json_plain admission = true →
  node_keys !!! p = node_public_key key →
  succeeds (deliver m fields settlement admission kp signer node_keys p) (λ _, True).
Proof.
  intros Hwf Ha Hplain Hk. unfold deliver. rewrite Hk.
  destruct (try_sign_total signer
    (share_signature_body (party_share m fields settlement admission p []))) as [sg Hsg].
  rewrite Hsg. eapply succeeds_bind; [by eapply (succeeds_try _ sg (λ x, x = sg))|]. intros ? ->.
  eapply succeeds_bind; [eapply (succeeds_try _ () (λ _, True)); [|done]|].
  { by eapply party_share_verifies. }
  intros _ _. eapply succeeds_bind.
  { apply seal_share_succeeds; [done|by apply index_u16| |done..]. simpl. by rewrite (signature_length _ _ _ Hsg). }
  intros e _. destruct (try_sign_total signer
    (key_share_signature_body (party_key_share m kp p []))) as [sg' Hsg'].
  rewrite Hsg'. eapply succeeds_bind; [by eapply (succeeds_try _ sg' (λ x, x = sg'))|].
  intros ? ->. eapply succeeds_bind; [eapply (succeeds_try _ () (λ _, True)); [|done]|].
  { by eapply party_key_share_verifies. }
  intros _ _. eapply succeeds_bind.
  { apply seal_key_share_succeeds; [done|by apply index_u16|]. simpl. by rewrite (signature_length _ _ _ Hsg'). }
  intros ek _. by apply succeeds_mret.
Qed.

(** A pre-trade admission for the order: checked, for this order and handle, with the
    commitments the participant blinds, and small enough for the share's frame. *)
Definition admission_fits (order : SecretOrder) (handle : option Handle) (cap : Digest32)
    (a : PreauthorizedReservation) : Prop :=
  ∃ h application wire digest,
    handle = Some h ∧ oclob_manifest_digest = Some application
    ∧ admission_check (pa_permit a) application (ad_defmi_id (pa_permit a)) (pa_trusted_signer a)
        (pa_now a) = true
    ∧ ad_order_commitment (pa_permit a) = commitment order
    ∧ o_expires_at order ≤ ad_valid_until (pa_permit a)
    ∧ pa_side_blinding a ≠ s_zero ∧ pa_reserve_blinding a ≠ s_zero
    ∧ ad_side_commitment (pa_permit a)
      = compress (pedersen (order_values order !!! 0%fin) (pa_side_blinding a))
    ∧ ad_participant_handle (pa_permit a) = o_participant_handle order
    ∧ ad_participant_handle (pa_permit a) = compress (pedersen (h_secret h) s_zero)
    ∧ ad_amount_commitment (pa_permit a)
      = compress (pedersen (s_from (o_reservation_limit order)) (pa_reserve_blinding a))
    ∧ admission_encode (pa_permit a) = Some wire
    ∧ Z.of_nat (length (base64_encode wire)) ≤ 30000
    ∧ admission_digest (pa_permit a) = Some digest
    ∧ cap = preauthorized_settlement_commitment digest.

(** Inputs a participant supplies. *)
Record edge_inputs (order : SecretOrder) (handle : option Handle)
    (pre : option PreauthorizedReservation) (elig cap : Digest32)
    (signer : SigningKey) (node_keys : vec NodeEncryptionKey MPC_PARTIES)
    (keys : fin MPC_PARTIES → NodeDecryptionKey) : Prop := {
  in_order : order_valid order = true;
  in_source : is_zero (commitment order) = false;
  in_eligibility : is_zero elig = false;
  in_capability : is_zero cap = false;
  in_signer : is_zero (vk_fingerprint (verifying_key signer)) = false;
  in_application : is_Some oclob_manifest_digest;
  in_keys : ∀ p, node_keys !!! p = node_public_key (keys p)
    ∧ nek_bytes (node_keys !!! p) ≠ replicate 32 Byte.x00;
  in_handle : ∀ h, handle = Some h →
    compress (h_point h) = o_participant_handle order
    ∧ o_limit_price order ≤ u32_max ∧ o_quantity order ≤ u32_max
    ∧ o_reservation_limit order ≤ u32_max ∧ pedersen (h_secret h) s_zero ≠ point_identity;
  in_admission : ∀ a, pre = Some a → admission_fits order handle cap a
}.

(** A blinding that is supplied is not drawn. *)
Definition field_draws (blinding : option Scalar) : nat :=
  match blinding with Some _ => 4%nat | None => 5%nat end.

Lemma draw_field_draws value blinding :
  draws (field_draws blinding) (draw_field value blinding)
    (λ q, q.1 !!! 0%fin = value ∧ ∀ b, blinding = Some b → q.2 !!! 0%fin = b).
Proof.
  assert (field_draws blinding
    = 1 + (1 + (match blinding with Some _ => 0 | None => 1 end + (1 + (1 + 0)))))%nat as -> by (by destruct blinding).
  unfold draw_field. eapply draws_bind; [apply draws_random|]. intros v1 _.
  eapply draws_bind; [apply draws_random|]. intros v2 _.
  eapply draws_bind with (P := λ b0, ∀ b, blinding = Some b → b0 = b).
  { destruct blinding; simpl; [apply draws_mret; by intros ? [= ->]|].
    intros r. destruct (draws_random r) as (a & E & _). by exists a. }
  intros b0 Hb. eapply draws_bind; [apply draws_random|]. intros b1 _.
  eapply draws_bind; [apply draws_random|]. intros b2 _. by apply draws_mret.
Qed.

Lemma draw_settlement_draws h order pre :
  draws (2 + field_draws (pa_reserve_blinding <$> pre)) (draw_settlement h order pre) (λ ps,
    (ps !!! 0%fin).1 !!! 0%fin = h_secret h ∧ (ps !!! 0%fin).2 !!! 0%fin = s_zero
    ∧ (ps !!! 1%fin).1 !!! 0%fin = s_from (o_reservation_limit order)
    ∧ ∀ a, pre = Some a → (ps !!! 1%fin).2 !!! 0%fin = pa_reserve_blinding a).
Proof.
  unfold draw_settlement, draw_handle. rewrite <-(Nat.add_0_r (field_draws _)).
  change 2%nat with (1 + (1 + 0))%nat.
  eapply draws_bind with (P := λ q, q.1 !!! 0%fin = h_secret h ∧ q.2 !!! 0%fin = s_zero).
  { eapply draws_bind; [apply draws_random|]. intros v1 _.
    eapply draws_bind; [apply draws_random|]. intros v2 _. by apply draws_mret. }
  intros q [Hq1 Hq2]. eapply draws_bind; [apply draw_field_draws|]. intros q' [Hq' Hb].
  apply draws_mret. split_and!; [done..|]. intros a ->. by apply Hb.
Qed.

(** The scalars drawn before the capability key: five for each of the six fields, two
    for the handle and five for the reserve, less the blindings a reservation fixes. *)
Definition side_blinding (pre : option PreauthorizedReservation) (f : fin MATCH_FIELD_COUNT) :
    option Scalar :=
  if bool_decide (f = 0%fin) then pa_side_blinding <$> pre else None.
Definition key_draws (handle : option Handle) (pre : option PreauthorizedReservation) : nat :=
  fin_total (λ f, field_draws (side_blinding pre f))
  + match handle with
    | Some _ => 2 + field_draws (pa_reserve_blinding <$> pre)
    | None => 0
    end.

Lemma key_draws_values h a :
  key_draws None None = 30%nat ∧ key_draws (Some h) None = 37%nat
  ∧ key_draws (Some h) (Some a) = 35%nat.
Proof. done. Qed.

(** The manifest [create_inner] assembles passes its own check. *)
Lemma manifest_verifies m sg signer fields (settlement : option (vec Polynomials SETTLEMENT_FIELD_COUNT))
    (kp : vec Scalar VSS_COEFFICIENTS) :
  m_version m = EDGE_VERSION → bad_market_id (m_market_id m) = false →
  0 ≤ m_retention_deadline m → is_zero (m_eligibility_commitment m) = false →
  is_zero (m_source_order_commitment m) = false →
  is_zero (m_settlement_capability_commitment m) = false →
  m_commitment m = derived_commitment m →
  (uses_pretrade_reservation m = true → is_Some settlement
     ∧ m_settlement_capability_commitment m
       = preauthorized_settlement_commitment (m_reservation_admission_digest m)) →
  m_field_commitments m = vmap commit_polynomials fields →
  m_settlement_proof_enabled m = bool_decide (is_Some settlement) →
  m_settlement_field_commitments m = match settlement with
    | Some ps => vmap commit_polynomials ps
    | None => fun_to_vec (λ _, fun_to_vec (λ _, zero_digest))
    end →
  (∀ ps, settlement = Some ps →
    pedersen ((ps !!! 0%fin).1 !!! 0%fin) ((ps !!! 0%fin).2 !!! 0%fin) ≠ point_identity) →
  m_settlement_key_commitments m = vmap (λ c, compress (p_mul c basepoint)) kp →
  kp !!! 0%fin ≠ s_zero → m_signer m = vk_fingerprint (verifying_key signer) →
  is_zero (m_signer m) = false →
  try_sign signer (manifest_signature_body (m_commitment m)) = Ok sg →
  m_signature m = sig_bytes sg →
  manifest_verify m 0 = Ok ().
Proof.
  intros Hv Hmk Hdl Hel Hsrc Hcap Hcm Hpre Hf Hen Hsf Hpt Hkc Hk0 Hs Hz Hsg Hsig.
  unfold manifest_verify. rewrite pass_guard.
  2:{ rewrite Hv, Hmk, Hel, Hsrc, Hcap, bool_decide_eq_true_2 by done. simpl.
      rewrite !orb_false_r. apply Z.ltb_ge. lia. }
  rewrite pass_guard.
  2:{ destruct (uses_pretrade_reservation m); [|done]. destruct (Hpre eq_refl) as [Hst Hc].
      by rewrite Hen, <-Hc, !bool_decide_eq_true_2. }
  rewrite pass_guard by (by rewrite Hf, all_points_commit).
  apply bind_Ok. exists (). split.
  { rewrite Hen, Hsf. destruct settlement as [ps|].
    - rewrite bool_decide_eq_true_2 by eauto. rewrite all_points_commit. simpl.
      apply fail_if_Ok, bool_decide_eq_false. unfold entry.
      rewrite vlookup_map, commit_polynomials_points, lookup_fun_to_vec. intros [= E].
      by apply (Hpt ps).
    - rewrite bool_decide_eq_false_2 by (by intros [? ?]). done. }
  rewrite Hkc. destruct (vec3_inv kp) as (k0 & k1 & k2 & ->). simpl in Hk0. simpl.
  rewrite !decompress_compress. simpl. rewrite bool_decide_eq_false_2.
  2:{ intros [= E]. by apply Hk0, basepoint_order. }
  rewrite Hs in Hz. rewrite Hsig, Hs. by apply check_signature_signed.
Qed.

(** The admission the shares carry, and its digest in the manifest. *)
Lemma admission_text order handle pre cap application :
  oclob_manifest_digest = Some application →
  (∀ a, pre = Some a → admission_fits order handle cap a) →
  ∃ text digest,
    from_option (preauthorized_text application order) (Ok []) pre = Ok text
    ∧ Z.of_nat (length text) ≤ 30000 ∧ json_plain text = true
    ∧ from_option (λ p, ok_or (admission_digest (pa_permit p)) EReservationPermit)
        (Ok zero_digest) pre = Ok digest
    ∧ (is_zero digest = false → is_Some handle ∧ cap = preauthorized_settlement_commitment digest).
Proof.
  intros Happ Hpre. destruct pre as [a|]; [|by exists [], zero_digest].
  destruct (Hpre a eq_refl) as (h & app & wire & digest & -> & Ha & Hck & Hord & Hexp & Hsb & Hrb
    & _ & Hph & _ & _ & Hwire & Hlen & Hdig & ->).
  rewrite Happ in Ha. injection Ha as <-. exists (base64_encode wire), digest. simpl.
  rewrite Hdig. split_and!; [|done|apply base64_plain|done|by split].
  unfold preauthorized_text. rewrite Hck. rewrite pass_guard by done. rewrite pass_guard.
  2:{ rewrite Hord, Hph, !bool_decide_eq_true_2, !bool_decide_eq_false_2 by done. simpl.
      rewrite !orb_false_r. apply Z.ltb_ge. lia. }
  by rewrite Hwire.
Qed.

(** The drawn polynomials open the admission's commitments. *)
Lemma admission_commitments order handle pre cap (fields : vec Polynomials MATCH_FIELD_COUNT)
    (settlement : option (vec Polynomials SETTLEMENT_FIELD_COUNT)) :
  (∀ a, pre = Some a → admission_fits order handle cap a) →
  (∀ f, (fields !!! f).1 !!! 0%fin = order_values order !!! f
     ∧ ∀ b, side_blinding pre f = Some b → (fields !!! f).2 !!! 0%fin = b) →
  (∀ h, handle = Some h → ∃ ps, settlement = Some ps
     ∧ (ps !!! 0%fin).1 !!! 0%fin = h_secret h ∧ (ps !!! 0%fin).2 !!! 0%fin = s_zero
     ∧ (ps !!! 1%fin).1 !!! 0%fin = s_from (o_reservation_limit order)
     ∧ ∀ a, pre = Some a → (ps !!! 1%fin).2 !!! 0%fin = pa_reserve_blinding a) →
  from_option (λ p,
    negb (bool_decide (ad_side_commitment (pa_permit p)
            = entry (vmap commit_polynomials fields) 0%fin 0%fin))
    || negb (bool_decide (ad_participant_handle (pa_permit p) = entry (match settlement with
         | Some ps => vmap commit_polynomials ps
         | None => fun_to_vec (λ _, fun_to_vec (λ _, zero_digest))
         end) 0%fin 0%fin))
    || negb (bool_decide (ad_amount_commitment (pa_permit p) = entry (match settlement with
         | Some ps => vmap commit_polynomials ps
         | None => fun_to_vec (λ _, fun_to_vec (λ _, zero_digest))
         end) 1%fin 0%fin))) false pre = false.
Proof.
  intros Hpre Hf Hs. destruct pre as [a|]; [|done].
  destruct (Hpre a eq_refl) as (h & app & wire & digest & Hh & _ & _ & _ & _ & _ & _
    & Hside & _ & Hpar & Ham & _).
  destruct (Hs h Hh) as (ps & -> & E1 & E2 & E3 & E4). specialize (E4 a eq_refl).
  destruct (Hf 0%fin) as [F1 F2]. specialize (F2 (pa_side_blinding a) eq_refl). simpl from_option.
  unfold entry. rewrite !vlookup_map. unfold commit_polynomials. rewrite !lookup_fun_to_vec.
  rewrite !bool_decide_eq_true_2; [done|..];
    [rewrite Ham|rewrite Hpar|rewrite Hside]; f_equal; f_equal; symmetry; done.
Qed.

(** After the key scalar nothing can fail. *)
Lemma create_tail_succeeds order handle elig cap signer node_keys keys text digest
    (fields : vec Polynomials MATCH_FIELD_COUNT)
    (settlement : option (vec Polynomials SETTLEMENT_FIELD_COUNT)) key_scalar :
  order_valid order = true → is_zero (commitment order) = false → is_zero elig = false →
  is_zero cap = false → is_zero (vk_fingerprint (verifying_key signer)) = false →
  (∀ p, node_keys !!! p = node_public_key (keys p)) →
  Z.of_nat (length text) ≤ 30000 → json_plain text = true →
  (is_zero digest = false →
     is_Some (handle : option Handle) ∧ cap = preauthorized_settlement_commitment digest) →
  bool_decide (is_Some handle) = bool_decide (is_Some settlement) →
  (∀ ps, settlement = Some ps →
     pedersen ((ps !!! 0%fin).1 !!! 0%fin) ((ps !!! 0%fin).2 !!! 0%fin) ≠ point_identity) →
  key_scalar ≠ s_zero →
  succeeds (k1 ← random; k2 ← random;
    let key_polynomial : vec Scalar VSS_COEFFICIENTS := [# key_scalar; k1; k2] in
    let manifest commitment signature := {|
      m_version := EDGE_VERSION; m_market_id := o_market_id order; m_commitment := commitment;
      m_retention_deadline := o_expires_at order;
      m_eligibility_commitment := elig;
      m_source_order_commitment := Orders.commitment order;
      m_reservation_admission_digest := digest;
      m_settlement_capability_commitment := cap;
      m_settlement_key_commitments := vmap (λ c, compress (p_mul c basepoint)) key_polynomial;
      m_field_commitments := vmap commit_polynomials fields;
      m_settlement_proof_enabled := bool_decide (is_Some handle);
      m_settlement_field_commitments := match settlement with
        | Some ps => vmap commit_polynomials ps
        | None => fun_to_vec (λ _, fun_to_vec (λ _, zero_digest))
        end;
      m_signer := vk_fingerprint (verifying_key signer); m_signature := signature |} in
    let commitment := derived_commitment (manifest zero_digest []) in
    signature ← try (map_err (λ _, ESignature)
      (try_sign signer (manifest_signature_body commitment)));
    let manifest := manifest commitment (sig_bytes signature) in
    _ ← try (manifest_verify manifest 0);
    deliveries ← collect_fin (deliver manifest fields settlement text key_polynomial signer
      node_keys);
    mret {| eb_manifest := manifest;
            eb_sealed_shares := vmap fst deliveries;
            eb_sealed_capability_key_shares := vmap snd deliveries;
            eb_settlement_capability_key := mk_capability_key (s_to_bytes key_scalar);
            eb_constant_blindings := vmap (λ p : Polynomials, s_to_bytes (p.2 !!! 0%fin)) fields |})
    (λ _, True).
Proof.
  intros Ho Hsrc Hel Hcap Hsg Hkeys Hlen Hplain Hdig Hen Hpt Hk0.
  eapply succeeds_bind; [apply random_succeeds|]. intros k1 _.
  eapply succeeds_bind; [apply random_succeeds|]. intros k2 _. cbv zeta.
  match goal with |- succeeds (try (map_err _ (try_sign _ ?body)) ≫= _) _ =>
    destruct (try_sign_total signer body) as [sg Hsign]; rewrite Hsign end.
  succeed sg. destruct (valid_market order Ho) as (_ & _ & _ & Hw).
  match goal with |- succeeds (try (manifest_verify ?m 0) ≫= _) _ =>
    assert (well_formed m fields settlement [# key_scalar; k1; k2] signer) as Hwf end.
  { assert (bad_market_id (o_market_id order) = false) as Hmk
      by (unfold order_valid in Ho; by bool_hyps).
    split; [|done| |done..].
    - eapply (manifest_verifies _ sg signer fields settlement [# key_scalar; k1; k2]); try done.
      + simpl. rewrite !Forall_cons in Hw. lia.
      + unfold uses_pretrade_reservation. simpl. intros Hd%negb_true_iff.
        destruct (Hdig Hd) as [Hh ->]. split; [|done]. rewrite bool_decide_eq_true_2 in Hen by done.
        symmetry in Hen. by apply bool_decide_eq_true in Hen.
    - destruct settlement as [ps|]; simpl; rewrite Hen; [|done]. done. }
  rewrite (wf_verified _ _ _ _ _ Hwf). succeed tt.
  eapply succeeds_bind.
  { apply (succeeds_collect _ (λ _ _, True)). intros p.
    eapply deliver_succeeds; [exact Hwf|done|done|apply Hkeys]. }
  intros deliveries _. by apply succeeds_mret.
Qed.

Lemma create_inner_yields fuel order handle pre elig cap signer node_keys keys r :
  edge_inputs order handle pre elig cap signer node_keys keys →
  yields (create_inner fuel order handle pre elig cap signer node_keys) r
  ↔ nonzero_within fuel (nth_state (key_draws handle pre) r).
Proof.
  intros [Ho Hsrc Hel Hcap Hsg [app Happ] Hkeys Hh Hpre]. unfold create_inner.
  eapply (yields_try _ ()).
  { apply fail_if_Ok. rewrite Hel, Hcap. simpl. rewrite !orb_false_iff. split_and!.
    - apply existsb_not_true, Forall_vlookup. intros p. apply bool_decide_eq_false, Hkeys.
    - destruct handle as [h|]; [|done]. simpl. apply negb_false_iff, bool_decide_eq_true.
      by apply (Hh h).
    - destruct pre as [a|]; [|done]. destruct (Hpre a eq_refl) as (h & _ & _ & _ & -> & _). done.
    - destruct handle as [h|]; [|done]. destruct (Hh h eq_refl) as (_ & ? & ? & ? & _).
      rewrite andb_false_iff. right. rewrite !orb_false_iff, !Z.ltb_ge. done. }
  rewrite Happ. eapply yields_try; [done|].
  destruct (admission_text order handle pre cap app Happ Hpre)
    as (text & digest & -> & Hlen & Hplain & -> & Hdig).
  do 2 (eapply yields_try; [done|]). unfold key_draws. rewrite nth_state_add.
  eapply yields_draws.
  { apply (draws_collect (λ f, field_draws (side_blinding pre f)) _
      (λ f q, q.1 !!! 0%fin = order_values order !!! f
        ∧ ∀ b, side_blinding pre f = Some b → q.2 !!! 0%fin = b)).
    intros f. apply draw_field_draws. }
  intros fields Hfields. eapply (yields_draws (match handle with
    | Some _ => 2 + field_draws (pa_reserve_blinding <$> pre)
    | None => 0
    end)%nat _ _ (λ st, (handle = None → st = None) ∧
    ∀ h, handle = Some h → ∃ ps, st = Some ps
      ∧ (ps !!! 0%fin).1 !!! 0%fin = h_secret h ∧ (ps !!! 0%fin).2 !!! 0%fin = s_zero
      ∧ (ps !!! 1%fin).1 !!! 0%fin = s_from (o_reservation_limit order)
      ∧ ∀ a, pre = Some a → (ps !!! 1%fin).2 !!! 0%fin = pa_reserve_blinding a)).
  { destruct handle as [h|]; [|by apply draws_mret].
    rewrite <-(Nat.add_0_r (2 + _)). eapply draws_bind; [apply draw_settlement_draws|].
    intros ps Hps. apply draws_mret. split; [done|]. intros ? [= <-]. by exists ps. }
  intros settlement [Hnone Hsome]. eapply (yields_try _ ()).
  { apply fail_if_Ok. by eapply admission_commitments. }
  apply yields_nonzero. intros k0 Hk0.
  apply (create_tail_succeeds order handle elig cap signer node_keys keys); try done.
  - intros p. apply Hkeys.
  - destruct handle as [h|]; [destruct (Hsome h eq_refl) as (ps & -> & _)|rewrite (Hnone eq_refl)]; done.
  - intros ps Hps. destruct handle as [h|]; [|by rewrite (Hnone eq_refl) in Hps].
    destruct (Hsome h eq_refl) as (ps' & Hps' & E1 & E2 & _).
    assert (ps' = ps) as -> by congruence. rewrite E1, E2. by apply (Hh h).
Qed.

Lemma create_inner_succeeds fuel order handle pre elig cap signer node_keys keys r :
  edge_inputs order handle pre elig cap signer node_keys keys → (0 < fuel)%nat →
  nth_draw (key_draws handle pre) r ≠ s_zero →
  ∃ r' b, create_inner fuel order handle pre elig cap signer node_keys r = (r', Ok b).
Proof. intros Hin Hf Hd. apply (create_inner_yields _ _ _ _ _ _ _ _ _ _ Hin). by exists 0%nat. Qed.

(** C28: On well-formed inputs, with or without a settlement handle and a pre-trade
    reservation, creation succeeds exactly when one of the [fuel] scalars drawn for
    the capability key is not zero.  So no check it makes on its own manifest and
    shares fails, every payload fits its frame, and the rejection loop for the key
    is the only thing that randomness can prolong: it ends at the first scalar that
    is not zero, whatever the other draws are. *)
Theorem create_total fuel order handle pre elig cap signer node_keys keys r :
  edge_inputs order handle pre elig cap signer node_keys keys →
  (∃ r' b, create_inner fuel order handle pre elig cap signer node_keys r = (r', Ok b))
  ↔ ∃ n, (n < fuel)%nat ∧ nth_draw (key_draws handle pre + n) r ≠ s_zero.
Proof.
  intros Hin. etransitivity; [apply (create_inner_yields fuel _ _ _ _ _ _ _ _ r Hin)|].
  unfold nonzero_within, nth_draw.
  split; intros (n & Hn & Hd); exists n; (split; [done|]); by rewrite nth_state_add in *.
Qed.

(** ** The capability *)

Lemma verify_constants order b fields :
  (∀ f, (fields !!! f).1 !!! 0%fin = order_values order !!! f) →
  m_field_commitments (eb_manifest b) = vmap commit_polynomials fields →
  eb_constant_blindings b = vmap (λ q : Polynomials, s_to_bytes (q.2 !!! 0%fin)) fields →
  verify_constant_terms order (eb_constant_blindings b) (eb_manifest b) = Ok ().
Proof.
  intros Hv Hc Hb. apply for_range_Ok. intros f. unfold canonical_scalar, entry.
  rewrite Hb, Hc, !vlookup_map, s_from_bytes. simpl. apply fail_if_Ok, negb_false_iff.
  apply bool_decide_eq_true. by rewrite <-Hv.
Qed.

(** The capability of the bundle's own order can be sealed. *)
Lemma seal_capability_succeeds fuel order handle elig signer node_keys r r' b evidence r1 :
  create_inner fuel order handle None elig
    (settlement_capability_commitment order (vk_fingerprint (verifying_key signer))) signer
    node_keys r = (r', Ok b) →
  is_zero elig = false → evidence ≠ [] →
  Z.of_nat (length (to_secret_wire order) + length evidence) ≤ 9000 →
  ∃ r2 e, seal_settlement_capability b order elig evidence signer r1 = (r2, Ok e).
Proof.
  intros Hr Hel Hev Hlen.
  assert (m_signer (eb_manifest b) = vk_fingerprint (verifying_key signer)
    ∧ uses_pretrade_reservation (eb_manifest b) = false) as [Hs Hun].
  { unfold create_inner in Hr. do 3 step Hr as (? & ? & _ & Hr).
    step Hr as (? & adig & Ha & Hr). apply try_Ok in Ha as [_ [= <-]].
    do 9 step Hr as (? & ? & _ & Hr). by apply mret_Ok in Hr as [_ <-]. }
  apply create_inner_Ok in Hr.
  destruct Hr as (Hdl & Hmk & Helig & Hcap & Hm & fields & st & adm & kp & sg & Hv & Hf & _ & _ & Hb & _).
  enough (succeeds (seal_settlement_capability b order elig evidence signer) (λ _, True)) as Hok
    by (destruct (Hok r1) as (r2 & e & E & _); eauto).
  unfold seal_settlement_capability.
  eapply succeeds_bind; [eapply (succeeds_try _ () (λ _, True)); [|done]|].
  { apply fail_if_Ok. rewrite Hel, Hun, Hs, Helig, Hcap, Hmk, Hdl, Z.eqb_refl.
    rewrite !bool_decide_eq_true_2 by done. simpl. rewrite !orb_false_r.
    apply orb_false_iff. split; [by destruct evidence|]. apply Z.ltb_ge.
    change (SEALED_SETTLEMENT_CAPABILITY_CLEAR_BYTES / 2) with 32768. lia. }
  intros _ _. rewrite (verify_constants _ _ _ Hv Hf Hb). succeed tt.
  match goal with |- succeeds (try (map_err _ (try_sign _ ?body)) ≫= _) _ =>
    destruct (try_sign_total signer body) as [sg' Hsign]; rewrite Hsign end.
  succeed sg'. unfold seal_settlement_clear. eapply succeeds_bind with (P := λ _, True).
  - unfold encode_settlement_clear.
    match goal with |- context [json_capability ?c] =>
      destruct (json_some _ _ _ (parse_json_capability c eq_refl)) as [j Hj] end.
    rewrite Hj. succeed j. apply encode_frame_succeeds.
    pose proof (json_capability_size _ _ Hj) as Hsz.
    cbn [cc_signature cc_order_wire cc_eligibility_evidence] in Hsz.
    rewrite (signature_length _ _ _ Hsign) in Hsz.
    unfold SEALED_SETTLEMENT_CAPABILITY_CLEAR_BYTES.
    change (length SETTLEMENT_CAPABILITY_CLEAR_DOMAIN) with 36%nat.
    rewrite !Nat2Z.inj_add in *. change (Z.of_nat SIGNATURE_BYTES) with 5371 in Hsz. lia.
  - intros clear _. unfold seal_under_key.
    eapply succeeds_bind; [apply random_bytes_succeeds|]. intros nonce Hn.
    match goal with |- context [encrypt ?k _ _ ?aad] =>
      destruct (encrypt_succeeds k nonce clear aad Hn) as [c Hc]; rewrite Hc end.
    succeed c. by apply succeeds_mret.
Qed.

End total.
