(* ===== verification/EdgeDecimal.v ===== *)
(** * Scalars as MP-SPDZ input

    [scalar_le_bytes_to_decimal] of [oclob-edge/src/lib.rs] writes the 32
    little-endian bytes of a share in decimal with base-[10^9] limbs, and the
    accessors of a share return these texts.  The limb arithmetic never leaves
    [u64], the carry loop ends, and the text is the canonical decimal of the
    256-bit value. *)

From S2P Require Import Prelude BTree Bytes AppCrypto Orders Matching Book Reservations MpcRunner.
From S2P Require Import Edge.
Open Scope list_scope.
Open Scope Z_scope.

Definition BASE : Z := 1000000000.

(** One byte into the limbs, least significant first. *)
Fixpoint mul_add (carry : Z) (limbs : list Z) : list Z * Z :=
  match limbs with
  | [] => ([], carry)
  | limb :: limbs =>
      let next := limb * 256 + carry in
      let '(limbs, carry) := mul_add (next / BASE) limbs in
      (next mod BASE :: limbs, carry)
  end.

(** [while carry != 0]; four limbs hold any [u64]. *)
Fixpoint push_carry (fuel : nat) (carry : Z) : list Z :=
  match fuel with
  | O => []
  | S fuel => if carry =? 0 then [] else carry mod BASE :: push_carry fuel (carry / BASE)
  end.

Definition push_byte (limbs : list Z) (b : byte) : list Z :=
  let '(limbs, carry) := mul_add (byte_val b) limbs in limbs ++ push_carry 4 carry.

(** [while limbs.len() > 1 && limbs.last() == Some(&0)], on the limbs with the
    most significant first. *)
Fixpoint pop_zeros (rev_limbs : list Z) : list Z :=
  match rev_limbs with
  | 0 :: ((_ :: _) as rest) => pop_zeros rest
  | _ => rev_limbs
  end.

(** [{limb:09}]. *)
Definition padded9 (limb : Z) : text :=
  let digits := dec limb in replicate (9 - length digits) 48 ++ digits.

Definition scalar_le_bytes_to_decimal (d : Digest32) : text :=
  let limbs := foldl push_byte [0] (rev (d_bytes d)) in
  match pop_zeros (rev limbs) with
  | [] => dec 0
  | top :: rest => dec top ++ concat (map padded9 rest)
  end.

(** [value_share_decimals] and the other accessors. *)
Definition share_decimals {n} (shares : vec Digest32 n) : vec text n :=
  vmap scalar_le_bytes_to_decimal shares.

(** ** Values *)

(** The number a decimal text denotes, and the value of limbs. *)
Definition dec_value (t : text) : Z := foldl (λ a c, a * 10 + (c - 48)) 0 t.
Definition lval (limbs : list Z) : Z := foldr (λ limb acc, limb + BASE * acc) 0 limbs.
Definition limbs_ok (limbs : list Z) : Prop := Forall (λ limb, 0 ≤ limb < BASE) limbs.

Lemma lval_app l k : lval (l ++ k) = lval l + BASE ^ Z.of_nat (length l) * lval k.
Proof.
  induction l as [|a l IH]; simpl length; [change (BASE ^ 0) with 1; simpl; lia|].
  rewrite Nat2Z.inj_succ, Z.pow_succ_r by lia. simpl. rewrite IH. lia.
Qed.

Lemma mul_add_spec limbs carry :
  limbs_ok limbs → 0 ≤ carry < 256 →
  let '(limbs', carry') := mul_add carry limbs in
  limbs_ok limbs' ∧ 0 ≤ carry' < 256 ∧ length limbs' = length limbs
  ∧ lval limbs' + BASE ^ Z.of_nat (length limbs) * carry' = 256 * lval limbs + carry.
Proof.
  unfold limbs_ok. intros Hl. revert carry.
  induction Hl as [|a l Ha Hl IH]; intros carry Hc; simpl.
  { split_and!; try lia. constructor. }
  assert (0 ≤ (a * 256 + carry) / BASE < 256) as Hq.
  { split; [apply Z.div_pos; unfold BASE in *; lia|].
    apply Z.div_lt_upper_bound; unfold BASE in *; lia. }
  specialize (IH _ Hq). destruct (mul_add _ l) as [l' c']. destruct IH as (Hl' & Hc' & Hlen & E).
  split_and!; try lia.
  - constructor; [|done]. apply Z.mod_pos_bound. unfold BASE. lia.
  - simpl. lia.
  - rewrite Nat2Z.inj_succ, Z.pow_succ_r by lia. simpl.
    pose proof (Z.div_mod (a * 256 + carry) BASE ltac:(unfold BASE; lia)). nia.
Qed.

Lemma push_carry_spec carry :
  0 ≤ carry < 256 → limbs_ok (push_carry 4 carry) ∧ lval (push_carry 4 carry) = carry.
Proof.
  intros Hc. simpl. destruct (Z.eqb_spec carry 0) as [->|Hne]; [split; [constructor|done]|].
  rewrite (Z.div_small carry BASE), (Z.mod_small carry BASE) by (unfold BASE; lia). simpl.
  split; [|lia]. constructor; [unfold BASE; lia|constructor].
Qed.

Lemma push_byte_spec limbs b :
  limbs_ok limbs → limbs_ok (push_byte limbs b) ∧ lval (push_byte limbs b) = lval limbs * 256 + byte_val b.
Proof.
  intros Hl. unfold push_byte. pose proof (mul_add_spec limbs (byte_val b) Hl (byte_val_range b)) as Hm.
  destruct (mul_add (byte_val b) limbs) as [l' c']. destruct Hm as (Hl' & Hc & Hlen & E).
  destruct (push_carry_spec c' Hc) as [Hp Ep]. split; [by apply Forall_app|].
  rewrite lval_app, Ep, Hlen. lia.
Qed.

Lemma push_bytes_spec bs limbs :
  limbs_ok limbs → limbs_ok (foldl push_byte limbs bs)
  ∧ lval (foldl push_byte limbs bs) = foldl (λ a b, a * 256 + byte_val b) (lval limbs) bs.
Proof.
  revert limbs. induction bs as [|b bs IH]; intros limbs Hl; [done|]. simpl.
  destruct (push_byte_spec limbs b Hl) as [Hl' E]. destruct (IH _ Hl') as [Hl'' E']. split; [done|].
  by rewrite E', E.
Qed.

Lemma push_byte_nonempty bs limbs : limbs ≠ [] → foldl push_byte limbs bs ≠ [].
Proof.
  revert limbs. induction bs as [|b bs IH]; intros limbs Hl; [done|]. simpl. apply IH.
  unfold push_byte. destruct limbs as [|a l]; [done|]. simpl. destruct (mul_add _ l). done.
Qed.

(** ** Text *)

Lemma dec_value_acc a t : foldl (λ a c, a * 10 + (c - 48)) a t
  = a * 10 ^ Z.of_nat (length t) + dec_value t.
Proof.
  unfold dec_value. revert a. induction t as [|c t IH]; intros a; simpl length; simpl foldl.
  { change (10 ^ Z.of_nat 0) with 1. lia. }
  rewrite IH, (IH (0 * 10 + _)), Nat2Z.inj_succ, Z.pow_succ_r by lia. lia.
Qed.

Lemma dec_value_app s t : dec_value (s ++ t) = dec_value s * 10 ^ Z.of_nat (length t) + dec_value t.
Proof. unfold dec_value at 1. rewrite foldl_app. apply dec_value_acc. Qed.

Lemma dec_from_value fuel z :
  0 ≤ z < 10 ^ (Z.of_nat fuel + 1) → dec_value (dec_from fuel z) = z.
Proof.
  revert z. induction fuel as [|fuel IH]; intros z Hz; simpl.
  - change (10 ^ (Z.of_nat 0 + 1)) with 10 in Hz. unfold dec_value; simpl. rewrite Z.mod_small; lia.
  - destruct (Z.ltb_spec z 10); [unfold dec_value; simpl; lia|].
    rewrite dec_value_app, IH.
    + unfold dec_value; simpl. pose proof (Z.div_mod z 10). lia.
    + split; [apply Z.div_pos; lia|]. apply Z.div_lt_upper_bound; [lia|].
      rewrite Nat2Z.inj_succ in Hz. replace (Z.succ (Z.of_nat fuel) + 1) with (Z.succ (Z.of_nat fuel + 1)) in Hz by lia.
      rewrite Z.pow_succ_r in Hz by lia. lia.
Qed.

Lemma dec_from_length fuel z k :
  0 ≤ z < 10 ^ Z.of_nat (S k) → (length (dec_from fuel z) ≤ S k)%nat.
Proof.
  revert z k. induction fuel as [|fuel IH]; intros z k Hz; simpl; [lia|].
  destruct (Z.ltb_spec z 10); [simpl; lia|]. rewrite length_app. simpl.
  destruct k as [|k]; [simpl in Hz; lia|].
  enough (length (dec_from fuel (z / 10)) ≤ S k)%nat by lia. apply IH.
  split; [apply Z.div_pos; lia|]. apply Z.div_lt_upper_bound; [lia|].
  rewrite (Nat2Z.inj_succ (S k)), Z.pow_succ_r in Hz by lia. lia.
Qed.

Lemma dec_from_head fuel z :
  0 < z < 10 ^ (Z.of_nat fuel + 1) → ∃ c t, dec_from fuel z = c :: t ∧ c ≠ 48.
Proof.
  revert z. induction fuel as [|fuel IH]; intros z Hz; simpl.
  - change (10 ^ (Z.of_nat 0 + 1)) with 10 in Hz. rewrite Z.mod_small by lia.
    eexists _, _. split; [done|lia].
  - destruct (Z.ltb_spec z 10); [eexists _, _; split; [done|lia]|].
    destruct (IH (z / 10)) as (c & t & -> & Hc).
    + split; [apply Z.div_str_pos; lia|]. apply Z.div_lt_upper_bound; [lia|].
      rewrite Nat2Z.inj_succ in Hz. replace (Z.succ (Z.of_nat fuel) + 1) with (Z.succ (Z.of_nat fuel + 1)) in Hz by lia.
      rewrite Z.pow_succ_r in Hz by lia. lia.
    + by exists c, (t ++ [48 + z mod 10]).
Qed.

Lemma padded9_spec limb :
  0 ≤ limb < BASE → length (padded9 limb) = 9%nat ∧ dec_value (padded9 limb) = limb
    ∧ Forall is_digit (padded9 limb).
Proof.
  intros Hl. unfold padded9, dec.
  pose proof (dec_from_length 20 limb 8 ltac:(change (10 ^ Z.of_nat 9) with BASE; lia)).
  split_and!.
  - rewrite length_app, length_replicate. lia.
  - rewrite dec_value_app, dec_from_value.
    + replace (dec_value (replicate _ 48)) with 0; [lia|].
      generalize (9 - length (dec_from 20 limb))%nat. intros n.
      induction n as [|n IH]; [done|]. simpl. unfold dec_value in *. simpl. done.
    + change (10 ^ (Z.of_nat 20 + 1)) with 1000000000000000000000. unfold BASE in Hl. lia.
  - apply Forall_app. split; [apply Forall_replicate; unfold is_digit; lia|].
    apply dec_from_digits. lia.
Qed.

Lemma padded_limbs_spec rest :
  limbs_ok rest → length (concat (map padded9 rest)) = (9 * length rest)%nat
    ∧ dec_value (concat (map padded9 rest)) = lval (rev rest)
    ∧ Forall is_digit (concat (map padded9 rest)).
Proof.
  induction 1 as [|a rest Ha _ (Hl & Hv & Hd)]; [done|]. simpl.
  destruct (padded9_spec a Ha) as (Hl9 & Hv9 & Hd9). split_and!.
  - rewrite length_app. lia.
  - rewrite dec_value_app, lval_app, Hv9, Hv, Hl, length_rev.
    rewrite Nat2Z.inj_mul, Z.pow_mul_r by lia. change (10 ^ Z.of_nat 9) with BASE. simpl. lia.
  - by apply Forall_app.
Qed.

Lemma pop_zeros_spec r :
  r ≠ [] → limbs_ok r →
  ∃ top rest, pop_zeros r = top :: rest ∧ limbs_ok (top :: rest)
    ∧ lval (rev (top :: rest)) = lval (rev r) ∧ (rest = [] ∨ top ≠ 0).
Proof.
  induction r as [|a r IH]; intros Hne Hok; [done|].
  destruct r as [|b r]; [destruct a; simpl; eauto 10|].
  destruct (decide (a = 0)) as [->|Ha].
  - destruct IH as (top & rest & E & Hok' & Hv & Hz); [done|by apply Forall_cons in Hok as [_ ?]|].
    exists top, rest. split_and!; [done..| |done]. rewrite Hv.
    change (rev (0 :: b :: r)) with (rev (b :: r) ++ [0]). rewrite (lval_app (rev (b :: r))).
    change (lval [0]) with 0. lia.
  - exists a, (b :: r). destruct a; try done; split_and!; eauto.
Qed.

(** The text is the decimal numeral of the share's 256-bit value: digits only,
    no leading zero, and the value read back is the number of the little-endian
    bytes. *)
Theorem decimal_exact d :
  let t := scalar_le_bytes_to_decimal d in
  dec_value t = be_val (rev (d_bytes d)) ∧ Forall is_digit t
  ∧ ∃ c rest, t = c :: rest ∧ (rest = [] ∨ c ≠ 48).
Proof.
  simpl. unfold scalar_le_bytes_to_decimal.
  assert (limbs_ok [0]) as H0 by (constructor; [unfold BASE; lia|constructor]).
  destruct (push_bytes_spec (rev (d_bytes d)) [0] H0) as [Hok Hv].
  pose proof (push_byte_nonempty (rev (d_bytes d)) [0] ltac:(done)) as Hne.
  set (limbs := foldl push_byte [0] (rev (d_bytes d))) in *.
  destruct (pop_zeros_spec (rev limbs)) as (top & rest & -> & Hok' & Hv' & Hz).
  { intros E. apply Hne. by rewrite <-(rev_involutive limbs), E. }
  { by apply Forall_rev. }
  rewrite rev_involutive, Hv in Hv'. change (lval [0]) with 0 in Hv'. apply Forall_cons in Hok' as [Ht Hrest].
  destruct (padded_limbs_spec rest Hrest) as (Hl & Hpv & Hd).
  assert (0 ≤ top < 10 ^ (Z.of_nat 20 + 1)) as Ht'
    by (change (10 ^ (Z.of_nat 20 + 1)) with 1000000000000000000000; unfold BASE in Ht; lia).
  split_and!.
  - rewrite dec_value_app, Hpv, Hl. unfold dec. rewrite dec_from_value by done.
    simpl in Hv'. rewrite lval_app, length_rev in Hv'. simpl in Hv'.
    rewrite Nat2Z.inj_mul, Z.pow_mul_r by lia. change (10 ^ Z.of_nat 9) with BASE.
    unfold be_val. rewrite <-Hv'. lia.
  - apply Forall_app. split; [apply dec_from_digits; lia|done].
  - destruct (decide (top = 0)) as [->|Hnz].
    + destruct Hz as [->|?]; [|done]. simpl. by eexists _, _; split; [|left].
    + destruct (dec_from_head 20 top) as (c & t & Et & Hc); [lia|]. unfold dec. rewrite Et.
      eexists _, _. split; [done|]. by right.
Qed.
