(* ===== verification/NodeReceipts.v ===== *)
(** * What a node signs and observes

    The records an MPC node keeps and returns: the coordinator's round plan and
    the party's execution receipt ([oclob-node/src/executor.rs]), the depth
    attestation ([public_depth.rs]), the admission and private-state receipts
    ([network.rs]), and the canonical observations of native fills with their
    aggregation ([native_finality.rs]).  [serde_json] enters as [ReceiptJson]. *)

From S2P Require Import Prelude BTree Bytes AppCrypto Orders Matching Circuit MpcRunner Ordering.
Open Scope string_scope.
Open Scope list_scope.
Open Scope Z_scope.

Definition ROUND_PLAN_DOMAIN : bytes := ascii_bytes "OCLOB:DISTRIBUTED-ROUND-PLAN:v2".
Definition PARTY_RECEIPT_DOMAIN : bytes := ascii_bytes "OCLOB:DISTRIBUTED-PARTY-RECEIPT:v2".
Definition VERSION : Z := 2.
Definition ADMISSION_RECEIPT_DOMAIN : bytes := ascii_bytes "OCLOB:NODE-ADMISSION-RECEIPT:v2".
Definition PRIVATE_STATE_RECEIPT_DOMAIN : bytes :=
  ascii_bytes "OCLOB:NODE-PRIVATE-STATE-RECEIPT:v2".
Definition RECORD_VERSION : Z := 4.

Inductive NodeError :=
| BadParty
| Admission (reason : string)
| Conflict
| Generation
| UnknownOrder
| Round (reason : string)
| OrderingState (reason : string)
| Release (reason : string)
| PrivateState (reason : string)
| State (reason : string)
| UnsafePath (reason : string)
| Io.

(** ** Round plans *)

Record RoundPlan := mk_plan {
  rp_version : Z;
  rp_market_id : bytes;
  rp_sequence : Z;
  rp_ordering_certificate : OrderCertificate;
  rp_resting : list OrderCommitment;
  rp_arriving : OrderCommitment;
  rp_issued_at : Z;
  rp_expires_at : Z;
  rp_coordinator : Digest32;
  rp_round_id : Digest32;
  rp_signature : bytes
}.

Inductive PlanError := InvalidPlan | InvalidReceipt.

(** [is_ok] of [sort], [dedup] and a length comparison. *)
Definition all_distinct (l : list Digest32) : bool := bool_decide (NoDup l).

Section plans.
Context `{Crypto}.

Definition plan_unsigned_body (p : RoundPlan) : bytes :=
  ROUND_PLAN_DOMAIN ++ u16_be (rp_version p) ++ put_bytes (rp_market_id p)
  ++ u64_be (rp_sequence p) ++ d_bytes (certificate_digest (rp_ordering_certificate p))
  ++ u16_be (Z.of_nat (length (rp_resting p))) ++ concat (map d_bytes (rp_resting p))
  ++ d_bytes (rp_arriving p) ++ u64_be (rp_issued_at p) ++ u64_be (rp_expires_at p)
  ++ d_bytes (rp_coordinator p).

Definition plan_signature_body (p : RoundPlan) : bytes :=
  ROUND_PLAN_DOMAIN ++ d_bytes (rp_round_id p).

Definition derived_round_id (p : RoundPlan) : Digest32 := sha256 (plan_unsigned_body p).

Definition plan_verify (p : RoundPlan) (now : Z) : result PlanError () :=
  let c := rp_ordering_certificate p in
  _ ← fail_if (negb (rp_version p =? VERSION)
      || Nat.eqb (length (rp_market_id p)) 0 || Nat.ltb 64 (length (rp_market_id p))
      || (rp_sequence p =? 0)
      || negb (bool_decide (oc_market_id c = rp_market_id p))
      || negb (oc_sequence c =? rp_sequence p)
      || negb (bool_decide (oc_commitment c = rp_arriving p))
      || (oc_expires_at c <? rp_expires_at p)
      || is_zero (rp_coordinator p) || is_zero (rp_arriving p)
      || Nat.ltb MAX_MATCH_SLOTS (length (rp_resting p))
      || bool_decide (rp_arriving p ∈ rp_resting p)
      || (now <? rp_issued_at p) || (rp_expires_at p <? now)
      || (300 <? saturating_sub (rp_expires_at p) (rp_issued_at p))
      || negb (bool_decide (rp_round_id p = derived_round_id p))) InvalidPlan;
  _ ← fail_if (negb (all_distinct (rp_resting p))) InvalidPlan;
  key ← map_err (λ _, InvalidPlan) (vk_from_bytes (rp_coordinator p));
  signature ← map_err (λ _, InvalidPlan) (sig_try_from (rp_signature p));
  map_err (λ _, InvalidPlan) (verify_strict key (plan_signature_body p) signature).

Definition plan_verify_ordering (p : RoundPlan) (policy : CommitteePolicy)
    (keys : btree Z VerifyingKey) (now : Z) : result PlanError () :=
  _ ← plan_verify p now;
  map_err (λ _, InvalidPlan) (certificate_verify (rp_ordering_certificate p) policy keys now).

(** [RoundPlan::sign]. *)
Definition plan_sign (certificate : OrderCertificate) (resting : list OrderCommitment)
    (issued_at expires_at : Z) (coordinator : SigningKey) : result PlanError RoundPlan :=
  let unsigned round_id signature := {|
    rp_version := VERSION; rp_market_id := oc_market_id certificate;
    rp_sequence := oc_sequence certificate; rp_ordering_certificate := certificate;
    rp_resting := resting; rp_arriving := oc_commitment certificate;
    rp_issued_at := issued_at; rp_expires_at := expires_at;
    rp_coordinator := vk_fingerprint (verifying_key coordinator);
    rp_round_id := round_id; rp_signature := signature |} in
  let round_id := derived_round_id (unsigned zero_digest []) in
  signature ← map_err (λ _, InvalidReceipt)
    (try_sign coordinator (plan_signature_body (unsigned round_id [])));
  let plan := unsigned round_id (sig_bytes signature) in
  _ ← plan_verify plan issued_at;
  Ok plan.

End plans.

(** ** Depth attestations and execution receipts *)

Record DepthAttestation := mk_depth_attestation {
  da_version : Z;
  da_party : Z;
  da_market_id : bytes;
  da_sequence : Z;
  da_round_id : Digest32;
  da_book_digest : Digest32;
  da_public_output_sha256 : Digest32;
  da_program_sha256 : Digest32;
  da_state_commitment : Digest32;
  da_issued_at : Z;
  da_valid_until : Z;
  da_settlement_required : bool;
  da_signer : Digest32;
  da_signature : bytes
}.
#[export] Instance depth_attestation_eq_dec : EqDecision DepthAttestation.
Proof. solve_decision. Defined.

Record NodeExecutionReceipt := mk_execution {
  ne_version : Z;
  ne_party : Z;
  ne_round_id : Digest32;
  ne_generation : Z;
  ne_round_commitment : Digest32;
  ne_program_sha256 : Digest32;
  ne_artifact_sha256 : Digest32;
  ne_private_parent_digest : Digest32;
  ne_private_state_sha256 : Digest32;
  ne_public_output_sha256 : Digest32;
  ne_result : MpcBatchResult;
  ne_depth_attestation : option DepthAttestation;
  ne_execution_ms : Z;
  ne_signer : Digest32;
  ne_signature : bytes
}.
#[export] Instance execution_receipt_eq_dec : EqDecision NodeExecutionReceipt.
Proof. solve_decision. Defined.

(** ** Canonical observations *)

Record NativeFinalityRecord := mk_native_finality {
  nf_round_id : Digest32;
  nf_slot : Z;
  nf_public_output_sha256 : Digest32;
  nf_maker_order : Digest32;
  nf_taker_order : Digest32;
  nf_transaction_id : bytes;
  nf_block_id : bytes;
  nf_height : Z;
  nf_statement : Digest32;
  nf_batch_statement : option Digest32;
  nf_before_root : Digest32;
  nf_after_root : Digest32
}.
#[export] Instance native_finality_eq_dec : EqDecision NativeFinalityRecord.
Proof. solve_decision. Defined.

Record PrivateStateFinality := mk_private_finality {
  pf_round_id : Digest32;
  pf_public_output_sha256 : Digest32;
  pf_transition_digest : Digest32;
  pf_canonical_receipt_digest : Digest32;
  pf_canonical_height : Z
}.
#[export] Instance private_finality_eq_dec : EqDecision PrivateStateFinality.
Proof. solve_decision. Defined.

(** [serde_json::to_vec] of the signed tuple of an attestation and of an
    observation. *)
Class ReceiptJson := {
  json_depth : DepthAttestation → option bytes;
  json_observation : NativeFinalityRecord → option bytes
}.

Section receipts.
Context `{Crypto} `{ReceiptJson}.

Definition depth_body (a : DepthAttestation) : result string bytes :=
  json ← ok_or (json_depth a) "serde_json";
  Ok (ascii_bytes "OCLOB:PUBLIC-DEPTH-ATTESTATION:v2" ++ json).

Definition depth_verify (a : DepthAttestation) (key : VerifyingKey) : result string () :=
  _ ← fail_if (negb (da_version a =? 2) || (7 <=? da_party a)
      || Nat.eqb (length (da_market_id a)) 0 || Nat.ltb 64 (length (da_market_id a))
      || (da_sequence a =? 0) || is_zero (da_round_id a) || is_zero (da_state_commitment a)
      || (da_valid_until a <? da_issued_at a)
      || (300 <? da_valid_until a - da_issued_at a)
      || negb (bool_decide (da_signer a = vk_fingerprint key)))
    "invalid public depth attestation";
  body ← depth_body a;
  signature ← map_err (λ _, "signature") (sig_try_from (da_signature a));
  map_err (λ _, "signature") (verify_strict key body signature).

(** [DepthAttestation::sign]; [program] is the digest of the matching program. *)
Definition depth_sign (party : Z) (plan : RoundPlan) (res : MpcBatchResult) (program state : Digest32)
    (key : SigningKey) : result string DepthAttestation :=
  levels ← ok_or (br_public_levels res) "MPC depth absent";
  _ ← map_err (λ _, "levels") (validate_public_levels levels);
  let value signature := {|
    da_version := 2; da_party := party; da_market_id := rp_market_id plan;
    da_sequence := rp_sequence plan; da_round_id := rp_round_id plan;
    da_book_digest := public_depth_digest levels;
    da_public_output_sha256 := public_output_digest res; da_program_sha256 := program;
    da_state_commitment := state; da_issued_at := rp_issued_at plan;
    da_valid_until := rp_expires_at plan;
    da_settlement_required := existsb slot_matched (br_slots res);
    da_signer := vk_fingerprint (verifying_key key); da_signature := signature |} in
  body ← depth_body (value []);
  signature ← map_err (λ _, "signature") (try_sign key body);
  Ok (value (sig_bytes signature)).

Definition execution_signature_body (r : NodeExecutionReceipt) : bytes :=
  PARTY_RECEIPT_DOMAIN ++ u16_be (ne_version r) ++ u16_be (ne_party r) ++ d_bytes (ne_round_id r)
  ++ u64_be (ne_generation r) ++ d_bytes (ne_round_commitment r) ++ d_bytes (ne_program_sha256 r)
  ++ d_bytes (ne_artifact_sha256 r) ++ d_bytes (ne_private_parent_digest r)
  ++ d_bytes (ne_private_state_sha256 r) ++ d_bytes (ne_public_output_sha256 r)
  ++ u16_be (Z.of_nat (length (br_slots (ne_result r))))
  ++ concat (map (λ s, be_bytes 1 (if slot_matched s then 1 else 0)
       ++ u64_be (slot_trade_price s) ++ u64_be (slot_trade_quantity s)) (br_slots (ne_result r)))
  ++ u64_be (br_arriving_remaining (ne_result r)) ++ u64_be (ne_execution_ms r)
  ++ d_bytes (ne_signer r).

Definition verify_stored_signature (r : NodeExecutionReceipt) : bool :=
  (ne_version r =? VERSION)
  && match vk_from_bytes (ne_signer r) with
     | Ok key => signature_ok key (execution_signature_body r) (ne_signature r)
     | Err _ => false
     end.

(** [NodeExecutionReceipt::verify]; [program] is the digest of the program. *)
Definition execution_verify (r : NodeExecutionReceipt) (plan : RoundPlan) (expected_party : Z)
    (program : Digest32) (expected_signer : VerifyingKey) : result PlanError () :=
  _ ← fail_if (negb (ne_version r =? VERSION) || negb (ne_party r =? expected_party)
      || (Z.of_nat MPC_PARTIES <=? ne_party r)
      || negb (bool_decide (ne_round_id r = rp_round_id plan))
      || negb (bool_decide (ne_program_sha256 r = program))
      || is_zero (ne_private_parent_digest r) || is_zero (ne_private_state_sha256 r)
      || negb (bool_decide (ne_public_output_sha256 r = public_output_digest (ne_result r)))
      || negb (Nat.eqb (length (br_slots (ne_result r))) MAX_MATCH_SLOTS)
      || negb (bool_decide (ne_signer r = vk_fingerprint expected_signer))) InvalidReceipt;
  _ ← match br_public_levels (ne_result r), ne_depth_attestation r with
      | Some levels, Some a =>
          _ ← map_err (λ _, InvalidReceipt) (depth_verify a expected_signer);
          fail_if (negb (da_party a =? ne_party r)
              || negb (bool_decide (da_market_id a = rp_market_id plan))
              || negb (da_sequence a =? rp_sequence plan)
              || negb (bool_decide (da_round_id a = ne_round_id r))
              || negb (bool_decide (da_public_output_sha256 a = ne_public_output_sha256 r))
              || negb (bool_decide (da_book_digest a = public_depth_digest levels))
              || negb (bool_decide (da_state_commitment a = ne_private_state_sha256 r))
              || negb (bool_decide (da_program_sha256 a = ne_program_sha256 r))
              || negb (da_issued_at a =? rp_issued_at plan)
              || negb (da_valid_until a =? rp_expires_at plan)
              || negb (Bool.eqb (da_settlement_required a)
                         (existsb slot_matched (br_slots (ne_result r))))) InvalidReceipt
      | None, None => Ok ()
      | _, _ => Err InvalidReceipt
      end;
  signature ← map_err (λ _, InvalidReceipt) (sig_try_from (ne_signature r));
  map_err (λ _, InvalidReceipt) (verify_strict expected_signer (execution_signature_body r) signature).

(** [NativeFinalityRecord::validate]. *)
Definition observation_validate (n : NativeFinalityRecord) (r : NodeExecutionReceipt) :
    result string () :=
  fail_if (negb (bool_decide (nf_round_id n = ne_round_id r))
      || negb (bool_decide (nf_public_output_sha256 n = ne_public_output_sha256 r))
      || negb (match br_slots (ne_result r) !! Z.to_nat (nf_slot n) with
               | Some s => slot_matched s
               | None => false
               end)
      || is_zero (nf_maker_order n) || is_zero (nf_taker_order n)
      || bool_decide (nf_maker_order n = nf_taker_order n)
      || Nat.eqb (length (nf_transaction_id n)) 0 || Nat.ltb 128 (length (nf_transaction_id n))
      || Nat.eqb (length (nf_block_id n)) 0 || Nat.ltb 128 (length (nf_block_id n))
      || (nf_height n =? 0) || is_zero (nf_statement n)
      || bool_decide (nf_batch_statement n = Some zero_digest)
      || is_zero (nf_before_root n) || is_zero (nf_after_root n)
      || bool_decide (nf_before_root n = nf_after_root n))
    "canonical observation is incomplete or names another executed slot".

(** One atomic group: every observation repeats the group's transaction, with a
    statement of its own. *)
Fixpoint same_group (first : NativeFinalityRecord) (statement : Digest32) (seen : gset Digest32)
    (l : btree Z NativeFinalityRecord) : result string () :=
  match l with
  | [] => Ok ()
  | (slot, n) :: l =>
      _ ← fail_if (negb (slot =? nf_slot n)
          || negb (bool_decide (nf_round_id n = nf_round_id first))
          || negb (bool_decide (nf_public_output_sha256 n = nf_public_output_sha256 first))
          || negb (bool_decide (nf_batch_statement n = Some statement))
          || is_zero statement
          || negb (bool_decide (nf_transaction_id n = nf_transaction_id first))
          || negb (bool_decide (nf_block_id n = nf_block_id first))
          || negb (nf_height n =? nf_height first)
          || negb (bool_decide (nf_before_root n = nf_before_root first))
          || negb (bool_decide (nf_after_root n = nf_after_root first))
          || bool_decide (nf_statement n ∈ seen))
        "native observations do not belong to one atomic group";
      same_group first statement ({[nf_statement n]} ∪ seen) l
  end.

(** Separate transactions: the bytes to hash and the highest block. *)
Fixpoint separate_fills (first : NativeFinalityRecord) (seen : list bytes) (height : Z)
    (l : btree Z NativeFinalityRecord) : result string (bytes * Z) :=
  match l with
  | [] => Ok ([], height)
  | (slot, n) :: l =>
      _ ← fail_if (negb (slot =? nf_slot n)
          || negb (bool_decide (nf_round_id n = nf_round_id first))
          || negb (bool_decide (nf_public_output_sha256 n = nf_public_output_sha256 first))
          || bool_decide (is_Some (nf_batch_statement n))
          || bool_decide (nf_transaction_id n ∈ seen))
        "native round finality contains another round or duplicate transaction";
      json ← ok_or (json_observation n) "serde_json";
      '(rest, top) ← separate_fills first (nf_transaction_id n :: seen) (Z.max height (nf_height n)) l;
      Ok (json ++ rest, top)
  end.

Definition aggregate_finality (records : btree Z NativeFinalityRecord) :
    result string PrivateStateFinality :=
  match records with
  | [] => Err "no confirmed native fills"
  | (_, first) :: _ =>
      match nf_batch_statement first with
      | Some statement =>
          _ ← same_group first statement ∅ records;
          Ok (mk_private_finality (nf_round_id first) (nf_public_output_sha256 first) statement
                statement (nf_height first))
      | None =>
          '(body, height) ← separate_fills first [] 0 records;
          let digest := if Nat.eqb (length records) 1 then nf_statement first
            else sha256 (ascii_bytes "OCLOB:NATIVE-ROUND-FINALITY:v1"
                   ++ u16_be (Z.of_nat (length records)) ++ body) in
          Ok (mk_private_finality (nf_round_id first) (nf_public_output_sha256 first) digest digest
                height)
      end
  end.

(** The matched slots of a receipt, in order. *)
Definition matched_slots (r : NodeExecutionReceipt) : list Z :=
  omap (λ '(i, s), if slot_matched s then Some i else None)
    (imap (λ i s, (Z.of_nat i, s)) (br_slots (ne_result r))).

Fixpoint validate_observations (r : NodeExecutionReceipt) (l : btree Z NativeFinalityRecord) :
    result NodeError () :=
  match l with
  | [] => Ok ()
  | (_, n) :: l => _ ← map_err PrivateState (observation_validate n r); validate_observations r l
  end.

Definition require_complete (r : NodeExecutionReceipt) (records : btree Z NativeFinalityRecord)
    (finality : PrivateStateFinality) : result NodeError () :=
  let slots := matched_slots r in
  _ ← fail_if (Nat.eqb (length slots) 0 || negb (bool_decide (map fst records = slots)))
    (PrivateState "not every matched slot has node-observed canonical finality");
  _ ← validate_observations r records;
  aggregated ← map_err PrivateState (aggregate_finality records);
  fail_if (negb (bool_decide (aggregated = finality)))
    (PrivateState "coordinator finality differs from node-observed canonical transactions").

(** [PrivateStateFinality::validate]. *)
Definition finality_validate (f : PrivateStateFinality) : result NodeError () :=
  fail_if (is_zero (pf_round_id f) || is_zero (pf_public_output_sha256 f)
      || is_zero (pf_transition_digest f) || is_zero (pf_canonical_receipt_digest f)
      || (pf_canonical_height f =? 0))
    (PrivateState "canonical finality binding is incomplete").

End receipts.

(** ** Receipts of the store *)

Record NodeAdmissionReceipt := mk_node_admission {
  na_version : Z;
  na_party : Z;
  na_order_commitment : OrderCommitment;
  na_manifest_signer : Digest32;
  na_order_share_digest : Digest32;
  na_capability_key_share_digest : Digest32;
  na_generation : Z;
  na_state_digest : Digest32;
  na_signer : Digest32;
  na_signature : bytes
}.
#[export] Instance node_admission_eq_dec : EqDecision NodeAdmissionReceipt.
Proof. solve_decision. Defined.

Record NodePrivateStateReceipt := mk_private_state {
  pr_version : Z;
  pr_party : Z;
  pr_round_id : Digest32;
  pr_private_state_sha256 : Digest32;
  pr_transition_digest : Digest32;
  pr_canonical_receipt_digest : Digest32;
  pr_canonical_height : Z;
  pr_generation : Z;
  pr_state_digest : Digest32;
  pr_signer : Digest32;
  pr_signature : bytes
}.
#[export] Instance private_state_receipt_eq_dec : EqDecision NodePrivateStateReceipt.
Proof. solve_decision. Defined.

Section store_receipts.
Context `{Crypto}.

Definition admission_signature_body (r : NodeAdmissionReceipt) : bytes :=
  ADMISSION_RECEIPT_DOMAIN ++ u16_be (na_version r) ++ u16_be (na_party r)
  ++ d_bytes (na_order_commitment r) ++ d_bytes (na_manifest_signer r)
  ++ d_bytes (na_order_share_digest r) ++ d_bytes (na_capability_key_share_digest r)
  ++ u64_be (na_generation r) ++ d_bytes (na_state_digest r) ++ d_bytes (na_signer r).

(** [NodeAdmissionReceipt::sign] and [verify] of a manifest's commitment and signer. *)
Definition admission_sign (party : Z) (order : OrderCommitment)
    (manifest_signer order_share capability_share : Digest32) (generation : Z)
    (state_digest : Digest32) (key : SigningKey) : option NodeAdmissionReceipt :=
  if (Z.of_nat MPC_PARTIES <=? party) || (generation =? 0) || is_zero state_digest
     || is_zero order_share || is_zero capability_share
  then None
  else
    let receipt signature := {|
      na_version := RECORD_VERSION; na_party := party; na_order_commitment := order;
      na_manifest_signer := manifest_signer; na_order_share_digest := order_share;
      na_capability_key_share_digest := capability_share; na_generation := generation;
      na_state_digest := state_digest; na_signer := vk_fingerprint (verifying_key key);
      na_signature := signature |} in
    match try_sign key (admission_signature_body (receipt [])) with
    | Ok signature => Some (receipt (sig_bytes signature))
    | Err _ => None
    end.

Definition admission_verify (r : NodeAdmissionReceipt) (order : OrderCommitment)
    (manifest_signer : Digest32) (expected_party : Z) (order_share capability_share : Digest32)
    (expected_signer : VerifyingKey) : bool :=
  (na_version r =? RECORD_VERSION) && (na_party r =? expected_party)
  && (na_party r <? Z.of_nat MPC_PARTIES)
  && bool_decide (na_order_commitment r = order)
  && bool_decide (na_manifest_signer r = manifest_signer)
  && bool_decide (na_order_share_digest r = order_share)
  && bool_decide (na_capability_key_share_digest r = capability_share)
  && negb (is_zero (na_order_share_digest r)) && negb (is_zero (na_capability_key_share_digest r))
  && negb (na_generation r =? 0) && negb (is_zero (na_state_digest r))
  && bool_decide (na_signer r = vk_fingerprint expected_signer)
  && signature_ok expected_signer (admission_signature_body r) (na_signature r).

Definition private_state_signature_body (r : NodePrivateStateReceipt) : bytes :=
  PRIVATE_STATE_RECEIPT_DOMAIN ++ u16_be (pr_version r) ++ u16_be (pr_party r)
  ++ d_bytes (pr_round_id r) ++ d_bytes (pr_private_state_sha256 r)
  ++ d_bytes (pr_transition_digest r) ++ d_bytes (pr_canonical_receipt_digest r)
  ++ u64_be (pr_canonical_height r) ++ u64_be (pr_generation r) ++ d_bytes (pr_state_digest r)
  ++ d_bytes (pr_signer r).

(** [NodePrivateStateReceipt::sign] and [verify]. *)
Definition private_state_sign (party : Z) (execution : NodeExecutionReceipt)
    (finality : PrivateStateFinality) (generation : Z) (state_digest : Digest32)
    (key : SigningKey) : option NodePrivateStateReceipt :=
  if negb (ne_party execution =? party)
     || negb (bool_decide (ne_round_id execution = pf_round_id finality))
     || negb (bool_decide (ne_public_output_sha256 execution = pf_public_output_sha256 finality))
     || is_zero (ne_private_state_sha256 execution) || is_zero (pf_transition_digest finality)
     || is_zero (pf_canonical_receipt_digest finality) || (pf_canonical_height finality =? 0)
     || (generation =? 0) || is_zero state_digest
  then None
  else
    let receipt signature := {|
      pr_version := RECORD_VERSION; pr_party := party; pr_round_id := pf_round_id finality;
      pr_private_state_sha256 := ne_private_state_sha256 execution;
      pr_transition_digest := pf_transition_digest finality;
      pr_canonical_receipt_digest := pf_canonical_receipt_digest finality;
      pr_canonical_height := pf_canonical_height finality; pr_generation := generation;
      pr_state_digest := state_digest; pr_signer := vk_fingerprint (verifying_key key);
      pr_signature := signature |} in
    match try_sign key (private_state_signature_body (receipt [])) with
    | Ok signature => Some (receipt (sig_bytes signature))
    | Err _ => None
    end.

Definition private_state_verify (r : NodePrivateStateReceipt) (execution : NodeExecutionReceipt)
    (finality : PrivateStateFinality) (expected_party : Z) (expected_signer : VerifyingKey) : bool :=
  (pr_version r =? RECORD_VERSION) && (pr_party r =? expected_party)
  && bool_decide (pr_round_id r = pf_round_id finality)
  && bool_decide (pr_round_id r = ne_round_id execution)
  && bool_decide (pr_private_state_sha256 r = ne_private_state_sha256 execution)
  && bool_decide (pr_transition_digest r = pf_transition_digest finality)
  && bool_decide (pr_canonical_receipt_digest r = pf_canonical_receipt_digest finality)
  && (pr_canonical_height r =? pf_canonical_height finality)
  && bool_decide (ne_public_output_sha256 execution = pf_public_output_sha256 finality)
  && negb (pr_generation r =? 0) && negb (is_zero (pr_state_digest r))
  && bool_decide (pr_signer r = vk_fingerprint expected_signer)
  && signature_ok expected_signer (private_state_signature_body r) (pr_signature r).

End store_receipts.
