(* ===== verification/NodeState.v ===== *)
(** * The durable state of a share store

    [oclob-node/src/lib.rs] and [native_lifecycle.rs]: what a node keeps (sealed
    shares, completed rounds, its ordering chain, reservation claims, private
    book heads, observed fills and lifecycle commands), the checks [read_state]
    makes before a file is trusted, and the framed file itself.

    Maps keyed by the hexadecimal text of a digest are keyed by the digest; where
    [read_state] scans a map, the scan order decides only which of several errors
    is reported first. *)

From S2P Require Import Prelude BTree Bytes AppCrypto Orders Matching Circuit MpcRunner Book.
From S2P Require Import Ordering Reservations Edge NodeReceipts.
Open Scope string_scope.
Open Scope list_scope.
Open Scope Z_scope.

Definition STORE_MAGIC : bytes := ascii_bytes "OCLOBN01".
Definition STORE_VERSION : Z := 13.
Definition MAX_STORE_BYTES : Z := 64 * 1024 * 1024.
Definition PRIVATE_ORDER_WIRES : nat := 8.
Definition PRIVATE_BOOK_WIRES : nat := (MAX_MATCH_SLOTS + 1) * PRIVATE_ORDER_WIRES.
Definition PERSISTENCE_WIRES : Z := Z.of_nat PRIVATE_BOOK_WIRES + Z.of_nat MAX_MATCH_SLOTS * 616.

(** ** Lifecycle commands *)

(** [ApplicationReleaseReason]. *)
Inductive ReleaseReason := Cancelled | Expired.
#[export] Instance release_reason_eq_dec : EqDecision ReleaseReason.
Proof. solve_decision. Defined.

Record LifecycleCommand := mk_command {
  lc_version : Z;
  lc_market_id : bytes;
  lc_target : OrderCommitment;
  lc_reason : ReleaseReason;
  lc_issued_at : Z;
  lc_expires_at : Z;
  lc_nonce : Digest32;
  lc_signature : bytes
}.
#[export] Instance command_eq_dec : EqDecision LifecycleCommand.
Proof. solve_decision. Defined.

Record LifecycleFinality := mk_lifecycle_finality {
  lf_command : Digest32;
  lf_target : OrderCommitment;
  lf_transaction_id : bytes;
  lf_block_id : bytes;
  lf_height : Z;
  lf_statement : Digest32;
  lf_before_root : Digest32;
  lf_after_root : Digest32;
  lf_released_sequence : Z
}.
#[export] Instance lifecycle_finality_eq_dec : EqDecision LifecycleFinality.
Proof. solve_decision. Defined.

Record StoredLifecycle := mk_stored_lifecycle {
  sl_command : LifecycleCommand;
  sl_manifest : EdgeOrderManifest;
  sl_certificate : option OrderCertificate;
  sl_finality : option LifecycleFinality
}.

(** ** The state *)

Record StoredOrderVote := mk_stored_vote { sv_statement_digest : Digest32; sv_expires_at : Z }.

Record PrivateBookStateRef := mk_head {
  ph_round_id : Digest32;
  ph_private_state_sha256 : Digest32;
  ph_wire_offset : Z;
  ph_transition_digest : Digest32;
  ph_canonical_receipt_digest : Digest32;
  ph_canonical_height : Z
}.

Record PrivateRoundFinalization := mk_finalization {
  fz_native_finality_required : bool;
  fz_public_output_sha256 : Digest32;
  fz_transition_digest : Digest32;
  fz_canonical_receipt_digest : Digest32;
  fz_canonical_height : Z;
  fz_private_state_receipt : option NodePrivateStateReceipt
}.

Record StoredRecord `{EdgeCrates} := mk_record {
  sr_manifest : EdgeOrderManifest;
  sr_sealed : SealedPartyShare;
  sr_sealed_capability_key_share : option SealedCapabilityKeyShare;
  sr_admitted_at : Z;
  sr_admission_receipt : option NodeAdmissionReceipt
}.

Record StoreState `{EdgeCrates} := mk_store {
  st_version : Z;
  st_deployment_crypto_policy : bytes;
  st_party : Z;
  st_generation : Z;
  st_records : gmap Digest32 StoredRecord;
  st_completed_rounds : gmap Digest32 NodeExecutionReceipt;
  st_ordering_sequence : Z;
  st_ordering_head : Digest32;
  st_ordering_votes : gmap Z StoredOrderVote;
  st_ordered_commitments : gset Digest32;
  st_reservation_claims : gmap Digest32 OrderCommitment;
  st_private_heads : gmap Digest32 PrivateBookStateRef;
  st_finalized_private_rounds : gmap Digest32 PrivateRoundFinalization;
  st_native_finalities : gmap Digest32 (btree Z NativeFinalityRecord);
  st_lifecycle : gmap Digest32 StoredLifecycle
}.

(** Assignments to fields of [self.state]. *)
Section updates.
Context `{EdgeCrates}.

Definition with_generation (g : Z) (s : StoreState) : StoreState := {|
  st_version := st_version s; st_deployment_crypto_policy := st_deployment_crypto_policy s;
  st_party := st_party s; st_generation := g; st_records := st_records s; st_completed_rounds
  := st_completed_rounds s; st_ordering_sequence := st_ordering_sequence s; st_ordering_head
  := st_ordering_head s; st_ordering_votes := st_ordering_votes s; st_ordered_commitments :=
  st_ordered_commitments s; st_reservation_claims := st_reservation_claims s; st_private_heads
  := st_private_heads s; st_finalized_private_rounds := st_finalized_private_rounds s;
  st_native_finalities := st_native_finalities s; st_lifecycle := st_lifecycle s |}.

Definition with_records (m : gmap Digest32 StoredRecord) (s : StoreState) : StoreState := {|
  st_version := st_version s; st_deployment_crypto_policy := st_deployment_crypto_policy s;
  st_party := st_party s; st_generation := st_generation s; st_records := m;
  st_completed_rounds := st_completed_rounds s; st_ordering_sequence := st_ordering_sequence
  s; st_ordering_head := st_ordering_head s; st_ordering_votes := st_ordering_votes s;
  st_ordered_commitments := st_ordered_commitments s; st_reservation_claims :=
  st_reservation_claims s; st_private_heads := st_private_heads s; st_finalized_private_rounds
  := st_finalized_private_rounds s; st_native_finalities := st_native_finalities s;
  st_lifecycle := st_lifecycle s |}.

Definition with_completed_rounds (m : gmap Digest32 NodeExecutionReceipt) (s : StoreState) : StoreState := {|
  st_version := st_version s; st_deployment_crypto_policy := st_deployment_crypto_policy s;
  st_party := st_party s; st_generation := st_generation s; st_records := st_records s;
  st_completed_rounds := m; st_ordering_sequence := st_ordering_sequence s; st_ordering_head
  := st_ordering_head s; st_ordering_votes := st_ordering_votes s; st_ordered_commitments :=
  st_ordered_commitments s; st_reservation_claims := st_reservation_claims s; st_private_heads
  := st_private_heads s; st_finalized_private_rounds := st_finalized_private_rounds s;
  st_native_finalities := st_native_finalities s; st_lifecycle := st_lifecycle s |}.

Definition with_votes (m : gmap Z StoredOrderVote) (s : StoreState) : StoreState := {|
  st_version := st_version s; st_deployment_crypto_policy := st_deployment_crypto_policy s;
  st_party := st_party s; st_generation := st_generation s; st_records := st_records s;
  st_completed_rounds := st_completed_rounds s; st_ordering_sequence := st_ordering_sequence
  s; st_ordering_head := st_ordering_head s; st_ordering_votes := m; st_ordered_commitments :=
  st_ordered_commitments s; st_reservation_claims := st_reservation_claims s; st_private_heads
  := st_private_heads s; st_finalized_private_rounds := st_finalized_private_rounds s;
  st_native_finalities := st_native_finalities s; st_lifecycle := st_lifecycle s |}.

Definition with_chain (sequence : Z) (chain_head : Digest32) (ordered : gset Digest32) (s : StoreState) : StoreState := {|
  st_version := st_version s; st_deployment_crypto_policy := st_deployment_crypto_policy s;
  st_party := st_party s; st_generation := st_generation s; st_records := st_records s;
  st_completed_rounds := st_completed_rounds s; st_ordering_sequence := sequence;
  st_ordering_head := chain_head; st_ordering_votes := st_ordering_votes s;
  st_ordered_commitments := ordered; st_reservation_claims := st_reservation_claims s;
  st_private_heads := st_private_heads s; st_finalized_private_rounds :=
  st_finalized_private_rounds s; st_native_finalities := st_native_finalities s; st_lifecycle
  := st_lifecycle s |}.

Definition with_claims (m : gmap Digest32 OrderCommitment) (s : StoreState) : StoreState := {|
  st_version := st_version s; st_deployment_crypto_policy := st_deployment_crypto_policy s;
  st_party := st_party s; st_generation := st_generation s; st_records := st_records s;
  st_completed_rounds := st_completed_rounds s; st_ordering_sequence := st_ordering_sequence
  s; st_ordering_head := st_ordering_head s; st_ordering_votes := st_ordering_votes s;
  st_ordered_commitments := st_ordered_commitments s; st_reservation_claims := m;
  st_private_heads := st_private_heads s; st_finalized_private_rounds :=
  st_finalized_private_rounds s; st_native_finalities := st_native_finalities s; st_lifecycle
  := st_lifecycle s |}.

Definition with_heads (m : gmap Digest32 PrivateBookStateRef) (s : StoreState) : StoreState := {|
  st_version := st_version s; st_deployment_crypto_policy := st_deployment_crypto_policy s;
  st_party := st_party s; st_generation := st_generation s; st_records := st_records s;
  st_completed_rounds := st_completed_rounds s; st_ordering_sequence := st_ordering_sequence
  s; st_ordering_head := st_ordering_head s; st_ordering_votes := st_ordering_votes s;
  st_ordered_commitments := st_ordered_commitments s; st_reservation_claims :=
  st_reservation_claims s; st_private_heads := m; st_finalized_private_rounds :=
  st_finalized_private_rounds s; st_native_finalities := st_native_finalities s; st_lifecycle
  := st_lifecycle s |}.

Definition with_finalized (m : gmap Digest32 PrivateRoundFinalization) (s : StoreState) : StoreState := {|
  st_version := st_version s; st_deployment_crypto_policy := st_deployment_crypto_policy s;
  st_party := st_party s; st_generation := st_generation s; st_records := st_records s;
  st_completed_rounds := st_completed_rounds s; st_ordering_sequence := st_ordering_sequence
  s; st_ordering_head := st_ordering_head s; st_ordering_votes := st_ordering_votes s;
  st_ordered_commitments := st_ordered_commitments s; st_reservation_claims :=
  st_reservation_claims s; st_private_heads := st_private_heads s; st_finalized_private_rounds
  := m; st_native_finalities := st_native_finalities s; st_lifecycle := st_lifecycle s |}.

Definition with_native (m : gmap Digest32 (btree Z NativeFinalityRecord)) (s : StoreState) : StoreState := {|
  st_version := st_version s; st_deployment_crypto_policy := st_deployment_crypto_policy s;
  st_party := st_party s; st_generation := st_generation s; st_records := st_records s;
  st_completed_rounds := st_completed_rounds s; st_ordering_sequence := st_ordering_sequence
  s; st_ordering_head := st_ordering_head s; st_ordering_votes := st_ordering_votes s;
  st_ordered_commitments := st_ordered_commitments s; st_reservation_claims :=
  st_reservation_claims s; st_private_heads := st_private_heads s; st_finalized_private_rounds
  := st_finalized_private_rounds s; st_native_finalities := m; st_lifecycle := st_lifecycle s |}.

Definition with_lifecycle (m : gmap Digest32 StoredLifecycle) (s : StoreState) : StoreState := {|
  st_version := st_version s; st_deployment_crypto_policy := st_deployment_crypto_policy s;
  st_party := st_party s; st_generation := st_generation s; st_records := st_records s;
  st_completed_rounds := st_completed_rounds s; st_ordering_sequence := st_ordering_sequence
  s; st_ordering_head := st_ordering_head s; st_ordering_votes := st_ordering_votes s;
  st_ordered_commitments := st_ordered_commitments s; st_reservation_claims :=
  st_reservation_claims s; st_private_heads := st_private_heads s; st_finalized_private_rounds
  := st_finalized_private_rounds s; st_native_finalities := st_native_finalities s;
  st_lifecycle := m |}.

End updates.

(** [serde_json] on a command and on the state; [json_version] is the ["version"]
    member of a parsed value. *)
Class StoreJson `{EdgeCrates} := {
  json_command : LifecycleCommand → option bytes;
  json_store : StoreState → option bytes;
  json_version : bytes → option (option Z);
  parse_store : bytes → option StoreState
}.

(** [(0..).all] over the entries of a map, stopping at the first error. *)
Definition check_map {V} (f : Digest32 → V → result NodeError ()) (m : gmap Digest32 V) :
    result NodeError () :=
  for_each (λ _ kv, f kv.1 kv.2) () (map_to_list m).

Section state.
Context `{Crypto} `{ReceiptJson} `{StoreJson}.

Definition empty_state (party : Z) (policy : bytes) : StoreState := {|
  st_version := STORE_VERSION; st_deployment_crypto_policy := policy; st_party := party;
  st_generation := 0; st_records := ∅; st_completed_rounds := ∅; st_ordering_sequence := 0;
  st_ordering_head := zero_digest; st_ordering_votes := ∅; st_ordered_commitments := ∅;
  st_reservation_claims := ∅; st_private_heads := ∅; st_finalized_private_rounds := ∅;
  st_native_finalities := ∅; st_lifecycle := ∅ |}.

(** ** Commands *)

Definition command_digest (c : LifecycleCommand) : result string Digest32 :=
  json ← ok_or (json_command {|
      lc_version := lc_version c; lc_market_id := lc_market_id c; lc_target := lc_target c;
      lc_reason := lc_reason c; lc_issued_at := lc_issued_at c; lc_expires_at := lc_expires_at c;
      lc_nonce := lc_nonce c; lc_signature := [] |}) "serde_json";
  Ok (sha256 (ascii_bytes "OCLOB:NATIVE-LIFECYCLE:v2" ++ json)).

Definition command_verify (c : LifecycleCommand) (m : EdgeOrderManifest) (now : Z) :
    result string () :=
  _ ← map_err (λ _, "manifest") (manifest_verify m (m_retention_deadline m));
  _ ← fail_if (negb (lc_version c =? 2)
      || negb (bool_decide (lc_market_id c = m_market_id m))
      || negb (bool_decide (lc_target c = m_commitment m))
      || negb (uses_pretrade_reservation m)
      || (now <? lc_issued_at c) || (lc_expires_at c <? now)
      || (lc_expires_at c <=? lc_issued_at c)
      || (1800 <? lc_expires_at c - lc_issued_at c))
    "lifecycle command is outside its order or validity interval";
  match lc_reason c with
  | Cancelled =>
      _ ← fail_if (is_zero (lc_nonce c) || (m_retention_deadline m <? lc_expires_at c))
        "cancellation needs a fresh nonce and a live order";
      key ← map_err (λ _, "key") (vk_from_bytes (m_signer m));
      signature ← map_err (λ _, "signature") (sig_try_from (lc_signature c));
      digest ← command_digest c;
      map_err (λ _, "cancellation owner signature is invalid")
        (verify_strict key (d_bytes digest) signature)
  | Expired =>
      fail_if ((lc_issued_at c <=? m_retention_deadline m)
          || negb (is_zero (lc_nonce c)) || negb (Nat.eqb (length (lc_signature c)) 0))
        "expiry must follow the actual deadline without an owner signature"
  end.

Definition command_cancel (m : EdgeOrderManifest) (now expires_at : Z) (nonce : Digest32)
    (key : SigningKey) : result string LifecycleCommand :=
  let command signature := {|
    lc_version := 2; lc_market_id := m_market_id m; lc_target := m_commitment m;
    lc_reason := Cancelled; lc_issued_at := now; lc_expires_at := expires_at; lc_nonce := nonce;
    lc_signature := signature |} in
  digest ← command_digest (command []);
  signature ← map_err (λ _, "signature") (try_sign key (d_bytes digest));
  let command := command (sig_bytes signature) in
  _ ← command_verify command m now;
  Ok command.

Definition command_expire (m : EdgeOrderManifest) (now expires_at : Z) :
    result string LifecycleCommand :=
  let command := {|
    lc_version := 2; lc_market_id := m_market_id m; lc_target := m_commitment m;
    lc_reason := Expired; lc_issued_at := now; lc_expires_at := expires_at; lc_nonce := zero_digest;
    lc_signature := [] |} in
  _ ← command_verify command m now;
  Ok command.

(** ** The checks on a state that was read back *)

Definition bad_ordering (s : StoreState) (expected_party : Z) : bool :=
  negb (st_party s =? expected_party)
  || negb (Bool.eqb (st_ordering_sequence s =? 0) (is_zero (st_ordering_head s)))
  || negb (Z.of_nat (size (st_ordered_commitments s)) =? st_ordering_sequence s)
  || Nat.ltb 1 (size (st_ordering_votes s))
  || negb (bool_decide (map_Forall (λ sequence vote,
       sequence = saturating_add (st_ordering_sequence s) 1
       ∧ sv_statement_digest vote ≠ zero_digest ∧ sv_expires_at vote ≠ 0)
       (st_ordering_votes s))).

Definition bad_record (party : Z) (key : Digest32) (r : StoredRecord) : bool :=
  negb (bool_decide (key = m_commitment (sr_manifest r)))
  || negb (bool_decide (m_commitment (sr_manifest r) = ss_commitment (sr_sealed r)))
  || negb (ss_party (sr_sealed r) =? party)
  || match sr_sealed_capability_key_share r with
     | Some share =>
         negb (bool_decide (sq_order_commitment share = m_commitment (sr_manifest r)))
         || negb (bool_decide (sq_capability_commitment share
                    = m_settlement_capability_commitment (sr_manifest r)))
         || negb (sq_party share =? party)
     | None => false
     end.

Definition bad_lifecycle (s : StoreState) (id digest : Digest32) (e : StoredLifecycle) : bool :=
  negb (bool_decide (id = digest))
  || negb (Bool.eqb (bool_decide (is_Some (sl_certificate e)))
             (bool_decide (id ∈ st_ordered_commitments s)))
  || match sl_certificate e with
     | Some c =>
         negb (bool_decide (oc_commitment c = digest))
         || negb (bool_decide (oc_market_id c = lc_market_id (sl_command e)))
         || (oc_sequence c =? 0) || (st_ordering_sequence s <? oc_sequence c)
         || (lc_expires_at (sl_command e) <? oc_expires_at c)
     | None => false
     end
  || match sl_finality e with
     | Some f =>
         bool_decide (sl_certificate e = None)
         || negb (bool_decide (lf_command f = digest))
         || negb (bool_decide (lf_target f = lc_target (sl_command e)))
         || (lf_height f =? 0) || (lf_released_sequence f =? 0) || is_zero (lf_statement f)
         || is_zero (lf_before_root f) || is_zero (lf_after_root f)
         || bool_decide (lf_before_root f = lf_after_root f)
         || Nat.eqb (length (lf_transaction_id f)) 0 || Nat.eqb (length (lf_block_id f)) 0
         || bool_decide (is_Some (st_records s !! lc_target (sl_command e)))
         || bool_decide (is_Some (st_private_heads s !! lc_target (sl_command e)))
     | None => false
     end.

Definition check_lifecycle (s : StoreState) (id : Digest32) (e : StoredLifecycle) :
    result NodeError () :=
  _ ← map_err State (command_verify (sl_command e) (sl_manifest e) (lc_issued_at (sl_command e)));
  digest ← map_err State (command_digest (sl_command e));
  fail_if (bad_lifecycle s id digest e) (State "native lifecycle history is inconsistent").

(** The complete-result test of [record_completed_round] and [read_state]. *)
Definition incomplete_receipt (party : Z) (r : NodeExecutionReceipt) : bool :=
  negb (ne_party r =? party) || is_zero (ne_round_id r) || is_zero (ne_round_commitment r)
  || is_zero (ne_program_sha256 r) || is_zero (ne_artifact_sha256 r)
  || is_zero (ne_private_parent_digest r) || is_zero (ne_private_state_sha256 r)
  || negb (Nat.eqb (length (br_slots (ne_result r))) MAX_MATCH_SLOTS)
  || negb (bool_decide (ne_public_output_sha256 r = public_output_digest (ne_result r)))
  || is_zero (ne_signer r) || negb (verify_stored_signature r).

(** The head of [commitment] lacks a record, or is not the finalized state of the
    round it names. *)
Definition misbound_head (s : StoreState) (h : PrivateBookStateRef) : bool :=
  is_zero (ph_round_id h) || is_zero (ph_private_state_sha256 h)
  || (Z.of_nat (MAX_MATCH_SLOTS * PRIVATE_ORDER_WIRES) <? ph_wire_offset h)
  || negb (ph_wire_offset h mod Z.of_nat PRIVATE_ORDER_WIRES =? 0)
  || is_zero (ph_transition_digest h) || is_zero (ph_canonical_receipt_digest h)
  || (ph_canonical_height h =? 0)
  || match st_completed_rounds s !! ph_round_id h with
     | Some r => negb (bool_decide (ne_private_state_sha256 r = ph_private_state_sha256 h))
     | None => true
     end
  || match st_finalized_private_rounds s !! ph_round_id h with
     | Some f =>
         negb (bool_decide (fz_transition_digest f = ph_transition_digest h))
         || negb (bool_decide (fz_canonical_receipt_digest f = ph_canonical_receipt_digest h))
         || negb (fz_canonical_height f =? ph_canonical_height h)
     | None => true
     end.

Definition bad_head (s : StoreState) (commitment : Digest32) (h : PrivateBookStateRef) : bool :=
  bool_decide (st_records s !! commitment = None) || misbound_head s h.

Fixpoint check_observations (r : NodeExecutionReceipt) (l : btree Z NativeFinalityRecord) :
    result NodeError () :=
  match l with
  | [] => Ok ()
  | (slot, n) :: l =>
      _ ← fail_if (negb (slot =? nf_slot n)) (State "native slot index changed");
      _ ← map_err State (observation_validate n r);
      check_observations r l
  end.

Definition check_native (s : StoreState) (round : Digest32) (l : btree Z NativeFinalityRecord) :
    result NodeError () :=
  r ← ok_or (st_completed_rounds s !! round) (State "native finality has no completed round");
  _ ← fail_if (Nat.eqb (length l) 0) (State "empty native observation set");
  check_observations r l.

Definition finality_of (r : NodeExecutionReceipt) (f : PrivateRoundFinalization) :
    PrivateStateFinality :=
  {| pf_round_id := ne_round_id r; pf_public_output_sha256 := fz_public_output_sha256 f;
     pf_transition_digest := fz_transition_digest f;
     pf_canonical_receipt_digest := fz_canonical_receipt_digest f;
     pf_canonical_height := fz_canonical_height f |}.

Definition check_finalization (s : StoreState) (party : Z) (round : Digest32)
    (f : PrivateRoundFinalization) : result NodeError () :=
  let misbound := State "node share store contains a misbound private-state finalization" in
  _ ← fail_if (is_zero (fz_public_output_sha256 f) || is_zero (fz_transition_digest f)
      || is_zero (fz_canonical_receipt_digest f) || (fz_canonical_height f =? 0)) misbound;
  r ← ok_or (st_completed_rounds s !! round) misbound;
  _ ← fail_if (negb (bool_decide (ne_public_output_sha256 r = fz_public_output_sha256 f))) misbound;
  signed ← ok_or (fz_private_state_receipt f)
    (State "node share store contains an unsigned private-state finalization");
  signer ← map_err (λ _, State "signer") (vk_from_bytes (pr_signer signed));
  _ ← fail_if (negb (private_state_verify signed r (finality_of r f) party signer))
    (State "receipt");
  _ ← fail_if (st_generation s <? pr_generation signed)
    (State "node share store contains a future private-state receipt");
  if fz_native_finality_required f then
    records ← ok_or (st_native_finalities s !! round)
      (State "native finalized round lacks independent observations");
    require_complete r records (finality_of r f)
  else Ok ().

(** Everything [read_state] requires of a parsed state. *)
Definition validate_state (s : StoreState) (expected_party : Z) (expected_policy : bytes) :
    result NodeError () :=
  _ ← fail_if (negb (bool_decide (st_deployment_crypto_policy s = expected_policy)))
    (State "node share store belongs to another deployment cryptographic policy");
  _ ← fail_if (bad_ordering s expected_party)
    (State "node share store has an invalid party or ordering chain");
  _ ← check_map (λ k r, fail_if (bad_record expected_party k r)
        (State "node share store contains a misbound record")) (st_records s);
  _ ← check_map (check_lifecycle s) (st_lifecycle s);
  _ ← check_map (λ tag order, fail_if (is_zero tag || is_zero order)
        (State "reservation claim index is malformed")) (st_reservation_claims s);
  _ ← check_map (λ k r, fail_if (negb (bool_decide (k = ne_round_id r))
          || incomplete_receipt expected_party r)
        (State "node share store contains a misbound completed round")) (st_completed_rounds s);
  _ ← check_map (λ k h, fail_if (bad_head s k h)
        (State "node share store contains a misbound private-state head")) (st_private_heads s);
  _ ← check_map (check_native s) (st_native_finalities s);
  check_map (check_finalization s expected_party) (st_finalized_private_rounds s).

(** ** The file *)

Definition encode_store (s : StoreState) : result NodeError bytes :=
  payload ← ok_or (json_store s) (State "serde_json");
  _ ← fail_if (MAX_STORE_BYTES <? Z.of_nat (length payload))
    (State "node share store exceeds size limit");
  Ok (STORE_MAGIC ++ u64_be (Z.of_nat (length payload)) ++ payload ++ d_bytes (sha256 payload)).

Definition read_state (encoded : bytes) (expected_party : Z) (expected_policy : bytes) :
    result NodeError StoreState :=
  _ ← fail_if (MAX_STORE_BYTES + 48 <? Z.of_nat (length encoded))
    (State "node share store has unsafe type or size");
  _ ← fail_if (Nat.ltb (length encoded) 48 || negb (bool_decide (take 8 encoded = STORE_MAGIC)))
    (State "node share store header is invalid");
  let len := be_val (take 8 (drop 8 encoded)) in
  _ ← fail_if (negb (16 + len + 32 =? Z.of_nat (length encoded)))
    (State "node share store length is invalid");
  let payload := take (Z.to_nat len) (drop 16 encoded) in
  _ ← fail_if (negb (bool_decide (drop (16 + Z.to_nat len) encoded = d_bytes (sha256 payload))))
    (State "node share store checksum failed");
  value ← ok_or (json_version payload) (State "node share store payload is invalid");
  version ← ok_or value (State "node share store version is invalid");
  _ ← fail_if (negb (version =? STORE_VERSION))
    (State "policy-less node store requires explicit authenticated migration");
  s ← ok_or (parse_store payload) (State "node share store payload is invalid");
  _ ← validate_state s expected_party expected_policy;
  Ok s.

(** The digest of the state without its cached receipts. *)
Definition semantic (s : StoreState) : StoreState := {|
  st_version := st_version s; st_deployment_crypto_policy := st_deployment_crypto_policy s;
  st_party := st_party s; st_generation := st_generation s;
  st_records := (λ r, {| sr_manifest := sr_manifest r; sr_sealed := sr_sealed r;
      sr_sealed_capability_key_share := sr_sealed_capability_key_share r;
      sr_admitted_at := sr_admitted_at r; sr_admission_receipt := None |}) <$> st_records s;
  st_completed_rounds := st_completed_rounds s;
  st_ordering_sequence := st_ordering_sequence s; st_ordering_head := st_ordering_head s;
  st_ordering_votes := st_ordering_votes s;
  st_ordered_commitments := st_ordered_commitments s;
  st_reservation_claims := st_reservation_claims s; st_private_heads := st_private_heads s;
  st_finalized_private_rounds := (λ f, {|
      fz_native_finality_required := fz_native_finality_required f;
      fz_public_output_sha256 := fz_public_output_sha256 f;
      fz_transition_digest := fz_transition_digest f;
      fz_canonical_receipt_digest := fz_canonical_receipt_digest f;
      fz_canonical_height := fz_canonical_height f;
      fz_private_state_receipt := None |}) <$> st_finalized_private_rounds s;
  st_native_finalities := st_native_finalities s; st_lifecycle := st_lifecycle s |}.

Definition state_digest (s : StoreState) : result NodeError Digest32 :=
  payload ← ok_or (json_store (semantic s)) (State "serde_json");
  Ok (sha256 payload).

Definition round_commitment (party generation : Z) (resting : list OrderCommitment)
    (arriving : OrderCommitment) (contents : bytes) : Digest32 :=
  sha256 (ascii_bytes "OCLOB:NODE-ROUND:v1" ++ u16_be party ++ u64_be generation
    ++ u16_be (Z.of_nat (length resting)) ++ concat (map d_bytes resting) ++ d_bytes arriving
    ++ d_bytes (sha256 contents)).

End state.
