(* ===== verification/NodeStore.v ===== *)
(** * The share store

    [NodeShareStore] of [oclob-node/src/lib.rs] with its lifecycle half in
    [native_lifecycle.rs]: opening, trust pinning, share admission, ordering
    votes and certificates, round preparation and completion, canonical finality
    and private heads, key release, terminal commands and pruning.

    Every operation that saves takes the outcome of the file-system calls of
    [persist] as an argument; private [Persistence] files are a read function. *)

From S2P Require Import Prelude BTree Bytes AppCrypto Orders Matching Circuit MpcRunner Book.
From S2P Require Import Ordering Reservations Edge EdgeDecimal NodeReceipts NodeState.
Open Scope string_scope.
Open Scope list_scope.
Open Scope Z_scope.

(** How the calls of [persist] end: all succeed; one fails before the rename; one
    fails after it, when the new file is already in place. *)
Inductive Persisted := Durable | FailedBefore | FailedAfter.

Record ReservationTrust := mk_trust {
  tr_venue_id : Digest32;
  tr_defmi_id : Digest32;
  tr_signer : bytes
}.
#[export] Instance reservation_trust_eq_dec : EqDecision ReservationTrust.
Proof. solve_decision. Defined.

Record NodeShareStore `{EdgeCrates} := mk_share_store {
  ns_key : NodeDecryptionKey;
  ns_state : StoreState;
  ns_private_state_root : bool;
  ns_reservation_trust : option ReservationTrust;
  ns_disk : option bytes
}.

Record NodeStoreStatus := mk_status {
  ss_status_party : Z;
  ss_generation : Z;
  ss_record_count : nat;
  ss_completed_round_count : nat;
  ss_private_head_count : nat;
  ss_finalized_private_round_count : nat;
  ss_ordering_sequence : Z;
  ss_ordering_head : Digest32;
  ss_state_digest : Digest32
}.

Inductive IngestOutcome := Stored (generation : Z) | AlreadyPresent (generation : Z).

Record PreparedPartyInput := mk_prepared {
  pi_party : Z;
  pi_generation : Z;
  pi_round_commitment : Digest32;
  pi_private_parent_digest : Digest32;
  pi_contents : text;
  pi_arriving_manifest : EdgeOrderManifest;
  pi_resting_manifests : list EdgeOrderManifest
}.

(** What [confirm_release] reads from the chain: [AcceptedTransition], the
    reservation head and the signed release. *)
Record AcceptedTransition := mk_accepted {
  at_tx_id : bytes;
  at_block_id : bytes;
  at_height : Z;
  at_statement : Digest32;
  at_before_root : Digest32;
  at_after_root : Digest32
}.

Record ReleaseEvidence := mk_release_evidence {
  re_transaction_id : bytes;
  re_accepted : AcceptedTransition;
  re_statement : Digest32;
  re_before_root : Digest32;
  re_sequence : Z;
  re_head_released : bool;
  re_head_sequence : Z;
  re_head_receipt : Digest32;
  re_head_has_opening : bool
}.

(** The marker file of [deployment_policy.rs]. *)
Record MarkerFile := mk_marker {
  mf_symlink : bool;
  mf_is_file : bool;
  mf_mode : Z;
  mf_bytes : bytes
}.

Definition MAX_POLICY_BYTES : Z := 512.

Definition verify_marker_bytes (f : MarkerFile) (expected : bytes) : result string () :=
  _ ← fail_if (mf_symlink f) "deployment policy paths must not be symbolic links";
  _ ← fail_if (negb (mf_is_file f) || Nat.eqb (length (mf_bytes f)) 0
      || (MAX_POLICY_BYTES <? Z.of_nat (length (mf_bytes f)))
      || negb (Z.land (mf_mode f) 63 =? 0))
    "deployment policy marker has unsafe type, size, or permissions";
  fail_if (negb (bool_decide (mf_bytes f = expected)))
    "persisted deployment cryptographic policy does not match startup policy".

Definition require_existing_state (marker : option MarkerFile) (policy : option bytes) :
    result string () :=
  expected ← ok_or policy "deployment cryptographic policy is invalid";
  f ← ok_or marker "persistent state has no deployment cryptographic policy";
  verify_marker_bytes f expected.

(** [qomm_mpc::persistence] and the printing of its integers. *)
Record PersistenceFile := mk_persistence {
  pfl_shares : list Z;
  pfl_montgomery : bool;
  pfl_prime : Z;
  pfl_element_bytes : Z
}.

Class Persistence := {
  read_persistence : bytes → Z → option PersistenceFile;
  from_montgomery : Z → Z → Z → option Z;
  biguint_text : Z → text
}.

Section store.
Context `{Crypto} `{ReceiptJson} `{StoreJson} `{Persistence}.


Definition with_state (st : StoreState) (s : NodeShareStore) : NodeShareStore :=
  {| ns_key := ns_key s; ns_state := st; ns_private_state_root := ns_private_state_root s;
     ns_reservation_trust := ns_reservation_trust s; ns_disk := ns_disk s |}.

Definition with_disk (d : option bytes) (s : NodeShareStore) : NodeShareStore :=
  {| ns_key := ns_key s; ns_state := ns_state s;
     ns_private_state_root := ns_private_state_root s;
     ns_reservation_trust := ns_reservation_trust s; ns_disk := d |}.

(** ** Saving *)

Definition persist (io : Persisted) : method NodeShareStore NodeError () := λ s,
  match encode_store (ns_state s) with
  | Err e => (s, Err e)
  | Ok encoded =>
      match io with
      | Durable => (with_disk (Some encoded) s, Ok ())
      | FailedBefore => (s, Err Io)
      | FailedAfter => (with_disk (Some encoded) s, Err Io)
      end
  end.

Definition next_generation (st : StoreState) : result NodeError StoreState :=
  g ← ok_or (checked_add (st_generation st) 1) Generation;
  Ok (with_generation g st).

(** [previous = clone; mutate; generation += 1 or return; persist or restore]:
    an overflowing generation returns with the mutation in place. *)
Definition save_unguarded (st : StoreState) (io : Persisted) : method NodeShareStore NodeError () :=
  λ s, match next_generation st with
       | Err e => (with_state st s, Err e)
       | Ok st' =>
           match persist io (with_state st' s) with
           | (s', Err e) => (with_state (ns_state s) s', Err e)
           | (s', Ok _) => (s', Ok ())
           end
       end.

(** The same with [bump_generation], restoring on either failure. *)
Definition save (st : StoreState) (io : Persisted) : method NodeShareStore NodeError () :=
  λ s, match next_generation st with
       | Err e => (s, Err e)
       | Ok st' =>
           match persist io (with_state st' s) with
           | (s', Err e) => (with_state (ns_state s) s', Err e)
           | (s', Ok _) => (s', Ok ())
           end
       end.

(** ** Opening *)

Definition open_policy_bound (disk : option bytes) (marker : option MarkerFile)
    (policy : option bytes) (party : Z) (key : NodeDecryptionKey) (io : Persisted) :
    option bytes * result NodeError NodeShareStore :=
  let fresh st d := {| ns_key := key; ns_state := st; ns_private_state_root := false;
                       ns_reservation_trust := None; ns_disk := d |} in
  match (_ ← fail_if (Z.of_nat MPC_PARTIES <=? party) BadParty;
         _ ← map_err State (require_existing_state marker policy);
         ok_or policy (State "deployment cryptographic policy is invalid")) with
  | Err e => (disk, Err e)
  | Ok policy_bytes =>
      match disk with
      | Some encoded =>
          (disk, st ← read_state encoded party policy_bytes; Ok (fresh st disk))
      | None =>
          match persist io (fresh (empty_state party policy_bytes) None) with
          | (s, Ok _) => (ns_disk s, Ok s)
          | (s, Err e) => (ns_disk s, Err e)
          end
      end
  end.

Definition pin_record (s : NodeShareStore) (venue defmi : Digest32) (signer : bytes)
    (r : StoredRecord) : result NodeError () :=
  share ← map_err (λ _, State "share") (share_open (sr_sealed r) (ns_key s) (sr_manifest r)
    (st_party (ns_state s)) (sr_admitted_at r));
  admission ← map_err (λ _, State "admission") (verified_reservation_admission share (sr_manifest r)
    venue defmi signer (sr_admitted_at r));
  fail_if (negb (bool_decide (st_reservation_claims (ns_state s)
      !! ad_reservation_nullifier admission = Some (m_commitment (sr_manifest r)))))
    (State "reservation recovery lacks its one-order claim").

Definition pin_reservation_trust (venue defmi : Digest32) (signer : bytes) :
    method NodeShareStore NodeError () :=
  s ← self;
  _ ← try (fail_if (is_zero venue || is_zero defmi || negb (Nat.eqb (length signer) 1984))
        (Admission "trusted DeFMI reservation identity is zero"));
  _ ← try (fail_if (match ns_reservation_trust s with
        | Some existing => negb (bool_decide (existing = mk_trust venue defmi signer))
        | None => false
        end) (Admission "DeFMI reservation trust cannot change during one node generation"));
  _ ← try (check_map (λ _ r, if uses_pretrade_reservation (sr_manifest r)
        then pin_record s venue defmi signer r else Ok ()) (st_records (ns_state s)));
  set_self {| ns_key := ns_key s; ns_state := ns_state s;
              ns_private_state_root := ns_private_state_root s;
              ns_reservation_trust := Some (mk_trust venue defmi signer); ns_disk := ns_disk s |}.

Definition bind_private_state_root (directory : result NodeError ()) :
    method NodeShareStore NodeError () :=
  s ← self;
  _ ← try directory;
  set_self {| ns_key := ns_key s; ns_state := ns_state s; ns_private_state_root := true;
              ns_reservation_trust := ns_reservation_trust s; ns_disk := ns_disk s |}.

Definition status (s : NodeShareStore) : result NodeError NodeStoreStatus :=
  let st := ns_state s in
  digest ← state_digest st;
  Ok {| ss_status_party := st_party st; ss_generation := st_generation st;
        ss_record_count := size (st_records st);
        ss_completed_round_count := size (st_completed_rounds st);
        ss_private_head_count := size (st_private_heads st);
        ss_finalized_private_round_count := size (st_finalized_private_rounds st);
        ss_ordering_sequence := st_ordering_sequence st;
        ss_ordering_head := st_ordering_head st; ss_state_digest := digest |}.

(** ** The lifecycle barrier *)

Definition require_lifecycle_barrier (st : StoreState) : result NodeError () :=
  fail_if (bool_decide (map_Exists (λ _ e, is_Some (sl_certificate e) ∧ sl_finality e = None)
             (st_lifecycle st))
      || bool_decide (map_Exists (λ round r, existsb slot_matched (br_slots (ne_result r)) = true
             ∧ st_finalized_private_rounds st !! round = None) (st_completed_rounds st)))
    (OrderingState "earlier matching or release still awaits canonical finality").

Definition lifecycle_blocks (st : StoreState) (target : OrderCommitment) : bool :=
  bool_decide (map_Exists (λ _ e, lc_target (sl_command e) = target ∧ is_Some (sl_certificate e))
    (st_lifecycle st)).

(** ** Admission *)

(** The one-order tag of a pre-traded order, checked against the claims so far. *)
Definition reservation_tag (s : NodeShareStore) (manifest : EdgeOrderManifest)
    (opened : PartyOrderShare) (now : Z) : result NodeError (option Digest32) :=
  if uses_pretrade_reservation manifest then
    trust ← ok_or (ns_reservation_trust s) (Admission "node has no pinned DeFMI reservation trust");
    admission ← map_err (λ _, Admission "reservation")
      (verified_reservation_admission opened manifest (tr_venue_id trust)
         (tr_defmi_id trust) (tr_signer trust) now);
    let tag := ad_reservation_nullifier admission in
    _ ← fail_if (match st_reservation_claims (ns_state s) !! tag with
          | Some order => negb (bool_decide (order = m_commitment manifest))
          | None => false
          end) (Admission "one DeFMI reservation cannot authorize two orders");
    Ok (Some tag)
  else Ok None.

Definition ingest (manifest : EdgeOrderManifest) (sealed : SealedPartyShare)
    (sealed_key : SealedCapabilityKeyShare) (now : Z) (io : Persisted) :
    method NodeShareStore NodeError IngestOutcome :=
  s ← self;
  let st := ns_state s in
  _ ← try (fail_if (lifecycle_blocks st (m_commitment manifest))
        (Admission "order has an ordered terminal command"));
  opened ← try (map_err (λ _, Admission "share")
        (share_open sealed (ns_key s) manifest (st_party st) now));
  tag ← try (reservation_tag s manifest opened now);
  _ ← try (map_err (λ _, Admission "key share")
        (key_share_open sealed_key (ns_key s) manifest (st_party st) now));
  let key := m_commitment manifest in
  match st_records st !! key with
  | Some existing =>
      if bool_decide (sr_manifest existing = manifest) && bool_decide (sr_sealed existing = sealed)
         && bool_decide (sr_sealed_capability_key_share existing = Some sealed_key)
      then mret (AlreadyPresent (st_generation st)) else try (Err Conflict)
  | None =>
      let claims := match tag with
        | Some tag => <[tag := key]> (st_reservation_claims st)
        | None => st_reservation_claims st
        end in
      let incoming := {| sr_manifest := manifest; sr_sealed := sealed;
        sr_sealed_capability_key_share := Some sealed_key; sr_admitted_at := now;
        sr_admission_receipt := None |} in
      _ ← save_unguarded (with_records (<[key := incoming]> (st_records st)) (with_claims claims st)) io;
      s ← self;
      mret (Stored (st_generation (ns_state s)))
  end.

Definition with_receipt (receipt : option NodeAdmissionReceipt) (r : StoredRecord) : StoredRecord :=
  {| sr_manifest := sr_manifest r; sr_sealed := sr_sealed r;
     sr_sealed_capability_key_share := sr_sealed_capability_key_share r;
     sr_admitted_at := sr_admitted_at r; sr_admission_receipt := receipt |}.

(** The tail of [admission_receipt]: install the receipt, persist, and take it out again when the
    write fails (the generation is not touched). *)
Definition save_receipt (id : OrderCommitment) (record : StoredRecord) (receipt : NodeAdmissionReceipt)
    (io : Persisted) : method NodeShareStore NodeError NodeAdmissionReceipt :=
  λ s,
    let st := ns_state s in
    let updated := with_records (<[id := with_receipt (Some receipt) record]> (st_records st)) st in
    match persist io (with_state updated s) with
    | (s', Err e) =>
        (with_state (with_records (<[id := with_receipt None record]> (st_records st)) st) s', Err e)
    | (s', Ok _) => (s', Ok receipt)
    end.

Definition admission_receipt (manifest : EdgeOrderManifest) (key : SigningKey) (io : Persisted) :
    method NodeShareStore NodeError NodeAdmissionReceipt :=
  s ← self;
  let st := ns_state s in
  let id := m_commitment manifest in
  record ← try (ok_or (st_records st !! id) Conflict);
  let order_digest := share_wire_digest (sr_sealed record) in
  sealed_key ← try (ok_or (sr_sealed_capability_key_share record) Conflict);
  let capability_digest := sealed_key_wire_digest sealed_key in
  match sr_admission_receipt record with
  | Some receipt =>
      _ ← try (fail_if (negb (admission_verify receipt (m_commitment manifest) (m_signer manifest)
            (st_party st) order_digest capability_digest (verifying_key key))) (State "receipt"));
      mret receipt
  | None =>
      digest ← try (state_digest st);
      receipt ← try (ok_or (admission_sign (st_party st) (m_commitment manifest) (m_signer manifest)
            order_digest capability_digest (st_generation st) digest key) (State "receipt"));
      save_receipt id record receipt io
  end.

(** ** Ordering *)

Definition ordering_admission (st : StoreState) (commitment : OrderCommitment) (now : Z) :
    result NodeError (bytes * Z) :=
  match st_records st !! commitment with
  | Some record =>
      _ ← fail_if (lifecycle_blocks st commitment) Conflict;
      Ok (m_market_id (sr_manifest record), m_retention_deadline (sr_manifest record))
  | None =>
      entry ← ok_or (st_lifecycle st !! commitment) UnknownOrder;
      _ ← map_err OrderingState (command_verify (sl_command entry) (sl_manifest entry) now);
      _ ← require_lifecycle_barrier st;
      Ok (lc_market_id (sl_command entry), lc_expires_at (sl_command entry))
  end.

(** The barrier holds back everything but registered lifecycle commands. *)
Definition barrier_for (st : StoreState) (commitment : OrderCommitment) : result NodeError () :=
  if bool_decide (is_Some (st_lifecycle st !! commitment)) then Ok ()
  else require_lifecycle_barrier st.

Definition record_order_vote (market_id : bytes) (sequence : Z) (commitment : OrderCommitment)
    (previous_certificate : Digest32) (expires_at now : Z) (io : Persisted) :
    method NodeShareStore NodeError Digest32 :=
  s ← self;
  let st := ns_state s in
  expected ← try (ok_or (checked_add (st_ordering_sequence st) 1) Generation);
  _ ← try (barrier_for st commitment);
  '(admitted_market, admitted_deadline) ← try (ordering_admission st commitment now);
  _ ← try (fail_if (bad_market_id market_id || negb (sequence =? expected)
        || negb (bool_decide (previous_certificate = st_ordering_head st))
        || (expires_at <? now) || negb (bool_decide (admitted_market = market_id))
        || (admitted_deadline <? expires_at)
        || bool_decide (commitment ∈ st_ordered_commitments st))
        (OrderingState "vote does not extend the node's admitted-order chain"));
  let statement := vote_digest market_id sequence commitment previous_certificate expires_at in
  match st_ordering_votes st !! sequence with
  | Some existing =>
      if bool_decide (sv_statement_digest existing = statement) then mret statement
      else if now <=? sv_expires_at existing then
        try (Err (OrderingState "node refuses an equivocal vote for a live sequence"))
      else
        _ ← save (with_votes (<[sequence := mk_stored_vote statement expires_at]>
              (st_ordering_votes st)) st) io;
        mret statement
  | None =>
      _ ← save (with_votes (<[sequence := mk_stored_vote statement expires_at]>
            (st_ordering_votes st)) st) io;
      mret statement
  end.

Definition with_certificate (c : OrderCertificate) (e : StoredLifecycle) : StoredLifecycle :=
  {| sl_command := sl_command e; sl_manifest := sl_manifest e; sl_certificate := Some c;
     sl_finality := sl_finality e |}.

Definition accept_order_certificate (c : OrderCertificate) (policy : CommitteePolicy)
    (keys : btree Z VerifyingKey) (now : Z) (io : Persisted) : method NodeShareStore NodeError Z :=
  s ← self;
  let st := ns_state s in
  _ ← try (map_err (λ _, OrderingState "certificate") (certificate_verify c policy keys now));
  let digest := certificate_digest c in
  let key := oc_commitment c in
  if oc_sequence c =? st_ordering_sequence st then
    if bool_decide (st_ordering_head st = digest) && bool_decide (key ∈ st_ordered_commitments st)
    then mret (st_generation st)
    else try (Err (OrderingState "certificate conflicts with the accepted chain head"))
  else
    expected ← try (ok_or (checked_add (st_ordering_sequence st) 1) Generation);
    _ ← try (barrier_for st key);
    '(admitted_market, admitted_deadline) ← try (ordering_admission st key now);
    let statement := vote_digest (oc_market_id c) (oc_sequence c) key (oc_previous_certificate c)
      (oc_expires_at c) in
    _ ← try (fail_if (negb (oc_sequence c =? expected)
          || negb (bool_decide (oc_previous_certificate c = st_ordering_head st))
          || negb (bool_decide (admitted_market = oc_market_id c))
          || (admitted_deadline <? oc_expires_at c)
          || bool_decide (key ∈ st_ordered_commitments st)
          || match st_ordering_votes st !! oc_sequence c with
             | Some vote => negb (bool_decide (sv_statement_digest vote = statement))
                            && (now <=? sv_expires_at vote)
             | None => false
             end) (OrderingState "certificate does not extend the node's accepted chain"));
    let accepted := with_votes (delete (oc_sequence c) (st_ordering_votes st))
      (with_chain (oc_sequence c) digest ({[key]} ∪ st_ordered_commitments st)
        (with_lifecycle (alter (with_certificate c) key (st_lifecycle st)) st)) in
    _ ← save accepted io;
    s ← self;
    mret (st_generation (ns_state s)).

(** ** Rounds *)

Definition open_record (s : NodeShareStore) (commitment : OrderCommitment) (market_id : bytes)
    (now : Z) : result NodeError PartyOrderShare :=
  let st := ns_state s in
  _ ← fail_if (lifecycle_blocks st commitment) UnknownOrder;
  record ← ok_or (st_records st !! commitment) UnknownOrder;
  _ ← fail_if (negb (bool_decide (m_market_id (sr_manifest record) = market_id)))
    (Round "round market differs from the committed order market");
  map_err (λ _, Admission "share")
    (share_open (sr_sealed record) (ns_key s) (sr_manifest record) (st_party st) now).

Definition zero_text : text := chars "0".

(** The eight wires of an order: live flag, side, price, quantity, the price
    blinding, reserve, its blinding and the handle. *)
Definition original_private_fields (s : NodeShareStore) (commitment : OrderCommitment)
    (market_id : bytes) (now : Z) : result NodeError (list text) :=
  share ← open_record s commitment market_id now;
  record ← ok_or (st_records (ns_state s) !! commitment) UnknownOrder;
  let values := share_decimals (sh_value_shares share) in
  let blindings := share_decimals (sh_blinding_shares share) in
  let settlement := share_decimals (sh_settlement_value_shares share) in
  let settlement_blindings := share_decimals (sh_settlement_blinding_shares share) in
  let '(handle, reserve, reserve_blinding) :=
    if m_settlement_proof_enabled (sr_manifest record)
    then (settlement !!! 0%fin, settlement !!! 1%fin, settlement_blindings !!! 1%fin)
    else (zero_text, zero_text, zero_text) in
  Ok [chars "1"; values !!! 0%fin; values !!! 1%fin; values !!! 2%fin; blindings !!! 1%fin;
      reserve; reserve_blinding; handle].

(** Contents of the [Transactions-P] file of a round, or why it cannot be read. *)
Definition Files : Type := Digest32 → result NodeError bytes.

Definition verify_private_state_file (s : NodeShareStore) (files : Files) (round : Digest32)
    (expected : Digest32) : result NodeError () :=
  _ ← fail_if (negb (ns_private_state_root s)) (PrivateState "private state root is not bound");
  contents ← files round;
  _ ← fail_if (Nat.eqb (length contents) 0 || (16 * 1024 * 1024 <? Z.of_nat (length contents)))
    (PrivateState "party-local private state file has an unsafe size or type");
  _ ← fail_if (negb (bool_decide (sha256 contents = expected)))
    (PrivateState "party-local private state digest changed");
  file ← ok_or (read_persistence contents (st_party (ns_state s))) (PrivateState "persistence");
  fail_if (negb (Z.of_nat (length (pfl_shares file)) =? PERSISTENCE_WIRES))
    (PrivateState "private state share count").

Definition private_order_fields (s : NodeShareStore) (files : Files) (commitment : OrderCommitment)
    (market_id : bytes) (now : Z) : result NodeError (list text) :=
  match st_private_heads (ns_state s) !! commitment with
  | None => original_private_fields s commitment market_id now
  | Some h =>
      _ ← fail_if (negb (ns_private_state_root s)) (PrivateState "private state root is not bound");
      _ ← verify_private_state_file s files (ph_round_id h) (ph_private_state_sha256 h);
      contents ← files (ph_round_id h);
      file ← ok_or (read_persistence contents (st_party (ns_state s))) (PrivateState "persistence");
      let start := ph_wire_offset h in
      _ ← fail_if (Z.of_nat (length (pfl_shares file)) <? start + Z.of_nat PRIVATE_ORDER_WIRES)
        (PrivateState "private state wire offset is invalid");
      collect (λ stored,
          if pfl_montgomery file then
            v ← ok_or (from_montgomery stored (pfl_prime file) (pfl_element_bytes file))
              (PrivateState "montgomery");
            Ok (biguint_text v)
          else Ok (biguint_text stored))
        (take PRIVATE_ORDER_WIRES (drop (Z.to_nat start) (pfl_shares file)))
  end.

Definition private_parent_digest (st : StoreState) (resting : list OrderCommitment)
    (arriving : OrderCommitment) : Digest32 :=
  sha256 (ascii_bytes "OCLOB:PRIVATE-BOOK-PARENTS:v1" ++ u64_be (Z.of_nat (length resting))
    ++ concat (map (λ c, d_bytes c ++ match st_private_heads st !! c with
         | Some h => [Byte.x01] ++ d_bytes (ph_round_id h) ++ d_bytes (ph_private_state_sha256 h)
                     ++ u16_be (ph_wire_offset h)
         | None => [Byte.x00]
         end) resting)
    ++ d_bytes arriving).

(** [fields.join(" ")]. *)
Fixpoint join_text (sep : text) (l : list text) : text :=
  match l with
  | [] => []
  | [t] => t
  | t :: l => t ++ sep ++ join_text sep l
  end.

Definition text_bytes (t : text) : bytes := map byte_of t.

Definition prepare_round (s : NodeShareStore) (files : Files) (market_id : bytes)
    (resting : list OrderCommitment) (arriving : OrderCommitment) (now : Z) :
    result NodeError PreparedPartyInput :=
  let st := ns_state s in
  _ ← require_lifecycle_barrier st;
  _ ← fail_if (bad_market_id market_id || Nat.ltb MAX_MATCH_SLOTS (length resting)
      || bool_decide (arriving ∈ resting) || negb (all_distinct resting))
    (Round "round market or order commitments are invalid");
  arriving_share ← open_record s arriving market_id now;
  let arriving_values := share_decimals (sh_value_shares arriving_share) in
  arriving_private ← original_private_fields s arriving market_id now;
  resting_fields ← collect (λ slot, match resting !! slot with
      | Some c => private_order_fields s files c market_id now
      | None => Ok (replicate PRIVATE_ORDER_WIRES zero_text)
      end) (seq 0 MAX_MATCH_SLOTS);
  let pick i := default [] (arriving_private !! i) in
  let fields := concat resting_fields
    ++ [pick 1%nat; pick 2%nat; pick 3%nat; arriving_values !!! 5%fin; pick 4%nat; pick 5%nat;
        pick 6%nat; pick 7%nat] in
  let contents := join_text (chars " ") fields ++ [10] in
  arriving_record ← ok_or (st_records st !! arriving) (Round "arriving manifest disappeared");
  resting_manifests ← collect (λ c, record ← ok_or (st_records st !! c)
      (Round "resting manifest disappeared"); Ok (sr_manifest record)) resting;
  Ok {| pi_party := st_party st; pi_generation := st_generation st;
        pi_round_commitment := round_commitment (st_party st) (st_generation st) resting arriving
          (text_bytes contents);
        pi_private_parent_digest := private_parent_digest st resting arriving;
        pi_contents := contents; pi_arriving_manifest := sr_manifest arriving_record;
        pi_resting_manifests := resting_manifests |}.

Definition remove_terminal (commitment : OrderCommitment) (io : Persisted) :
    method NodeShareStore NodeError bool :=
  s ← self;
  let st := ns_state s in
  match st_records st !! commitment with
  | Some record =>
      if uses_pretrade_reservation (sr_manifest record) then
        try (Err (PrivateState "native shares require node-observed canonical release"))
      else
        _ ← save_unguarded (with_records (delete commitment (st_records st)) st) io;
        mret true
  | None => mret false
  end.

Definition completed_round (st : StoreState) (round : Digest32) : option NodeExecutionReceipt :=
  st_completed_rounds st !! round.

Definition record_completed_round (receipt : NodeExecutionReceipt) (io : Persisted) :
    method NodeShareStore NodeError () :=
  s ← self;
  let st := ns_state s in
  _ ← try (fail_if (incomplete_receipt (st_party st) receipt)
        (Round "execution receipt is not a complete party result"));
  match st_completed_rounds st !! ne_round_id receipt with
  | Some existing => if bool_decide (existing = receipt) then mret () else try (Err Conflict)
  | None => save_unguarded (with_completed_rounds
              (<[ne_round_id receipt := receipt]> (st_completed_rounds st)) st) io
  end.

Definition record_native_finality (record : NativeFinalityRecord) (io : Persisted) :
    method NodeShareStore NodeError () :=
  s ← self;
  let st := ns_state s in
  receipt ← try (ok_or (completed_round st (nf_round_id record))
        (PrivateState "MPC round is not complete"));
  _ ← try (map_err PrivateState (observation_validate record receipt));
  let key := nf_round_id record in
  let records := default [] (st_native_finalities st !! key) in
  match bt_get (nf_slot record) records with
  | Some existing => if bool_decide (existing = record) then mret () else try (Err Conflict)
  | None =>
      _ ← try (fail_if (bool_decide (is_Some (st_finalized_private_rounds st !! key))) Conflict);
      save (with_native (<[key := bt_insert (nf_slot record) record records]>
        (st_native_finalities st)) st) io
  end.

(** ** Finality *)

Definition new_head (plan : RoundPlan) (r : NodeExecutionReceipt) (f : PrivateStateFinality)
    (slot : nat) : PrivateBookStateRef :=
  {| ph_round_id := rp_round_id plan; ph_private_state_sha256 := ne_private_state_sha256 r;
     ph_wire_offset := Z.of_nat (slot * PRIVATE_ORDER_WIRES);
     ph_transition_digest := pf_transition_digest f;
     ph_canonical_receipt_digest := pf_canonical_receipt_digest f;
     ph_canonical_height := pf_canonical_height f |}.

(** The heads after the round: one per resting order, and the arriving order's
    while some of it remains.  A plan that passed [plan_verify] rests at most
    eight orders, so no wire offset overflows its [u16]. *)
Definition advance_heads (plan : RoundPlan) (r : NodeExecutionReceipt) (f : PrivateStateFinality)
    (heads : gmap Digest32 PrivateBookStateRef) : gmap Digest32 PrivateBookStateRef :=
  let heads := foldl (λ heads '(slot, c), <[c := new_head plan r f slot]> heads) heads
    (imap pair (rp_resting plan)) in
  if 0 <? br_arriving_remaining (ne_result r)
  then <[rp_arriving plan := new_head plan r f MAX_MATCH_SLOTS]> heads
  else delete (rp_arriving plan) heads.

Definition native_required (st : StoreState) (plan : RoundPlan) : result NodeError bool :=
  match st_finalized_private_rounds st !! rp_round_id plan with
  | Some existing => Ok (fz_native_finality_required existing)
  | None =>
      records ← collect (λ c, ok_or (st_records st !! c)
          (PrivateState "round order is absent from this node"))
        (rp_resting plan ++ [rp_arriving plan]);
      Ok (existsb (λ r, uses_pretrade_reservation (sr_manifest r)) records)
  end.

Definition check_native_required (st : StoreState) (plan : RoundPlan) (r : NodeExecutionReceipt)
    (f : PrivateStateFinality) : result NodeError () :=
  records ← ok_or (st_native_finalities st !! rp_round_id plan)
    (PrivateState "native round has no node-observed canonical finality");
  _ ← require_complete r records f;
  fail_if (existsb (λ '(_, n),
      negb (bool_decide (rp_resting plan !! Z.to_nat (nf_slot n) = Some (nf_maker_order n)))
      || negb (bool_decide (rp_arriving plan = nf_taker_order n))) records)
    (PrivateState "canonical fill belongs to another ordered pair").

Definition with_signed (signed : NodePrivateStateReceipt) (f : PrivateRoundFinalization) :
    PrivateRoundFinalization :=
  {| fz_native_finality_required := fz_native_finality_required f;
     fz_public_output_sha256 := fz_public_output_sha256 f;
     fz_transition_digest := fz_transition_digest f;
     fz_canonical_receipt_digest := fz_canonical_receipt_digest f;
     fz_canonical_height := fz_canonical_height f; fz_private_state_receipt := Some signed |}.

(** The saving closure: bump, sign the digest of the advanced state, store the
    signed receipt and persist; any failure restores. *)
Definition finalize_save (st : StoreState) (key : Digest32) (candidate : PrivateRoundFinalization)
    (r : NodeExecutionReceipt) (f : PrivateStateFinality) (signing_key : SigningKey)
    (io : Persisted) : method NodeShareStore NodeError NodePrivateStateReceipt := λ s,
  match (st' ← next_generation st;
         digest ← state_digest st';
         signed ← ok_or (private_state_sign (st_party st') r f (st_generation st') digest signing_key)
           (State "receipt");
         Ok (signed, with_finalized (<[key := with_signed signed candidate]>
               (st_finalized_private_rounds st')) st')) with
  | Err e => (s, Err e)
  | Ok (signed, st') =>
      match persist io (with_state st' s) with
      | (s', Err e) => (with_state (ns_state s) s', Err e)
      | (s', Ok _) => (s', Ok signed)
      end
  end.

Definition finalize_private_round (files : Files) (plan : RoundPlan) (f : PrivateStateFinality)
    (signing_key : SigningKey) (io : Persisted) :
    method NodeShareStore NodeError NodePrivateStateReceipt :=
  s ← self;
  let st := ns_state s in
  _ ← try (finality_validate f);
  _ ← try (fail_if (negb (bool_decide (pf_round_id f = rp_round_id plan)))
        (PrivateState "finality refers to another MPC round"));
  r ← try (ok_or (completed_round st (rp_round_id plan)) (PrivateState "MPC round is not complete"));
  _ ← try (fail_if (negb (bool_decide (ne_public_output_sha256 r = pf_public_output_sha256 f)))
        (PrivateState "canonical finality does not bind this MPC output"));
  let key := rp_round_id plan in
  required ← try (native_required st plan);
  _ ← try (if required : bool then check_native_required st plan r f else Ok ());
  let candidate := {| fz_native_finality_required := required;
    fz_public_output_sha256 := pf_public_output_sha256 f;
    fz_transition_digest := pf_transition_digest f;
    fz_canonical_receipt_digest := pf_canonical_receipt_digest f;
    fz_canonical_height := pf_canonical_height f; fz_private_state_receipt := None |} in
  match st_finalized_private_rounds st !! key with
  | Some existing =>
      _ ← try (fail_if (negb (Bool.eqb (fz_native_finality_required existing) required)
            || negb (bool_decide (fz_public_output_sha256 existing = pf_public_output_sha256 f))
            || negb (bool_decide (fz_transition_digest existing = pf_transition_digest f))
            || negb (bool_decide (fz_canonical_receipt_digest existing
                       = pf_canonical_receipt_digest f))
            || negb (fz_canonical_height existing =? pf_canonical_height f)) Conflict);
      stored ← try (ok_or (fz_private_state_receipt existing)
            (State "finalized private state lacks its signed receipt"));
      _ ← try (fail_if (negb (private_state_verify stored r f (st_party st)
            (verifying_key signing_key))) (State "receipt"));
      _ ← try (fail_if (st_generation st <? pr_generation stored)
            (State "private-state receipt refers to a future store generation"));
      mret stored
  | None =>
      _ ← try (fail_if (negb (bool_decide (ne_private_parent_digest r
              = private_parent_digest st (rp_resting plan) (rp_arriving plan))))
            (PrivateState "private book parent advanced before this round finalized"));
      _ ← try (verify_private_state_file s files (rp_round_id plan) (ne_private_state_sha256 r));
      finalize_save (with_finalized (<[key := candidate]> (st_finalized_private_rounds st))
          (with_heads (advance_heads plan r f (st_private_heads st)) st))
        key candidate r f signing_key io
  end.

(** ** Release of a capability-key share *)

Definition release_authorized (plan : RoundPlan) (r : NodeExecutionReceipt)
    (order : OrderCommitment) : bool :=
  if bool_decide (order = rp_arriving plan) then
    (0 <? br_arriving_remaining (ne_result r)) || existsb slot_matched (br_slots (ne_result r))
  else
    match list_find (λ c, c = order) (rp_resting plan) with
    | Some (position, _) =>
        match br_slots (ne_result r) !! position with
        | Some slot => slot_matched slot
        | None => false
        end
    | None => false
    end.

Definition release_capability_key_share (s : NodeShareStore) (plan : RoundPlan)
    (order : OrderCommitment) (now : Z) : result NodeError (CapabilityKeyShare * Digest32) :=
  let st := ns_state s in
  _ ← map_err (λ _, Release "plan") (plan_verify plan now);
  r ← ok_or (completed_round st (rp_round_id plan)) (Release "matching round is not complete");
  _ ← fail_if (negb (release_authorized plan r order))
    (Release "public MPC result does not authorize capability release");
  record ← ok_or (st_records st !! order) UnknownOrder;
  _ ← (if uses_pretrade_reservation (sr_manifest record) then
         trust ← ok_or (ns_reservation_trust s)
           (Release "reservation trust must be pinned after restart");
         share ← map_err (λ _, Release "share") (share_open (sr_sealed record) (ns_key s)
           (sr_manifest record) (st_party st) now);
         admission ← map_err (λ _, Release "reservation") (verified_reservation_admission share
           (sr_manifest record) (tr_venue_id trust) (tr_defmi_id trust) (tr_signer trust) now);
         fail_if (negb (bool_decide (st_reservation_claims st !! ad_reservation_nullifier admission
             = Some order))) (Release "reservation has no durable one-order claim")
       else Ok ());
  sealed ← ok_or (sr_sealed_capability_key_share record)
    (Release "legacy order has no capability-key share");
  share ← map_err (λ _, Release "key share") (key_share_open sealed (ns_key s)
    (sr_manifest record) (st_party st) now);
  Ok (share, ne_public_output_sha256 r).

Definition expired_keys (st : StoreState) (now : Z) : gmap Digest32 StoredRecord :=
  filter (λ '(_, r), m_retention_deadline (sr_manifest r) < now
            ∧ uses_pretrade_reservation (sr_manifest r) = false) (st_records st).

Definition prune_expired (now : Z) (io : Persisted) : method NodeShareStore NodeError nat :=
  s ← self;
  let st := ns_state s in
  let expired := expired_keys st now in
  if bool_decide (expired = ∅) then mret 0%nat
  else
    _ ← save_unguarded (with_records (st_records st ∖ expired) st) io;
    mret (size expired).

(** ** Lifecycle *)

Definition register_lifecycle (command : LifecycleCommand) (now : Z) (io : Persisted) :
    method NodeShareStore NodeError Digest32 :=
  s ← self;
  let st := ns_state s in
  digest ← try (map_err OrderingState (command_digest command));
  match st_lifecycle st !! digest with
  | Some entry =>
      if bool_decide (sl_command entry = command) then mret digest else try (Err Conflict)
  | None =>
      _ ← try (require_lifecycle_barrier st);
      _ ← try (fail_if (lifecycle_blocks st (lc_target command)) Conflict);
      record ← try (ok_or (st_records st !! lc_target command) UnknownOrder);
      _ ← try (map_err OrderingState (command_verify command (sr_manifest record) now));
      _ ← try (fail_if (negb (bool_decide (lc_target command ∈ st_ordered_commitments st)))
            (OrderingState "lifecycle target has not entered the ordered market"));
      _ ← save (with_lifecycle (<[digest := {| sl_command := command;
              sl_manifest := sr_manifest record; sl_certificate := None;
              sl_finality := None |}]> (st_lifecycle st)) st) io;
      mret digest
  end.

Definition lifecycle_entry (st : StoreState) (digest : Digest32) : result NodeError StoredLifecycle :=
  entry ← ok_or (st_lifecycle st !! digest) UnknownOrder;
  _ ← fail_if (bool_decide (sl_certificate entry = None))
    (OrderingState "lifecycle command has no accepted ordering certificate");
  Ok entry.

Definition lifecycle_share (s : NodeShareStore) (digest : Digest32) :
    result NodeError CapabilityKeyShare :=
  let st := ns_state s in
  entry ← lifecycle_entry st digest;
  _ ← fail_if (bool_decide (is_Some (sl_finality entry))) Conflict;
  record ← ok_or (st_records st !! lc_target (sl_command entry)) UnknownOrder;
  sealed ← ok_or (sr_sealed_capability_key_share record) UnknownOrder;
  map_err (λ _, Release "key share") (key_share_open sealed (ns_key s) (sr_manifest record)
    (st_party st) (sr_admitted_at record)).

Definition with_finality (f : LifecycleFinality) (e : StoredLifecycle) : StoredLifecycle :=
  {| sl_command := sl_command e; sl_manifest := sl_manifest e; sl_certificate := sl_certificate e;
     sl_finality := Some f |}.

(** The answer of the chain about one transaction. *)
Definition validate_accepted (tx : bytes) (statement before : Digest32) (a : AcceptedTransition) :
    result string () :=
  fail_if (Nat.eqb (length tx) 0 || negb (bool_decide (at_tx_id a = tx))
      || negb (bool_decide (at_statement a = statement)) || is_zero statement
      || negb (bool_decide (at_before_root a = before)) || is_zero before
      || is_zero (at_after_root a) || bool_decide (at_after_root a = before)
      || (at_height a =? 0) || Nat.eqb (length (at_block_id a)) 0
      || Nat.ltb 128 (length (at_block_id a)))
    "configured DeFMI has not confirmed this exact native fill".

(** The decision of [confirm_release] on what the chain returned: the accepted
    transaction, the head of the reservation, and the release that was signed
    with the statement it verifies to. *)
Definition release_record (digest : Digest32) (entry : StoredLifecycle) (r : ReleaseEvidence) :
    result NodeError LifecycleFinality :=
  _ ← map_err Release (validate_accepted (re_transaction_id r) (re_statement r) (re_before_root r)
        (re_accepted r));
  next ← ok_or (checked_add (re_sequence r) 1) (Release "release sequence overflow");
  _ ← fail_if (negb (re_head_released r) || negb (re_head_sequence r =? next)
        || negb (bool_decide (re_head_receipt r = re_statement r)) || re_head_has_opening r)
      (Release "canonical release has not terminated this reservation");
  Ok {| lf_command := digest; lf_target := lc_target (sl_command entry);
        lf_transaction_id := at_tx_id (re_accepted r); lf_block_id := at_block_id (re_accepted r);
        lf_height := at_height (re_accepted r); lf_statement := re_statement r;
        lf_before_root := at_before_root (re_accepted r);
        lf_after_root := at_after_root (re_accepted r);
        lf_released_sequence := re_head_sequence r |}.

(** [confirm_release]; [authority] is [verify_authority] and [release.verify]
    against the DeFMI scope. *)
Definition confirm_release (digest : Digest32) (authority : StoredLifecycle → bool)
    (r : ReleaseEvidence) (io : Persisted) : method NodeShareStore NodeError LifecycleFinality :=
  s ← self;
  let st := ns_state s in
  entry ← try (lifecycle_entry st digest);
  _ ← try (fail_if (negb (authority entry)) (Release "authority"));
  record ← try (release_record digest entry r);
  match sl_finality entry with
  | Some existing =>
      if bool_decide (existing = record) then mret record
      else try (Err (Release "release finality changed"))
  | None =>
      _ ← save (with_records (delete (lf_target record) (st_records st))
            (with_heads (delete (lf_target record) (st_private_heads st))
              (with_lifecycle (alter (with_finality record) digest (st_lifecycle st)) st))) io;
      mret record
  end.

End store.
