(* ===== verification/NodeSteps.v ===== *)
(** * The steps of a share store

    Every operation of [NodeShareStore] is one step of the state it keeps, saved
    under the crash behaviour of [persist]: [store_step] lists the steps with the
    guards under which the code takes them, operation by operation, [effect] what a
    success promises, [outcome] what a call can answer and leave in memory and on
    disk, [exec_outcome] that no operation does anything else. *)

From S2P Require Import Prelude BTree Bytes AppCrypto Orders Matching Circuit MpcRunner Book.
From S2P Require Import Ordering Reservations Edge EdgeDecimal NodeReceipts NodeState NodeStore.
Open Scope string_scope.
Open Scope list_scope.
Open Scope Z_scope.

Section steps.
Context `{Crypto} `{ReceiptJson} `{StoreJson} `{Persistence}.

(** ** Operations as data *)

Inductive StoreOp :=
| OpPin (venue defmi : Digest32) (signer : bytes)
| OpBindRoot (directory : result NodeError ())
| OpIngest (m : EdgeOrderManifest) (sealed : SealedPartyShare)
    (sealed_key : SealedCapabilityKeyShare) (now : Z) (io : Persisted)
| OpReceipt (m : EdgeOrderManifest) (key : SigningKey) (io : Persisted)
| OpVote (market : bytes) (sequence : Z) (commitment : OrderCommitment) (previous : Digest32)
    (expires_at now : Z) (io : Persisted)
| OpCertificate (c : OrderCertificate) (policy : CommitteePolicy) (keys : btree Z VerifyingKey)
    (now : Z) (io : Persisted)
| OpRemove (commitment : OrderCommitment) (io : Persisted)
| OpCompleted (r : NodeExecutionReceipt) (io : Persisted)
| OpObserved (n : NativeFinalityRecord) (io : Persisted)
| OpFinalize (files : Files) (plan : RoundPlan) (f : PrivateStateFinality) (key : SigningKey)
    (io : Persisted)
| OpPrune (now : Z) (io : Persisted)
| OpRegister (c : LifecycleCommand) (now : Z) (io : Persisted)
| OpRelease (digest : Digest32) (authority : StoredLifecycle → bool) (r : ReleaseEvidence)
    (io : Persisted)
| OpRestart (marker : option MarkerFile) (policy : option bytes) (io : Persisted).

(** The store after an operation, whatever it returned; a restart that cannot
    read its file leaves no store. *)
Definition exec (op : StoreOp) (s : NodeShareStore) : option NodeShareStore :=
  match op with
  | OpPin venue defmi signer => Some (pin_reservation_trust venue defmi signer s).1
  | OpBindRoot directory => Some (bind_private_state_root directory s).1
  | OpIngest m sealed sealed_key now io => Some (ingest m sealed sealed_key now io s).1
  | OpReceipt m key io => Some (admission_receipt m key io s).1
  | OpVote market sequence c previous expires_at now io =>
      Some (record_order_vote market sequence c previous expires_at now io s).1
  | OpCertificate c policy keys now io => Some (accept_order_certificate c policy keys now io s).1
  | OpRemove c io => Some (remove_terminal c io s).1
  | OpCompleted r io => Some (record_completed_round r io s).1
  | OpObserved n io => Some (record_native_finality n io s).1
  | OpFinalize files plan f key io => Some (finalize_private_round files plan f key io s).1
  | OpPrune now io => Some (prune_expired now io s).1
  | OpRegister c now io => Some (register_lifecycle c now io s).1
  | OpRelease digest authority r io => Some (confirm_release digest authority r io s).1
  | OpRestart marker policy io =>
      match open_policy_bound (ns_disk s) marker policy (st_party (ns_state s)) (ns_key s) io with
      | (_, Ok s') => Some s'
      | (_, Err _) => None
      end
  end.

(** The clock an operation reads, for those whose step depends on it. *)
Definition op_now (op : StoreOp) : Z :=
  match op with
  | OpVote _ _ _ _ _ now _ => now
  | _ => 0
  end.

(** A run of operations, each of which satisfies [P] where it is called. *)
Inductive run (P : StoreOp → NodeShareStore → Prop) :
    NodeShareStore → list StoreOp → NodeShareStore → Prop :=
| run_nil s : run P s [] s
| run_cons op ops s s1 s2 :
    P op s → exec op s = Some s1 → run P s1 ops s2 → run P s (op :: ops) s2.

(** Inputs that meet no hash accident: no digest of the operation is all zero,
    and an order never has the digest of a lifecycle command.  A plan has passed
    [plan_verify] before [finalize_private_round] is called; a sequence is a [u64]. *)
Definition fair (op : StoreOp) (s : NodeShareStore) : Prop :=
  let st := ns_state s in
  match op with
  | OpIngest m sealed sealed_key now _ =>
      m_commitment m ≠ zero_digest ∧
      ∀ opened tag, share_open sealed (ns_key s) m (st_party st) now = Ok opened →
        reservation_tag s m opened now = Ok (Some tag) → tag ≠ zero_digest
  | OpVote market sequence c previous expires_at _ _ =>
      vote_digest market sequence c previous expires_at ≠ zero_digest ∧ 0 < expires_at
  | OpCertificate c _ _ _ _ =>
      certificate_digest c ≠ zero_digest ∧
      (is_Some (st_lifecycle st !! oc_commitment c) → st_records st !! oc_commitment c = None)
  | OpFinalize _ plan _ key _ =>
      (length (rp_resting plan) ≤ MAX_MATCH_SLOTS)%nat ∧
      vk_fingerprint (verifying_key key) ≠ zero_digest
  | OpRegister c _ _ =>
      ∀ digest, command_digest c = Ok digest → st_lifecycle st !! digest = None →
        digest ∉ st_ordered_commitments st
  | OpRelease _ _ r _ => 0 ≤ re_sequence r
  | _ => True
  end.

(** ** Steps *)

Definition incoming (m : EdgeOrderManifest) (sealed : SealedPartyShare)
    (sealed_key : SealedCapabilityKeyShare) (now : Z) : StoredRecord :=
  {| sr_manifest := m; sr_sealed := sealed; sr_sealed_capability_key_share := Some sealed_key;
     sr_admitted_at := now; sr_admission_receipt := None |}.

(** The step each operation may take, up to the generation, under the guards the
    code checks.  [F] stands for fair inputs: premises under it are the ones
    fairness gives. *)
Inductive store_step (F : Prop) (st : StoreState) : StoreOp → StoreState → Prop :=
| step_ingest m sealed sealed_key now io g tag :
    st_generation st ≤ g →
    lifecycle_blocks st (m_commitment m) = false →
    bad_record (st_party st) (m_commitment m) (incoming m sealed sealed_key now) = false →
    st_records st !! m_commitment m = None →
    (is_Some tag ↔ uses_pretrade_reservation m = true) →
    (∀ t, tag = Some t → st_reservation_claims st !! t = None
       ∨ st_reservation_claims st !! t = Some (m_commitment m)) →
    (F → m_commitment m ≠ zero_digest ∧ ∀ t, tag = Some t → t ≠ zero_digest) →
    store_step F st (OpIngest m sealed sealed_key now io) (with_generation g
      (with_records (<[m_commitment m := incoming m sealed sealed_key now]> (st_records st))
        (with_claims (match tag with
           | Some t => <[t := m_commitment m]> (st_reservation_claims st)
           | None => st_reservation_claims st
           end) st)))
| step_receipt m key io r sealed_key digest receipt :
    st_records st !! m_commitment m = Some r →
    sr_sealed_capability_key_share r = Some sealed_key → sr_admission_receipt r = None →
    state_digest st = Ok digest →
    admission_sign (st_party st) (m_commitment m) (m_signer m) (share_wire_digest (sr_sealed r))
      (sealed_key_wire_digest sealed_key) (st_generation st) digest key = Some receipt →
    store_step F st (OpReceipt m key io)
      (with_records (<[m_commitment m := with_receipt (Some receipt) r]> (st_records st)) st)
| step_vote market sequence c previous expires_at now io deadline g :
    st_generation st ≤ g →
    checked_add (st_ordering_sequence st) 1 = Some sequence →
    previous = st_ordering_head st → c ∉ st_ordered_commitments st →
    ordering_admission st c now = Ok (market, deadline) → now ≤ expires_at ≤ deadline →
    (∀ v, st_ordering_votes st !! sequence = Some v → sv_expires_at v < now) →
    (F → vote_digest market sequence c previous expires_at ≠ zero_digest ∧ expires_at ≠ 0) →
    store_step F st (OpVote market sequence c previous expires_at now io)
      (with_generation g (with_votes (<[sequence := mk_stored_vote
         (vote_digest market sequence c previous expires_at) expires_at]>
         (st_ordering_votes st)) st))
| step_certificate c policy keys now io deadline g :
    st_generation st ≤ g →
    certificate_verify c policy keys now = Ok () →
    checked_add (st_ordering_sequence st) 1 = Some (oc_sequence c) →
    oc_previous_certificate c = st_ordering_head st →
    oc_commitment c ∉ st_ordered_commitments st →
    ordering_admission st (oc_commitment c) now = Ok (oc_market_id c, deadline) →
    oc_expires_at c ≤ deadline →
    (F → certificate_digest c ≠ zero_digest ∧
      (is_Some (st_lifecycle st !! oc_commitment c) → st_records st !! oc_commitment c = None)) →
    store_step F st (OpCertificate c policy keys now io) (with_generation g
      (with_votes (delete (oc_sequence c) (st_ordering_votes st))
        (with_chain (oc_sequence c) (certificate_digest c)
          ({[oc_commitment c]} ∪ st_ordered_commitments st)
          (with_lifecycle (alter (with_certificate c) (oc_commitment c) (st_lifecycle st)) st))))
| step_remove c io r g :
    st_generation st ≤ g →
    st_records st !! c = Some r → uses_pretrade_reservation (sr_manifest r) = false →
    store_step F st (OpRemove c io)
      (with_generation g (with_records (delete c (st_records st)) st))
| step_prune now io g :
    st_generation st ≤ g → expired_keys st now ≠ ∅ →
    store_step F st (OpPrune now io)
      (with_generation g (with_records (st_records st ∖ expired_keys st now) st))
| step_completed r io g :
    st_generation st ≤ g →
    incomplete_receipt (st_party st) r = false →
    st_completed_rounds st !! ne_round_id r = None →
    store_step F st (OpCompleted r io) (with_generation g
      (with_completed_rounds (<[ne_round_id r := r]> (st_completed_rounds st)) st))
| step_observed n io r g :
    st_generation st ≤ g →
    st_completed_rounds st !! nf_round_id n = Some r →
    observation_validate n r = Ok () →
    st_finalized_private_rounds st !! nf_round_id n = None →
    bt_get (nf_slot n) (default [] (st_native_finalities st !! nf_round_id n)) = None →
    store_step F st (OpObserved n io) (with_generation g
      (with_native (<[nf_round_id n :=
           bt_insert (nf_slot n) n (default [] (st_native_finalities st !! nf_round_id n))]>
         (st_native_finalities st)) st))
| step_finalize files plan f key io r required digest signed g :
    st_generation st ≤ g →
    finality_validate f = Ok () → pf_round_id f = rp_round_id plan →
    st_completed_rounds st !! rp_round_id plan = Some r →
    ne_public_output_sha256 r = pf_public_output_sha256 f →
    ne_private_parent_digest r
      = private_parent_digest st (rp_resting plan) (rp_arriving plan) →
    native_required st plan = Ok required →
    (required = true → check_native_required st plan r f = Ok ()) →
    st_finalized_private_rounds st !! rp_round_id plan = None →
    private_state_sign (st_party st) r f g digest key = Some signed →
    (F → (length (rp_resting plan) ≤ MAX_MATCH_SLOTS)%nat ∧
      vk_fingerprint (verifying_key key) ≠ zero_digest) →
    store_step F st (OpFinalize files plan f key io) (with_generation g
      (with_finalized (<[rp_round_id plan := {|
           fz_native_finality_required := required;
           fz_public_output_sha256 := pf_public_output_sha256 f;
           fz_transition_digest := pf_transition_digest f;
           fz_canonical_receipt_digest := pf_canonical_receipt_digest f;
           fz_canonical_height := pf_canonical_height f;
           fz_private_state_receipt := Some signed |}]> (st_finalized_private_rounds st))
        (with_heads (advance_heads plan r f (st_private_heads st)) st)))
| step_register c now io digest r g :
    st_generation st ≤ g →
    command_digest c = Ok digest → st_lifecycle st !! digest = None →
    st_records st !! lc_target c = Some r → lc_target c ∈ st_ordered_commitments st →
    command_verify c (sr_manifest r) now = Ok () →
    (F → digest ∉ st_ordered_commitments st) →
    store_step F st (OpRegister c now io) (with_generation g
      (with_lifecycle (<[digest := {| sl_command := c; sl_manifest := sr_manifest r;
           sl_certificate := None; sl_finality := None |}]> (st_lifecycle st)) st))
| step_release digest authority evidence io entry f g :
    st_generation st ≤ g →
    lifecycle_entry st digest = Ok entry → sl_finality entry = None → authority entry = true →
    release_record digest entry evidence = Ok f →
    (F → 0 ≤ re_sequence evidence) →
    store_step F st (OpRelease digest authority evidence io) (with_generation g
      (with_records (delete (lf_target f) (st_records st))
        (with_heads (delete (lf_target f) (st_private_heads st))
          (with_lifecycle (alter (with_finality f) digest (st_lifecycle st)) st)))).

(** Only a receipt is saved without a new generation. *)
Definition op_bump (op : StoreOp) : Z :=
  match op with OpReceipt _ _ _ => 0 | _ => 1 end.

(** What a successful answer promises of the state. *)
Definition effect (op : StoreOp) (st : StoreState) : Prop :=
  match op with
  | OpIngest m sealed sealed_key _ _ =>
      ∃ r, st_records st !! m_commitment m = Some r ∧ sr_manifest r = m ∧ sr_sealed r = sealed
        ∧ sr_sealed_capability_key_share r = Some sealed_key
  | OpReceipt m _ _ =>
      ∃ r, st_records st !! m_commitment m = Some r ∧ is_Some (sr_admission_receipt r)
  | OpVote market sequence c previous expires_at _ _ =>
      ∃ v, st_ordering_votes st !! sequence = Some v
        ∧ sv_statement_digest v = vote_digest market sequence c previous expires_at
  | OpCertificate c _ _ _ _ =>
      st_ordering_sequence st = oc_sequence c ∧ st_ordering_head st = certificate_digest c
      ∧ oc_commitment c ∈ st_ordered_commitments st
  | OpRemove c _ => st_records st !! c = None
  | OpCompleted r _ => st_completed_rounds st !! ne_round_id r = Some r
  | OpObserved n _ =>
      bt_get (nf_slot n) (default [] (st_native_finalities st !! nf_round_id n)) = Some n
  | OpFinalize _ plan f _ _ =>
      ∃ z, st_finalized_private_rounds st !! rp_round_id plan = Some z
        ∧ fz_public_output_sha256 z = pf_public_output_sha256 f
        ∧ fz_transition_digest z = pf_transition_digest f
        ∧ fz_canonical_receipt_digest z = pf_canonical_receipt_digest f
        ∧ fz_canonical_height z = pf_canonical_height f ∧ is_Some (fz_private_state_receipt z)
  | OpPrune now _ => expired_keys st now = ∅
  | OpRegister c _ _ =>
      ∃ digest e, command_digest c = Ok digest ∧ st_lifecycle st !! digest = Some e
        ∧ sl_command e = c
  | OpRelease digest _ _ _ =>
      ∃ e, st_lifecycle st !! digest = Some e ∧ is_Some (sl_finality e)
  | OpPin _ _ _ | OpBindRoot _ | OpRestart _ _ _ => True
  end.

(** ** Outcomes *)

(** What the call answers and leaves: nothing new, after an error or because the
    effect was there already; success with the step in memory and on disk; an
    error with the step on disk only (a failure after the rename); or, when and
    only when the generation counter is exhausted, an error with the step in
    memory only, votes and chain as they were. *)
Inductive outcome {A} (F : Prop) (op : StoreOp) (s : NodeShareStore) :
    NodeShareStore * result NodeError A → Prop :=
| out_same s' answer :
    ns_state s' = ns_state s → ns_disk s' = ns_disk s →
    match answer with Ok _ => effect op (ns_state s) | Err _ => True end →
    outcome F op s (s', answer)
| out_saved s' a e :
    store_step F (ns_state s) op (ns_state s') →
    st_generation (ns_state s') = st_generation (ns_state s) + op_bump op →
    encode_store (ns_state s') = Ok e → ns_disk s' = Some e →
    outcome F op s (s', Ok a)
| out_crashed s' err st e :
    store_step F (ns_state s) op st →
    st_generation st = st_generation (ns_state s) + op_bump op →
    encode_store st = Ok e → ns_state s' = ns_state s → ns_disk s' = Some e →
    outcome F op s (s', Err err)
| out_exhausted s' err :
    checked_add (st_generation (ns_state s)) 1 = None →
    store_step F (ns_state s) op (ns_state s') →
    st_generation (ns_state s') = st_generation (ns_state s) →
    ns_disk s' = ns_disk s →
    st_ordering_votes (ns_state s') = st_ordering_votes (ns_state s) →
    st_ordering_sequence (ns_state s') = st_ordering_sequence (ns_state s) →
    outcome F op s (s', Err err).

(** ** No operation does anything else *)

Lemma refused_outcome F op {A} s err : outcome (A := A) F op s (s, Err err).
Proof. by apply out_same. Qed.

Lemma kept_outcome F op {A} s (a : A) : effect op (ns_state s) → outcome F op s (s, Ok a).
Proof. intros. by apply out_same. Qed.

Lemma try_outcome F op {A B} (r : result NodeError A)
    (f : A → method NodeShareStore NodeError B) s :
  (∀ a, r = Ok a → outcome F op s (f a s)) → outcome F op s ((try r ≫= f) s).
Proof. intros Hf. rewrite try_bind. destruct r; [by apply Hf|apply refused_outcome]. Qed.

(** The tail of an operation that only returns a value. *)
Lemma tail_outcome F op {A B} (m : method NodeShareStore NodeError A)
    (f : A → method NodeShareStore NodeError B) s :
  (∀ a s', ∃ b, f a s' = (s', Ok b)) → outcome F op s (m s) → outcome F op s ((m ≫= f) s).
Proof.
  intros Hf. rewrite method_bind. generalize (m s) as out. intros out Ho.
  destruct Ho as [s' [a|err]|s' a e|s' err st e|s' err]; simpl;
    try (destruct (Hf a s') as [b ->]).
  - by apply out_same.
  - by apply out_same.
  - by eapply out_saved.
  - by eapply out_crashed.
  - by eapply out_exhausted.
Qed.

Lemma with_same_generation (st : StoreState) : with_generation (st_generation st) st = st.
Proof. by destruct st. Qed.

Lemma next_generation_Ok (st st' : StoreState) :
  next_generation st = Ok st' → st' = with_generation (st_generation st + 1) st.
Proof.
  unfold next_generation. intros (g & Hg%ok_or_Ok & [= <-])%bind_Ok.
  by apply checked_add_Some in Hg as [-> _].
Qed.

(** The common end of the saving closures: [persist], undone in memory on failure. *)
Lemma persist_outcome F op {A} (a : A) s st io :
  store_step F (ns_state s) op st →
  st_generation st = st_generation (ns_state s) + op_bump op →
  outcome F op s (match persist io (with_state st s) with
     | (s', Err e) => (with_state (ns_state s) s', Err e)
     | (s', Ok _) => (s', Ok a)
     end).
Proof.
  intros Hst Hg. unfold persist. simpl. destruct (encode_store st) as [e|e] eqn:E.
  - destruct io; simpl.
    + by eapply out_saved.
    + by apply out_same.
    + by eapply out_crashed.
  - by apply out_same.
Qed.

Lemma save_outcome F op s st io :
  store_step F (ns_state s) op (with_generation (st_generation st + 1) st) →
  st_generation st = st_generation (ns_state s) → op_bump op = 1 →
  outcome F op s (save st io s).
Proof.
  intros Hst Hg Hb. unfold save.
  destruct (next_generation st) as [st'|e] eqn:E; [|apply refused_outcome].
  apply next_generation_Ok in E as ->. apply persist_outcome; [done|]. simpl. lia.
Qed.

Lemma save_Ok st io s s' :
  save st io s = (s', Ok ()) → ns_state s' = with_generation (st_generation st + 1) st.
Proof.
  unfold save. destruct (next_generation st) as [st'|] eqn:E; [|done].
  apply next_generation_Ok in E as ->. unfold persist. simpl.
  destruct (encode_store _); [|done]. by destruct io; intros [= <-].
Qed.

Lemma next_generation_Err (st : StoreState) err :
  next_generation st = Err err → checked_add (st_generation st) 1 = None.
Proof. unfold next_generation. by destruct (checked_add _ _). Qed.

Lemma save_unguarded_outcome F op s st io :
  (∀ g, st_generation st ≤ g → store_step F (ns_state s) op (with_generation g st)) →
  st_generation st = st_generation (ns_state s) → op_bump op = 1 →
  st_ordering_votes st = st_ordering_votes (ns_state s) →
  st_ordering_sequence st = st_ordering_sequence (ns_state s) →
  outcome F op s (save_unguarded st io s).
Proof.
  intros Hst Hg Hb Hv Hq. unfold save_unguarded. destruct (next_generation st) as [st'|e] eqn:E.
  - apply next_generation_Ok in E as ->. apply persist_outcome; [|simpl; lia].
    apply Hst. lia.
  - apply next_generation_Err in E. apply out_exhausted; simpl; try done; [by rewrite <-Hg|].
    rewrite <-(with_same_generation st). apply Hst. lia.
Qed.

Lemma share_open_bound e key m party now share :
  share_open e key m party now = Ok share → ss_party e = party ∧ ss_commitment e = m_commitment m.
Proof. unfold share_open. intros (? & Hg%fail_if_Ok & _)%bind_Ok. by bool_hyps. Qed.

Lemma key_share_open_bound e key m party now share :
  key_share_open e key m party now = Ok share →
  sq_party e = party ∧ sq_order_commitment e = m_commitment m
  ∧ sq_capability_commitment e = m_settlement_capability_commitment m.
Proof. unfold key_share_open. intros (? & Hg%fail_if_Ok & _)%bind_Ok. by bool_hyps. Qed.

Lemma reservation_tag_free s m opened now t :
  reservation_tag s m opened now = Ok (Some t) →
  st_reservation_claims (ns_state s) !! t = None
  ∨ st_reservation_claims (ns_state s) !! t = Some (m_commitment m).
Proof.
  unfold reservation_tag. case_match; [|done].
  intros (? & _ & Hr)%bind_Ok. apply bind_Ok in Hr as (a & _ & Hr).
  apply bind_Ok in Hr as (? & Hg%fail_if_Ok & [= <-]).
  destruct (st_reservation_claims _ !! _) eqn:E; [|by left]. bool_hyps. naive_solver.
Qed.

Lemma reservation_tag_native s m opened now tag :
  reservation_tag s m opened now = Ok tag → is_Some tag ↔ uses_pretrade_reservation m = true.
Proof.
  unfold reservation_tag. destruct (uses_pretrade_reservation m).
  - intros (? & _ & Hr)%bind_Ok. apply bind_Ok in Hr as (a & _ & Hr).
    apply bind_Ok in Hr as (? & _ & [= <-]). by split.
  - intros [= <-]. split; [by intros [? ?]|done].
Qed.

Ltac returns := intros; eexists; reflexivity.

Lemma ingest_outcome F s m sealed sealed_key now io :
  let op := OpIngest m sealed sealed_key now io in
  (F → fair op s) → outcome F op s (ingest m sealed sealed_key now io s).
Proof.
  intros op HF. unfold ingest. rewrite self_bind.
  apply try_outcome; intros [] Hblock%fail_if_Ok.
  apply try_outcome; intros opened Hopen%map_err_Ok.
  apply try_outcome; intros tag Htag.
  apply try_outcome; intros share Hkey%map_err_Ok.
  destruct (st_records _ !! _) as [r|] eqn:Hr.
  { destruct (_ && _) eqn:Hsame; [|apply refused_outcome]. bool_hyps. apply kept_outcome. by exists r. }
  apply tail_outcome; [returns|].
  apply share_open_bound in Hopen as Hb. apply key_share_open_bound in Hkey as Hb'.
  apply save_unguarded_outcome; [|done..]. intros g Hg.
  apply (step_ingest F _ m sealed sealed_key now io g tag); try done; simpl.
  - unfold bad_record; simpl. destruct Hb as [-> ->], Hb' as (-> & -> & ->).
    by rewrite !Z.eqb_refl, !bool_decide_eq_true_2.
  - by eapply reservation_tag_native.
  - intros t ->. by eapply reservation_tag_free.
  - intros [Hm Ht]%HF. split; [done|]. intros t ->. by eapply Ht.
Qed.

Lemma receipt_outcome F s m key io : outcome F (OpReceipt m key io) s (admission_receipt m key io s).
Proof.
  unfold admission_receipt. rewrite self_bind.
  apply try_outcome; intros r Hr%ok_or_Ok.
  apply try_outcome; intros sk Hsk%ok_or_Ok.
  destruct (sr_admission_receipt r) as [receipt|] eqn:E.
  { apply try_outcome; intros [] _. apply kept_outcome. exists r. split; [done|]. by rewrite E. }
  apply try_outcome; intros digest Hd. apply try_outcome; intros receipt Hsg%ok_or_Ok.
  unfold save_receipt. assert (with_receipt None r = r) as -> by (destruct r; simpl in *; by subst).
  rewrite (insert_id (st_records (ns_state s)) _ r) by done.
  assert (with_records (st_records (ns_state s)) (ns_state s) = ns_state s) as -> by (by destruct s as [? []]).
  apply persist_outcome; [by eapply step_receipt|simpl; lia].
Qed.

Lemma vote_outcome F s market q c previous expires_at now io :
  let op := OpVote market q c previous expires_at now io in
  (F → fair op s) → outcome F op s (record_order_vote market q c previous expires_at now io s).
Proof.
  intros op HF. unfold record_order_vote. rewrite self_bind.
  apply try_outcome; intros expected Hq%ok_or_Ok.
  apply try_outcome; intros [] _.
  apply try_outcome; intros [market' deadline] Hadm.
  apply try_outcome; intros [] Hg%fail_if_Ok. bool_hyps. subst q market' previous.
  assert ((∀ v, st_ordering_votes (ns_state s) !! expected = Some v → sv_expires_at v < now) →
    outcome F op s ((save (with_votes (<[expected := mk_stored_vote (vote_digest market expected c
        (st_ordering_head (ns_state s)) expires_at) expires_at]>
        (st_ordering_votes (ns_state s))) (ns_state s)) io
      ≫= λ _, mret (vote_digest market expected c (st_ordering_head (ns_state s)) expires_at)) s)) as Hsave.
  { intros Hold. apply tail_outcome; [returns|]. apply save_outcome; [|done..].
    eapply step_vote; simpl; [lia|done..|lia|done|]. intros [? ?]%HF. split; [done|lia]. }
  destruct (st_ordering_votes _ !! _) as [v'|] eqn:Hv; [|by apply Hsave].
  case_bool_decide as Hsame; [apply kept_outcome; by exists v'|].
  destruct (now <=? sv_expires_at v') eqn:Hlive; [apply refused_outcome|]. bool_hyps.
  apply Hsave. by intros v [= <-].
Qed.

Lemma certificate_outcome F s c policy keys now io :
  let op := OpCertificate c policy keys now io in
  (F → fair op s) → outcome F op s (accept_order_certificate c policy keys now io s).
Proof.
  intros op HF. unfold accept_order_certificate. rewrite self_bind.
  apply try_outcome; intros [] Hcert%map_err_Ok.
  destruct (oc_sequence c =? _) eqn:Hs.
  { destruct (_ && _) eqn:Hsame; [|apply refused_outcome]. bool_hyps. by apply kept_outcome. }
  apply try_outcome; intros expected Hq%ok_or_Ok.
  apply try_outcome; intros [] _.
  apply try_outcome; intros [market deadline] Hadm.
  apply try_outcome; intros [] Hg%fail_if_Ok. bool_hyps. subst expected market.
  apply tail_outcome; [returns|]. apply save_outcome; [|done..].
  by eapply (step_certificate F _ c); simpl; [lia|..].
Qed.

Lemma remove_outcome F s c io : outcome F (OpRemove c io) s (remove_terminal c io s).
Proof.
  unfold remove_terminal. rewrite self_bind.
  destruct (st_records _ !! c) as [r|] eqn:Hr; [|by apply kept_outcome].
  destruct (uses_pretrade_reservation _) eqn:Hn; [apply refused_outcome|].
  apply tail_outcome; [returns|]. apply save_unguarded_outcome; [|done..].
  intros g Hg. by eapply step_remove.
Qed.

Lemma prune_outcome F s now io : outcome F (OpPrune now io) s (prune_expired now io s).
Proof.
  unfold prune_expired. rewrite self_bind. case_bool_decide; [by apply kept_outcome|].
  apply tail_outcome; [returns|]. apply save_unguarded_outcome; [|done..].
  intros g Hg. by apply step_prune.
Qed.

Lemma completed_outcome F s r io : outcome F (OpCompleted r io) s (record_completed_round r io s).
Proof.
  unfold record_completed_round. rewrite self_bind.
  apply try_outcome; intros [] Hr%fail_if_Ok.
  destruct (st_completed_rounds _ !! _) eqn:E.
  { case_bool_decide; [|apply refused_outcome]. apply kept_outcome. simpl. congruence. }
  apply save_unguarded_outcome; [|done..]. intros g Hg. by apply step_completed.
Qed.

Lemma observed_outcome F s n io : outcome F (OpObserved n io) s (record_native_finality n io s).
Proof.
  unfold record_native_finality. rewrite self_bind.
  apply try_outcome; intros r Hr%ok_or_Ok.
  apply try_outcome; intros [] Hv%map_err_Ok.
  destruct (bt_get _ _) eqn:E.
  { case_bool_decide; [|apply refused_outcome]. apply kept_outcome. simpl. congruence. }
  apply try_outcome; intros [] Hf%fail_if_Ok. bool_hyps. apply eq_None_not_Some in Hf.
  apply save_outcome; [|done..]. by eapply (step_observed F _ n); simpl; [lia|..].
Qed.

Lemma finalize_outcome F s files plan f key io :
  let op := OpFinalize files plan f key io in
  (F → fair op s) → outcome F op s (finalize_private_round files plan f key io s).
Proof.
  intros op HF. unfold finalize_private_round. rewrite self_bind.
  apply try_outcome; intros [] Hf.
  apply try_outcome; intros [] Hid%fail_if_Ok.
  apply try_outcome; intros r Hr%ok_or_Ok.
  apply try_outcome; intros [] Hout%fail_if_Ok. bool_hyps.
  apply try_outcome; intros required Hreq.
  apply try_outcome; intros [] Hnat.
  destruct (st_finalized_private_rounds _ !! _) as [z|] eqn:E.
  { apply try_outcome; intros [] Hz%fail_if_Ok. apply try_outcome; intros stored Hst%ok_or_Ok.
    do 2 (apply try_outcome; intros ? _). bool_hyps. apply kept_outcome. exists z.
    rewrite Hst. by split_and!. }
  apply try_outcome; intros [] Hpar%fail_if_Ok. apply try_outcome; intros [] _. bool_hyps.
  unfold finalize_save. destruct (_ ≫= _) as [[signed st']|e] eqn:Hs; [|apply refused_outcome].
  apply bind_Ok in Hs as (st1 & ->%next_generation_Ok & Hs).
  apply bind_Ok in Hs as (digest & _ & Hs). apply bind_Ok in Hs as (signed' & Hsg%ok_or_Ok & [= <- <-]).
  simpl. rewrite insert_insert_eq. simpl in Hsg. apply persist_outcome; [|simpl; lia].
  eapply (step_finalize F _ files plan f key io r required); simpl; try done; [lia|].
  intros ->. done.
Qed.

Lemma register_outcome F s c now io :
  let op := OpRegister c now io in
  (F → fair op s) → outcome F op s (register_lifecycle c now io s).
Proof.
  intros op HF. unfold register_lifecycle. rewrite self_bind.
  apply try_outcome; intros digest Hd%map_err_Ok.
  destruct (st_lifecycle _ !! _) as [e|] eqn:E.
  { case_bool_decide; [|apply refused_outcome]. apply kept_outcome. by exists digest, e. }
  do 2 (apply try_outcome; intros [] _).
  apply try_outcome; intros r Hr%ok_or_Ok.
  apply try_outcome; intros [] Hv%map_err_Ok. apply try_outcome; intros [] Hin%fail_if_Ok. bool_hyps.
  apply tail_outcome; [returns|]. apply save_outcome; [|done..].
  eapply step_register; simpl; [lia|done..|]. intros HF'%HF. by apply HF'.
Qed.

Lemma release_outcome F s digest authority e io :
  let op := OpRelease digest authority e io in
  (F → fair op s) → outcome F op s (confirm_release digest authority e io s).
Proof.
  intros op HF. unfold confirm_release. rewrite self_bind.
  apply try_outcome; intros entry Hentry. apply try_outcome; intros [] Ha%fail_if_Ok. bool_hyps.
  apply try_outcome; intros record Hrec.
  destruct (sl_finality entry) as [f|] eqn:E.
  { case_bool_decide; [|apply refused_outcome]. apply kept_outcome. exists entry.
    apply bind_Ok in Hentry as (e' & He'%ok_or_Ok & Hentry).
    apply bind_Ok in Hentry as ([] & _ & [= ->]). by rewrite E. }
  apply tail_outcome; [returns|]. apply save_outcome; [|done..].
  by eapply step_release; simpl; [lia|..].
Qed.

Definition is_restart (op : StoreOp) : bool :=
  match op with OpRestart _ _ _ => true | _ => false end.

(** Whether the operation succeeds. *)
Definition erase {A} (r : result NodeError A) : result NodeError () := _ ← r; Ok ().

Definition answer (op : StoreOp) (s : NodeShareStore) : result NodeError () :=
  match op with
  | OpPin venue defmi signer => (pin_reservation_trust venue defmi signer s).2
  | OpBindRoot directory => (bind_private_state_root directory s).2
  | OpIngest m sealed sealed_key now io => erase (ingest m sealed sealed_key now io s).2
  | OpReceipt m key io => erase (admission_receipt m key io s).2
  | OpVote market sequence c previous expires_at now io =>
      erase (record_order_vote market sequence c previous expires_at now io s).2
  | OpCertificate c policy keys now io => erase (accept_order_certificate c policy keys now io s).2
  | OpRemove c io => erase (remove_terminal c io s).2
  | OpCompleted r io => (record_completed_round r io s).2
  | OpObserved n io => (record_native_finality n io s).2
  | OpFinalize files plan f key io => erase (finalize_private_round files plan f key io s).2
  | OpPrune now io => erase (prune_expired now io s).2
  | OpRegister c now io => erase (register_lifecycle c now io s).2
  | OpRelease digest authority r io => erase (confirm_release digest authority r io s).2
  | OpRestart marker policy io =>
      erase (open_policy_bound (ns_disk s) marker policy (st_party (ns_state s)) (ns_key s) io).2
  end.

Lemma erase_outcome {A} F op s (out : NodeShareStore * result NodeError A) :
  outcome F op s out → outcome F op s (out.1, erase out.2).
Proof.
  destruct 1 as [s' [a|err]|s' a e|s' err st e|s' err]; unfold erase; simpl.
  - by apply out_same.
  - by apply out_same.
  - by eapply out_saved.
  - by eapply out_crashed.
  - by eapply out_exhausted.
Qed.

Lemma pair_outcome {A} F op s (out : NodeShareStore * result NodeError A) :
  outcome F op s out → outcome F op s (out.1, out.2).
Proof. by destruct out. Qed.

(** Whatever an operation answers and however its writes fail, it leaves the old
    store or exactly one step of that operation. *)
Lemma exec_outcome F op s s' :
  is_restart op = false → (F → fair op s) → exec op s = Some s' →
  outcome F op s (s', answer op s).
Proof.
  intros Hop HF. destruct op; try done; intros [= <-]; unfold answer.
  - apply pair_outcome. unfold pin_reservation_trust. rewrite self_bind.
    do 3 (apply try_outcome; intros [] _). by apply out_same.
  - apply pair_outcome. unfold bind_private_state_root. rewrite self_bind.
    apply try_outcome; intros [] _. by apply out_same.
  - by apply erase_outcome, ingest_outcome.
  - apply erase_outcome, receipt_outcome.
  - by apply erase_outcome, vote_outcome.
  - by apply erase_outcome, certificate_outcome.
  - apply erase_outcome, remove_outcome.
  - apply pair_outcome, completed_outcome.
  - apply pair_outcome, observed_outcome.
  - by apply erase_outcome, finalize_outcome.
  - apply erase_outcome, prune_outcome.
  - by apply erase_outcome, register_outcome.
  - by apply erase_outcome, release_outcome.
Qed.

(** A step has the effect its operation promises. *)
Lemma step_effect F st op st' : store_step F st op st' → effect op st'.
Proof.
  destruct 1 as [m sealed sealed_key now io g tag|m key io r sk d receipt| |c|
    |now io g| |n io r g| |c now io digest r g|digest authority e io entry f g ? Hentry]; simpl.
  - eexists. by rewrite lookup_insert_eq.
  - eexists. by rewrite lookup_insert_eq.
  - eexists. by rewrite lookup_insert_eq.
  - split_and!; [done..|set_solver].
  - apply lookup_delete_eq.
  - apply map_empty. intros k. apply map_lookup_filter_None. right. intros r Hr [Hd Hn]. simpl in Hr.
    apply lookup_difference_Some in Hr as [Hr Hnone]. unfold expired_keys in Hnone.
    apply map_lookup_filter_None in Hnone as [Hnone|Hnone]; [congruence|]. by apply (Hnone r).
  - by rewrite lookup_insert_eq.
  - rewrite lookup_insert_eq. simpl. by rewrite bt_get_insert_eq.
  - eexists. by rewrite lookup_insert_eq.
  - eexists digest, _. by rewrite lookup_insert_eq.
  - apply bind_Ok in Hentry as (e' & He'%ok_or_Ok & _). exists (with_finality f e').
    by rewrite lookup_alter_eq, He'.
Qed.

End steps.
