(* ===== verification/NodeCore.v ===== *)
(** * What a share store keeps true of its file

    [read_encode]: reading back a file that [persist] wrote returns the state it
    encoded, when that state passes [validate_state].  [store_core] is everything
    [validate_state] asks for but one clause, that each private head still has
    its sealed share; every step keeps it ([step_core]), and it decides
    [validate_state] up to that clause ([validate_core]). *)

From S2P Require Import Prelude BTree Bytes AppCrypto Orders Matching Circuit MpcRunner Book.
From S2P Require Import Ordering Reservations Edge EdgeDecimal NodeReceipts NodeState NodeStore.
From S2P Require Import NodeSteps.
Open Scope string_scope.
Open Scope list_scope.
Open Scope Z_scope.

(** [serde_json] reads back what it wrote, and the ["version"] member of a value is
    the field of the state parsed from it. *)
Class StoreLaws `{StoreJson} := {
  store_json_parse : ∀ st payload, json_store st = Some payload → parse_store payload = Some st;
  store_json_version : ∀ st payload,
    parse_store payload = Some st → json_version payload = Some (Some (st_version st))
}.

Lemma check_map_Ok {V} (f : Digest32 → V → result NodeError ()) m :
  check_map f m = Ok () ↔ map_Forall (λ k v, f k v = Ok ()) m.
Proof.
  unfold check_map. rewrite <-(list_to_map_to_list m) at 2.
  rewrite map_Forall_to_list, map_to_list_to_map by apply NoDup_fst_map_to_list.
  induction (map_to_list m) as [|[k v] l IH]; simpl; [split; [constructor|done]|].
  rewrite Forall_cons, <-IH. simpl. destruct (f k v) as [[]|]; simpl; naive_solver.
Qed.

(** When the only error of a scan is [e], the scan fails with it. *)
Lemma check_map_fail {V} (f : Digest32 → V → bool) e m :
  ¬ map_Forall (λ k v, f k v = false) m →
  check_map (λ k v, fail_if (f k v) e) m = Err e.
Proof.
  unfold check_map. rewrite map_Forall_to_list.
  induction (map_to_list m) as [|[k v] l IH]; simpl; [intros []; constructor|].
  rewrite Forall_cons. simpl. destruct (f k v); simpl; [done|]. intros Hn. apply IH. tauto.
Qed.

Section core.
Context `{Crypto} `{ReceiptJson} `{StoreJson} `{Persistence} `{!StoreLaws} `{!CryptoLaws}.

Lemma read_encode st e party policy :
  encode_store st = Ok e → st_version st = STORE_VERSION →
  read_state e party policy = (_ ← validate_state st party policy; Ok st).
Proof.
  unfold encode_store. intros (payload & Hp%ok_or_Ok & He)%bind_Ok Hv.
  apply bind_Ok in He as ([] & Hlen%fail_if_Ok & <-%Ok_inj). apply Z.ltb_ge in Hlen.
  unfold read_state, u64_be. set (n := Z.of_nat (length payload)) in *.
  assert (Hn : be_val (be_bytes 8 n) = n).
  { rewrite be_val_be_bytes. apply Z.mod_small. unfold n, MAX_STORE_BYTES in *. lia. }
  assert (Hl : length (STORE_MAGIC ++ be_bytes 8 n ++ payload ++ d_bytes (sha256 payload))
    = (48 + length payload)%nat).
  { rewrite !length_app, length_be_bytes, length_digest. change (length STORE_MAGIC) with 8%nat. lia. }
  rewrite Hl.
  assert (Hd : ∀ l, drop 8 (STORE_MAGIC ++ l) = l) by done.
  assert (Hd16 : ∀ l, drop 16 (STORE_MAGIC ++ be_bytes 8 n ++ l) = l) by (intros; done).
  rewrite Hd, Hd16, (take_app_length' (be_bytes 8 n)) by (by rewrite length_be_bytes). rewrite Hn.
  rewrite (pass_guard (_ <? _)) by (apply Z.ltb_ge; lia).
  rewrite (pass_guard (_ || _)).
  2:{ apply orb_false_iff; split; [apply Nat.ltb_ge; lia|].
      apply negb_false_iff, bool_decide_eq_true. done. }
  rewrite (pass_guard (negb _)) by (apply negb_false_iff, Z.eqb_eq; lia).
  replace (Z.to_nat n) with (length payload) by lia.
  rewrite take_app_length.
  replace (drop (16 + length payload) _) with (d_bytes (sha256 payload)).
  2:{ rewrite <-drop_drop, Hd16. by rewrite drop_app_length. }
  rewrite (pass_guard (negb _)) by (by apply negb_false_iff, bool_decide_eq_true).
  apply store_json_parse in Hp as Hparse.
  rewrite (store_json_version _ _ Hparse), Hparse. simpl. by rewrite Hv.
Qed.

(** ** The core invariant *)

Record store_core (party : Z) (policy : bytes) (st : StoreState) : Prop := {
  core_version : st_version st = STORE_VERSION;
  core_policy : st_deployment_crypto_policy st = policy;
  core_ordering : bad_ordering st party = false;
  core_records : map_Forall (λ k r, bad_record party k r = false) (st_records st);
  core_lifecycle : map_Forall (λ id e, check_lifecycle st id e = Ok ()) (st_lifecycle st);
  core_claims : map_Forall (λ tag order, is_zero tag || is_zero order = false)
    (st_reservation_claims st);
  core_rounds : map_Forall (λ k r, negb (bool_decide (k = ne_round_id r))
    || incomplete_receipt party r = false) (st_completed_rounds st);
  core_heads : map_Forall (λ _ h, misbound_head st h = false) (st_private_heads st);
  core_native : map_Forall (λ k l, check_native st k l = Ok ()) (st_native_finalities st);
  core_finalized : map_Forall (λ k f, check_finalization st party k f = Ok ())
    (st_finalized_private_rounds st)
}.

(** Every private head still has its order's record. *)
Definition heads_kept (st : StoreState) : Prop :=
  map_Forall (λ k _, is_Some (st_records st !! k)) (st_private_heads st).

#[local] Instance heads_kept_dec st : Decision (heads_kept st).
Proof. unfold heads_kept. apply _. Defined.

Definition misbound : NodeError := State "node share store contains a misbound private-state head".

Lemma validate_core party policy st :
  store_core party policy st →
  validate_state st party policy = if decide (heads_kept st) then Ok () else Err misbound.
Proof.
  intros Hc. unfold validate_state. rewrite (core_policy _ _ _ Hc).
  rewrite (bool_decide_eq_true_2 (policy = policy)) by done. simpl fail_if. rewrite Ok_bind.
  rewrite (core_ordering _ _ _ Hc). simpl fail_if. rewrite Ok_bind.
  assert (check_map (λ k r, fail_if (bad_record party k r)
    (State "node share store contains a misbound record")) (st_records st) = Ok ()) as ->.
  { apply check_map_Ok. intros k r Hr. by rewrite (core_records _ _ _ Hc k r Hr). }
  rewrite Ok_bind. assert (check_map (check_lifecycle st) (st_lifecycle st) = Ok ()) as ->.
  { apply check_map_Ok, Hc. }
  rewrite Ok_bind. assert (check_map (λ tag order, fail_if (is_zero tag || is_zero order)
    (State "reservation claim index is malformed")) (st_reservation_claims st) = Ok ()) as ->.
  { apply check_map_Ok. intros k r Hr. by rewrite (core_claims _ _ _ Hc k r Hr). }
  rewrite Ok_bind. assert (check_map (λ k r, fail_if (negb (bool_decide (k = ne_round_id r))
          || incomplete_receipt party r)
        (State "node share store contains a misbound completed round")) (st_completed_rounds st)
    = Ok ()) as ->.
  { apply check_map_Ok. intros k r Hr. by rewrite (core_rounds _ _ _ Hc k r Hr). }
  rewrite Ok_bind. case_decide as Hk.
  - assert (check_map (λ k h, fail_if (bad_head st k h) misbound) (st_private_heads st) = Ok ())
      as Hh.
    { apply check_map_Ok. intros k h Hh. unfold bad_head.
      rewrite (core_heads _ _ _ Hc k h Hh). destruct (Hk k h Hh) as [r ->]. done. }
    unfold misbound in Hh. rewrite Hh, Ok_bind.
    assert (check_map (check_native st) (st_native_finalities st) = Ok ()) as ->.
    { apply check_map_Ok, Hc. }
    rewrite Ok_bind. apply check_map_Ok, Hc.
  - rewrite (check_map_fail (bad_head st)); [done|]. intros Hall. apply Hk.
    intros k h Hh. specialize (Hall k h Hh). unfold bad_head in Hall. bool_hyps.
    by destruct (st_records st !! k).
Qed.

(** Conversely a state that validates has the core. *)
Lemma core_of_valid party policy st :
  validate_state st party policy = Ok () → st_version st = STORE_VERSION →
  store_core party policy st ∧ heads_kept st.
Proof.
  unfold validate_state. intros Hv Hver.
  apply bind_Ok in Hv as ([] & Hp%fail_if_Ok & Hv). bool_hyps.
  apply bind_Ok in Hv as ([] & Ho%fail_if_Ok & Hv).
  apply bind_Ok in Hv as ([] & Hr%check_map_Ok & Hv).
  apply bind_Ok in Hv as ([] & Hl%check_map_Ok & Hv).
  apply bind_Ok in Hv as ([] & Hc%check_map_Ok & Hv).
  apply bind_Ok in Hv as ([] & Hd%check_map_Ok & Hv).
  apply bind_Ok in Hv as ([] & Hh%check_map_Ok & Hv).
  apply bind_Ok in Hv as ([] & Hn%check_map_Ok & Hf%check_map_Ok).
  assert (∀ k h, st_private_heads st !! k = Some h →
    is_Some (st_records st !! k) ∧ misbound_head st h = false) as Hboth.
  { intros k h Hk. specialize (Hh k h Hk). apply fail_if_Ok, orb_false_iff in Hh as [Hx ?].
    split; [|done]. bool_hyps. by apply not_eq_None_Some. }
  split; [split; try done|].
  - intros k r Hk. by apply Hr, fail_if_Ok in Hk.
  - intros k r Hk. by apply Hc, fail_if_Ok in Hk.
  - intros k r Hk. by apply Hd, fail_if_Ok in Hk.
  - intros k h Hk. by apply (Hboth k).
  - intros k h Hk. by apply (Hboth k h).
Qed.

Lemma read_state_Ok e party policy st :
  read_state e party policy = Ok st →
  validate_state st party policy = Ok () ∧ st_version st = STORE_VERSION.
Proof.
  unfold read_state. intros Hr. do 4 (apply bind_Ok in Hr as ([] & _ & Hr)).
  apply bind_Ok in Hr as (value & Hval%ok_or_Ok & Hr).
  apply bind_Ok in Hr as (version & ->%ok_or_Ok & Hr).
  apply bind_Ok in Hr as ([] & Hv%fail_if_Ok & Hr). bool_hyps.
  apply bind_Ok in Hr as (st' & Hp%ok_or_Ok & Hr).
  apply bind_Ok in Hr as ([] & Hvalid & [= ->]). split; [done|].
  apply store_json_version in Hp. rewrite Hval in Hp. congruence.
Qed.

(** What a file holds does not depend on who reads it. *)
Lemma read_state_any e party policy st party' policy' :
  read_state e party policy = Ok st →
  read_state e party' policy' = (_ ← validate_state st party' policy'; Ok st).
Proof.
  unfold read_state. intros Hr.
  do 4 (apply bind_Ok in Hr as ([] & -> & Hr); rewrite Ok_bind).
  apply bind_Ok in Hr as (value & -> & Hr). rewrite Ok_bind.
  apply bind_Ok in Hr as (version & -> & Hr). rewrite Ok_bind.
  apply bind_Ok in Hr as ([] & -> & Hr). rewrite Ok_bind.
  apply bind_Ok in Hr as (st' & -> & Hr). rewrite Ok_bind.
  by apply bind_Ok in Hr as ([] & _ & [= ->]).
Qed.

(** ** Lifecycle entries *)

Definition sound_finality (id : Digest32) (e : StoredLifecycle) (f : LifecycleFinality) : Prop :=
  lf_command f = id ∧ lf_target f = lc_target (sl_command e) ∧ lf_height f ≠ 0
  ∧ lf_released_sequence f ≠ 0 ∧ lf_statement f ≠ zero_digest ∧ lf_before_root f ≠ zero_digest
  ∧ lf_after_root f ≠ zero_digest ∧ lf_before_root f ≠ lf_after_root f
  ∧ lf_transaction_id f ≠ [] ∧ lf_block_id f ≠ [].

Definition sound_certificate (st : StoreState) (id : Digest32) (e : StoredLifecycle)
    (c : OrderCertificate) : Prop :=
  oc_commitment c = id ∧ oc_market_id c = lc_market_id (sl_command e) ∧ oc_sequence c ≠ 0
  ∧ oc_sequence c ≤ st_ordering_sequence st ∧ oc_expires_at c ≤ lc_expires_at (sl_command e).

Definition sound_entry (st : StoreState) (id : Digest32) (e : StoredLifecycle) : Prop :=
  command_verify (sl_command e) (sl_manifest e) (lc_issued_at (sl_command e)) = Ok ()
  ∧ command_digest (sl_command e) = Ok id
  ∧ (is_Some (sl_certificate e) ↔ id ∈ st_ordered_commitments st)
  ∧ (∀ c, sl_certificate e = Some c → sound_certificate st id e c)
  ∧ (∀ f, sl_finality e = Some f → is_Some (sl_certificate e) ∧ sound_finality id e f
      ∧ st_records st !! lc_target (sl_command e) = None
      ∧ st_private_heads st !! lc_target (sl_command e) = None).

Lemma length_eqb_0 {A} (l : list A) : Nat.eqb (length l) 0 = false ↔ l ≠ [].
Proof. by destruct l. Qed.

Lemma certificate_part st id e c :
  negb (bool_decide (oc_commitment c = id))
  || negb (bool_decide (oc_market_id c = lc_market_id (sl_command e)))
  || (oc_sequence c =? 0) || (st_ordering_sequence st <? oc_sequence c)
  || (lc_expires_at (sl_command e) <? oc_expires_at c) = false ↔ sound_certificate st id e c.
Proof.
  unfold sound_certificate.
  rewrite !orb_false_iff, !negb_false_iff, !bool_decide_eq_true, Z.eqb_neq, !Z.ltb_ge. tauto.
Qed.

Lemma finality_part st id e f :
  bool_decide (sl_certificate e = None)
  || negb (bool_decide (lf_command f = id))
  || negb (bool_decide (lf_target f = lc_target (sl_command e)))
  || (lf_height f =? 0) || (lf_released_sequence f =? 0) || is_zero (lf_statement f)
  || is_zero (lf_before_root f) || is_zero (lf_after_root f)
  || bool_decide (lf_before_root f = lf_after_root f)
  || Nat.eqb (length (lf_transaction_id f)) 0 || Nat.eqb (length (lf_block_id f)) 0
  || bool_decide (is_Some (st_records st !! lc_target (sl_command e)))
  || bool_decide (is_Some (st_private_heads st !! lc_target (sl_command e))) = false
  ↔ is_Some (sl_certificate e) ∧ sound_finality id e f
    ∧ st_records st !! lc_target (sl_command e) = None
    ∧ st_private_heads st !! lc_target (sl_command e) = None.
Proof.
  unfold sound_finality, is_zero.
  rewrite !orb_false_iff, !negb_false_iff, !bool_decide_eq_true, !bool_decide_eq_false,
    !Z.eqb_neq, !length_eqb_0, <-!eq_None_not_Some, <-not_eq_None_Some. tauto.
Qed.

Lemma eqb_decide (P Q : Prop) `{Decision P, Decision Q} :
  Bool.eqb (bool_decide P) (bool_decide Q) = true ↔ (P ↔ Q).
Proof. repeat case_bool_decide; simpl; naive_solver. Qed.

Lemma bad_lifecycle_false st id d e :
  bad_lifecycle st id d e = false ↔ id = d
  ∧ (is_Some (sl_certificate e) ↔ id ∈ st_ordered_commitments st)
  ∧ (∀ c, sl_certificate e = Some c → sound_certificate st d e c)
  ∧ (∀ f, sl_finality e = Some f → is_Some (sl_certificate e) ∧ sound_finality d e f
      ∧ st_records st !! lc_target (sl_command e) = None
      ∧ st_private_heads st !! lc_target (sl_command e) = None).
Proof.
  unfold bad_lifecycle. rewrite !orb_false_iff, !negb_false_iff, bool_decide_eq_true, eqb_decide.
  split.
  - intros (((Hid & Hc) & Hs) & Hf). refine (conj Hid (conj Hc (conj _ _))).
    + intros c Hc'. rewrite Hc' in Hs. by apply certificate_part.
    + intros f Hf'. rewrite Hf' in Hf. by apply (finality_part st).
  - intros (Hid & Hc & Hs & Hf). refine (conj (conj (conj Hid Hc) _) _).
    + destruct (sl_certificate e) as [c|]; [|done]. apply certificate_part. by apply Hs.
    + destruct (sl_finality e) as [f|]; [|done]. apply finality_part. by apply Hf.
Qed.

Lemma check_lifecycle_Ok st id e : check_lifecycle st id e = Ok () ↔ sound_entry st id e.
Proof.
  unfold check_lifecycle, sound_entry. split.
  - intros ([] & Hv%map_err_Ok & Hb)%bind_Ok.
    apply bind_Ok in Hb as (d & Hd%map_err_Ok & Hb%fail_if_Ok).
    apply bad_lifecycle_false in Hb as [<- Hb]. exact (conj Hv (conj Hd Hb)).
  - intros (-> & -> & Hb). simpl. apply fail_if_Ok, bad_lifecycle_false. by split.
Qed.

(** An entry stays sound while the chain grows by other commitments and its
    released target is not brought back. *)
Lemma sound_entry_frame st st' id e :
  st_ordering_sequence st ≤ st_ordering_sequence st' →
  (id ∈ st_ordered_commitments st ↔ id ∈ st_ordered_commitments st') →
  (is_Some (sl_certificate e) → is_Some (sl_finality e) →
   st_records st !! lc_target (sl_command e) = None →
   st_private_heads st !! lc_target (sl_command e) = None →
   st_records st' !! lc_target (sl_command e) = None
   ∧ st_private_heads st' !! lc_target (sl_command e) = None) →
  sound_entry st id e → sound_entry st' id e.
Proof.
  intros Hq Ho Hr (Hv & Hd & Hc & Hs & Hf). refine (conj Hv (conj Hd (conj _ (conj _ _)))).
  - by rewrite <-Ho.
  - intros c Hc'. destruct (Hs c Hc') as (? & ? & ? & ? & ?). split_and!; try done. lia.
  - intros f Hf'. destruct (Hf f Hf') as (? & ? & ? & ?). split_and!; try done; by apply Hr.
Qed.

End core.
