(* ===== verification/NodeInv.v ===== *)
(** * Every step keeps the core of the store

    The preservation half of the durability argument: one lemma per kind of
    step of [store_step], each from the frame lemmas of the clauses it does not
    touch. *)

From S2P Require Import Prelude BTree Bytes AppCrypto Orders Matching Circuit MpcRunner Book.
From S2P Require Import Ordering Reservations Edge EdgeDecimal NodeReceipts NodeState NodeStore.
From S2P Require Import NodeSteps NodeCore.
Open Scope string_scope.
Open Scope list_scope.
Open Scope Z_scope.

Section inv.
Context `{Crypto} `{ReceiptJson} `{StoreJson} `{Persistence} `{!CryptoLaws}.

(** ** Clauses and their frames *)

Lemma same_key_size {A} (m : gmap Z A) q : map_Forall (λ k _, k = q) m → (size m ≤ 1)%nat.
Proof.
  intros Hm. destruct (map_choose_or_empty m) as [(k & v & Hk)| ->]; [|rewrite map_size_empty; lia].
  assert (m = {[k := v]}) as ->; [|by rewrite map_size_singleton].
  apply map_eq. intros k'. destruct (decide (k' = k)) as [->|Hne].
  - by rewrite Hk, lookup_singleton_eq.
  - rewrite lookup_singleton_ne by done. destruct (m !! k') as [v'|] eqn:Hk'; [|done].
    destruct Hne. by rewrite (Hm _ _ Hk'), (Hm _ _ Hk).
Qed.

Definition sound_vote (st : StoreState) (q : Z) (v : StoredOrderVote) : Prop :=
  q = saturating_add (st_ordering_sequence st) 1
  ∧ sv_statement_digest v ≠ zero_digest ∧ sv_expires_at v ≠ 0.

Lemma bad_ordering_false st party :
  bad_ordering st party = false ↔ st_party st = party
  ∧ (st_ordering_sequence st = 0 ↔ st_ordering_head st = zero_digest)
  ∧ Z.of_nat (size (st_ordered_commitments st)) = st_ordering_sequence st
  ∧ map_Forall (sound_vote st) (st_ordering_votes st).
Proof.
  unfold bad_ordering, is_zero.
  rewrite !orb_false_iff, !negb_false_iff, !Z.eqb_eq, bool_decide_eq_true, Nat.ltb_ge.
  replace (st_ordering_sequence st =? 0) with (bool_decide (st_ordering_sequence st = 0))
    by (case_bool_decide; symmetry; [by apply Z.eqb_eq|by apply Z.eqb_neq]).
  rewrite eqb_decide. split.
  - intros ((((Hp & Hs) & Hz) & _) & Hv). exact (conj Hp (conj Hs (conj Hz Hv))).
  - intros (Hp & Hs & Hz & Hv).
    refine (conj (conj (conj (conj Hp Hs) Hz) _) Hv).
    eapply same_key_size. intros q v Hq. by apply (Hv q v Hq).
Qed.

Lemma misbound_head_frame st st' h :
  st_completed_rounds st ⊆ st_completed_rounds st' →
  st_finalized_private_rounds st ⊆ st_finalized_private_rounds st' →
  misbound_head st h = false → misbound_head st' h = false.
Proof.
  intros Hc Hf. unfold misbound_head. rewrite !orb_false_iff. intros [[Hh Hr] Hfin].
  repeat (split; [tauto|]).
  destruct (st_completed_rounds st !! _) eqn:E; [|done].
  rewrite (lookup_weaken _ _ _ _ E Hc).
  destruct (st_finalized_private_rounds st !! _) eqn:E'; [|done].
  rewrite (lookup_weaken _ _ _ _ E' Hf). tauto.
Qed.

Lemma check_native_frame st st' k l :
  st_completed_rounds st ⊆ st_completed_rounds st' →
  check_native st k l = Ok () → check_native st' k l = Ok ().
Proof.
  intros Hc. unfold check_native. intros (r & Hr%ok_or_Ok & Hl)%bind_Ok.
  by rewrite (lookup_weaken _ _ _ _ Hr Hc).
Qed.

Lemma check_finalization_frame st st' party k f :
  st_completed_rounds st ⊆ st_completed_rounds st' →
  st_generation st ≤ st_generation st' →
  (∀ l, st_native_finalities st !! k = Some l → st_native_finalities st' !! k = Some l) →
  check_finalization st party k f = Ok () → check_finalization st' party k f = Ok ().
Proof.
  intros Hc Hg Hn. unfold check_finalization.
  intros ([] & -> & Hf)%bind_Ok. apply bind_Ok in Hf as (r & Hr%ok_or_Ok & Hf).
  rewrite Ok_bind, (lookup_weaken _ _ _ _ Hr Hc). simpl ok_or. rewrite Ok_bind.
  apply bind_Ok in Hf as ([] & -> & Hf). rewrite Ok_bind.
  apply bind_Ok in Hf as (signed & -> & Hf). rewrite Ok_bind.
  apply bind_Ok in Hf as (signer & -> & Hf). rewrite Ok_bind.
  apply bind_Ok in Hf as ([] & -> & Hf). rewrite Ok_bind.
  apply bind_Ok in Hf as ([] & Hgen%fail_if_Ok & Hf). bool_hyps.
  rewrite pass_guard by (apply Z.ltb_ge; lia).
  destruct (fz_native_finality_required f); [|done].
  apply bind_Ok in Hf as (l & Hl%ok_or_Ok & Hf). by rewrite (Hn _ Hl).
Qed.

(** ** Steps *)

(** Steps that only change the records: an entry whose order is released stays
    without one. *)
Lemma records_core party policy st records g :
  store_core party policy st → st_generation st ≤ g →
  map_Forall (λ k r, bad_record party k r = false) records →
  (∀ k, lifecycle_blocks st k = true → st_records st !! k = None → records !! k = None) →
  store_core party policy (with_generation g (with_records records st)).
Proof.
  intros Hc Hg Hr Hb. destruct Hc as [Hv Hp Ho _ Hl Hcl Hro Hh Hn Hf].
  split; try done.
  - intros id e He. apply check_lifecycle_Ok. specialize (Hl id e He).
    apply check_lifecycle_Ok in Hl. eapply (sound_entry_frame st); [done..| |done].
    intros Hs _ Hrec Hhd. split; [|done]. apply Hb; [|done]. apply bool_decide_eq_true.
    by exists id, e.
  - intros k f Hk. by apply (check_finalization_frame st), Hf.
Qed.

Lemma ingest_core party policy st r g tag :
  store_core party policy st → st_generation st ≤ g →
  lifecycle_blocks st (m_commitment (sr_manifest r)) = false →
  bad_record (st_party st) (m_commitment (sr_manifest r)) r = false →
  m_commitment (sr_manifest r) ≠ zero_digest → (∀ t, tag = Some t → t ≠ zero_digest) →
  store_core party policy (with_generation g
      (with_records (<[m_commitment (sr_manifest r) := r]> (st_records st))
        (with_claims (match tag with
           | Some t => <[t := m_commitment (sr_manifest r)]> (st_reservation_claims st)
           | None => st_reservation_claims st
           end) st))).
Proof.
  intros Hc Hg Hb Hr Hz Ht.
  assert (st_party st = party) as Hp by (apply bad_ordering_false, (core_ordering _ _ _ Hc)).
  assert (store_core party policy (with_generation g
    (with_records (<[m_commitment (sr_manifest r) := r]> (st_records st)) st)))
    as [Hv Hpo Ho Hre Hl Hcl Hro Hh Hn Hf].
  { apply records_core; [done|done| |].
    - apply map_Forall_insert_2; [by rewrite <-Hp|]. apply Hc.
    - intros k Hk Hnone. rewrite lookup_insert_ne; [done|congruence]. }
  split; try done. simpl in *.
  destruct tag as [t|]; [|done]. apply map_Forall_insert_2; [|done].
  unfold is_zero. rewrite orb_false_iff, !bool_decide_eq_false. eauto.
Qed.

Lemma vote_core party policy st q v g :
  store_core party policy st → st_generation st ≤ g →
  checked_add (st_ordering_sequence st) 1 = Some q →
  sv_statement_digest v ≠ zero_digest → sv_expires_at v ≠ 0 →
  store_core party policy
    (with_generation g (with_votes (<[q := v]> (st_ordering_votes st)) st)).
Proof.
  intros Hc Hg [-> Hq]%checked_add_Some Hd He.
  destruct Hc as [Hv Hp Ho Hr Hl Hcl Hro Hh Hn Hf]. split; try done.
  - apply bad_ordering_false in Ho as (? & ? & ? & Hvo). apply bad_ordering_false.
    refine (conj _ (conj _ (conj _ _))); try done. simpl.
    apply map_Forall_insert_2; [|done]. unfold sound_vote, saturating_add. simpl.
    split_and!; [lia|done..].
  - intros k f Hk. by apply (check_finalization_frame st), Hf.
Qed.

Lemma ordering_admission_entry st c now market deadline e :
  ordering_admission st c now = Ok (market, deadline) →
  st_records st !! c = None → st_lifecycle st !! c = Some e →
  market = lc_market_id (sl_command e) ∧ deadline = lc_expires_at (sl_command e).
Proof.
  unfold ordering_admission. intros Ha Hr He. rewrite Hr in Ha. apply bind_Ok in Ha as (e' & He'%ok_or_Ok & Ha).
  apply bind_Ok in Ha as ([] & _ & Ha). apply bind_Ok in Ha as ([] & _ & [= <- <-]).
  rewrite He in He'. by injection He' as ->.
Qed.

Lemma certificate_core party policy st c digest market deadline time g :
  store_core party policy st → st_generation st ≤ g →
  checked_add (st_ordering_sequence st) 1 = Some (oc_sequence c) →
  oc_commitment c ∉ st_ordered_commitments st →
  ordering_admission st (oc_commitment c) time = Ok (market, deadline) →
  market = oc_market_id c → oc_expires_at c ≤ deadline → digest ≠ zero_digest →
  (is_Some (st_lifecycle st !! oc_commitment c) → st_records st !! oc_commitment c = None) →
  store_core party policy (with_generation g
    (with_votes (delete (oc_sequence c) (st_ordering_votes st))
      (with_chain (oc_sequence c) digest ({[oc_commitment c]} ∪ st_ordered_commitments st)
        (with_lifecycle (alter (with_certificate c) (oc_commitment c) (st_lifecycle st)) st)))).
Proof.
  intros Hc Hg [Hs Hq]%checked_add_Some Hfresh Hadm Hm Hdl Hd Hapart.
  destruct Hc as [Hv Hp Ho Hr Hl Hcl Hro Hh Hn Hf].
  apply bad_ordering_false in Ho as (Hparty & Hhead & Hsize & Hvo).
  split; try done.
  - apply bad_ordering_false. refine (conj Hparty (conj _ (conj _ _))); simpl.
    + split; [lia|done].
    + rewrite size_union, size_singleton by set_solver. lia.
    + intros q v [Hne Hqv]%lookup_delete_Some. destruct Hne. destruct (Hvo q v Hqv) as [-> _].
      unfold saturating_add. lia.
  - intros id e He. apply check_lifecycle_Ok. cbn [st_lifecycle with_generation with_votes
      with_chain with_lifecycle] in He.
    destruct (decide (id = oc_commitment c)) as [->|Hne].
    + rewrite lookup_alter_eq in He. apply fmap_Some in He as (e0 & He0 & ->).
      specialize (Hl _ _ He0). apply check_lifecycle_Ok in Hl as (Hcv & Hcd & Hci & Hcs & Hcf).
      destruct (ordering_admission_entry _ _ _ _ _ _ Hadm (Hapart (mk_is_Some _ _ He0)) He0) as [-> ->].
      refine (conj Hcv (conj Hcd (conj _ (conj _ _)))); simpl.
      * split; [set_solver|done].
      * intros c' [= <-]. unfold sound_certificate; simpl. split_and!; try done; lia.
      * intros f Hff. destruct (Hcf f Hff) as [Hsome _]. by apply Hci in Hsome.
    + rewrite lookup_alter_ne in He by done. specialize (Hl _ _ He).
      apply check_lifecycle_Ok in Hl. eapply (sound_entry_frame st); [| | |done]; simpl; [lia| |done].
      set_solver.
  - intros k f Hk. by apply (check_finalization_frame st), Hf.
Qed.

Lemma completed_core party policy st r g :
  store_core party policy st → st_generation st ≤ g →
  incomplete_receipt (st_party st) r = false → st_completed_rounds st !! ne_round_id r = None →
  store_core party policy (with_generation g
    (with_completed_rounds (<[ne_round_id r := r]> (st_completed_rounds st)) st)).
Proof.
  intros Hc Hg Hr Hnone.
  assert (st_party st = party) as Hp by (apply bad_ordering_false, (core_ordering _ _ _ Hc)).
  destruct Hc as [Hv Hpo Ho Hre Hl Hcl Hro Hh Hn Hf].
  pose proof (insert_subseteq (st_completed_rounds st) _ r Hnone) as Hsub.
  split; try done; simpl.
  - apply map_Forall_insert_2; [|done]. rewrite bool_decide_eq_true_2 by done. by rewrite <-Hp.
  - intros k h Hk. by apply (misbound_head_frame st), (Hh k h).
  - intros k l Hk. by apply (check_native_frame st), Hn.
  - intros k f Hk. by apply (check_finalization_frame st), Hf.
Qed.

Lemma check_observations_Ok r l :
  check_observations r l = Ok ()
  ↔ Forall (λ '(slot, n), slot = nf_slot n ∧ observation_validate n r = Ok ()) l.
Proof.
  induction l as [|[slot n] l IH]; simpl; [split; [constructor|done]|].
  rewrite Forall_cons, <-IH. destruct (slot =? nf_slot n) eqn:E; bool_hyps; simpl.
  - destruct (observation_validate n r) as [[]|]; simpl; naive_solver.
  - naive_solver.
Qed.

Lemma observed_core party policy st n r g :
  store_core party policy st → st_generation st ≤ g →
  st_completed_rounds st !! nf_round_id n = Some r → observation_validate n r = Ok () →
  st_finalized_private_rounds st !! nf_round_id n = None →
  store_core party policy (with_generation g
    (with_native (<[nf_round_id n :=
         bt_insert (nf_slot n) n (default [] (st_native_finalities st !! nf_round_id n))]>
       (st_native_finalities st)) st)).
Proof.
  intros Hc Hg Hr Hval Hnf. destruct Hc as [Hv Hpo Ho Hre Hl Hcl Hro Hh Hn Hf].
  split; try done; simpl.
  - apply map_Forall_insert_2; [|done]. unfold check_native. simpl. rewrite Hr. simpl.
    assert (Forall (λ '(slot, n), slot = nf_slot n ∧ observation_validate n r = Ok ())
      (default [] (st_native_finalities st !! nf_round_id n))) as Hold.
    { destruct (st_native_finalities st !! _) as [l|] eqn:E; simpl; [|constructor].
      specialize (Hn _ _ E). unfold check_native in Hn. rewrite Hr in Hn. simpl in Hn.
      apply bind_Ok in Hn as ([] & _ & Hn). by apply check_observations_Ok. }
    rewrite pass_guard.
    + apply check_observations_Ok, Forall_forall. intros kv [->|Hin]%bt_insert_keys; [done|].
      by apply (proj1 (Forall_forall _ _) Hold).
    + apply Nat.eqb_neq. intros Hz%length_zero_iff_nil.
      pose proof (bt_get_insert_eq (nf_slot n) n (default [] (st_native_finalities st !! nf_round_id n))).
      by rewrite Hz in *.
  - intros k f Hk. apply (check_finalization_frame st); try done; [|by apply Hf].
    intros l Hkl. simpl. rewrite lookup_insert_ne; [done|]. intros <-. congruence.
Qed.

(** ** Finality *)

Lemma vk_from_bytes_ok k :
  vk_fingerprint (verifying_key k) ≠ zero_digest →
  vk_from_bytes (vk_fingerprint (verifying_key k)) = Ok (verifying_key k).
Proof. intros Hz. unfold vk_from_bytes. by rewrite bool_decide_eq_false_2. Qed.

(** A signed private-state receipt verifies under its key, for its generation. *)
Lemma private_state_sign_verify party r f g digest key signed :
  private_state_sign party r f g digest key = Some signed →
  private_state_verify signed r f party (verifying_key key) = true
  ∧ pr_generation signed = g ∧ pr_signer signed = vk_fingerprint (verifying_key key).
Proof.
  unfold private_state_sign. destruct (_ || is_zero digest) eqn:E; [done|]. bool_hyps.
  destruct (try_sign _ _) as [sg|] eqn:Es; [|done]. intros [= <-]. split; [|done].
  unfold private_state_verify. simpl.
  match goal with H : is_zero digest = false |- _ => rewrite H end.
  rewrite !Z.eqb_refl, !bool_decide_eq_true_2 by done.
  destruct (g =? 0) eqn:Eg; bool_hyps; [done|]. simpl.
  erewrite <-signature_ok_signed; [|exact Es]. done.
Qed.

Lemma advance_heads_lookup plan r f heads k h :
  (length (rp_resting plan) ≤ MAX_MATCH_SLOTS)%nat →
  advance_heads plan r f heads !! k = Some h →
  heads !! k = Some h ∨ (k ∈ rp_resting plan ++ [rp_arriving plan]
    ∧ ∃ slot, (slot ≤ MAX_MATCH_SLOTS)%nat ∧ h = new_head plan r f slot).
Proof.
  intros Hlen. unfold advance_heads.
  assert (∀ l (heads : gmap Digest32 PrivateBookStateRef), foldl (λ heads '(slot, c), <[c := new_head plan r f slot]> heads) heads l !! k
      = Some h → heads !! k = Some h ∨ ∃ slot, (slot, k) ∈ l ∧ h = new_head plan r f slot) as Hfold.
  { induction l as [|[slot c] l IH]; intros hs; simpl; [by left|].
    intros [Hi|(sl & Hin & ->)]%IH; [|right; exists sl; set_solver].
    apply lookup_insert_Some in Hi as [[<- <-]|[_ Hi]]; [right; exists slot; set_solver|by left]. }
  assert (foldl (λ heads '(slot, c), <[c := new_head plan r f slot]> heads) heads
      (imap pair (rp_resting plan)) !! k = Some h →
    heads !! k = Some h ∨ (k ∈ rp_resting plan ++ [rp_arriving plan]
    ∧ ∃ slot, (slot ≤ MAX_MATCH_SLOTS)%nat ∧ h = new_head plan r f slot)) as Hrest.
  { intros [?|(slot & Hin & ->)]%Hfold; [by left|right]. apply elem_of_lookup_imap in Hin as (i & c & [= <- <-] & Hi).
    split; [apply elem_of_app; left; by eapply list_elem_of_lookup_2|].
    exists slot. split; [|done]. apply lookup_lt_Some in Hi. lia. }
  case_match.
  - intros [[<- <-]|[_ Hi]]%lookup_insert_Some; [|auto].
    right. split; [set_solver|]. by exists MAX_MATCH_SLOTS.
  - intros [_ Hi]%lookup_delete_Some. auto.
Qed.

Lemma native_required_records st plan required c :
  native_required st plan = Ok required →
  st_finalized_private_rounds st !! rp_round_id plan = None →
  c ∈ rp_resting plan ++ [rp_arriving plan] → is_Some (st_records st !! c).
Proof.
  unfold native_required. intros Hn Hf Hin. rewrite Hf in Hn.
  apply bind_Ok in Hn as (records & Hall%collect_Ok & _).
  apply list_elem_of_lookup in Hin as [i Hi].
  destruct (Forall2_lookup_l _ _ _ _ _ Hall Hi) as (r & _ & Hr%ok_or_Ok). eauto.
Qed.

(** The head written for a slot of a finalized round is bound to it. *)
Lemma new_head_bound st plan r f slot fin :
  finality_validate f = Ok () → pf_round_id f = rp_round_id plan → (slot ≤ MAX_MATCH_SLOTS)%nat →
  st_completed_rounds st !! rp_round_id plan = Some r →
  is_zero (ne_private_state_sha256 r) = false →
  st_finalized_private_rounds st !! rp_round_id plan = Some fin →
  fz_transition_digest fin = pf_transition_digest f →
  fz_canonical_receipt_digest fin = pf_canonical_receipt_digest f →
  fz_canonical_height fin = pf_canonical_height f →
  misbound_head st (new_head plan r f slot) = false.
Proof.
  intros Hf%fail_if_Ok Hid Hs Hr Hz Hfin H1' H2' H3'. rewrite Hid in Hf.
  rewrite !orb_false_iff in Hf. destruct Hf as ((((Hf1 & Hf2) & Hf3) & Hf4) & Hf5).
  unfold misbound_head. simpl. rewrite Hf1, Hz, Hf3, Hf4, Hf5, Hr, Hfin. simpl.
  rewrite !bool_decide_eq_true_2, H3', Z.eqb_refl by done. simpl.
  rewrite !orb_false_r. apply orb_false_iff. unfold PRIVATE_ORDER_WIRES, MAX_MATCH_SLOTS in *.
  split; [apply Z.ltb_ge; lia|].
  apply negb_false_iff, Z.eqb_eq. rewrite Nat2Z.inj_mul. apply Z.mod_mul. lia.
Qed.

Lemma check_signed party st r f g digest key signed required :
  finality_validate f = Ok () → ne_round_id r = pf_round_id f →
  ne_public_output_sha256 r = pf_public_output_sha256 f →
  vk_fingerprint (verifying_key key) ≠ zero_digest →
  private_state_sign party r f g digest key = Some signed →
  st_completed_rounds st !! pf_round_id f = Some r → st_generation st = g →
  (required = true → ∃ l, st_native_finalities st !! pf_round_id f = Some l
     ∧ require_complete r l f = Ok ()) →
  check_finalization st party (pf_round_id f) {|
    fz_native_finality_required := required;
    fz_public_output_sha256 := pf_public_output_sha256 f;
    fz_transition_digest := pf_transition_digest f;
    fz_canonical_receipt_digest := pf_canonical_receipt_digest f;
    fz_canonical_height := pf_canonical_height f;
    fz_private_state_receipt := Some signed |} = Ok ().
Proof.
  intros Hf%fail_if_Ok Hid Hout Hz Hs Hr Hg Hn.
  rewrite !orb_false_iff in Hf. destruct Hf as ((((Hf1 & Hf2) & Hf3) & Hf4) & Hf5).
  apply private_state_sign_verify in Hs as (Hver & Hgen & Hsig).
  unfold check_finalization. simpl. rewrite Hf2, Hf3, Hf4, Hf5. simpl. rewrite Hr. simpl.
  rewrite bool_decide_eq_true_2 by done. simpl. rewrite Hsig, vk_from_bytes_ok by done. simpl.
  unfold finality_of. simpl. rewrite Hid.
  replace (mk_private_finality (pf_round_id f) _ _ _ _) with f by (by destruct f).
  rewrite Hver. simpl. rewrite pass_guard by (apply Z.ltb_ge; lia).
  destruct required; [|done]. destruct (Hn eq_refl) as (l & -> & Hl). exact Hl.
Qed.

Lemma finalize_core party policy st plan r f required digest key signed g :
  store_core party policy st → st_generation st ≤ g →
  finality_validate f = Ok () → pf_round_id f = rp_round_id plan →
  st_completed_rounds st !! rp_round_id plan = Some r →
  ne_public_output_sha256 r = pf_public_output_sha256 f →
  native_required st plan = Ok required →
  (required = true → check_native_required st plan r f = Ok ()) →
  st_finalized_private_rounds st !! rp_round_id plan = None →
  private_state_sign (st_party st) r f g digest key = Some signed →
  (length (rp_resting plan) ≤ MAX_MATCH_SLOTS)%nat →
  vk_fingerprint (verifying_key key) ≠ zero_digest →
  store_core party policy (with_generation g
    (with_finalized (<[rp_round_id plan := {|
         fz_native_finality_required := required;
         fz_public_output_sha256 := pf_public_output_sha256 f;
         fz_transition_digest := pf_transition_digest f;
         fz_canonical_receipt_digest := pf_canonical_receipt_digest f;
         fz_canonical_height := pf_canonical_height f;
         fz_private_state_receipt := Some signed |}]> (st_finalized_private_rounds st))
      (with_heads (advance_heads plan r f (st_private_heads st)) st))).
Proof.
  intros Hc Hg Hfv Hid Hr Hout Hreq Hnat Hnone Hs Hlen Hz.
  assert (st_party st = party) as Hp by (apply bad_ordering_false, (core_ordering _ _ _ Hc)).
  destruct Hc as [Hv Hpo Ho Hre Hl Hcl Hro Hh Hn Hf].
  pose proof (Hro _ _ Hr) as Hrr. rewrite orb_false_iff in Hrr. destruct Hrr as [Hk Hin].
  unfold incomplete_receipt in Hin. bool_hyps.
  split; try done.
  - intros id e He. apply check_lifecycle_Ok. specialize (Hl _ _ He). apply check_lifecycle_Ok in Hl.
    eapply (sound_entry_frame st); [done..| |done]. intros _ _ Hrec Hhd. split; [done|]. simpl.
    destruct (advance_heads _ _ _ _ !! _) as [h|] eqn:E; [|done].
    apply advance_heads_lookup in E as [E|[Hin _]]; [congruence| |done].
    destruct (native_required_records _ _ _ _ Hreq Hnone Hin). congruence.
  - intros k h Hkh. apply advance_heads_lookup in Hkh as [Hkh|(_ & slot & Hslot & ->)]; [| |done].
    + apply (misbound_head_frame st); [done| |by apply (Hh k)]. by apply insert_subseteq.
    + eapply (new_head_bound _ plan r f slot); try exact (lookup_insert_eq _ _ _); done.
  - simpl. apply map_Forall_insert_2.
    + rewrite <-Hid. eapply check_signed; try done; [congruence|by rewrite <-Hp|by rewrite Hid|].
      intros Hq. specialize (Hnat Hq). unfold check_native_required in Hnat.
      apply bind_Ok in Hnat as (l & Hl'%ok_or_Ok & Hnat). apply bind_Ok in Hnat as ([] & Hc' & _).
      rewrite Hid. eauto.
    + intros k f' Hk'. by apply (check_finalization_frame st), Hf.
Qed.

(** ** Lifecycle *)

(** A command that verified at some time verifies at its own issue time. *)
Lemma command_verify_issued c m now :
  command_verify c m now = Ok () → command_verify c m (lc_issued_at c) = Ok ().
Proof.
  unfold command_verify. intros ([] & -> & Hv)%bind_Ok. rewrite Ok_bind.
  apply bind_Ok in Hv as ([] & Hg%fail_if_Ok & Hv). rewrite pass_guard; [done|].
  rewrite !orb_false_iff in *.
  destruct Hg as (((((((Hg1 & Hg2) & Hg3) & Hg4) & Hg5) & Hg6) & Hg7) & Hg8).
  refine (conj (conj (conj (conj (conj (conj (conj Hg1 Hg2) Hg3) Hg4) _) _) Hg7) Hg8);
    bool_hyps; apply Z.ltb_ge; lia.
Qed.

Lemma register_core party policy st c digest r time g :
  store_core party policy st → st_generation st ≤ g →
  command_digest c = Ok digest → st_lifecycle st !! digest = None →
  command_verify c (sr_manifest r) time = Ok () → digest ∉ st_ordered_commitments st →
  store_core party policy (with_generation g
    (with_lifecycle (<[digest := {| sl_command := c; sl_manifest := sr_manifest r;
         sl_certificate := None; sl_finality := None |}]> (st_lifecycle st)) st)).
Proof.
  intros Hc Hg Hd Hnone Hv' Hfresh. destruct Hc as [Hv Hpo Ho Hre Hl Hcl Hro Hh Hn Hf].
  split; try done; simpl.
  - apply map_Forall_insert_2; [|done]. apply check_lifecycle_Ok.
    refine (conj _ (conj Hd (conj _ (conj _ _)))); simpl; [by eapply command_verify_issued| |done..].
    split; [by intros [? ?]|done].
  - intros k f Hk. by apply (check_finalization_frame st), Hf.
Qed.

Lemma release_record_sound digest e evidence f :
  release_record digest e evidence = Ok f → 0 ≤ re_sequence evidence →
  lf_target f = lc_target (sl_command e) ∧ sound_finality digest e f.
Proof.
  unfold release_record. intros ([] & Hv%map_err_Ok & Hr)%bind_Ok Hseq.
  apply fail_if_Ok in Hv. apply bind_Ok in Hr as (next & [-> _]%ok_or_Ok%checked_add_Some & Hr).
  apply bind_Ok in Hr as ([] & Hh%fail_if_Ok & [= <-]). unfold sound_finality, is_zero in *; simpl.
  bool_hyps. split; [done|]. split_and!; try done; try congruence; try lia.
  - intros Hnil. rewrite Hnil in *. match goal with E : [] = re_transaction_id _ |- _ => by rewrite <-E in * end.
  - by apply length_eqb_0.
Qed.

Lemma release_core party policy st digest entry evidence f g :
  store_core party policy st → st_generation st ≤ g →
  lifecycle_entry st digest = Ok entry → release_record digest entry evidence = Ok f →
  0 ≤ re_sequence evidence →
  store_core party policy (with_generation g
    (with_records (delete (lf_target f) (st_records st))
      (with_heads (delete (lf_target f) (st_private_heads st))
        (with_lifecycle (alter (with_finality f) digest (st_lifecycle st)) st)))).
Proof.
  intros Hc Hg Hentry Hrel Hseq. destruct Hc as [Hv Hpo Ho Hre Hl Hcl Hro Hh Hn Hf].
  destruct (release_record_sound _ _ _ _ Hrel Hseq) as [Ht Hsound].
  apply bind_Ok in Hentry as (e' & He'%ok_or_Ok & Hentry).
  apply bind_Ok in Hentry as ([] & Hcert%fail_if_Ok & [= ->]). bool_hyps.
  apply not_eq_None_Some in Hcert.
  split; try done; simpl.
  - by apply map_Forall_delete.
  - intros id e He. apply check_lifecycle_Ok. destruct (decide (id = digest)) as [->|Hne].
    + rewrite lookup_alter_eq, He' in He. injection He as <-. specialize (Hl _ _ He').
      apply check_lifecycle_Ok in Hl as (Hcv & Hcd & Hci & Hcs & _).
      refine (conj Hcv (conj Hcd (conj Hci (conj Hcs _)))). simpl. intros ? [= <-].
      rewrite Ht, !lookup_delete_eq. done.
    + rewrite lookup_alter_ne in He by done. specialize (Hl _ _ He).
      apply check_lifecycle_Ok in Hl. eapply (sound_entry_frame st); [done..| |done]. simpl.
      intros _ _ Hr' Hh'. by rewrite !lookup_delete_None; auto.
  - by apply map_Forall_delete.
  - intros k f' Hk. by apply (check_finalization_frame st), Hf.
Qed.

Lemma receipt_core party policy st id r receipt :
  store_core party policy st → st_records st !! id = Some r →
  store_core party policy (with_records (<[id := with_receipt receipt r]> (st_records st)) st).
Proof.
  intros Hc Hr.
  assert (with_records (<[id := with_receipt receipt r]> (st_records st)) st
    = with_generation (st_generation st)
        (with_records (<[id := with_receipt receipt r]> (st_records st)) st)) as -> by done.
  apply records_core; [done|lia| |].
  - apply map_Forall_insert_2; [|apply Hc]. exact (core_records _ _ _ Hc id r Hr).
  - intros k _ Hnone. rewrite lookup_insert_ne; [done|congruence].
Qed.

Lemma drop_core party policy st kept g :
  store_core party policy st → st_generation st ≤ g → kept ⊆ st_records st →
  store_core party policy (with_generation g (with_records kept st)).
Proof.
  intros Hc Hg Hk. apply records_core; [done|done| |].
  - intros k r Hr. eapply (core_records _ _ _ Hc). by eapply lookup_weaken.
  - intros k _ Hnone. by eapply lookup_weaken_None.
Qed.

(** Every step on fair inputs keeps the core. *)
Lemma step_core party policy op st st' :
  store_core party policy st → store_step True st op st' → store_core party policy st'.
Proof.
  intros Hc Hst. destruct Hst as
    [m sealed sealed_key now io g tag Hg Hblock Hbad _ _ _ HF
    |m key io r sk digest receipt Hr
    |market q c previous expires_at now io deadline g Hg Hq _ _ _ _ _ HF
    |c policy' keys now io deadline g Hg _ Hq _ Hin Hadm Hdl HF
    |c io r g Hg|now io g Hg|r io g Hg Hr Hnone|n io r g Hg Hr Hval Hnone
    |files plan f key io r required digest signed g Hg Hf Hid Hr Hout _ Hreq Hnat Hnone Hsg HF
    |c now io digest r g Hg Hd Hnone _ _ Hv HF
    |digest authority e io entry f g Hg Hentry _ _ Hrec HF].
  - destruct HF; [done|]. by apply (ingest_core _ _ _ (incoming m sealed sealed_key now) g tag).
  - by apply receipt_core.
  - destruct HF; [done|]. by eapply vote_core.
  - destruct HF; [done|]. by eapply certificate_core.
  - apply drop_core; [done..|]. apply delete_subseteq.
  - apply drop_core; [done..|]. by apply map_subseteq_difference_l.
  - by apply completed_core.
  - by eapply observed_core.
  - destruct HF; [done|]. by eapply finalize_core.
  - eapply register_core; eauto.
  - eapply release_core; eauto.
Qed.

Lemma empty_core party policy : store_core party policy (empty_state party policy).
Proof.
  split; try done. apply bad_ordering_false. refine (conj eq_refl (conj _ (conj eq_refl _))); done.
Qed.

End inv.
