(* ===== verification/NodeLife.v ===== *)
(** * The life of a share store

    Over any run of operations, write failures at any point and restarts: the
    file on disk reopens exactly when every private head still has its sealed
    share; a sequence gets a second statement only after the first vote expired;
    a reservation claim stays with its order. *)

From S2P Require Import Prelude BTree Bytes AppCrypto Orders Matching Circuit MpcRunner Book.
From S2P Require Import Ordering Reservations Edge EdgeDecimal NodeReceipts NodeState NodeStore.
From S2P Require Import NodeSteps NodeCore NodeInv.
Open Scope string_scope.
Open Scope list_scope.
Open Scope Z_scope.

Section life.
Context `{Crypto} `{ReceiptJson} `{StoreJson} `{Persistence} `{!StoreLaws} `{!CryptoLaws}.

(** A store as [open_policy_bound] hands it over: its file reads back as the
    state it holds. *)
Definition opened (party : Z) (policy : bytes) (s : NodeShareStore) : Prop :=
  ∃ e, ns_disk s = Some e ∧ read_state e party policy = Ok (ns_state s).

Lemma open_opened disk marker policy party key io disk' s :
  open_policy_bound disk marker policy party key io = (disk', Ok s) →
  ∃ bytes, policy = Some bytes ∧ opened party bytes s.
Proof.
  unfold open_policy_bound. destruct (_ ≫= _) as [p|e] eqn:E; [|done].
  apply bind_Ok in E as ([] & _ & E). apply bind_Ok in E as ([] & _ & ->%ok_or_Ok).
  intros Ho. exists p. split; [done|]. destruct disk as [enc|].
  - injection Ho as _ Ho. apply bind_Ok in Ho as (st & Hst & [= <-]). by exists enc.
  - unfold persist in Ho. simpl in Ho.
    destruct (encode_store (empty_state party p)) as [enc|] eqn:He; [|done].
    destruct io; try done. injection Ho as _ <-. exists enc. split; [done|]. simpl.
    rewrite (read_encode _ _ party p He eq_refl), (validate_core _ _ _ (empty_core party p)).
    rewrite decide_True by done. done.
Qed.

(** ** Durability *)

(** [e] is the file of [st]. *)
Definition reads (party : Z) (policy e : bytes) (st : StoreState) : Prop :=
  read_state e party policy = if decide (heads_kept st) then Ok st else Err misbound.

Definition durable (party : Z) (policy : bytes) (s : NodeShareStore) : Prop :=
  store_core party policy (ns_state s) ∧
  ∃ e st, ns_disk s = Some e ∧ store_core party policy st ∧ reads party policy e st.

Lemma opened_durable party policy s : opened party policy s → durable party policy s.
Proof.
  intros (e & Hd & Hr). destruct (read_state_Ok _ _ _ _ Hr) as [Hv Hver].
  destruct (core_of_valid _ _ _ Hv Hver) as [Hc Hk]. split; [done|].
  exists e, (ns_state s). split_and!; try done. unfold reads. by rewrite decide_True.
Qed.

Lemma encode_reads party policy e st :
  encode_store st = Ok e → store_core party policy st → reads party policy e st.
Proof.
  intros He Hc. unfold reads. rewrite (read_encode _ _ _ _ He (core_version _ _ _ Hc)).
  rewrite (validate_core _ _ _ Hc). by destruct (decide _).
Qed.

Lemma restart_state s s' marker policy io e :
  exec (OpRestart marker policy io) s = Some s' → ns_disk s = Some e →
  ns_disk s' = Some e ∧ ∃ p, policy = Some p ∧
    read_state e (st_party (ns_state s)) p = Ok (ns_state s').
Proof.
  simpl. intros Hx Hd. destruct (open_policy_bound _ _ _ _ _ _) as [d [s''|]] eqn:E; [|done].
  injection Hx as ->. destruct (open_opened _ _ _ _ _ _ _ _ E) as (p & -> & e' & Hd' & Hr).
  assert (ns_disk s' = Some e) as Hds.
  { rewrite Hd in E. unfold open_policy_bound in E. destruct (_ ≫= _); [|done].
    injection E as _ E. by apply bind_Ok in E as (st & _ & [= <-]). }
  split; [done|]. exists p. split; [done|]. congruence.
Qed.

(** A file of a state of this party reopens, if at all, as that state. *)
Lemma reads_inj party policy e st policy' st' :
  reads party policy e st → read_state e party policy' = Ok st' → st' = st.
Proof.
  unfold reads. intros Hr Hr'. pose proof (read_state_any _ _ _ _ party policy Hr') as Hany.
  rewrite Hany in Hr. destruct (read_state_Ok _ _ _ _ Hr') as [Hv Hver].
  destruct (core_of_valid _ _ _ Hv Hver) as [Hc Hk].
  destruct (decide (policy' = policy)) as [->|Hne].
  - rewrite Hv in Hr. simpl in Hr. destruct (decide _); congruence.
  - unfold validate_state in Hr. rewrite (core_policy _ _ _ Hc) in Hr.
    rewrite bool_decide_eq_false_2 in Hr by done. simpl in Hr. by destruct (decide (heads_kept st)).
Qed.

(** The stores an operation can leave, without its answer. *)
Lemma exec_outcome_inv F op s s' :
  is_restart op = false → (F → fair op s) → exec op s = Some s' →
  (ns_state s' = ns_state s ∧ ns_disk s' = ns_disk s)
  ∨ (∃ e, store_step F (ns_state s) op (ns_state s') ∧ encode_store (ns_state s') = Ok e
       ∧ ns_disk s' = Some e)
  ∨ (∃ st e, store_step F (ns_state s) op st ∧ encode_store st = Ok e
       ∧ ns_state s' = ns_state s ∧ ns_disk s' = Some e)
  ∨ (store_step F (ns_state s) op (ns_state s') ∧ ns_disk s' = ns_disk s
       ∧ st_ordering_votes (ns_state s') = st_ordering_votes (ns_state s)).
Proof.
  intros Hop HF Hx. pose proof (exec_outcome F op s s' Hop HF Hx) as Ho.
  inversion Ho; subst; eauto 10.
Qed.

Lemma exec_durable party policy op s s' :
  durable party policy s → fair op s → exec op s = Some s' → durable party policy s'.
Proof.
  intros [Hc (e & st & Hd & Hst & Hr)] HF Hx. destruct (is_restart op) eqn:Hop.
  - destruct op; try done. destruct (restart_state _ _ _ _ _ _ Hx Hd) as (Hd' & p & -> & Hr').
    assert (st_party (ns_state s) = party) as Hp by (apply bad_ordering_false, (core_ordering _ _ _ Hc)).
    rewrite Hp in Hr'. apply (reads_inj party policy _ st) in Hr' as Hst'; [|done].
    split; [by rewrite Hst'|]. by exists e, st.
  - destruct (exec_outcome_inv True op s s' Hop (λ _, HF) Hx)
      as [[Hs Hd']|[(e' & Hs & He & Hd')|[(st' & e' & Hs & He & Hm & Hd')|(Hs & Hd' & _)]]].
    + rewrite <-Hs in Hc. split; [done|]. exists e, st. by rewrite Hd'.
    + pose proof (step_core _ _ _ _ _ Hc Hs) as Hc'. split; [done|].
      exists e', (ns_state s'). split_and!; [done..|]. by apply encode_reads.
    + pose proof (step_core _ _ _ _ _ Hc Hs) as Hc'. split; [by rewrite Hm|].
      exists e', st'. split_and!; [done..|]. by apply encode_reads.
    + pose proof (step_core _ _ _ _ _ Hc Hs) as Hc'. split; [done|]. exists e, st. by rewrite Hd'.
Qed.

Lemma run_durable party policy s ops s' :
  run fair s ops s' → durable party policy s → durable party policy s'.
Proof. induction 1 as [|????? HF Hx _ IH]; [done|]. intros Hd. by eapply IH, exec_durable. Qed.

(** C6: Whatever operations a node runs after opening its store, with write failures
    before or after the rename and restarts in between, the file on disk is the
    file of one state that keeps every bound the loader checks; it reopens as that
    state exactly when each private head in it still has its sealed share, and is
    refused for that reason otherwise. *)
Theorem store_reopens party policy s0 ops s :
  opened party policy s0 → run fair s0 ops s →
  ∃ e st, ns_disk s = Some e ∧ store_core party policy st ∧
    read_state e party policy = if decide (heads_kept st) then Ok st else Err misbound.
Proof.
  intros Ho%opened_durable Hr. destruct (run_durable _ _ _ _ _ Hr Ho) as [_ (e & st & ?)].
  by exists e, st.
Qed.

(** The store after a pruning that reaches the disk. *)
Definition pruned (now : Z) (s : NodeShareStore) : StoreState :=
  with_generation (st_generation (ns_state s) + 1)
    (with_records (st_records (ns_state s) ∖ expired_keys (ns_state s) now) (ns_state s)).

Lemma prune_writes now s e :
  expired_keys (ns_state s) now ≠ ∅ → st_generation (ns_state s) < u64_max →
  encode_store (pruned now s) = Ok e →
  prune_expired now Durable s
    = (with_disk (Some e) (with_state (pruned now s) s), Ok (size (expired_keys (ns_state s) now))).
Proof.
  intros Hne Hg He. unfold prune_expired. rewrite self_bind, bool_decide_eq_false_2 by done.
  rewrite method_bind. unfold save_unguarded, next_generation. simpl st_generation.
  unfold checked_add. rewrite (proj2 (Z.leb_le _ _)) by lia. cbn [ok_or mbind result_mbind].
  unfold persist. cbn [ns_state with_state]. fold (pruned now s). by rewrite He.
Qed.

(** C33: Pruning an expired order that has a private head succeeds, whenever the
    generation can still advance and the pruned state fits in a file, and leaves a
    file that the store, which reopened before, can never reopen. *)
Theorem prune_strands_heads party policy s e now k r h e' :
  read_state e party policy = Ok (ns_state s) →
  st_records (ns_state s) !! k = Some r → m_retention_deadline (sr_manifest r) < now →
  uses_pretrade_reservation (sr_manifest r) = false →
  st_private_heads (ns_state s) !! k = Some h →
  st_generation (ns_state s) < u64_max → encode_store (pruned now s) = Ok e' →
  ∃ s' n, prune_expired now Durable s = (s', Ok n) ∧ (0 < n)%nat
    ∧ ns_disk s' = Some e' ∧ read_state e' party policy = Err misbound.
Proof.
  intros Hr Hk Hdl Hres Hh Hgen He. destruct (read_state_Ok _ _ _ _ Hr) as [Hv Hver].
  destruct (core_of_valid _ _ _ Hv Hver) as [Hc _].
  assert (expired_keys (ns_state s) now !! k = Some r) as Hex
    by (by apply map_lookup_filter_Some).
  assert (expired_keys (ns_state s) now ≠ ∅) as Hne by (intros E; by rewrite E in Hex).
  eexists _, _. split; [by apply prune_writes|]. split; [by apply map_size_non_empty_iff in Hne; lia|].
  split; [done|].
  assert (store_core party policy (pruned now s)) as Hc'.
  { apply drop_core; [done|lia|]. by apply map_subseteq_difference_l. }
  pose proof (encode_reads _ _ _ _ He Hc') as Hrd. unfold reads in Hrd.
  rewrite decide_False in Hrd; [done|]. intros Hkept. destruct (Hkept k h Hh) as [r' Hr'].
  simpl in Hr'. apply lookup_difference_Some in Hr' as [_ Hnone]. congruence.
Qed.

(** C30: Whatever an operation answers and however its writes fail, it refines its own
    abstract step: it leaves state and file as they were, takes the one step of
    that operation in memory and on disk with the next generation and answers
    success, has the step on disk alone and answers an error (a failure after the
    rename), or, only with an exhausted generation counter, has it in memory alone
    and answers an error. A successful answer means that the promised effect is in
    the state that is held. *)
Theorem store_refines op s s' :
  is_restart op = false → exec op s = Some s' →
  outcome False op s (s', answer op s)
  ∧ (answer op s = Ok () → effect op (ns_state s')).
Proof.
  intros Hop Hx. pose proof (exec_outcome False op s s' Hop ltac:(done) Hx) as Ho. split; [done|].
  intros Ha. rewrite Ha in Ho. inversion Ho as [? ? Hs _ He| ? ? ? Hs| |]; subst.
  - by rewrite Hs.
  - by eapply step_effect.
Qed.

(** ** Properties that survive restarts *)

(** [P] holds of the state in memory and of whatever the file can be opened as. *)
Definition holds (P : StoreState → Prop) (s : NodeShareStore) : Prop :=
  P (ns_state s) ∧ st_version (ns_state s) = STORE_VERSION ∧
  ∃ e, ns_disk s = Some e ∧ ∀ party policy st, read_state e party policy = Ok st → P st.

Lemma step_version F op st st' : store_step F st op st' → st_version st' = st_version st.
Proof. by destruct 1. Qed.

Lemma encode_read_back st e party policy st' :
  encode_store st = Ok e → st_version st = STORE_VERSION →
  read_state e party policy = Ok st' → st' = st.
Proof.
  intros He Hv Hr. rewrite (read_encode _ _ _ _ He Hv) in Hr.
  by apply bind_Ok in Hr as ([] & _ & [= <-]).
Qed.

Lemma opened_holds (P : StoreState → Prop) party policy s :
  opened party policy s → P (ns_state s) → holds P s.
Proof.
  intros (e & Hd & Hr) HP. split; [done|]. destruct (read_state_Ok _ _ _ _ Hr) as [_ Hv].
  split; [done|]. exists e. split; [done|]. intros party' policy' st Hst.
  rewrite (read_state_any _ _ _ _ party' policy' Hr) in Hst.
  by apply bind_Ok in Hst as ([] & _ & [= <-]).
Qed.

Lemma exec_holds (P : StoreState → Prop) op s s' :
  (∀ st st', store_step False st op st' → P st → P st') →
  exec op s = Some s' → holds P s → holds P s'.
Proof.
  intros HP Hx (Hm & Hv & e & Hd & He). destruct (is_restart op) eqn:Hop.
  - destruct op; try done. destruct (restart_state _ _ _ _ _ _ Hx Hd) as (Hd' & p & -> & Hr').
    destruct (read_state_Ok _ _ _ _ Hr') as [_ Hv']. split; [by eapply He|]. split; [done|].
    by exists e.
  - destruct (exec_outcome_inv False op s s' Hop ltac:(done) Hx)
      as [[Hs Hd']|[(e' & Hs & Hen & Hd')|[(st' & e' & Hs & Hen & Hmem & Hd')|(Hs & Hd' & _)]]].
    + split; [by rewrite Hs|]. split; [by rewrite Hs|]. exists e. by rewrite Hd'.
    + pose proof (step_version _ _ _ _ Hs) as Hv'. rewrite Hv in Hv'.
      split; [by eapply HP|]. split; [done|]. exists e'. split; [done|].
      intros party policy st Hst. rewrite (encode_read_back _ _ _ _ _ Hen Hv' Hst). by eapply HP.
    + pose proof (step_version _ _ _ _ Hs) as Hv'. rewrite Hv in Hv'.
      split; [by rewrite Hmem|]. split; [by rewrite Hmem|]. exists e'. split; [done|].
      intros party policy st Hst. rewrite (encode_read_back _ _ _ _ _ Hen Hv' Hst). by eapply HP.
    + split; [by eapply HP|]. split; [by rewrite (step_version _ _ _ _ Hs)|]. exists e. by rewrite Hd'.
Qed.

Lemma run_holds (P : StoreState → Prop) Q s ops s' :
  (∀ op s st st', Q op s → store_step False st op st' → P st → P st') →
  run Q s ops s' → holds P s → holds P s'.
Proof.
  intros HP. induction 1 as [|op ops s s1 s2 HQ Hx _ IH]; [done|]. intros Hh.
  eapply IH, exec_holds; [|done..]. intros st st'. by apply (HP op s).
Qed.

(** ** Reservation claims *)

Lemma claim_step F op st st' t c :
  store_step F st op st' → st_reservation_claims st !! t = Some c →
  st_reservation_claims st' !! t = Some c.
Proof.
  destruct 1; simpl; try done. intros Hc. destruct tag as [t'|]; [|done].
  destruct (decide (t' = t)) as [->|Hne]; [|by rewrite lookup_insert_ne].
  rewrite lookup_insert_eq. match goal with Ht : ∀ _, Some t = Some _ → _ |- _ =>
    destruct (Ht t eq_refl); congruence end.
Qed.


(** ** Votes *)

(** The vote [d], live until [e], still binds at sequence [q] or no longer matters:
    the chain has passed [q], or the vote has expired before [limit]. *)
Definition covers (limit q : Z) (d : Digest32) (e : Z) (st : StoreState) : Prop :=
  q ≤ st_ordering_sequence st
  ∨ (∃ v, st_ordering_votes st !! q = Some v ∧ sv_statement_digest v = d ∧ sv_expires_at v = e)
  ∨ e < limit.

Lemma covers_vote limit q v st :
  st_ordering_votes st !! q = Some v →
  covers limit q (sv_statement_digest v) (sv_expires_at v) st.
Proof. right; left; eauto. Qed.

Lemma covers_step F op limit q d e st st' :
  store_step F st op st' → op_now op ≤ limit → covers limit q d e st → covers limit q d e st'.
Proof.
  intros Hst Hn [Hq|[(v & Hv & Hd & He)|He]]; [| |by right; right].
  - left. destruct Hst; simpl; try done.
    match goal with Hs : checked_add _ _ = Some _ |- _ => apply checked_add_Some in Hs as [-> _] end. lia.
  - destruct Hst as [| |market q' c prev exp now io dl g Hg Hs _ _ _ _ Hold _
      |c policy keys now io dl g Hg _ Hs| | | | | | |]; try (right; left; by exists v).
    + destruct (decide (q' = q)) as [->|Hne].
      * specialize (Hold v Hv). simpl in Hn. right; right. lia.
      * right; left. exists v. simpl. by rewrite lookup_insert_ne.
    + destruct (decide (oc_sequence c = q)) as [<-|Hne]; [left; simpl; lia|].
      right; left. exists v. simpl. by rewrite lookup_delete_ne.
Qed.

(** Every vote in memory is covered on disk too. *)
Definition linked (limit : Z) (s : NodeShareStore) : Prop :=
  ∀ q v, st_ordering_votes (ns_state s) !! q = Some v →
    holds (covers limit q (sv_statement_digest v) (sv_expires_at v)) s.

Lemma opened_linked limit party policy s : opened party policy s → linked limit s.
Proof. intros Ho q v Hv. eapply opened_holds; [done|]. by apply covers_vote. Qed.

Lemma exec_linked limit op s s' :
  op_now op ≤ limit → exec op s = Some s' → st_version (ns_state s) = STORE_VERSION →
  (∃ e, ns_disk s = Some e) → linked limit s → linked limit s'.
Proof.
  intros Hn Hx Hver [e0 Hd0] Hl q v Hv. destruct (is_restart op) eqn:Hop.
  { destruct op; try done. destruct (restart_state _ _ _ _ _ _ Hx Hd0) as (Hd' & p & -> & Hr).
    eapply opened_holds; [|by apply covers_vote]. by exists e0. }
  destruct (exec_outcome_inv False op s s' Hop ltac:(done) Hx)
      as [[Hs Hd']|[(e' & Hs & Hen & Hd')|[(st' & e' & Hs & Hen & Hmem & Hd')|(Hs & Hd' & Hvotes)]]].
  - rewrite Hs in Hv. by eapply exec_holds; [|done|by apply Hl]; intros ??? ; eapply covers_step.
  - pose proof (step_version _ _ _ _ Hs) as Hv'. rewrite Hver in Hv'.
    split; [by apply covers_vote|]. split; [done|]. exists e'. split; [done|].
    intros party policy st Hst. rewrite (encode_read_back _ _ _ _ _ Hen Hv' Hst). by apply covers_vote.
  - rewrite Hmem in Hv. by eapply exec_holds; [|done|by apply Hl]; intros ??? ; eapply covers_step.
  - rewrite Hvotes in Hv. by eapply exec_holds; [|done|by apply Hl]; intros ??? ; eapply covers_step.
Qed.

Lemma run_linked limit s ops s' :
  run (λ op _, op_now op ≤ limit) s ops s' → holds (λ _, True) s → linked limit s →
  holds (λ _, True) s' ∧ linked limit s'.
Proof.
  induction 1 as [|op ops s s1 s2 HQ Hx _ IH]; [done|]. intros Hh Hl.
  pose proof Hh as (_ & Hv & e & Hd & _). apply IH.
  - by eapply exec_holds.
  - eapply exec_linked; eauto.
Qed.

(** A granted vote is on record. *)
Lemma vote_recorded s market q c previous expires_at now io s' d :
  record_order_vote market q c previous expires_at now io s = (s', Ok d) →
  st_ordering_sequence (ns_state s) < q ∧
  (∃ v, st_ordering_votes (ns_state s') !! q = Some v ∧ sv_statement_digest v = d) ∧
  (∀ v, st_ordering_votes (ns_state s) !! q = Some v →
    sv_statement_digest v = d ∨ sv_expires_at v < now).
Proof.
  unfold record_order_vote. rewrite self_bind. intros Hr.
  apply method_bind_Ok in Hr as (? & expected & [-> Hseq%ok_or_Ok%checked_add_Some]%try_Ok & Hr).
  apply method_bind_Ok in Hr as (? & [] & [-> _]%try_Ok & Hr).
  apply method_bind_Ok in Hr as (? & [market' deadline] & [-> _]%try_Ok & Hr).
  apply method_bind_Ok in Hr as (? & [] & [-> Hg%fail_if_Ok]%try_Ok & Hr). bool_hyps. subst expected.
  split; [lia|].
  assert (∀ v, (save (with_votes (<[q := v]> (st_ordering_votes (ns_state s))) (ns_state s)) io
      ≫= λ _, mret (sv_statement_digest v)) s = (s', Ok d) →
    st_ordering_votes (ns_state s') !! q = Some v ∧ sv_statement_digest v = d) as Hsave.
  { intros v Hs. apply method_bind_Ok in Hs as (s1 & [] & Hs & [-> ->]%mret_Ok). split; [|done].
    rewrite (save_Ok _ _ _ _ Hs). simpl. by rewrite lookup_insert_eq. }
  destruct (st_ordering_votes (ns_state s) !! q) as [v|] eqn:Hv.
  - case_bool_decide as Hd; [|destruct (_ <=? _) eqn:Hlive; [done|]; bool_hyps].
    + apply mret_Ok in Hr as [-> <-]. split; [by exists v|]. intros ? [= <-]. by left.
    + apply (Hsave (mk_stored_vote _ _)) in Hr as [Hq <-]. split; [eauto|].
      intros ? [= <-]. by right.
  - apply (Hsave (mk_stored_vote _ _)) in Hr as [Hq <-]. split; [eauto|done].
Qed.

(** Once a vote for a sequence is granted, then through every run of operations,
    write failures and restarts another statement for that sequence is granted only
    after the granted vote has expired. *)
Lemma votes_unequivocal party policy s0 ops1 s1 market1 q c1 prev1 exp1 now1 io1 s2 d1
    ops2 s3 market2 c2 prev2 exp2 now2 io2 s4 d2 :
  opened party policy s0 →
  run (λ op _, op_now op ≤ now2) s0 ops1 s1 → now1 ≤ now2 →
  record_order_vote market1 q c1 prev1 exp1 now1 io1 s1 = (s2, Ok d1) →
  run (λ op _, op_now op ≤ now2) s2 ops2 s3 →
  record_order_vote market2 q c2 prev2 exp2 now2 io2 s3 = (s4, Ok d2) →
  ∃ v, st_ordering_votes (ns_state s2) !! q = Some v ∧ sv_statement_digest v = d1 ∧
    (d2 = d1 ∨ sv_expires_at v < now2).
Proof.
  intros Ho Hr1 Hn Hv1 Hr2 Hv2.
  assert (exec (OpVote market1 q c1 prev1 exp1 now1 io1) s1 = Some s2) as Hx by (simpl; by rewrite Hv1).
  assert (run (λ op _, op_now op ≤ now2) s1 [OpVote market1 q c1 prev1 exp1 now1 io1] s2) as Hrv
    by (eapply run_cons; [done|done|constructor]).
  destruct (run_linked now2 _ _ _ Hr1) as [Hh1 Hl1];
    [by eapply opened_holds|by eapply opened_linked|].
  destruct (run_linked now2 _ _ _ Hrv Hh1 Hl1) as [Hh2 Hl2].
  destruct (vote_recorded _ _ _ _ _ _ _ _ _ _ Hv1) as (_ & (v & Hv & Hd) & _).
  exists v. split; [done|]. split; [done|].
  assert (holds (covers now2 q (sv_statement_digest v) (sv_expires_at v)) s3) as [Hcov _].
  { eapply run_holds; [|exact Hr2|by apply Hl2]. intros op s st st' Hop Hst. by eapply covers_step. }
  destruct (vote_recorded _ _ _ _ _ _ _ _ _ _ Hv2) as (Hq & _ & Hold).
  destruct Hcov as [Hc|[(v' & Hv' & Hd' & He')|He]]; [lia| |by right].
  destruct (Hold v' Hv') as [Heq|Hexp]; [left; congruence|right; lia].
Qed.

End life.
