(* ===== verification/NodeAdmit.v ===== *)
(** * From the participant's bundle to the node's round input

    The edge and the store together: a bundle made for the nodes' keys is
    admitted by every one of them, survives on disk, can be voted into the
    ordered market, and each node reads from it the eight private wires of the
    order as the decimal text of its own shares. *)

From S2P Require Import Prelude BTree Bytes AppCrypto Orders Matching Circuit Book Reservations.
From S2P Require Import MpcRunner Ordering Edge EdgeCreate EdgeField EdgeShares EdgeSeal EdgeLife.
From S2P Require Import EdgeDecimal NodeReceipts NodeState NodeStore NodeSteps.
Open Scope string_scope.
Open Scope list_scope.
Open Scope Z_scope.

Section honest.
Context `{Crypto} `{!CryptoLaws} `{EdgeLaws} `{ReceiptJson} `{!StoreJson} `{Persistence}.

Lemma create_unreserved fuel order handle elig cap signer node_keys r r' b :
  create_inner fuel order handle None elig cap signer node_keys r = (r', Ok b) →
  uses_pretrade_reservation (eb_manifest b) = false.
Proof. by intros (text & _ & Hun)%create_inner_admission. Qed.

(** The record a node stores for party [p]. *)
Definition bundle_record (b : EdgeOrderBundle) (p : fin MPC_PARTIES) (now : Z) : StoredRecord := {|
  sr_manifest := eb_manifest b; sr_sealed := eb_sealed_shares b !!! p;
  sr_sealed_capability_key_share := Some (eb_sealed_capability_key_shares b !!! p);
  sr_admitted_at := now; sr_admission_receipt := None |}.

(** The tag the order claims: that of its pre-trade reservation. *)
Definition bundle_tag (pre : option PreauthorizedReservation) (m : EdgeOrderManifest) :
    option Digest32 :=
  if uses_pretrade_reservation m
  then (λ a, ad_reservation_nullifier (pa_permit a)) <$> pre else None.

Definition admitted (tag : option Digest32) (st : StoreState) (r : StoredRecord) : StoreState :=
  with_generation (st_generation st + 1)
    (with_records (<[m_commitment (sr_manifest r) := r]> (st_records st))
      (with_claims (match tag with
         | Some t => <[t := m_commitment (sr_manifest r)]> (st_reservation_claims st)
         | None => st_reservation_claims st
         end) st)).

(** The node trusts the issuer of the order's reservation, at [now] still, and no
    other order has claimed it. *)
Definition honours (pre : option PreauthorizedReservation) (m : EdgeOrderManifest) (now : Z)
    (s : NodeShareStore) : Prop :=
  ∀ a, pre = Some a → ∃ trust application,
    ns_reservation_trust s = Some trust ∧ oclob_manifest_digest = Some application
    ∧ admission_check (pa_permit a) application (tr_defmi_id trust) (tr_signer trust) now = true
    ∧ ad_venue_id (pa_permit a) = tr_venue_id trust
    ∧ (st_reservation_claims (ns_state s) !! ad_reservation_nullifier (pa_permit a) = None
       ∨ st_reservation_claims (ns_state s) !! ad_reservation_nullifier (pa_permit a)
         = Some (m_commitment m)).

(** The share a node opens from the bundle passes the node's reservation check. *)
Lemma honest_tag fuel order handle pre elig cap signer node_keys r r' b
    (keys : fin MPC_PARTIES → NodeDecryptionKey) now p s share :
  create_inner fuel order handle pre elig cap signer node_keys r = (r', Ok b) →
  node_keys !!! p = node_public_key (keys p) → now ≤ o_expires_at order →
  honours pre (eb_manifest b) now s →
  share_open (eb_sealed_shares b !!! p) (keys p) (eb_manifest b) (index p) now = Ok share →
  reservation_tag s (eb_manifest b) share now = Ok (bundle_tag pre (eb_manifest b)).
Proof.
  intros Hr Hk Hnow Hh Ho. pose proof Hr as (Hdl & _)%create_inner_Ok.
  apply create_inner_admission in Hr as (text & Hd & Hpre).
  destruct (Hd p) as (fields & st & kp & s1 & s2 & Hp).
  destruct (deliver_opens _ _ _ _ _ _ _ _ _ _ _ _ _ now Hp Hk)
    as (share' & ks & Ho' & _ & _ & _ & _ & _ & _ & Ht); [lia|].
  rewrite Ho in Ho'. injection Ho' as <-. unfold reservation_tag, bundle_tag.
  destruct (uses_pretrade_reservation (eb_manifest b)) eqn:Hu; [|done].
  destruct pre as [a|]; [|done]. destruct Hpre as [(wire & Hw & ->) Hbind].
  destruct (admission_roundtrip _ _ Hw) as [Hne Hdec].
  destruct (Hh a eq_refl) as (trust & application & -> & Happ & Hck & Hv & Hfree).
  cbn [ok_or]. rewrite Ok_bind. unfold verified_reservation_admission. rewrite Hu, Ht. simpl negb.
  rewrite pass_guard.
  2:{ simpl. apply Nat.eqb_neq. intros Hl%nil_length_inv. by apply base64_nonempty in Hl. }
  rewrite base64_roundtrip. cbn [ok_or]. rewrite Ok_bind, Hdec. cbn [ok_or]. rewrite Ok_bind, Happ.
  cbn [ok_or]. rewrite Ok_bind, Hck, pass_guard by done.
  rewrite Hv, bool_decide_eq_true_2 by done. rewrite pass_guard by done.
  rewrite Hbind, Ok_bind. cbn [map_err]. rewrite Ok_bind, pass_guard; [done|].
  destruct Hfree as [Hf|Hf]; rewrite Hf; [done|]. by rewrite bool_decide_eq_true_2.
Qed.

(** The share a node opens carries its evaluations. *)
Lemma bundle_share fuel order handle pre elig cap signer node_keys r r' b
    (keys : fin MPC_PARTIES → NodeDecryptionKey) now p :
  create_inner fuel order handle pre elig cap signer node_keys r = (r', Ok b) →
  node_keys !!! p = node_public_key (keys p) → now ≤ o_expires_at order →
  ∃ share ks,
    share_open (eb_sealed_shares b !!! p) (keys p) (eb_manifest b) (index p) now = Ok share
    ∧ key_share_open (eb_sealed_capability_key_shares b !!! p) (keys p) (eb_manifest b) (index p)
        now = Ok ks
    ∧ m_retention_deadline (eb_manifest b) = o_expires_at order
    ∧ m_market_id (eb_manifest b) = o_market_id order.
Proof.
  intros Hr Hk Hnow. apply create_inner_Ok in Hr.
  destruct Hr as (Hdl & Hmk & _ & _ & Hm & fields & st & adm & kp & sg & _ & _ & _ & _ & _ & Hd).
  destruct (Hd p) as (s1 & s2 & Hp).
  destruct (deliver_opens _ _ _ _ _ _ _ _ _ _ _ _ _ now Hp Hk) as (share & ks & Ho & Ho' & _); [lia|].
  by exists share, ks.
Qed.

Lemma honest_ingest fuel order handle pre elig cap signer node_keys r r' b
    (keys : fin MPC_PARTIES → NodeDecryptionKey) now p s e :
  create_inner fuel order handle pre elig cap signer node_keys r = (r', Ok b) →
  node_keys !!! p = node_public_key (keys p) → now ≤ o_expires_at order →
  ns_key s = keys p → st_party (ns_state s) = index p →
  honours pre (eb_manifest b) now s →
  lifecycle_blocks (ns_state s) (m_commitment (eb_manifest b)) = false →
  st_records (ns_state s) !! m_commitment (eb_manifest b) = None →
  st_generation (ns_state s) < u64_max →
  encode_store (admitted (bundle_tag pre (eb_manifest b)) (ns_state s) (bundle_record b p now)) = Ok e →
  ingest (eb_manifest b) (eb_sealed_shares b !!! p) (eb_sealed_capability_key_shares b !!! p) now
    Durable s
  = (with_disk (Some e) (with_state (admitted (bundle_tag pre (eb_manifest b)) (ns_state s) (bundle_record b p now)) s),
     Ok (Stored (st_generation (ns_state s) + 1))).
Proof.
  intros Hr Hk Hnow Hkey Hparty Hhon Hblock Hnone Hgen Henc.
  destruct (bundle_share _ _ _ _ _ _ _ _ _ _ _ keys now p Hr Hk Hnow)
    as (share & ks & Ho & Ho' & _).
  unfold ingest. rewrite self_bind. cbv zeta. rewrite Hblock. simpl fail_if.
  rewrite try_bind, try_bind, Hkey, Hparty, Ho. cbn [map_err]. rewrite try_bind.
  rewrite (honest_tag _ _ _ _ _ _ _ _ _ _ _ keys now p s share Hr Hk Hnow Hhon Ho).
  rewrite try_bind, Ho'. cbn [map_err]. rewrite Hnone.
  rewrite method_bind. unfold save_unguarded, next_generation. simpl st_generation.
  assert (checked_add (st_generation (ns_state s)) 1 = Some (st_generation (ns_state s) + 1)) as Hg
    by (apply checked_add_Some; lia).
  rewrite Hg. simpl. unfold persist. simpl ns_state.
  change (with_generation _ _)
    with (admitted (bundle_tag pre (eb_manifest b)) (ns_state s) (bundle_record b p now)).
  by rewrite Henc.
Qed.

(** Every node admits its part of an honestly made bundle: the call reports it
    stored, memory and file hold exactly the new record, the order can be voted
    on until it expires, and the round input of the order is the decimal text of
    the share this node opened. *)
Theorem honest_order_admitted fuel order handle pre elig cap signer node_keys r r' b
    (keys : fin MPC_PARTIES → NodeDecryptionKey) now p s e :
  create_inner fuel order handle pre elig cap signer node_keys r = (r', Ok b) →
  node_keys !!! p = node_public_key (keys p) → now ≤ o_expires_at order →
  ns_key s = keys p → st_party (ns_state s) = index p →
  honours pre (eb_manifest b) now s →
  lifecycle_blocks (ns_state s) (m_commitment (eb_manifest b)) = false →
  st_records (ns_state s) !! m_commitment (eb_manifest b) = None →
  st_generation (ns_state s) < u64_max →
  encode_store (admitted (bundle_tag pre (eb_manifest b)) (ns_state s) (bundle_record b p now)) = Ok e →
  let s' := with_disk (Some e) (with_state (admitted (bundle_tag pre (eb_manifest b)) (ns_state s) (bundle_record b p now)) s) in
  ingest (eb_manifest b) (eb_sealed_shares b !!! p) (eb_sealed_capability_key_shares b !!! p) now
    Durable s = (s', Ok (Stored (st_generation (ns_state s) + 1)))
  ∧ (∀ t, ordering_admission (ns_state s') (m_commitment (eb_manifest b)) t
       = Ok (o_market_id order, o_expires_at order))
  ∧ ∃ share, share_open (eb_sealed_shares b !!! p) (keys p) (eb_manifest b) (index p) now = Ok share
    ∧ ∃ tail, original_private_fields s' (m_commitment (eb_manifest b)) (o_market_id order) now
        = Ok ([chars "1"; share_decimals (sh_value_shares share) !!! 0%fin;
               share_decimals (sh_value_shares share) !!! 1%fin;
               share_decimals (sh_value_shares share) !!! 2%fin] ++ tail)
      ∧ length tail = 4%nat.
Proof.
  intros Hr Hk Hnow Hkey Hparty Hhon Hblock Hnone Hgen Henc s'.
  destruct (bundle_share _ _ _ _ _ _ _ _ _ _ _ keys now p Hr Hk Hnow)
    as (share & ks & Ho & _ & Hdl & Hmk).
  assert (lifecycle_blocks (ns_state s') (m_commitment (eb_manifest b)) = false) as Hblock' by done.
  assert (st_records (ns_state s') !! m_commitment (eb_manifest b) = Some (bundle_record b p now))
    as Hrec by (simpl; by rewrite lookup_insert_eq).
  split; [|split].
  - by apply (honest_ingest fuel order handle pre elig cap signer node_keys r r' b keys).
  - intros t. unfold ordering_admission. rewrite Hrec, Hblock'. simpl. by rewrite Hdl, Hmk.
  - exists share. split; [done|].
    assert (open_record s' (m_commitment (eb_manifest b)) (o_market_id order) now = Ok share) as Hopen.
    { unfold open_record. rewrite Hblock'. simpl fail_if. rewrite Ok_bind, Hrec. simpl ok_or.
      rewrite Ok_bind. simpl sr_manifest. rewrite Hmk, bool_decide_eq_true_2 by done. simpl fail_if.
      rewrite Ok_bind. simpl ns_key. simpl st_party. rewrite Hkey, Hparty. simpl sr_sealed.
      by rewrite Ho. }
    unfold original_private_fields. rewrite Hopen, Hrec. cbn [ok_or]. rewrite !Ok_bind.
    cbn [sr_manifest bundle_record]. destruct (m_settlement_proof_enabled (eb_manifest b)); by eexists.
Qed.

End honest.
