(* ===== verification/NodeRpc.v ===== *)
(** * The node's network interface

    [oclob-node/src/network.rs]: roles and principals, the requests and responses,
    the fixed-size records they travel in, the server's start-up checks and its
    [dispatch] over the share store, and the checks of [NodeRpcClient] on every
    answer.  TLS and sockets are left out: a client's [call] is an argument.
    Locks are never poisoned; the outcome of each write, the private files and the
    executor's answer are in [DispatchEnv]. *)

From S2P Require Import Prelude BTree Bytes AppCrypto Orders Matching Circuit MpcRunner Book.
From S2P Require Import Ordering Reservations Edge EdgeCreate EdgeDecimal NodeReceipts NodeState.
From S2P Require Import NodeStore.
Open Scope string_scope.
Open Scope list_scope.
Open Scope Z_scope.

Definition REQUEST_RECORD_BYTES : Z := 512 * 1024.
Definition RESPONSE_RECORD_BYTES : Z := 256 * 1024.
Definition REQUEST_MAGIC : bytes := ascii_bytes "OCLOBRQ2".
Definition RESPONSE_MAGIC : bytes := ascii_bytes "OCLOBRS2".
Definition CAPABILITY_RELEASE_DOMAIN : bytes := ascii_bytes "OCLOB:NODE-CAPABILITY-RELEASE:v2".
Definition RECORD_HEADER_BYTES : Z := 8 + 2 + 4 + 32.

Inductive NetworkError :=
| NConfiguration
| NUnsafeKey
| NTlsHandshake
| NTlsPeer
| NUnauthorized
| NProtocol
| NRecordSize
| NAdmission
| NPlan
| NOrdering
| NRoundInput
| NRuntimeDisabled
| NExecution
| NRelease
| NState
| NClock
| NRemote (code : string)
| NIo
| NOpenSsl.

Definition public_code (e : NetworkError) : string :=
  match e with
  | NUnauthorized | NTlsPeer | NTlsHandshake => "unauthorized"
  | NAdmission => "admission_rejected"
  | NPlan => "plan_rejected"
  | NOrdering => "ordering_rejected"
  | NRoundInput => "round_input_unavailable"
  | NRuntimeDisabled => "runtime_disabled"
  | NExecution => "execution_failed"
  | NRelease => "capability_release_rejected"
  | NState => "state_unavailable"
  | NClock => "clock_unavailable"
  | NRecordSize | NProtocol => "invalid_request"
  | NConfiguration | NUnsafeKey | NRemote _ | NIo | NOpenSsl => "internal_error"
  end.

(** ** Principals *)

Inductive PeerRole := Participant | Coordinator | SettlementPeer | Operator.
#[export] Instance peer_role_eq_dec : EqDecision PeerRole.
Proof. solve_decision. Defined.

Record Principal := mk_principal {
  pp_certificate_sha256 : Digest32;
  pp_role : PeerRole;
  pp_application_key : Digest32
}.

Definition principal_validate (p : Principal) : result NetworkError () :=
  _ ← fail_if (is_zero (pp_certificate_sha256 p) || is_zero (pp_application_key p)) NConfiguration;
  _ ← map_err (λ _, NConfiguration) (vk_from_bytes (pp_application_key p));
  Ok ().

Definition require_role (p : Principal) (expected : PeerRole) : result NetworkError () :=
  if bool_decide (pp_role p = expected) then Ok () else Err NUnauthorized.

(** ** Fixed-size records *)

Section records.
Context `{Crypto}.

(** [padding] is what the operating system's generator writes after the payload. *)
Definition encode_record {T} (to_json : T → option bytes) (size : Z) (magic : bytes) (message : T)
    (padding : Z → bytes) : result NetworkError bytes :=
  payload ← ok_or (to_json message) NProtocol;
  let length := Z.of_nat (length payload) in
  _ ← fail_if ((size <=? RECORD_HEADER_BYTES) || (size - RECORD_HEADER_BYTES <? length)) NRecordSize;
  Ok (magic ++ u16_be RECORD_VERSION ++ be_bytes 4 (length mod 2 ^ 32) ++ d_bytes (sha256 payload)
      ++ payload ++ padding (size - RECORD_HEADER_BYTES - length)).

Definition decode_record {T} (from_json : bytes → option T) (magic : bytes) (record : bytes) :
    result NetworkError T :=
  let size := Z.of_nat (length record) in
  _ ← fail_if ((size <? RECORD_HEADER_BYTES) || negb (bool_decide (take 8 record = magic))
      || negb (be_val (take 2 (drop 8 record)) =? RECORD_VERSION)) NProtocol;
  let length := be_val (take 4 (drop 10 record)) in
  _ ← fail_if (size <? RECORD_HEADER_BYTES + length) NRecordSize;
  let payload := take (Z.to_nat length) (drop (Z.to_nat RECORD_HEADER_BYTES) record) in
  _ ← fail_if (negb (bool_decide (take 32 (drop 14 record) = d_bytes (sha256 payload)))) NProtocol;
  ok_or (from_json payload) NProtocol.

End records.

(** ** Released key shares *)

Record NodeCapabilityRelease := mk_capability_release {
  cr_version : Z;
  cr_party : Z;
  cr_order_commitment : OrderCommitment;
  cr_round_id : Digest32;
  cr_public_output_sha256 : Digest32;
  cr_capability_key_share : CapabilityKeyShare;
  cr_signer : Digest32;
  cr_signature : bytes
}.

Section release.
Context `{Crypto} `{EdgeCrates}.

Definition release_signature_body (r : NodeCapabilityRelease) : bytes :=
  CAPABILITY_RELEASE_DOMAIN ++ u16_be (cr_version r) ++ u16_be (cr_party r)
  ++ d_bytes (cr_order_commitment r) ++ d_bytes (cr_round_id r)
  ++ d_bytes (cr_public_output_sha256 r)
  ++ d_bytes (key_share_wire_digest (cr_capability_key_share r)) ++ d_bytes (cr_signer r).

Definition sign_context (party : Z) (order : OrderCommitment) (context output : Digest32)
    (share : CapabilityKeyShare) (key : SigningKey) : result NetworkError NodeCapabilityRelease :=
  _ ← fail_if ((Z.of_nat MPC_PARTIES <=? party) || negb (ck_party share =? party)
      || negb (bool_decide (ck_order_commitment share = order)) || is_zero output) NState;
  let release signature := {|
    cr_version := RECORD_VERSION; cr_party := party; cr_order_commitment := order;
    cr_round_id := context; cr_public_output_sha256 := output; cr_capability_key_share := share;
    cr_signer := vk_fingerprint (verifying_key key); cr_signature := signature |} in
  signature ← map_err (λ _, NProtocol) (try_sign key (release_signature_body (release [])));
  Ok (release (sig_bytes signature)).

Definition release_sign (party : Z) (order : OrderCommitment) (plan : RoundPlan)
    (output : Digest32) (share : CapabilityKeyShare) (key : SigningKey) :
    result NetworkError NodeCapabilityRelease :=
  sign_context party order (rp_round_id plan) output share key.

Definition verify_context (r : NodeCapabilityRelease) (m : EdgeOrderManifest)
    (context expected_output : Digest32) (expected_party : Z) (expected_signer : VerifyingKey)
    (now : Z) : result NetworkError () :=
  _ ← fail_if (negb (cr_version r =? RECORD_VERSION) || negb (cr_party r =? expected_party)
      || negb (bool_decide (cr_order_commitment r = m_commitment m))
      || negb (bool_decide (cr_round_id r = context))
      || negb (bool_decide (cr_public_output_sha256 r = expected_output))
      || is_zero (cr_public_output_sha256 r)
      || negb (bool_decide (cr_signer r = vk_fingerprint expected_signer))) NProtocol;
  _ ← map_err (λ _, NProtocol)
    (key_share_verify (cr_capability_key_share r) m expected_party now);
  fail_if (negb (signature_ok expected_signer (release_signature_body r) (cr_signature r)))
    NProtocol.

Definition release_verify (r : NodeCapabilityRelease) (m : EdgeOrderManifest) (plan : RoundPlan)
    (expected_output : Digest32) (expected_party : Z) (expected_signer : VerifyingKey) (now : Z) :
    result NetworkError () :=
  verify_context r m (rp_round_id plan) expected_output expected_party expected_signer now.

End release.

(** ** Requests and responses *)

Inductive NodeRequest `{EdgeCrates} :=
| RqIngest (manifest : EdgeOrderManifest) (sealed : SealedPartyShare)
    (sealed_capability_key_share : SealedCapabilityKeyShare)
| RqVote (market_id : bytes) (sequence : Z) (commitment : OrderCommitment)
    (previous_certificate : Digest32) (expires_at : Z)
| RqExecute (plan : RoundPlan)
| RqRelease (plan : RoundPlan) (order_commitment : OrderCommitment)
| RqFinalizePrivateState (plan : RoundPlan) (finality : PrivateStateFinality)
| RqStageLifecycle (command : LifecycleCommand)
| RqApplyLifecycle (certificate : OrderCertificate)
| RqStatus
| RqHealth.

Inductive NodeResponse :=
| Ingested (receipt : NodeAdmissionReceipt)
| Voted (vote : OrderVote)
| Executed (receipt : NodeExecutionReceipt)
| Released (release : NodeCapabilityRelease)
| PrivateStateFinalized (receipt : NodePrivateStateReceipt)
| LifecycleStaged (digest : Digest32)
| StatusIs (status : NodeStoreStatus)
| Healthy (party : Z)
| Rejected (code : string).

Section server.
Context `{Crypto} `{ReceiptJson} `{StoreJson} `{Persistence}.

(** ** The server *)

Record NodeRuntime := mk_runtime {
  rt_store : NodeShareStore;
  rt_receipt_signing_key : SigningKey;
  rt_ordering_policy : CommitteePolicy;
  rt_ordering_keys : btree Z VerifyingKey;
  rt_has_executor : bool
}.

Record DispatchEnv := mk_env {
  de_clock : option Z;
  de_write : Persisted;
  de_second_write : Persisted;
  de_files : Files;
  de_executed : PreparedPartyInput → RoundPlan → option NodeExecutionReceipt
}.

Definition with_store (s : NodeShareStore) (r : NodeRuntime) : NodeRuntime :=
  {| rt_store := s; rt_receipt_signing_key := rt_receipt_signing_key r;
     rt_ordering_policy := rt_ordering_policy r; rt_ordering_keys := rt_ordering_keys r;
     rt_has_executor := rt_has_executor r |}.

(** One call on the locked store, with its error as [e]. *)
Definition on_store {A} (m : method NodeShareStore NodeError A) (e : NetworkError) :
    method NodeRuntime NetworkError A :=
  λ r, let '(s, x) := m (rt_store r) in (with_store s r, map_err (λ _, e) x).

Definition ordering_checked (r : NodeRuntime) (plan : RoundPlan) (now : Z) :
    result NetworkError () :=
  map_err (λ _, NPlan)
    (plan_verify_ordering plan (rt_ordering_policy r) (rt_ordering_keys r) now).

Definition dispatch_ingest (env : DispatchEnv) (p : Principal) (now : Z)
    (manifest : EdgeOrderManifest) (sealed : SealedPartyShare)
    (sealed_key : SealedCapabilityKeyShare) : method NodeRuntime NetworkError NodeResponse :=
  r ← self;
  _ ← try (require_role p Participant);
  _ ← on_store (ingest manifest sealed sealed_key now (de_write env)) NAdmission;
  receipt ← on_store (admission_receipt manifest (rt_receipt_signing_key r) (de_second_write env))
    NState;
  mret (Ingested receipt).

Definition dispatch_vote (env : DispatchEnv) (p : Principal) (now : Z) (market_id : bytes)
    (sequence : Z) (commitment : OrderCommitment) (previous : Digest32) (expires_at : Z) :
    method NodeRuntime NetworkError NodeResponse :=
  r ← self;
  _ ← try (require_role p Coordinator);
  statement ← on_store (record_order_vote market_id sequence commitment previous expires_at now
    (de_write env)) NOrdering;
  status ← on_store (λ s, (s, status s)) NState;
  let node_id := ss_status_party status + 1 in
  _ ← try (fail_if (u16_max <? node_id) NState);
  signature ← try (map_err (λ _, NOrdering)
    (try_sign (rt_receipt_signing_key r) (d_bytes statement)));
  mret (Voted {| v_node_id := node_id; v_statement_digest := statement;
                 v_signature := sig_bytes signature |}).

(** The source takes the store's lock anew for each of the four accesses below, under one lock for
    executions; here they are one step.  Each access is an operation of [NodeSteps], and the theorems
    about the store hold for every sequence of these, so other requests served in between add runs
    those theorems already cover. *)
Definition dispatch_execute (env : DispatchEnv) (p : Principal) (now : Z) (plan : RoundPlan) :
    method NodeRuntime NetworkError NodeResponse :=
  r ← self;
  _ ← try (require_role p Coordinator);
  _ ← try (ordering_checked r plan now);
  _ ← try (fail_if (negb (bool_decide (rp_coordinator plan = pp_application_key p)))
    NUnauthorized);
  _ ← on_store (accept_order_certificate (rp_ordering_certificate plan) (rt_ordering_policy r)
    (rt_ordering_keys r) now (de_write env)) NOrdering;
  s ← on_store self NState;
  match completed_round (ns_state s) (rp_round_id plan) with
  | Some receipt => mret (Executed receipt)
  | None =>
      prepared ← try (map_err (λ _, NRoundInput) (prepare_round s (de_files env)
        (rp_market_id plan) (rp_resting plan) (rp_arriving plan) now));
      _ ← try (fail_if (negb (rt_has_executor r)) NRuntimeDisabled);
      receipt ← try (ok_or (de_executed env prepared plan) NExecution);
      _ ← on_store (record_completed_round receipt (de_second_write env)) NState;
      mret (Executed receipt)
  end.

Definition dispatch_release (p : Principal) (now : Z) (plan : RoundPlan)
    (order : OrderCommitment) : method NodeRuntime NetworkError NodeResponse :=
  r ← self;
  _ ← try (require_role p SettlementPeer);
  _ ← try (ordering_checked r plan now);
  status ← on_store (λ s, (s, status s)) NState;
  '(share, output) ← on_store (λ s, (s, release_capability_key_share s plan order now)) NRelease;
  release ← try (release_sign (ss_status_party status) order plan output share
    (rt_receipt_signing_key r));
  mret (Released release).

Definition dispatch_finalize (env : DispatchEnv) (p : Principal) (now : Z) (plan : RoundPlan)
    (finality : PrivateStateFinality) : method NodeRuntime NetworkError NodeResponse :=
  r ← self;
  _ ← try (require_role p SettlementPeer);
  _ ← try (ordering_checked r plan now);
  receipt ← on_store (finalize_private_round (de_files env) plan finality
    (rt_receipt_signing_key r) (de_write env)) NState;
  mret (PrivateStateFinalized receipt).

Definition dispatch_stage (env : DispatchEnv) (p : Principal) (now : Z)
    (command : LifecycleCommand) : method NodeRuntime NetworkError NodeResponse :=
  _ ← try (require_role p Coordinator);
  digest ← on_store (register_lifecycle command now (de_write env)) NOrdering;
  mret (LifecycleStaged digest).

Definition dispatch_apply (env : DispatchEnv) (p : Principal) (now : Z)
    (certificate : OrderCertificate) : method NodeRuntime NetworkError NodeResponse :=
  r ← self;
  _ ← try (require_role p SettlementPeer);
  let key := oc_commitment certificate in
  _ ← try (fail_if (bool_decide (st_lifecycle (ns_state (rt_store r)) !! key = None)) NOrdering);
  _ ← on_store (accept_order_certificate certificate (rt_ordering_policy r) (rt_ordering_keys r)
    now (de_write env)) NOrdering;
  entry ← on_store (λ s, (s, lifecycle_entry (ns_state s) key)) NOrdering;
  share ← on_store (λ s, (s, lifecycle_share s key)) NRelease;
  s ← on_store self NState;
  release ← try (sign_context (st_party (ns_state s)) (lc_target (sl_command entry)) key
    (certificate_digest certificate) share (rt_receipt_signing_key r));
  mret (Released release).

Definition dispatch_checked (env : DispatchEnv) (p : Principal) (request : NodeRequest) :
    method NodeRuntime NetworkError NodeResponse :=
  now ← try (ok_or (de_clock env) NClock);
  match request with
  | RqIngest manifest sealed sealed_key => dispatch_ingest env p now manifest sealed sealed_key
  | RqVote market_id sequence commitment previous expires_at =>
      dispatch_vote env p now market_id sequence commitment previous expires_at
  | RqExecute plan => dispatch_execute env p now plan
  | RqRelease plan order => dispatch_release p now plan order
  | RqFinalizePrivateState plan finality => dispatch_finalize env p now plan finality
  | RqStageLifecycle command => dispatch_stage env p now command
  | RqApplyLifecycle certificate => dispatch_apply env p now certificate
  | RqStatus =>
      _ ← try (fail_if (negb (bool_decide (pp_role p = Coordinator)
        || bool_decide (pp_role p = Operator))) NUnauthorized);
      status ← on_store (λ s, (s, status s)) NState;
      mret (StatusIs status)
  | RqHealth =>
      s ← on_store self NState;
      mret (Healthy (st_party (ns_state s)))
  end.

Definition dispatch (env : DispatchEnv) (p : Principal) (request : NodeRequest)
    (r : NodeRuntime) : NodeRuntime * NodeResponse :=
  match dispatch_checked env p request r with
  | (r', Ok response) => (r', response)
  | (r', Err e) => (r', Rejected (public_code e))
  end.

(** ** Starting *)

(** Every entry passes [f]; with several failures, which one is reported depends on
    the order of the map. *)
Definition check_entries {K V} `{Countable K} (f : K → V → result NetworkError ())
    (m : gmap K V) : result NetworkError () :=
  for_each (λ _ e, f e.1 e.2) () (map_to_list m).

Definition SECOND : Z := 1000000000.

(** A stored admission receipt is this node's, for what the record holds. *)
Definition check_stored_receipt (s : NodeShareStore) (key : SigningKey) (r : StoredRecord) :
    result NetworkError () :=
  match sr_admission_receipt r with
  | None => Ok ()
  | Some receipt =>
      capability ← ok_or (sr_sealed_capability_key_share r) NState;
      _ ← fail_if (negb (admission_verify receipt (m_commitment (sr_manifest r))
            (m_signer (sr_manifest r)) (st_party (ns_state s)) (share_wire_digest (sr_sealed r))
            (sealed_key_wire_digest capability) (verifying_key key))) NProtocol;
      fail_if (st_generation (ns_state s) <? na_generation receipt) NState
  end.

Definition check_stored_finality (s : NodeShareStore) (key : SigningKey) (round : Digest32)
    (f : PrivateRoundFinalization) : result NetworkError () :=
  execution ← ok_or (st_completed_rounds (ns_state s) !! round) NState;
  receipt ← ok_or (fz_private_state_receipt f) NState;
  fail_if (negb (private_state_verify receipt execution {|
      pf_round_id := ne_round_id execution;
      pf_public_output_sha256 := fz_public_output_sha256 f;
      pf_transition_digest := fz_transition_digest f;
      pf_canonical_receipt_digest := fz_canonical_receipt_digest f;
      pf_canonical_height := fz_canonical_height f |}
    (st_party (ns_state s)) (verifying_key key))) NProtocol.

Definition approve (principals : list Principal) :
    result NetworkError (gmap Digest32 Principal) :=
  approved ← for_each (λ approved p,
    _ ← principal_validate p;
    _ ← fail_if (bool_decide (is_Some (approved !! pp_certificate_sha256 p))) NConfiguration;
    Ok (<[pp_certificate_sha256 p := p]> approved)) ∅ principals;
  _ ← fail_if (bool_decide (approved = ∅)) NConfiguration;
  Ok approved.

(** [NodeRpcServer::start] up to the listener; durations are in nanoseconds and
    [root] is what binding the executor's directory returns. *)
Definition server_start (principals : list Principal) (store : NodeShareStore)
    (key : SigningKey) (policy : CommitteePolicy) (keys : btree Z VerifyingKey)
    (root : option (result NodeError ())) (max_connections timeout minimum_response_time : Z) :
    result NetworkError (NodeRuntime * gmap Digest32 Principal) :=
  _ ← map_err (λ _, NConfiguration) (policy_validate policy);
  store ← match root with
          | Some directory =>
              match bind_private_state_root directory store with
              | (store, Ok _) => Ok store
              | (_, Err _) => Err NConfiguration
              end
          | None => Ok store
          end;
  status ← map_err (λ _, NState) (status store);
  let party := ss_status_party status in
  _ ← fail_if (u16_max <? party + 1) NConfiguration;
  _ ← fail_if ((max_connections =? 0) || (1024 <? max_connections) || (timeout =? 0)
      || (600 * SECOND <? timeout) || (5 * SECOND <? minimum_response_time)
      || negb (Z.of_nat (length keys) =? cp_nodes policy)
      || existsb (λ id, bool_decide (bt_get id keys = None)) (seqZ 1 (cp_nodes policy))
      || negb (bool_decide (bt_get (party + 1) keys = Some (verifying_key key)))) NConfiguration;
  _ ← check_entries (λ _ r, check_stored_receipt store key r) (st_records (ns_state store));
  _ ← fail_if (bool_decide (map_Exists (λ _ r,
        ne_signer r ≠ vk_fingerprint (verifying_key key) ∨ verify_stored_signature r = false)
      (st_completed_rounds (ns_state store)))) NState;
  _ ← check_entries (check_stored_finality store key)
    (st_finalized_private_rounds (ns_state store));
  approved ← approve principals;
  Ok ({| rt_store := store; rt_receipt_signing_key := key; rt_ordering_policy := policy;
         rt_ordering_keys := keys; rt_has_executor := bool_decide (is_Some root) |}, approved).

(** What a connection does with the record it read: the peer's certificate must be
    approved and the record well formed, else the connection closes silently. *)
Definition serve_record (env : DispatchEnv) (approved : gmap Digest32 Principal)
    (parse_request : bytes → option NodeRequest) (json_response : NodeResponse → option bytes)
    (fingerprint : Digest32) (record : bytes) (padding : Z → bytes) :
    method NodeRuntime NetworkError bytes :=
  p ← try (ok_or (approved !! fingerprint) NUnauthorized);
  request ← try (decode_record parse_request REQUEST_MAGIC record);
  response ← (λ r, let '(r', response) := dispatch env p request r in (r', Ok response));
  try (encode_record json_response RESPONSE_RECORD_BYTES RESPONSE_MAGIC response padding).

(** ** The client *)

Record NodeEndpoint := mk_node_endpoint {
  ne_endpoint_party : Z;
  ne_host : bytes;
  ne_port : Z;
  ne_server_name : bytes;
  ne_certificate_sha256 : Digest32;
  ne_receipt_verifying_key : Digest32
}.

Definition client_new (e : NodeEndpoint) (timeout : Z) : result NetworkError () :=
  fail_if ((Z.of_nat MPC_PARTIES <=? ne_endpoint_party e) || Nat.eqb (length (ne_host e)) 0
    || (ne_port e =? 0) || Nat.eqb (length (ne_server_name e)) 0
    || is_zero (ne_certificate_sha256 e)
    || negb (is_ok (vk_from_bytes (ne_receipt_verifying_key e)))
    || (timeout =? 0) || (600 * SECOND <? timeout)) NConfiguration.

(** An answer from the wire. *)
Definition Answer : Type := result NetworkError NodeResponse.

Definition unexpected {A} (response : NodeResponse) : result NetworkError A :=
  match response with
  | Rejected code => Err (NRemote code)
  | _ => Err NProtocol
  end.

Definition receipt_key (e : NodeEndpoint) : result NetworkError VerifyingKey :=
  map_err (λ _, NProtocol) (vk_from_bytes (ne_receipt_verifying_key e)).

Definition client_ingest (e : NodeEndpoint) (manifest : EdgeOrderManifest)
    (sealed : SealedPartyShare) (sealed_key : SealedCapabilityKeyShare) (answer : Answer) :
    result NetworkError NodeAdmissionReceipt :=
  response ← answer;
  match response with
  | Ingested receipt =>
      if na_party receipt =? ne_endpoint_party e then
        key ← receipt_key e;
        _ ← fail_if (negb (admission_verify receipt (m_commitment manifest) (m_signer manifest)
          (ne_endpoint_party e) (share_wire_digest sealed) (sealed_key_wire_digest sealed_key) key))
          NProtocol;
        Ok receipt
      else Err NProtocol
  | other => unexpected other
  end.

Definition client_execute (e : NodeEndpoint) (answer : Answer) :
    result NetworkError NodeExecutionReceipt :=
  response ← answer;
  match response with
  | Executed receipt => if ne_party receipt =? ne_endpoint_party e then Ok receipt else Err NProtocol
  | other => unexpected other
  end.

Definition client_release (e : NodeEndpoint) (manifest : EdgeOrderManifest) (plan : RoundPlan)
    (expected_output : Digest32) (now : Z) (answer : Answer) :
    result NetworkError NodeCapabilityRelease :=
  response ← answer;
  match response with
  | Released release =>
      if cr_party release =? ne_endpoint_party e then
        key ← receipt_key e;
        _ ← release_verify release manifest plan expected_output (ne_endpoint_party e) key now;
        Ok release
      else Err NProtocol
  | other => unexpected other
  end.

Definition client_finalize (e : NodeEndpoint) (finality : PrivateStateFinality)
    (execution : NodeExecutionReceipt) (answer : Answer) :
    result NetworkError NodePrivateStateReceipt :=
  response ← answer;
  match response with
  | PrivateStateFinalized receipt =>
      if pr_party receipt =? ne_endpoint_party e then
        key ← receipt_key e;
        _ ← fail_if (negb (private_state_verify receipt execution finality (ne_endpoint_party e) key))
          NProtocol;
        Ok receipt
      else Err NProtocol
  | other => unexpected other
  end.

Definition client_vote (e : NodeEndpoint) (market_id : bytes) (sequence : Z)
    (commitment : OrderCommitment) (previous : Digest32) (expires_at : Z) (answer : Answer) :
    result NetworkError OrderVote :=
  let expected := vote_digest market_id sequence commitment previous expires_at in
  response ← answer;
  match response with
  | Voted v =>
      if (v_node_id v =? Z.min (ne_endpoint_party e + 1) u16_max)
         && bool_decide (v_statement_digest v = expected)
      then
        signature ← map_err (λ _, NProtocol) (sig_try_from (v_signature v));
        key ← receipt_key e;
        _ ← map_err (λ _, NProtocol) (verify_strict key (d_bytes expected) signature);
        Ok v
      else Err NProtocol
  | other => unexpected other
  end.

Definition client_stage_lifecycle (command : LifecycleCommand) (answer : Answer) :
    result NetworkError () :=
  expected ← map_err (λ _, NProtocol) (command_digest command);
  response ← answer;
  match response with
  | LifecycleStaged digest => if bool_decide (digest = expected) then Ok () else Err NProtocol
  | other => unexpected other
  end.

Definition client_apply_lifecycle (e : NodeEndpoint) (manifest : EdgeOrderManifest)
    (certificate : OrderCertificate) (answer : Answer) :
    result NetworkError NodeCapabilityRelease :=
  response ← answer;
  match response with
  | Released release =>
      key ← receipt_key e;
      _ ← verify_context release manifest (oc_commitment certificate)
        (certificate_digest certificate) (ne_endpoint_party e) key (m_retention_deadline manifest);
      Ok release
  | other => unexpected other
  end.

Definition client_status (e : NodeEndpoint) (answer : Answer) :
    result NetworkError NodeStoreStatus :=
  response ← answer;
  match response with
  | StatusIs status =>
      if ss_status_party status =? ne_endpoint_party e then Ok status else Err NProtocol
  | other => unexpected other
  end.

Definition client_health (e : NodeEndpoint) (answer : Answer) : result NetworkError () :=
  response ← answer;
  match response with
  | Healthy party => if party =? ne_endpoint_party e then Ok () else Err NProtocol
  | other => unexpected other
  end.

End server.
