(* ===== verification/RpcLife.v ===== *)
(** * What the network interface guarantees

    Records are fixed-size and read back; a request changes the store only by the
    operations it stands for, and not at all for a peer of another role; a key
    share leaves a node only for the settlement role and after an authorizing
    round or terminal command; votes stay unequivocal whatever is requested. *)

From S2P Require Import Prelude BTree Bytes AppCrypto Orders Matching Circuit MpcRunner Book.
From S2P Require Import Ordering Reservations Edge EdgeCreate EdgeDecimal EdgeSeal NodeReceipts.
From S2P Require Import NodeState NodeStore NodeSteps NodeCore NodeInv NodeLife NodeRpc.
Open Scope string_scope.
Open Scope list_scope.
Open Scope Z_scope.

(** ** Records *)

Section records.
Context `{Crypto}.

(** A record is cut into its fields where they were joined. *)
Lemma fields_cut (magic version length digest rest : bytes) :
  List.length magic = 8%nat → List.length version = 2%nat → List.length length = 4%nat →
  List.length digest = 32%nat →
  let record := magic ++ version ++ length ++ digest ++ rest in
  take 8 record = magic ∧ take 2 (drop 8 record) = version ∧ take 4 (drop 10 record) = length
  ∧ take 32 (drop 14 record) = digest ∧ drop 46 record = rest
  ∧ List.length record = (List.length rest + 46)%nat.
Proof.
  intros H1 H2 H3 H4 record.
  assert (∀ (a b : bytes) n k, List.length a = n → drop (n + k) (a ++ b) = drop k b) as Hd.
  { intros a b n k <-. by rewrite drop_app_add. }
  assert (∀ k, drop (8 + k) record = drop k (version ++ length ++ digest ++ rest)) as D1
    by (intros k; by apply Hd).
  assert (∀ k, drop (8 + (2 + k)) record = drop k (length ++ digest ++ rest)) as D2.
  { intros k. rewrite D1. by apply Hd. }
  assert (∀ k, drop (8 + (2 + (4 + k))) record = drop k (digest ++ rest)) as D3.
  { intros k. rewrite D2. by apply Hd. }
  assert (∀ k, drop (8 + (2 + (4 + (32 + k)))) record = drop k rest) as D4.
  { intros k. rewrite D3. by apply Hd. }
  split_and!.
  - by apply take_app_length'.
  - assert (drop 8 record = version ++ length ++ digest ++ rest) as -> by apply (D1 0%nat).
    by apply take_app_length'.
  - assert (drop 10 record = length ++ digest ++ rest) as -> by apply (D2 0%nat).
    by apply take_app_length'.
  - assert (drop 14 record = digest ++ rest) as -> by apply (D3 0%nat).
    by apply take_app_length'.
  - apply (D4 0%nat).
  - unfold record. rewrite !length_app. lia.
Qed.

(** A message framed for the wire fills its fixed record size whatever its own length, and the
    receiver decodes it to exactly that message. *)
Theorem record_roundtrip {T} (to_json : T → option bytes) (from_json : bytes → option T)
    size magic message padding record :
  (∀ payload, to_json message = Some payload → from_json payload = Some message) →
  (∀ n, 0 ≤ n → Z.of_nat (length (padding n)) = n) →
  length magic = 8%nat → size ≤ 2 ^ 32 →
  encode_record to_json size magic message padding = Ok record →
  Z.of_nat (length record) = size ∧ decode_record from_json magic record = Ok message.
Proof.
  intros Hjson Hpad Hmagic Hsize. unfold encode_record.
  intros (payload & Hp%ok_or_Ok & (_ & Hg%fail_if_Ok & Hr%Ok_inj)%bind_Ok)%bind_Ok.
  subst record. bool_hyps.
  unfold RECORD_HEADER_BYTES in *.
  rewrite Z.mod_small by lia. set (pad := padding _).
  assert (Hlen : Z.of_nat (length pad) = size - (8 + 2 + 4 + 32) - Z.of_nat (length payload))
    by (apply Hpad; lia).
  destruct (fields_cut magic (u16_be RECORD_VERSION) (be_bytes 4 (Z.of_nat (length payload)))
    (d_bytes (sha256 payload)) (payload ++ pad)) as (F1 & F2 & F3 & F4 & F5 & F6);
    [done|apply length_be_bytes..|apply length_digest|].
  rewrite (length_app payload) in F6. clearbody pad. rewrite F6. split; [lia|]. unfold decode_record.
  change (Z.to_nat RECORD_HEADER_BYTES) with 46%nat. rewrite F1, F2, F3, F4, F5, F6, be_val_4 by lia.
  rewrite (bool_decide_eq_true_2 (magic = magic)) by done.
  assert ((be_val (u16_be RECORD_VERSION) =? RECORD_VERSION) = true) as -> by reflexivity.
  rewrite pass_guard by (rewrite !orb_false_r; apply Z.ltb_ge; unfold RECORD_HEADER_BYTES; lia).
  rewrite pass_guard by (apply Z.ltb_ge; unfold RECORD_HEADER_BYTES; lia).
  rewrite Nat2Z.id, take_app_length, pass_guard by (by rewrite bool_decide_eq_true_2).
  by rewrite (Hjson _ Hp).
Qed.

End records.

Section server.
Context `{Crypto} `{ReceiptJson} `{StoreJson} `{Persistence} `{!StoreLaws}.
Implicit Types (r : NodeRuntime) (s : NodeShareStore).

(** ** A request is a run of store operations *)

(** The operations a request stands for; reading requests have none. *)
Definition served (env : DispatchEnv) (request : NodeRequest) (op : StoreOp) : Prop :=
  match request, op with
  | RqIngest m sealed key, OpIngest m' sealed' key' _ _ => m' = m ∧ sealed' = sealed ∧ key' = key
  | RqIngest m _ _, OpReceipt m' _ _ => m' = m
  | RqVote market q c previous expires_at, OpVote market' q' c' previous' expires_at' now _ =>
      (market', q', c', previous', expires_at') = (market, q, c, previous, expires_at)
      ∧ de_clock env = Some now
  | RqExecute plan, OpCertificate c _ _ _ _ => c = rp_ordering_certificate plan
  | RqExecute plan, OpCompleted receipt _ => ∃ input, de_executed env input plan = Some receipt
  | RqFinalizePrivateState plan f, OpFinalize _ plan' f' _ _ => plan' = plan ∧ f' = f
  | RqStageLifecycle c, OpRegister c' _ _ => c' = c
  | RqApplyLifecycle c, OpCertificate c' _ _ _ _ => c' = c
  | _, _ => False
  end.

(** Whatever [m] returns, it only runs operations that satisfy [Q]. *)
Definition follows {A} (Q : StoreOp → Prop) (m : method NodeRuntime NetworkError A) : Prop :=
  ∀ r, ∃ ops, run (λ op _, Q op) (rt_store r) ops (rt_store (m r).1)
    ∧ (m r).1 = with_store (rt_store (m r).1) r.

Lemma run_app P s ops s1 ops' s2 : run P s ops s1 → run P s1 ops' s2 → run P s (ops ++ ops') s2.
Proof. induction 1; simpl; [done|]. intros Hr. econstructor; eauto. Qed.

Lemma with_store_id r : with_store (rt_store r) r = r.
Proof. by destruct r. Qed.

Lemma follows_pure {A} Q (x : result NetworkError A) : follows Q (try x).
Proof. intros r. exists []. by rewrite with_store_id; split; [constructor|]. Qed.

Lemma follows_bind {A B} Q (m : method NodeRuntime NetworkError A)
    (f : A → method NodeRuntime NetworkError B) :
  follows Q m → (∀ a, follows Q (f a)) → follows Q (m ≫= f).
Proof.
  intros Hm Hf r. rewrite method_bind. destruct (Hm r) as (ops & Hr & He).
  destruct (m r) as [r1 [a|e]]; simpl in *; [|by exists ops].
  destruct (Hf a r1) as (ops' & Hr' & He'). exists (ops ++ ops'). split; [by eapply run_app|].
  rewrite He' at 1. rewrite He. done.
Qed.

Lemma follows_self Q : follows Q self.
Proof. intros r. exists []. by rewrite with_store_id; split; [constructor|]. Qed.

Lemma follows_op {A} Q (op : StoreOp) (m : method NodeShareStore NodeError A) e :
  Q op → (∀ s, exec op s = Some (m s).1) → follows Q (on_store m e).
Proof.
  intros Hq Hm r. unfold on_store. specialize (Hm (rt_store r)).
  destruct (m (rt_store r)) as [s x]. exists [op]. simpl in *. split; [|done].
  econstructor; [done..|constructor].
Qed.

Lemma follows_read {A} Q (f : NodeShareStore → result NodeError A) e :
  follows Q (on_store (λ s, (s, f s)) e).
Proof. intros r. exists []. simpl. by rewrite with_store_id; split; [constructor|]. Qed.

Lemma follows_store Q e : follows Q (on_store self e).
Proof. apply (follows_read Q Ok). Qed.

Lemma follows_try {A B} Q (x : result NetworkError A)
    (f : A → method NodeRuntime NetworkError B) :
  (∀ a, x = Ok a → follows Q (f a)) → follows Q (try x ≫= f).
Proof. intros Hf r. rewrite try_bind. destruct x; [by apply Hf|by apply follows_pure]. Qed.

Create HintDb follows.
#[local] Hint Resolve follows_pure follows_self follows_read follows_store : follows.
#[local] Hint Extern 1 (follows _ (mret _)) => apply (follows_pure _ (Ok _)) : follows.

Ltac follow :=
  repeat match goal with
  | |- follows _ (self ≫= _) => apply follows_bind; [apply follows_self|intros ?]
  | |- follows _ (try _ ≫= _) => apply follows_try; intros ? ?
  | |- follows _ (on_store _ _ ≫= _) => apply follows_bind; [solve [eauto with follows]|intros ?]
  end; eauto with follows.

Lemma dispatch_follows env p request : follows (served env request) (dispatch_checked env p request).
Proof.
  unfold dispatch_checked. apply follows_try; intros now Hc%ok_or_Ok.
  destruct request.
  - unfold dispatch_ingest. follow.
    apply follows_bind; [by eapply (follows_op _ (OpIngest _ _ _ _ _))|intros ?].
    apply follows_bind; [by eapply (follows_op _ (OpReceipt _ _ _))|intros ?]. follow.
  - unfold dispatch_vote. follow.
    apply follows_bind; [by eapply (follows_op _ (OpVote _ _ _ _ _ _ _))|intros ?]. follow.
  - unfold dispatch_execute. follow.
    apply follows_bind; [by eapply (follows_op _ (OpCertificate _ _ _ _ _))|intros ?]. follow.
    destruct (completed_round _ _); follow.
    match goal with He : ok_or (de_executed _ _ _) _ = Ok _ |- _ => apply ok_or_Ok in He end.
    apply follows_bind; [|follow]. eapply (follows_op _ (OpCompleted _ _)); simpl; eauto.
  - unfold dispatch_release. follow. destruct a3 as [share output]. follow.
  - unfold dispatch_finalize. follow.
    apply follows_bind; [by eapply (follows_op _ (OpFinalize _ _ _ _ _))|intros ?]. follow.
  - unfold dispatch_stage. follow.
    apply follows_bind; [by eapply (follows_op _ (OpRegister _ _ _))|intros ?]. follow.
  - unfold dispatch_apply. follow.
    apply follows_bind; [by eapply (follows_op _ (OpCertificate _ _ _ _ _))|intros ?]. follow.
  - follow.
  - follow.
Qed.

(** The store moves only by the operations the request stands for, and nothing else
    of the runtime moves at all. *)
Lemma dispatch_run env p request r r' response :
  dispatch env p request r = (r', response) →
  ∃ ops, run (λ op _, served env request op) (rt_store r) ops (rt_store r')
    ∧ r' = with_store (rt_store r') r.
Proof.
  unfold dispatch. destruct (dispatch_follows env p request r) as (ops & Hr & He).
  destruct (dispatch_checked env p request r) as [r1 [x|e]]; intros [= <- <-]; by exists ops.
Qed.

(** ** Roles *)

(** Which roles may send which requests. *)
Definition permitted (role : PeerRole) (request : NodeRequest) : bool :=
  match request, role with
  | RqIngest _ _ _, Participant => true
  | RqVote _ _ _ _ _, Coordinator | RqExecute _, Coordinator | RqStageLifecycle _, Coordinator => true
  | RqRelease _ _, SettlementPeer | RqFinalizePrivateState _ _, SettlementPeer
  | RqApplyLifecycle _, SettlementPeer => true
  | RqStatus, (Coordinator | Operator) => true
  | RqHealth, _ => true
  | _, _ => false
  end.

(** C14: A node does nothing for a peer whose role the request is not open to: it is answered
    unauthorized and the runtime, the share store included, is unchanged. *)
Theorem roles_separated env p request r now :
  de_clock env = Some now → permitted (pp_role p) request = false →
  dispatch env p request r = (r, Rejected "unauthorized").
Proof.
  intros Hc. unfold dispatch, dispatch_checked. rewrite Hc, try_bind. simpl.
  destruct request, (pp_role p) eqn:E; try done; intros _;
    unfold dispatch_ingest, dispatch_vote, dispatch_execute, dispatch_release, dispatch_finalize,
      dispatch_stage, dispatch_apply, require_role; rewrite ?self_bind, E; done.
Qed.

(** ** Release of key shares *)

Lemma on_store_Ok {A} (m : method NodeShareStore NodeError A) e r r' a :
  on_store m e r = (r', Ok a) → m (rt_store r) = (rt_store r', Ok a) ∧ r' = with_store (rt_store r') r.
Proof.
  unfold on_store. destruct (m (rt_store r)) as [s [x|e']] eqn:E; simpl; [|done].
  by intros [= <- ->].
Qed.

Lemma on_read_Ok {A} (f : NodeShareStore → result NodeError A) e r r' a :
  on_store (λ s, (s, f s)) e r = (r', Ok a) → r' = r ∧ f (rt_store r) = Ok a.
Proof. intros ([= <- ?] & ->)%on_store_Ok. split; [|done]. by destruct r. Qed.

Lemma require_role_Ok p role : require_role p role = Ok () → pp_role p = role.
Proof. unfold require_role. by case_bool_decide. Qed.

(** What a released share is: the opening of what the store keeps for the order. *)
Definition opened_share (s : NodeShareStore) (release : NodeCapabilityRelease) : Prop :=
  ∃ record sealed t,
    st_records (ns_state s) !! cr_order_commitment release = Some record
    ∧ sr_sealed_capability_key_share record = Some sealed
    ∧ key_share_open sealed (ns_key s) (sr_manifest record) (st_party (ns_state s)) t
      = Ok (cr_capability_key_share release).

Lemma sign_context_Ok party order context output share key release :
  sign_context party order context output share key = Ok release →
  cr_order_commitment release = order ∧ cr_capability_key_share release = share
  ∧ cr_party release = party ∧ cr_public_output_sha256 release = output.
Proof.
  unfold sign_context. intros (? & _ & Hr)%bind_Ok.
  apply bind_Ok in Hr as (sg & _ & [= <-]). done.
Qed.

Lemma release_share_Ok s plan order now share output :
  release_capability_key_share s plan order now = Ok (share, output) →
  ∃ receipt record sealed, completed_round (ns_state s) (rp_round_id plan) = Some receipt
    ∧ release_authorized plan receipt order = true
    ∧ st_records (ns_state s) !! order = Some record
    ∧ sr_sealed_capability_key_share record = Some sealed
    ∧ key_share_open sealed (ns_key s) (sr_manifest record) (st_party (ns_state s)) now = Ok share.
Proof.
  unfold release_capability_key_share. intros (? & _ & Hr)%bind_Ok.
  apply bind_Ok in Hr as (receipt & Hc%ok_or_Ok & Hr).
  apply bind_Ok in Hr as (? & Ha%fail_if_Ok & Hr). bool_hyps.
  apply bind_Ok in Hr as (record & Hrec%ok_or_Ok & Hr).
  apply bind_Ok in Hr as (? & _ & Hr). apply bind_Ok in Hr as (sealed & Hs%ok_or_Ok & Hr).
  apply bind_Ok in Hr as (share' & Ho%map_err_Ok & [= <- <-]). by exists receipt, record, sealed.
Qed.

Lemma dispatch_answer env p request r r' response :
  dispatch env p request r = (r', response) → (∀ code, response ≠ Rejected code) →
  ∃ now, de_clock env = Some now ∧ dispatch_checked env p request r = (r', Ok response).
Proof.
  intros Hd Hn. unfold dispatch in Hd. destruct (dispatch_checked env p request r) as [r1 [x|e]] eqn:E.
  - simplify_eq. unfold dispatch_checked in E. rewrite try_bind in E.
    destruct (de_clock env) as [now|]; [by exists now|done].
  - simplify_eq. by destruct (Hn (public_code e)).
Qed.

Lemma dispatch_release_Ok p now plan order r r' release :
  dispatch_release p now plan order r = (r', Ok (Released release)) →
  pp_role p = SettlementPeer ∧ r' = r ∧ opened_share (rt_store r) release
  ∧ plan_verify_ordering plan (rt_ordering_policy r) (rt_ordering_keys r) now = Ok ()
  ∧ ∃ receipt, completed_round (ns_state (rt_store r)) (rp_round_id plan) = Some receipt
    ∧ release_authorized plan receipt order = true ∧ cr_order_commitment release = order.
Proof.
  unfold dispatch_release. rewrite self_bind. intros Hx.
  step Hx as (? & [] & [-> Hrole%require_role_Ok]%try_Ok & Hx).
  step Hx as (? & [] & [-> Hplan%map_err_Ok]%try_Ok & Hx).
  step Hx as (? & status & [-> _]%on_read_Ok & Hx).
  step Hx as (? & [share output] & [-> Hs]%on_read_Ok & Hx).
  step Hx as (? & signed & [-> Hsig%sign_context_Ok]%try_Ok & Hx).
  apply mret_Ok in Hx as [-> [= <-]].
  apply release_share_Ok in Hs as (receipt & record & sealed & ? & ? & ? & ? & ?).
  destruct Hsig as (Ho & Hk & _). split_and!; [done..| |done|by exists receipt].
  exists record, sealed, now. by rewrite Ho, Hk.
Qed.

Lemma lifecycle_entry_Ok st digest entry :
  lifecycle_entry st digest = Ok entry →
  st_lifecycle st !! digest = Some entry ∧ is_Some (sl_certificate entry).
Proof.
  unfold lifecycle_entry. intros (e & He%ok_or_Ok & Hr)%bind_Ok.
  apply bind_Ok in Hr as (? & Hf%fail_if_Ok & [= <-]). bool_hyps.
  split; [done|]. by apply not_eq_None_Some.
Qed.

Lemma dispatch_apply_Ok env p now c r r' release :
  dispatch_apply env p now c r = (r', Ok (Released release)) →
  pp_role p = SettlementPeer ∧ opened_share (rt_store r') release
  ∧ certificate_verify c (rt_ordering_policy r) (rt_ordering_keys r) now = Ok ()
  ∧ ∃ entry, st_lifecycle (ns_state (rt_store r')) !! oc_commitment c = Some entry
    ∧ is_Some (sl_certificate entry) ∧ sl_finality entry = None
    ∧ cr_order_commitment release = lc_target (sl_command entry).
Proof.
  unfold dispatch_apply. rewrite self_bind. intros Hx.
  step Hx as (? & [] & [-> Hrole%require_role_Ok]%try_Ok & Hx).
  step Hx as (? & [] & [-> _]%try_Ok & Hx).
  step Hx as (r1 & g & [Hacc Hr1]%on_store_Ok & Hx).
  step Hx as (? & entry & [-> He%lifecycle_entry_Ok]%on_read_Ok & Hx).
  step Hx as (? & share & [-> Hs]%on_read_Ok & Hx).
  step Hx as (? & s & [-> [= <-]]%(on_read_Ok Ok) & Hx).
  step Hx as (? & signed & [-> Hsig%sign_context_Ok]%try_Ok & Hx).
  apply mret_Ok in Hx as [-> [= <-]].
  destruct He as [He Hcert], Hsig as (Ho & Hk & _).
  unfold lifecycle_share, lifecycle_entry in Hs. rewrite He in Hs. simpl in Hs.
  step Hs as (entry' & Hentry & Hs). step Hentry as (? & _ & [= <-]).
  step Hs as (? & Hfin%fail_if_Ok & Hs). step Hs as (record & Hrec%ok_or_Ok & Hs).
  step Hs as (sealed & Hsealed%ok_or_Ok & Ho'%map_err_Ok). bool_hyps.
  apply eq_None_not_Some in Hfin.
  split_and!; [done| | |by exists entry].
  - exists record, sealed, (sr_admitted_at record). by rewrite Ho, Hk.
  - unfold accept_order_certificate in Hacc. rewrite self_bind in Hacc.
    step Hacc as (? & [] & [_ Hv%map_err_Ok]%try_Ok & _). done.
Qed.

(** A request of another kind never answers with a release. *)
Lemma released_kind env p request r r' release :
  dispatch_checked env p request r = (r', Ok (Released release)) →
  (∃ plan order, request = RqRelease plan order) ∨ (∃ c, request = RqApplyLifecycle c).
Proof.
  unfold dispatch_checked. intros Hx. step Hx as (? & now & _ & Hx).
  destruct request; eauto; exfalso; revert Hx;
    unfold dispatch_ingest, dispatch_vote, dispatch_execute, dispatch_finalize, dispatch_stage;
    intros Hx; repeat (step Hx as (? & ? & _ & Hx)); try case_match;
    repeat (step Hx as (? & ? & _ & Hx)); by apply mret_Ok in Hx as [_ ?].
Qed.

(** C12: A node hands out a capability key share only to a settlement peer, and only for an order
    that a verified certificate covers: either its completed round authorizes the order, or the
    order's cancellation or expiry is certified and not yet final.  The share is the one the node's own
    store opens for that order. *)
Theorem key_release_guarded env p request r r' release :
  dispatch env p request r = (r', Released release) →
  pp_role p = SettlementPeer ∧ opened_share (rt_store r') release
  ∧ ∃ now, de_clock env = Some now ∧
    ((∃ plan order receipt, request = RqRelease plan order ∧ r' = r
        ∧ plan_verify_ordering plan (rt_ordering_policy r) (rt_ordering_keys r) now = Ok ()
        ∧ completed_round (ns_state (rt_store r)) (rp_round_id plan) = Some receipt
        ∧ release_authorized plan receipt order = true ∧ cr_order_commitment release = order)
     ∨ (∃ c entry, request = RqApplyLifecycle c
        ∧ certificate_verify c (rt_ordering_policy r) (rt_ordering_keys r) now = Ok ()
        ∧ st_lifecycle (ns_state (rt_store r')) !! oc_commitment c = Some entry
        ∧ is_Some (sl_certificate entry) ∧ sl_finality entry = None
        ∧ cr_order_commitment release = lc_target (sl_command entry))).
Proof.
  intros Hd. destruct (dispatch_answer _ _ _ _ _ _ Hd) as (now & Hc & Hx); [done|].
  destruct (released_kind _ _ _ _ _ _ Hx) as [(plan & order & ->)|(c & ->)];
    unfold dispatch_checked in Hx; rewrite Hc, try_bind in Hx; cbn [ok_or] in Hx.
  - apply dispatch_release_Ok in Hx as (? & -> & ? & ? & receipt & ? & ? & ?).
    split_and!; [done..|]. exists now. split; [done|]. left. by exists plan, order, receipt.
  - apply dispatch_apply_Ok in Hx as (? & ? & ? & entry & ? & ? & ? & ?).
    split_and!; [done..|]. exists now. split; [done|]. right. by exists c, entry.
Qed.

(** ** Votes *)

(** What a node does between two moments: requests of any peers, with any write
    failures, until the clock reads [limit], and restarts. *)
Inductive node_run (limit : Z) : NodeRuntime → NodeRuntime → Prop :=
| node_idle r : node_run limit r r
| node_request env p request r r1 response r2 :
    (∀ t, de_clock env = Some t → t ≤ limit) →
    dispatch env p request r = (r1, response) → node_run limit r1 r2 → node_run limit r r2
| node_restart marker policy io r s r2 :
    exec (OpRestart marker policy io) (rt_store r) = Some s →
    node_run limit (with_store s r) r2 → node_run limit r r2.

Lemma served_before env request op limit :
  0 ≤ limit → (∀ t, de_clock env = Some t → t ≤ limit) → served env request op → op_now op ≤ limit.
Proof. intros ? Hc. destruct op; simpl; try done. destruct request; try done. naive_solver. Qed.

Lemma node_run_store limit r r' :
  0 ≤ limit → node_run limit r r' →
  ∃ ops, run (λ op _, op_now op ≤ limit) (rt_store r) ops (rt_store r').
Proof.
  intros Hl. induction 1 as [r|env p request r r1 response r2 Hc Hd _ [ops2 IH]
    |marker policy io r s r2 Hx _ [ops2 IH]].
  - exists []. constructor.
  - apply dispatch_run in Hd as (ops1 & Hr & _). exists (ops1 ++ ops2).
    eapply run_app; [|exact IH]. clear IH. induction Hr; econstructor; eauto.
    by eapply served_before.
  - exists (OpRestart marker policy io :: ops2). by econstructor.
Qed.

Lemma dispatch_vote_Ok env p market q c previous expires_at r r' v :
  dispatch env p (RqVote market q c previous expires_at) r = (r', Voted v) →
  ∃ now, de_clock env = Some now
    ∧ record_order_vote market q c previous expires_at now (de_write env) (rt_store r)
      = (rt_store r', Ok (v_statement_digest v)).
Proof.
  intros Hd. destruct (dispatch_answer _ _ _ _ _ _ Hd) as (now & Hc & Hx); [done|].
  exists now. split; [done|]. unfold dispatch_checked in Hx. rewrite Hc, try_bind in Hx.
  unfold dispatch_vote in Hx. cbn [ok_or] in Hx. rewrite self_bind in Hx.
  step Hx as (? & [] & [-> _]%try_Ok & Hx).
  step Hx as (r1 & statement & [Hv Hr1]%on_store_Ok & Hx).
  step Hx as (? & status & [-> _]%on_read_Ok & Hx). step Hx as (? & [] & [-> _]%try_Ok & Hx).
  step Hx as (? & sg & [-> _]%try_Ok & Hx). by apply mret_Ok in Hx as [-> [= <-]].
Qed.

(** C7: Over all the requests a node answers from any peers, with write failures and
    restarts in between, two votes it signs for one sequence are for the same statement unless the
    first one has expired. *)
Theorem node_never_equivocates party policy r0 r1 env1 p1 market1 q c1 prev1 exp1 r2 v1
    r3 env2 p2 market2 c2 prev2 exp2 now r4 v2 :
  opened party policy (rt_store r0) → 0 ≤ now →
  node_run now r0 r1 → (∀ t, de_clock env1 = Some t → t ≤ now) →
  dispatch env1 p1 (RqVote market1 q c1 prev1 exp1) r1 = (r2, Voted v1) →
  node_run now r2 r3 → de_clock env2 = Some now →
  dispatch env2 p2 (RqVote market2 q c2 prev2 exp2) r3 = (r4, Voted v2) →
  ∃ v, st_ordering_votes (ns_state (rt_store r2)) !! q = Some v
    ∧ sv_statement_digest v = v_statement_digest v1
    ∧ (v_statement_digest v2 = v_statement_digest v1 ∨ sv_expires_at v < now).
Proof.
  intros Ho Hpos Hr1 Hc1 Hd1 Hr2 Hc2 Hd2.
  apply node_run_store in Hr1 as [ops1 Hr1]; [|done].
  apply node_run_store in Hr2 as [ops2 Hr2]; [|done].
  apply dispatch_vote_Ok in Hd1 as (now1 & Hn1 & Hv1).
  apply dispatch_vote_Ok in Hd2 as (now2 & Hn2 & Hv2). simplify_eq.
  exact (votes_unequivocal _ _ _ _ _ _ _ _ _ _ _ _ _ _ _ _ _ _ _ _ _ _ _ _ Ho Hr1
    (Hc1 _ Hn1) Hv1 Hr2 Hv2).
Qed.

End server.
