(* ===== verification/EdgeClient.v ===== *)
(** * The edge client: one request to seven nodes

    [oclob-node/src/edge_client.rs] and [ClusterPublicConfig] of [network.rs]: the
    delivery of a bundle, the collection of an order certificate, the agreed
    execution of a round, the collection of released key shares and the
    finalization of the private state.  The threads that call the nodes are data:
    [Job] is what one of them returns, [None] when it panicked. *)

From S2P Require Import Prelude BTree Bytes AppCrypto Orders Matching Circuit MpcRunner Book.
From S2P Require Import Ordering Reservations Edge EdgeCreate EdgeDecimal NodeReceipts NodeState.
From S2P Require Import NodeStore NodeRpc.
Open Scope string_scope.
Open Scope list_scope.
Open Scope Z_scope.

Inductive EdgeClientError :=
| CConfiguration
| CWorker
| CReceipt
| COrderingQuorum
| CSettlementThreshold
| CNetwork (e : NetworkError).

(** ** The cluster *)

Record ClusterNodePublic := mk_cluster_node {
  cn_party : Z;
  cn_host : bytes;
  cn_rpc_port : Z;
  cn_proof_port : Z;
  cn_server_name : bytes;
  cn_tls_certificate_sha256 : Digest32;
  cn_share_encryption_key : NodeEncryptionKey;
  cn_receipt_verifying_key : Digest32
}.

(** [deployment_crypto_policy] is its canonical encoding, [None] when invalid. *)
Record ClusterPublicConfig := mk_cluster {
  cl_version : Z;
  cl_deployment_crypto_policy : option bytes;
  cl_market_id : bytes;
  cl_program : bytes;
  cl_settlement_release_threshold : Z;
  cl_nodes : list ClusterNodePublic
}.

Record EdgeAdmissionReceipt := mk_edge_receipt {
  er_version : Z;
  er_manifest : EdgeOrderManifest;
  er_node_generations : vec Z MPC_PARTIES;
  er_order_share_digests : vec Digest32 MPC_PARTIES;
  er_capability_key_share_digests : vec Digest32 MPC_PARTIES;
  er_node_receipts : list NodeAdmissionReceipt;
  er_receipt_digest : Digest32
}.

Record PreparedEdgeDelivery `{EdgeCrates} := mk_delivery {
  pd_manifest : EdgeOrderManifest;
  pd_deliveries : vec (Z * SealedPartyShare * SealedCapabilityKeyShare) MPC_PARTIES
}.

Record AgreedRoundExecution := mk_agreed {
  ag_receipts : list NodeExecutionReceipt;
  ag_result : MpcBatchResult
}.

Record ThresholdCapabilityRelease := mk_threshold_release {
  th_releases : list NodeCapabilityRelease;
  th_key : SettlementCapabilityKey
}.

Definition endpoint (n : ClusterNodePublic) : NodeEndpoint := {|
  ne_endpoint_party := cn_party n; ne_host := cn_host n; ne_port := cn_rpc_port n;
  ne_server_name := cn_server_name n; ne_certificate_sha256 := cn_tls_certificate_sha256 n;
  ne_receipt_verifying_key := cn_receipt_verifying_key n |}.

(** What a thread that called one node returned. *)
Definition Job (A : Type) : Type := option (result NetworkError A).

Definition join {A} (j : Job A) : result EdgeClientError A :=
  match j with
  | None => Err CWorker
  | Some r => map_err CNetwork r
  end.

(** One thread per node, given what it met: a panic or the node's answer. *)
Definition ask_all {N A} (ask : N → Answer → result NetworkError A) (nodes : list N)
    (answers : list (option Answer)) : list (Job A) :=
  zip_with (λ n answer, ask n <$> answer) nodes answers.

(** The answers that arrived and were good. *)
Definition good {A} (jobs : list (Job A)) : list A :=
  omap (λ j, match j with Some (Ok a) => Some a | _ => None end) jobs.

Section client.
Context `{Crypto} `{ReceiptJson} `{StoreJson} `{Persistence}.

Definition bad_node (party : nat) (n : ClusterNodePublic) : bool :=
  negb (cn_party n =? Z.of_nat party) || Nat.eqb (length (cn_host n)) 0 || (cn_rpc_port n =? 0)
  || (cn_proof_port n =? 0) || Nat.eqb (length (cn_server_name n)) 0
  || is_zero (cn_tls_certificate_sha256 n) || negb (valid_encoding (cn_share_encryption_key n))
  || negb (is_ok (vk_from_bytes (cn_receipt_verifying_key n))).

Definition cluster_validate (c : ClusterPublicConfig) : result NetworkError () :=
  _ ← fail_if (negb (cl_version c =? 6) || bool_decide (cl_deployment_crypto_policy c = None)
      || Nat.eqb (length (cl_market_id c)) 0 || Nat.ltb 64 (length (cl_market_id c))
      || Nat.eqb (length (cl_program c)) 0
      || negb (cl_settlement_release_threshold c =? Z.of_nat SETTLEMENT_KEY_THRESHOLD)
      || negb (Nat.eqb (length (cl_nodes c)) MPC_PARTIES)) NConfiguration;
  _ ← fail_if (existsb (λ '(party, n), bad_node party n) (imap pair (cl_nodes c))) NConfiguration;
  fail_if (negb (Nat.eqb (size (list_to_set (C := gset Digest32)
      (map cn_receipt_verifying_key (cl_nodes c)))) (length (cl_nodes c)))) NConfiguration.

Definition ordering_verifying_keys (c : ClusterPublicConfig) :
    result NetworkError (btree Z VerifyingKey) :=
  _ ← cluster_validate c;
  for_each (λ keys n,
    _ ← fail_if (u16_max <? cn_party n + 1) NConfiguration;
    key ← map_err (λ _, NConfiguration) (vk_from_bytes (cn_receipt_verifying_key n));
    Ok (bt_insert (cn_party n + 1) key keys)) [] (cl_nodes c).

(** ** Delivery *)

Definition receipt_digest (m : EdgeOrderManifest) (generations : vec Z MPC_PARTIES)
    (order_shares capability_shares : vec Digest32 MPC_PARTIES)
    (receipts : list NodeAdmissionReceipt) : Digest32 :=
  sha256 (ascii_bytes "OCLOB:EDGE-ADMISSION-RECEIPT:v3" ++ d_bytes (m_commitment m)
    ++ d_bytes (m_signer m)
    ++ concat (map (λ party, u16_be (Z.of_nat (fin_to_nat party))
         ++ u64_be (generations !!! party) ++ d_bytes (order_shares !!! party)
         ++ d_bytes (capability_shares !!! party)) (fin_range MPC_PARTIES))
    ++ u64_be (Z.of_nat (length receipts))
    ++ concat (map (λ r, u16_be (na_party r) ++ d_bytes (na_order_commitment r)
         ++ d_bytes (na_manifest_signer r) ++ d_bytes (na_order_share_digest r)
         ++ d_bytes (na_capability_key_share_digest r) ++ u64_be (na_generation r)
         ++ d_bytes (na_state_digest r) ++ d_bytes (na_signer r)
         ++ u64_be (Z.of_nat (length (na_signature r))) ++ na_signature r) receipts)).

(** The receipt of one node, as [EdgeAdmissionReceipt::verify] checks it. *)
Definition check_node_receipt (r : EdgeAdmissionReceipt) (party : fin MPC_PARTIES)
    (n : ClusterNodePublic) (receipt : NodeAdmissionReceipt) : result EdgeClientError () :=
  signer ← map_err (λ _, CReceipt) (vk_from_bytes (cn_receipt_verifying_key n));
  _ ← fail_if (negb (admission_verify receipt (m_commitment (er_manifest r))
        (m_signer (er_manifest r)) (Z.of_nat (fin_to_nat party))
        (er_order_share_digests r !!! party) (er_capability_key_share_digests r !!! party) signer))
    CReceipt;
  fail_if (negb (na_generation receipt =? er_node_generations r !!! party)) CReceipt.

Definition edge_receipt_verify (r : EdgeAdmissionReceipt) (c : ClusterPublicConfig) (now : Z) :
    result EdgeClientError () :=
  _ ← map_err CNetwork (cluster_validate c);
  _ ← fail_if (negb (er_version r =? 3)
      || negb (bool_decide (m_market_id (er_manifest r) = cl_market_id c))
      || bool_decide (0 ∈ vec_to_list (er_node_generations r))
      || existsb is_zero (er_order_share_digests r)
      || existsb is_zero (er_capability_key_share_digests r)
      || negb (Nat.eqb (length (er_node_receipts r)) MPC_PARTIES)
      || negb (bool_decide (er_receipt_digest r = receipt_digest (er_manifest r)
           (er_node_generations r) (er_order_share_digests r)
           (er_capability_key_share_digests r) (er_node_receipts r)))) CReceipt;
  _ ← map_err (λ _, CReceipt) (manifest_verify (er_manifest r) now);
  for_range (λ party, match cl_nodes c !! fin_to_nat party, er_node_receipts r !! fin_to_nat party with
    | Some n, Some receipt => check_node_receipt r party n receipt
    | _, _ => Ok ()
    end).

Definition from_bundle (b : EdgeOrderBundle) : PreparedEdgeDelivery :=
  {| pd_manifest := eb_manifest b; pd_deliveries := into_deliveries b |}.

Definition misdirected (m : EdgeOrderManifest) (n : ClusterNodePublic)
    (d : Z * SealedPartyShare * SealedCapabilityKeyShare) : bool :=
  let '(party, share, key) := d in
  negb (party =? cn_party n) || negb (ss_party share =? party) || negb (sq_party key =? party)
  || negb (bool_decide (ss_commitment share = m_commitment m))
  || negb (bool_decide (sq_order_commitment key = m_commitment m))
  || negb (bool_decide (sq_capability_commitment key = m_settlement_capability_commitment m))
  || negb (bool_decide (ss_recipient share = node_key_fingerprint (cn_share_encryption_key n)))
  || negb (bool_decide (sq_recipient key = node_key_fingerprint (cn_share_encryption_key n))).

Definition delivery_validate (d : PreparedEdgeDelivery) (c : ClusterPublicConfig) (now : Z) :
    result EdgeClientError () :=
  _ ← map_err CNetwork (cluster_validate c);
  _ ← map_err (λ _, CReceipt) (manifest_verify (pd_manifest d) now);
  _ ← fail_if (negb (bool_decide (m_market_id (pd_manifest d) = cl_market_id c))) CConfiguration;
  fail_if (existsb (λ '(n, delivery), misdirected (pd_manifest d) n delivery)
    (zip (cl_nodes c) (pd_deliveries d))) CReceipt.

(** [EdgeDistributor::new]; a duration is in nanoseconds. *)
Definition distributor_new (c : ClusterPublicConfig) (timeout : Z) : result EdgeClientError () :=
  _ ← map_err CNetwork (cluster_validate c);
  fail_if ((timeout =? 0) || (120 * SECOND <? timeout)) CConfiguration.

(** One delivery thread, given what its node answers. *)
Definition deliver_to (timeout : Z) (m : EdgeOrderManifest) (n : ClusterNodePublic)
    (d : Z * SealedPartyShare * SealedCapabilityKeyShare) (answer : Answer) :
    result NetworkError (Z * NodeAdmissionReceipt * Digest32 * Digest32) :=
  let '(party, sealed, sealed_key) := d in
  _ ← fail_if (negb (party =? cn_party n)) NConfiguration;
  _ ← client_new (endpoint n) timeout;
  receipt ← client_ingest (endpoint n) m sealed sealed_key answer;
  Ok (party, receipt, share_wire_digest sealed, sealed_key_wire_digest sealed_key).

(** [a[i] = x] on an array; the index of a validated delivery is in range. *)
Definition array_set {A n} (i : Z) (x : A) (v : vec A n) : vec A n :=
  fun_to_vec (λ j, if Z.of_nat (fin_to_nat j) =? i then x else v !!! j).

Record Collected := mk_collected {
  co_generations : vec Z MPC_PARTIES;
  co_order_shares : vec Digest32 MPC_PARTIES;
  co_capability_shares : vec Digest32 MPC_PARTIES;
  co_receipts : list NodeAdmissionReceipt
}.

Definition collect_delivery (acc : Collected)
    (job : Job (Z * NodeAdmissionReceipt * Digest32 * Digest32)) :
    result EdgeClientError Collected :=
  '(party, receipt, order_share, capability_share) ← join job;
  Ok {| co_generations := array_set party (na_generation receipt) (co_generations acc);
        co_order_shares := array_set party order_share (co_order_shares acc);
        co_capability_shares := array_set party capability_share (co_capability_shares acc);
        co_receipts := co_receipts acc ++ [receipt] |}.

(** [answers] lists what each node's thread met: [None] panicked, else the node's
    answer.  [clock] and [clock'] are the two readings of the system clock. *)
Definition submit_prepared (c : ClusterPublicConfig) (timeout : Z) (d : PreparedEdgeDelivery)
    (answers : vec (option Answer) MPC_PARTIES) (clock clock' : option Z) :
    result EdgeClientError EdgeAdmissionReceipt :=
  now ← ok_or clock CConfiguration;
  _ ← delivery_validate d c now;
  let jobs := ask_all (λ '(delivery, n), deliver_to timeout (pd_manifest d) n delivery)
    (zip (pd_deliveries d) (cl_nodes c)) answers in
  acc ← for_each collect_delivery {|
      co_generations := vreplicate MPC_PARTIES 0;
      co_order_shares := vreplicate MPC_PARTIES zero_digest;
      co_capability_shares := vreplicate MPC_PARTIES zero_digest; co_receipts := [] |} jobs;
  let receipts := sort_by (λ a b, na_party a <=? na_party b) (co_receipts acc) in
  let receipt := {| er_version := 3; er_manifest := pd_manifest d;
    er_node_generations := co_generations acc; er_order_share_digests := co_order_shares acc;
    er_capability_key_share_digests := co_capability_shares acc; er_node_receipts := receipts;
    er_receipt_digest := receipt_digest (pd_manifest d) (co_generations acc)
      (co_order_shares acc) (co_capability_shares acc) receipts |} in
  now ← ok_or clock' CConfiguration;
  _ ← edge_receipt_verify receipt c now;
  Ok receipt.

(** ** Ordering *)

(** What is checked before the nodes are asked, and the slot the order is to take. *)
Definition certificate_slot (c : ClusterPublicConfig) (previous : option OrderCertificate)
    (commitment : OrderCommitment) (expires_at timeout : Z) (clock : option Z) :
    result EdgeClientError (Z * Z * Digest32) :=
  _ ← fail_if ((timeout =? 0) || (120 * SECOND <? timeout)) CConfiguration;
  _ ← map_err CNetwork (cluster_validate c);
  now ← ok_or clock CConfiguration;
  _ ← fail_if (expires_at <? now) CConfiguration;
  match previous with
  | Some o =>
      if bool_decide (oc_market_id o = cl_market_id c)
         && negb (bool_decide (oc_commitment o = commitment))
      then
        sequence ← ok_or (checked_add (oc_sequence o) 1) CConfiguration;
        Ok (now, sequence, certificate_digest o)
      else Err CConfiguration
  | None => Ok (now, 1, zero_digest)
  end.

(** One voting thread. *)
Definition ask_vote (c : ClusterPublicConfig) (sequence : Z) (commitment : OrderCommitment)
    (previous_certificate : Digest32) (expires_at timeout : Z) (n : ClusterNodePublic)
    (answer : Answer) : result NetworkError OrderVote :=
  _ ← client_new (endpoint n) timeout;
  client_vote (endpoint n) (cl_market_id c) sequence commitment previous_certificate expires_at
    answer.

Definition collect_order_certificate (c : ClusterPublicConfig) (previous : option OrderCertificate)
    (commitment : OrderCommitment) (expires_at timeout : Z) (clock : option Z)
    (answers : list (option Answer)) : result EdgeClientError OrderCertificate :=
  '(now, sequence, previous_certificate) ←
    certificate_slot c previous commitment expires_at timeout clock;
  let jobs := ask_all (ask_vote c sequence commitment previous_certificate expires_at timeout)
    (cl_nodes c) answers in
  let certificate := {| oc_market_id := cl_market_id c; oc_sequence := sequence;
    oc_commitment := commitment; oc_previous_certificate := previous_certificate;
    oc_expires_at := expires_at;
    oc_votes := sort_by (λ a b, v_node_id a <=? v_node_id b) (good jobs) |} in
  keys ← map_err CNetwork (ordering_verifying_keys c);
  _ ← map_err (λ _, COrderingQuorum) (certificate_verify certificate seven_node keys now);
  Ok certificate.

(** ** Execution *)

(** The retry loop of a thread: the answers before the deadline, then the last. *)
Fixpoint execute_until (e : NodeEndpoint) (timeout : Z) (earlier : list Answer) (final : Answer) :
    result NetworkError NodeExecutionReceipt :=
  _ ← client_new e timeout;
  match earlier with
  | [] => client_execute e final
  | answer :: earlier =>
      match client_execute e answer with
      | Ok receipt => Ok receipt
      | Err _ => execute_until e timeout earlier final
      end
  end.

(** [receipt.verify(plan, party, key)] of every node, in order, as [err] on failure;
    [program] is the digest of the installed program. *)
Definition verify_executions (c : ClusterPublicConfig) (plan : RoundPlan) (program : Digest32)
    (receipts : list NodeExecutionReceipt) (also : NodeExecutionReceipt → bool)
    (e : EdgeClientError) : result EdgeClientError () :=
  for_each (λ _ '(party, (n, receipt)),
    key ← map_err (λ _, e) (vk_from_bytes (cn_receipt_verifying_key n));
    _ ← map_err (λ _, e) (execution_verify receipt plan (Z.of_nat party) program key);
    fail_if (negb (also receipt)) e) () (imap pair (zip (cl_nodes c) receipts)).

Definition same_execution (result : MpcBatchResult) (first r : NodeExecutionReceipt) : bool :=
  bool_decide (ne_result r = result)
  && bool_decide (ne_public_output_sha256 r = ne_public_output_sha256 first)
  && bool_decide (ne_program_sha256 r = ne_program_sha256 first)
  && bool_decide (ne_artifact_sha256 r = ne_artifact_sha256 first).

Definition execute_agreed_round (c : ClusterPublicConfig) (plan : RoundPlan) (program : Digest32)
    (timeout : Z) (clock : option Z) (answers : list (option (list Answer * Answer))) :
    result EdgeClientError AgreedRoundExecution :=
  _ ← fail_if ((timeout =? 0) || (600 * SECOND <? timeout)) CConfiguration;
  _ ← map_err CNetwork (cluster_validate c);
  now ← ok_or clock CConfiguration;
  keys ← map_err CNetwork (ordering_verifying_keys c);
  _ ← map_err (λ _, CConfiguration) (plan_verify_ordering plan seven_node keys now);
  _ ← fail_if (negb (bool_decide (rp_market_id plan = cl_market_id c))) CConfiguration;
  let jobs := zip_with (λ n attempts,
      '(earlier, final) ← attempts; Some (execute_until (endpoint n) timeout earlier final))
    (cl_nodes c) answers in
  receipts ← collect join jobs;
  _ ← fail_if (negb (Nat.eqb (length receipts) (length (cl_nodes c)))) CReceipt;
  _ ← verify_executions c plan program receipts (λ _, true) CReceipt;
  first ← ok_or (head receipts) CReceipt;
  _ ← fail_if (existsb (λ r, negb (same_execution (ne_result first) first r)) receipts) CReceipt;
  Ok {| ag_receipts := receipts; ag_result := ne_result first |}.

(** ** Key release *)

Definition capability_release_permitted (plan : RoundPlan) (result : MpcBatchResult)
    (order : OrderCommitment) : bool :=
  if bool_decide (order = rp_arriving plan) then
    (0 <? br_arriving_remaining result) || existsb slot_matched (br_slots result)
  else
    match list_find (λ c, c = order) (rp_resting plan) with
    | Some (position, _) =>
        match br_slots result !! position with
        | Some slot => slot_matched slot
        | None => false
        end
    | None => false
    end.

(** [dedup_by_key]: of adjacent equal parties the first stays. *)
Fixpoint dedup_releases (l : list NodeCapabilityRelease) : list NodeCapabilityRelease :=
  match l with
  | [] => []
  | a :: l =>
      match dedup_releases l with
      | b :: l' => if cr_party b =? cr_party a then a :: l' else a :: b :: l'
      | [] => [a]
      end
  end.

(** What is checked before the nodes are asked; the time and the expected output. *)
Definition release_checks (c : ClusterPublicConfig) (plan : RoundPlan)
    (program : Digest32) (execution : AgreedRoundExecution) (manifest : EdgeOrderManifest)
    (order : OrderCommitment) (timeout : Z) (clock : option Z) :
    result EdgeClientError (Z * Digest32) :=
  _ ← fail_if ((timeout =? 0) || (120 * SECOND <? timeout)) CConfiguration;
  _ ← map_err CNetwork (cluster_validate c);
  now ← ok_or clock CConfiguration;
  _ ← map_err (λ _, CSettlementThreshold) (manifest_verify manifest now);
  keys ← map_err CNetwork (ordering_verifying_keys c);
  _ ← map_err (λ _, CSettlementThreshold) (plan_verify_ordering plan seven_node keys now);
  _ ← fail_if (negb (bool_decide (m_commitment manifest = order))
      || negb (bool_decide (rp_market_id plan = m_market_id manifest))
      || negb (Nat.eqb (length (ag_receipts execution)) (length (cl_nodes c)))
      || negb (capability_release_permitted plan (ag_result execution) order))
    CSettlementThreshold;
  first ← ok_or (head (ag_receipts execution)) CSettlementThreshold;
  _ ← verify_executions c plan program (ag_receipts execution)
    (same_execution (ag_result execution) first) CSettlementThreshold;
  Ok (now, ne_public_output_sha256 first).

(** One releasing thread. *)
Definition ask_release (timeout : Z) (manifest : EdgeOrderManifest) (plan : RoundPlan)
    (output : Digest32) (now : Z) (n : ClusterNodePublic) (answer : Answer) :
    result NetworkError NodeCapabilityRelease :=
  _ ← client_new (endpoint n) timeout;
  client_release (endpoint n) manifest plan output now answer.

Definition collect_threshold_capability_release (c : ClusterPublicConfig) (plan : RoundPlan)
    (program : Digest32) (execution : AgreedRoundExecution) (manifest : EdgeOrderManifest)
    (order : OrderCommitment) (timeout : Z) (clock : option Z) (answers : list (option Answer)) :
    result EdgeClientError ThresholdCapabilityRelease :=
  '(now, output) ← release_checks c plan program execution manifest order timeout clock;
  let jobs := ask_all (ask_release timeout manifest plan output now) (cl_nodes c) answers in
  let releases := dedup_releases (sort_by (λ a b, cr_party a <=? cr_party b) (good jobs)) in
  _ ← fail_if ((Z.of_nat (length releases) <? cl_settlement_release_threshold c)
      || Nat.ltb (length releases) SETTLEMENT_KEY_THRESHOLD) CSettlementThreshold;
  key ← map_err (λ _, CSettlementThreshold) (reconstruct_settlement_capability_key manifest
    (map cr_capability_key_share releases) now);
  Ok {| th_releases := releases; th_key := key |}.

Definition from_lifecycle (manifest : EdgeOrderManifest) (releases : list NodeCapabilityRelease) :
    result EdgeClientError ThresholdCapabilityRelease :=
  key ← map_err (λ _, CSettlementThreshold) (reconstruct_settlement_capability_key manifest
    (map cr_capability_key_share releases) (m_retention_deadline manifest));
  Ok {| th_releases := releases; th_key := key |}.

(** ** Finality *)

Definition finalize_agreed_private_state (c : ClusterPublicConfig)
    (execution : AgreedRoundExecution) (finality : PrivateStateFinality) (timeout : Z)
    (answers : list (option Answer)) : result EdgeClientError (list NodePrivateStateReceipt) :=
  _ ← fail_if ((timeout =? 0) || (120 * SECOND <? timeout)
      || negb (Nat.eqb (length (ag_receipts execution)) (length (cl_nodes c)))
      || match head (ag_receipts execution) with
         | Some r => negb (bool_decide (ne_public_output_sha256 r = pf_public_output_sha256 finality))
         | None => true
         end) CConfiguration;
  let jobs := ask_all (λ '(n, receipt) answer,
      _ ← client_new (endpoint n) timeout;
      client_finalize (endpoint n) finality receipt answer)
    (zip (cl_nodes c) (ag_receipts execution)) answers in
  collect join jobs.

End client.
