(* ===== verification/ClientLife.v ===== *)
(** * What the edge client obtains from seven nodes

    Two faulty nodes cannot stop a certificate and four cannot stop the release of
    a key, whatever they answer; a delivery counts only when all seven nodes
    acknowledged their own ciphertexts, and seven honest nodes do. *)

From S2P Require Import Prelude BTree Bytes AppCrypto Orders Matching Circuit MpcRunner Book.
From S2P Require Import Ordering Reservations Edge EdgeCreate EdgeField EdgeShares EdgeDecimal.
From S2P Require Import EdgeSeal EdgeLife NodeReceipts NodeState NodeStore NodeSteps NodeCore NodeInv.
From S2P Require Import NodeLife NodeAdmit NodeRpc RpcLife EdgeClient.
Open Scope string_scope.
Open Scope list_scope.
Open Scope Z_scope.

(** ** Fan-out *)

Section fanout.
Context {N A : Type} (ask : N → Answer → result NetworkError A).
Implicit Types (nodes : list N) (answers : list (option Answer)).

Lemma elem_of_good nodes answers x :
  x ∈ good (ask_all ask nodes answers) ↔
  ∃ i n a, nodes !! i = Some n ∧ answers !! i = Some (Some a) ∧ ask n a = Ok x.
Proof.
  unfold good. rewrite list_elem_of_omap. split.
  - intros (j & (i & Hi)%list_elem_of_lookup & Hx).
    unfold ask_all in Hi. rewrite lookup_zip_with in Hi.
    destruct (nodes !! i) as [n|] eqn:Hn, (answers !! i) as [[a|]|] eqn:Ha; simplify_eq/=;
      try done. exists i, n, a. destruct (ask n a); by simplify_eq.
  - intros (i & n & a & Hn & Ha & Hx). exists (Some (Ok x)). split; [|done].
    apply list_elem_of_lookup. exists i. unfold ask_all.
    rewrite lookup_zip_with, Hn, Ha. simpl. by rewrite Hx.
Qed.

(** Good answers carry the index of their node, so no two of them agree. *)
Lemma good_NoDup (key : A → Z) nodes answers k :
  (∀ i n a x, nodes !! i = Some n → ask n a = Ok x → key x = k + Z.of_nat i) →
  NoDup (map key (good (ask_all ask nodes answers)))
  ∧ ∀ x, x ∈ good (ask_all ask nodes answers) → k ≤ key x.
Proof.
  revert k answers. induction nodes as [|n nodes IH]; intros k [|a answers] Hk;
    [split; [constructor|set_solver]..|].
  destruct (IH (k + 1) answers) as [Hd Hl].
  { intros i n' a' x Hi Hx. rewrite (Hk (S i) n' a' x Hi Hx). lia. }
  unfold good, ask_all in *. simpl. destruct a as [a|]; simpl; [|split; [done|]].
  - destruct (ask n a) as [x|] eqn:Hx; simpl; [|split; [done|]].
    + assert (key x = k) as Hkx by (rewrite (Hk 0%nat n a x); [lia|done..]).
      split.
      * apply NoDup_cons. split; [|done]. intros (y & Ey & Hy)%list_elem_of_fmap.
        specialize (Hl _ Hy). lia.
      * intros y [->|Hy]%elem_of_cons; [lia|]. specialize (Hl _ Hy). lia.
    + intros y Hy. specialize (Hl _ Hy). lia.
  - intros y Hy. specialize (Hl _ Hy). lia.
Qed.

(** As many good answers as nodes that answered well. *)
Lemma good_count (key : A → Z) nodes answers k (honest : list nat) :
  (∀ i n a x, nodes !! i = Some n → ask n a = Ok x → key x = k + Z.of_nat i) →
  NoDup honest →
  (∀ i, i ∈ honest → ∃ n a x, nodes !! i = Some n ∧ answers !! i = Some (Some a) ∧ ask n a = Ok x) →
  (length honest ≤ length (good (ask_all ask nodes answers)))%nat.
Proof.
  intros Hk Hnd Hh. rewrite <-(length_map key (good _)).
  rewrite <-(length_map (λ i, k + Z.of_nat i) honest).
  apply submseteq_length, NoDup_submseteq.
  - apply (NoDup_fmap_2_strong _ honest); [intros; lia|done].
  - intros z (i & -> & Hi)%list_elem_of_fmap. destruct (Hh i Hi) as (n & a & x & Hn & Ha & Hx).
    rewrite <-(Hk i n a x Hn Hx). apply list_elem_of_fmap. exists x. split; [done|].
    apply elem_of_good. by exists i, n, a.
Qed.

End fanout.

Section client.
Context `{Crypto} `{!CryptoLaws} `{EdgeLaws} `{ReceiptJson} `{!StoreJson} `{Persistence}.
Implicit Types (c : ClusterPublicConfig) (n : ClusterNodePublic).

(** ** The cluster *)

Lemma cluster_size c : cluster_validate c = Ok () →
  length (cl_nodes c) = 7%nat ∧ cl_settlement_release_threshold c = 3.
Proof.
  unfold cluster_validate. intros (? & Hf%fail_if_Ok & _)%bind_Ok. bool_hyps.
  split; [by apply Nat.eqb_eq|done].
Qed.

Lemma cluster_node c i n : cluster_validate c = Ok () → cl_nodes c !! i = Some n →
  cn_party n = Z.of_nat i ∧ (i < 7)%nat
  ∧ vk_from_bytes (cn_receipt_verifying_key n) = Ok (mk_verifying_key (cn_receipt_verifying_key n))
  ∧ ∀ timeout, 0 < timeout ≤ 600 * SECOND → client_new (endpoint n) timeout = Ok ().
Proof.
  intros Hc Hn. destruct (cluster_size c Hc) as [Hlen _].
  apply lookup_lt_Some in Hn as Hi. rewrite Hlen in Hi.
  unfold cluster_validate in Hc. apply bind_Ok in Hc as (? & _ & Hc).
  apply bind_Ok in Hc as (? & Hb%fail_if_Ok & _).
  assert (bad_node i n = false) as Hbad.
  { destruct (bad_node i n) eqn:E; [|done]. rewrite <-Hb. symmetry. apply existsb_exists.
    exists (i, n). split; [|done]. apply list_elem_of_In, list_elem_of_lookup. exists i.
    by rewrite list_lookup_imap, Hn. }
  unfold bad_node in Hbad. bool_hyps. split; [done|]. split; [done|].
  unfold vk_from_bytes in *. case_bool_decide; [done|]. split; [done|].
  intros timeout Ht. unfold client_new. apply fail_if_Ok. simpl.
  unfold MPC_PARTIES, vk_from_bytes.
  repeat match goal with E : ?b = false |- context [?b] => rewrite E end.
  rewrite bool_decide_eq_false_2 by done. simpl.
  rewrite (proj2 (Z.leb_gt (Z.of_nat 7) (cn_party n))), (proj2 (Z.eqb_neq (cn_rpc_port n) 0)),
    (proj2 (Z.eqb_neq timeout 0)), (proj2 (Z.ltb_ge (600 * SECOND) timeout)) by lia. done.
Qed.

(** ** Releases *)

Lemma ask_release_Ok timeout m plan output now n a x :
  ask_release timeout m plan output now n a = Ok x →
  cr_party x = cn_party n
  ∧ key_share_verify (cr_capability_key_share x) m (cn_party n) now = Ok ().
Proof.
  unfold ask_release, client_release. intros (? & _ & Hr)%bind_Ok.
  apply bind_Ok in Hr as (response & _ & Hr). destruct response; try done. simpl in Hr.
  destruct (cr_party release =? cn_party n) eqn:Hp; [|done]. bool_hyps.
  apply bind_Ok in Hr as (key & _ & Hr). apply bind_Ok in Hr as (? & Hv & [= <-]).
  split; [done|]. unfold release_verify, verify_context in Hv.
  apply bind_Ok in Hv as (? & _ & Hv). by apply bind_Ok in Hv as ([] & ?%map_err_Ok & _).
Qed.

Lemma dedup_distinct l : NoDup (map cr_party l) → dedup_releases l = l.
Proof.
  induction l as [|a l IH]; [done|]. simpl. rewrite NoDup_cons. intros [Ha Hl].
  rewrite (IH Hl). destruct l as [|b l]; [done|]. simpl in Ha.
  rewrite (proj2 (Z.eqb_neq _ _)); [done|]. set_solver.
Qed.

(** Which answers are usable: one per node, and each carries a checked share. *)
Lemma releases_usable c timeout m plan output now answers :
  cluster_validate c = Ok () →
  let good := good (ask_all (ask_release timeout m plan output now) (cl_nodes c) answers) in
  dedup_releases (sort_by (λ a b, cr_party a <=? cr_party b) good)
    = sort_by (λ a b, cr_party a <=? cr_party b) good
  ∧ NoDup (map cr_party good)
  ∧ (length good ≤ 7)%nat
  ∧ Forall (λ x, key_share_verify (cr_capability_key_share x) m (cr_party x) now = Ok ()
      ∧ 0 ≤ cr_party x < 7) good.
Proof.
  intros Hc l.
  destruct (good_NoDup (ask_release timeout m plan output now) cr_party (cl_nodes c) answers 0)
    as [Hd _].
  { intros i n a x Hn Hx. apply ask_release_Ok in Hx as [-> _].
    by destruct (cluster_node c i n Hc Hn) as [-> _]. }
  assert (Forall (λ x, key_share_verify (cr_capability_key_share x) m (cr_party x) now = Ok ()
    ∧ 0 ≤ cr_party x < 7) l) as Hv.
  { apply Forall_forall. intros x (i & n & a & Hn & _ & Hx)%elem_of_good.
    apply ask_release_Ok in Hx as [-> Hv].
    destruct (cluster_node c i n Hc Hn) as (Hp & Hi & _). rewrite Hp in *. split; [done|lia]. }
  split_and!; [|done| |done].
  - apply dedup_distinct. eapply NoDup_Permutation_proper; [|exact Hd].
    apply Permutation_map, sort_by_perm.
  - rewrite <-(length_map cr_party l). change 7%nat with (length (map Z.of_nat (seq 0 7))).
    apply submseteq_length, NoDup_submseteq; [done|]. intros z (x & -> & Hx)%list_elem_of_fmap.
    rewrite Forall_forall in Hv. destruct (Hv x Hx) as [_ ?]. apply list_elem_of_fmap.
    exists (Z.to_nat (cr_party x)). rewrite elem_of_seq. lia.
Qed.

Lemma release_checked c plan program execution m order timeout clock now output :
  release_checks c plan program execution m order timeout clock = Ok (now, output) →
  cluster_validate c = Ok () ∧ manifest_verify m now = Ok ()
  ∧ timeout ≠ 0 ∧ timeout ≤ 120 * SECOND.
Proof.
  unfold release_checks. intros (? & Hf%fail_if_Ok & Hk)%bind_Ok. bool_hyps.
  apply bind_Ok in Hk as ([] & Hc%map_err_Ok & Hk).
  apply bind_Ok in Hk as (now' & _ & Hk). apply bind_Ok in Hk as ([] & Hm%map_err_Ok & Hk).
  do 5 (apply bind_Ok in Hk as (? & _ & Hk)). by simplify_eq.
Qed.

(** The client reconstructs the key when at least three nodes answered with a
    release that passes the check. *)
Lemma release_collected c plan program execution m order timeout clock now output answers :
  release_checks c plan program execution m order timeout clock = Ok (now, output) →
  length answers = 7%nat →
  (3 ≤ length (good (ask_all (ask_release timeout m plan output now) (cl_nodes c) answers)))%nat →
  ∃ t k, collect_threshold_capability_release c plan program execution m order timeout clock answers
      = Ok t
    ∧ th_key t = mk_capability_key (s_to_bytes k)
    ∧ compress (p_mul k basepoint) = m_settlement_key_commitments m !!! 0%fin.
Proof.
  intros Hk Hl Hn. unfold collect_threshold_capability_release. rewrite Hk. cbn [mbind result_mbind].
  destruct (release_checked _ _ _ _ _ _ _ _ _ _ Hk) as (Hc & Hm & _).
  destruct (releases_usable c timeout m plan output now answers Hc) as (-> & Hd & Hl7 & Hv).
  destruct (cluster_size c Hc) as [Hlen ->].
  set (l := good _) in *. set (sorted := sort_by _ l).
  assert (sorted ≡ₚ l) as Hp by apply sort_by_perm.
  assert (length sorted = length l) as Hls by (by rewrite Hp).
  rewrite pass_guard.
  2:{ rewrite (proj2 (Z.ltb_ge _ _)) by lia. simpl. apply Nat.ltb_ge. unfold SETTLEMENT_KEY_THRESHOLD. lia. }
  assert (∀ x, x ∈ sorted → ck_party (cr_capability_key_share x) = cr_party x ∧ 0 ≤ cr_party x
    ∧ key_share_verify (cr_capability_key_share x) m (cr_party x) now = Ok ()) as Hx.
  { intros x Hx. rewrite Hp in Hx. rewrite Forall_forall in Hv. destruct (Hv x Hx) as [Hs ?].
    apply key_share_verify_Ok in Hs as Hs'. destruct Hs' as (_ & -> & _). split; [done|]. split; [lia|done]. }
  assert (map ck_party (map cr_capability_key_share sorted) = map cr_party sorted) as Hparties.
  { rewrite map_map. apply map_ext_in. intros x Hin%list_elem_of_In. by apply Hx. }
  destruct (reconstruct_key m now (map cr_capability_key_share sorted)) as (k & Hk' & Hcm).
  - split_and!; [done| | |rewrite length_map; lia|rewrite length_map; lia].
    + apply Forall_fmap, Forall_forall. intros x Hin. simpl.
      destruct (Hx x Hin) as (-> & _ & ?). done.
    + rewrite Hparties. by rewrite Hp.
  - apply Forall_fmap, Forall_forall. intros x Hin. simpl. destruct (Hx x Hin) as (-> & ? & _). done.
  - rewrite Hk'. eexists _, k. split; [reflexivity|done].
Qed.

(** A node that serves this cluster entry: its identity, and what it stored of the
    order and the round. *)
Definition serves (n : ClusterNodePublic) (m : EdgeOrderManifest) (r : NodeRuntime) : Prop :=
  st_party (ns_state (rt_store r)) = cn_party n
  ∧ vk_fingerprint (verifying_key (rt_receipt_signing_key r)) = cn_receipt_verifying_key n
  ∧ ∃ record, st_records (ns_state (rt_store r)) !! m_commitment m = Some record
    ∧ sr_manifest record = m.

Lemma manifest_live m now : manifest_verify m now = Ok () → now ≤ m_retention_deadline m.
Proof. unfold manifest_verify. intros (? & Hf%fail_if_Ok & _)%bind_Ok. by bool_hyps. Qed.

Lemma sign_context_verifies party order context output share key release m t now :
  sign_context party order context output share key = Ok release →
  order = m_commitment m → key_share_verify share m party t = Ok () → manifest_verify m now = Ok () →
  verify_context release m context output party (verifying_key key) now = Ok ().
Proof.
  unfold sign_context. intros (? & Hf%fail_if_Ok & Hr)%bind_Ok -> Hs Hm. bool_hyps.
  apply bind_Ok in Hr as (sg & Hsg%map_err_Ok & [= <-]).
  unfold verify_context. cbn -[key_share_verify release_signature_body].
  rewrite !bool_decide_eq_true_2, Z.eqb_refl by done.
  match goal with E : is_zero output = false |- _ => rewrite E end. simpl.
  rewrite (key_share_verify_later share m party t now) by (done || by apply manifest_live). simpl.
  apply fail_if_Ok. rewrite negb_false_iff. by apply signature_ok_signed.
Qed.

(** The release of an honest node passes the client's check. *)
Lemma honest_release_accepted env p plan m r r' release n i c timeout output now :
  cluster_validate c = Ok () → cl_nodes c !! i = Some n → 0 < timeout ≤ 600 * SECOND →
  manifest_verify m now = Ok () → serves n m r →
  dispatch env p (RqRelease plan (m_commitment m)) r = (r', Released release) →
  cr_public_output_sha256 release = output →
  ask_release timeout m plan output now n (Ok (Released release)) = Ok release.
Proof.
  intros Hc Hn Ht Hm (Hparty & Hkey & record & Hrec & Hman) Hd Hout.
  destruct (cluster_node c i n Hc Hn) as (_ & _ & Hvk & Hnew).
  destruct (dispatch_answer _ _ _ _ _ _ Hd) as (now' & Hclock & Hx); [done|].
  unfold dispatch_checked in Hx. rewrite Hclock, try_bind in Hx. cbn [ok_or] in Hx.
  unfold dispatch_release in Hx. rewrite self_bind in Hx.
  step Hx as (? & [] & [-> _]%try_Ok & Hx). step Hx as (? & [] & [-> _]%try_Ok & Hx).
  step Hx as (? & st & [-> Hst]%on_read_Ok & Hx).
  step Hx as (? & [share out] & [-> Hs]%on_read_Ok & Hx).
  step Hx as (? & signed & [-> Hsig]%try_Ok & Hx). apply mret_Ok in Hx as [-> [= <-]].
  apply release_share_Ok in Hs as (receipt & record' & sealed & _ & _ & Hrec' & _ & Hopen).
  rewrite Hrec in Hrec'. simplify_eq.
  assert (key_share_verify share (sr_manifest record') (cn_party n) now' = Ok ()) as Hks.
  { unfold key_share_open in Hopen. do 4 (apply bind_Ok in Hopen as (? & _ & Hopen)).
    apply bind_Ok in Hopen as ([] & Hv & [= <-]). by rewrite <-Hparty. }
  assert (ss_status_party st = cn_party n) as Hsp.
  { unfold status in Hst. apply bind_Ok in Hst as (? & _ & [= <-]). done. }
  unfold release_sign in Hsig. rewrite Hsp in Hsig. apply sign_context_Ok in Hsig as Hf.
  destruct Hf as (_ & _ & Hp & Ho).
  unfold ask_release. rewrite (Hnew timeout Ht). unfold client_release, receipt_key. simpl.
  rewrite Hp, Z.eqb_refl, Hvk. simpl.
  replace (mk_verifying_key (cn_receipt_verifying_key n))
    with (verifying_key (rt_receipt_signing_key r)) by (rewrite <-Hkey; by destruct (verifying_key _)).
  unfold release_verify. rewrite Ho.
  by rewrite (sign_context_verifies _ _ _ _ _ _ _ (sr_manifest record') now' now Hsig).
Qed.

(** C10: Settlement survives four silent, failing or lying nodes: when the round is
    verified and three nodes that hold the order dispatch the release, the client rebuilds a key with
    the public commitment of the order's key, whatever the other nodes answer. *)
Theorem key_release_survives_faults c plan program execution m timeout clock now output answers
    (honest : list nat) :
  release_checks c plan program execution m (m_commitment m) timeout clock = Ok (now, output) →
  0 ≤ timeout → length answers = 7%nat → NoDup honest → (3 ≤ length honest)%nat →
  (∀ i, i ∈ honest → ∃ n env p r r' release,
     cl_nodes c !! i = Some n ∧ serves n m r
     ∧ dispatch env p (RqRelease plan (m_commitment m)) r = (r', Released release)
     ∧ cr_public_output_sha256 release = output
     ∧ answers !! i = Some (Some (Ok (Released release)))) →
  ∃ t k, collect_threshold_capability_release c plan program execution m (m_commitment m) timeout
      clock answers = Ok t
    ∧ th_key t = mk_capability_key (s_to_bytes k)
    ∧ compress (p_mul k basepoint) = m_settlement_key_commitments m !!! 0%fin.
Proof.
  intros Hk Ht Hl Hnd Hthree Hh. destruct (release_checked _ _ _ _ _ _ _ _ _ _ Hk) as (Hc & Hm & Htm).
  eapply release_collected; [done..|]. etrans; [exact Hthree|].
  eapply (good_count _ cr_party _ _ 0); [|done|].
  - intros i n a x Hn Hx. apply ask_release_Ok in Hx as [-> _].
    by destruct (cluster_node c i n Hc Hn) as [-> _].
  - intros i Hi. destruct (Hh i Hi) as (n & env & p & r & r' & release & Hn & Hs & Hd & Ho & Ha).
    exists n, (Ok (Released release)), release. split_and!; [done..|].
    eapply honest_release_accepted; try done. lia.
Qed.

(** ** Certificates *)

(** The keys of nodes [k], [k + 1], ... are added under [k + 1], [k + 2], ... *)
Lemma keys_of_nodes (nodes : list ClusterNodePublic) (keys0 : btree Z VerifyingKey) (k : nat) :
  (∀ i n, nodes !! i = Some n → cn_party n = Z.of_nat (k + i) ∧ cn_party n < 7
     ∧ vk_from_bytes (cn_receipt_verifying_key n)
       = Ok (mk_verifying_key (cn_receipt_verifying_key n))) →
  ∃ keys, for_each (λ keys n,
      _ ← fail_if (u16_max <? cn_party n + 1) NConfiguration;
      key ← map_err (λ _, NConfiguration) (vk_from_bytes (cn_receipt_verifying_key n));
      Ok (bt_insert (cn_party n + 1) key keys)) keys0 nodes = Ok keys
    ∧ (∀ z, z ≤ Z.of_nat k → bt_get z keys = bt_get z keys0)
    ∧ ∀ i n, nodes !! i = Some n →
        bt_get (Z.of_nat (k + i) + 1) keys = Some (mk_verifying_key (cn_receipt_verifying_key n)).
Proof.
  revert k keys0. induction nodes as [|n nodes IH]; intros k keys0 Hn; [by exists keys0|].
  destruct (Hn 0%nat n eq_refl) as (Hp & Hlt & Hk). cbn [for_each].
  rewrite pass_guard by (apply Z.ltb_ge; unfold u16_max; lia). rewrite Hk. cbn [map_err mbind result_mbind].
  destruct (IH (S k) (bt_insert (cn_party n + 1) (mk_verifying_key (cn_receipt_verifying_key n)) keys0))
    as (keys & -> & Hlow & Hget).
  { intros i n' Hi. rewrite Nat.add_succ_l, <-Nat.add_succ_r. by apply Hn. }
  exists keys. split; [done|]. split.
  - intros z Hz. rewrite Hlow by lia. apply bt_get_insert_ne. lia.
  - intros [|i] n' Hi; [|rewrite <-(Hget i n' Hi); f_equal; lia]. injection Hi as <-.
    rewrite Hlow by lia. replace (Z.of_nat (k + 0) + 1) with (cn_party n + 1) by lia.
    apply bt_get_insert_eq.
Qed.

Lemma ordering_keys_of c : cluster_validate c = Ok () →
  ∃ keys, ordering_verifying_keys c = Ok keys
    ∧ ∀ i n, cl_nodes c !! i = Some n →
        bt_get (Z.of_nat i + 1) keys = Some (mk_verifying_key (cn_receipt_verifying_key n)).
Proof.
  intros Hc. unfold ordering_verifying_keys. rewrite Hc. simpl.
  destruct (keys_of_nodes (cl_nodes c) [] 0) as (keys & -> & _ & Hk).
  - intros i n Hn. destruct (cluster_node c i n Hc Hn) as (-> & Hi & Hv & _). split; [done|]. split; [lia|done].
  - exists keys. split; [done|]. intros i n Hn. by apply Hk.
Qed.

Lemma ask_vote_Ok c q order previous expires_at timeout n a v :
  ask_vote c q order previous expires_at timeout n a = Ok v → cn_party n < 7 →
  v_node_id v = cn_party n + 1
  ∧ v_statement_digest v = vote_digest (cl_market_id c) q order previous expires_at
  ∧ ∃ k, vk_from_bytes (cn_receipt_verifying_key n) = Ok k
    ∧ signature_ok k (d_bytes (vote_digest (cl_market_id c) q order previous expires_at))
        (v_signature v) = true.
Proof.
  unfold ask_vote, client_vote, receipt_key. intros (? & _ & Hr)%bind_Ok Hp.
  apply bind_Ok in Hr as (response & _ & Hr). destruct response; try done. simpl in Hr.
  destruct (_ && _) eqn:Hg; [|done]. bool_hyps.
  apply bind_Ok in Hr as (sg & Hsg%map_err_Ok & Hr). apply bind_Ok in Hr as (k & Hk%map_err_Ok & Hr).
  apply bind_Ok in Hr as ([] & Hv%map_err_Ok & [= <-]).
  split; [unfold u16_max in *; lia|]. split; [done|]. exists k. split; [done|].
  unfold signature_ok. by rewrite Hsg, Hv.
Qed.

(** The certificate is made when at least five nodes voted well. *)
Lemma certificate_collected c previous order expires_at timeout clock now q prev answers :
  certificate_slot c previous order expires_at timeout clock = Ok (now, q, prev) →
  bad_statement (cl_market_id c) q order prev expires_at now = false →
  (5 ≤ length (good (ask_all (ask_vote c q order prev expires_at timeout) (cl_nodes c) answers)))%nat →
  ∃ o, collect_order_certificate c previous order expires_at timeout clock answers = Ok o
    ∧ oc_commitment o = order ∧ oc_sequence o = q ∧ oc_previous_certificate o = prev
    ∧ (5 ≤ length (oc_votes o))%nat.
Proof.
  intros Hs Hb Hn. unfold collect_order_certificate. rewrite Hs. cbn [mbind result_mbind].
  assert (cluster_validate c = Ok ()) as Hc.
  { unfold certificate_slot in Hs. apply bind_Ok in Hs as (? & _ & Hs).
    by apply bind_Ok in Hs as ([] & ?%map_err_Ok & _). }
  destruct (ordering_keys_of c Hc) as (keys & -> & Hkeys). cbn [map_err mbind result_mbind].
  set (l := good _) in *. assert (sort_by (λ a b, v_node_id a <=? v_node_id b) l ≡ₚ l) as Hp
    by apply sort_by_perm.
  rewrite (proj2 (certificate_verify_Ok _ seven_node keys now)); [|split_and!].
  - eexists. split; [reflexivity|]. split_and!; try done. simpl. by rewrite Hp.
  - done.
  - done.
  - simpl. rewrite Hp. lia.
  - simpl. unfold vote_ids. rewrite Hp. apply (good_NoDup _ v_node_id (cl_nodes c) answers 1).
    intros i n a x Hi Hx. destruct (cluster_node c i n Hc Hi) as (Hpt & ? & _).
    apply ask_vote_Ok in Hx as (-> & _); lia.
  - unfold certificate_statement. simpl. rewrite Hp. apply Forall_forall. intros v (i & n & a & Hi & _ & Hv)%elem_of_good.
    destruct (cluster_node c i n Hc Hi) as (Hpt & ? & Hvk & _).
    apply ask_vote_Ok in Hv as (Hid & Hd & k & Hk & Hsg); [|lia].
    split; [done|]. exists k. rewrite Hid, Hpt, (Hkeys i n Hi). split; [congruence|done].
Qed.

Lemma vote_statement s market q order previous expires_at now io s' d :
  record_order_vote market q order previous expires_at now io s = (s', Ok d) →
  d = vote_digest market q order previous expires_at
  ∧ st_party (ns_state s') = st_party (ns_state s).
Proof.
  unfold record_order_vote. rewrite self_bind. intros Hr.
  step Hr as (? & expected & [-> _]%try_Ok & Hr). step Hr as (? & [] & [-> _]%try_Ok & Hr).
  step Hr as (? & [market' deadline] & [-> _]%try_Ok & Hr). step Hr as (? & [] & [-> _]%try_Ok & Hr).
  assert (∀ st, st_party st = st_party (ns_state s) →
    (save st io ≫= λ _, mret (vote_digest market q order previous expires_at)) s = (s', Ok d) →
    d = vote_digest market q order previous expires_at
    ∧ st_party (ns_state s') = st_party (ns_state s)) as Hsave.
  { intros st Hst Hs. step Hs as (s1 & [] & Hs & [-> ->]%mret_Ok). by rewrite (save_Ok _ _ _ _ Hs). }
  destruct (st_ordering_votes (ns_state s) !! q) as [v|]; [|eapply Hsave; [|exact Hr]; done].
  case_bool_decide; [by apply mret_Ok in Hr as [-> <-]|].
  destruct (now <=? _); [done|eapply Hsave; [|exact Hr]; done].
Qed.

(** The vote of an honest node passes the client's check. *)
Lemma honest_vote_accepted env p c n i q order prev expires_at timeout r r' v :
  cluster_validate c = Ok () → cl_nodes c !! i = Some n → 0 < timeout ≤ 600 * SECOND →
  st_party (ns_state (rt_store r)) = cn_party n →
  vk_fingerprint (verifying_key (rt_receipt_signing_key r)) = cn_receipt_verifying_key n →
  dispatch env p (RqVote (cl_market_id c) q order prev expires_at) r = (r', Voted v) →
  ask_vote c q order prev expires_at timeout n (Ok (Voted v)) = Ok v.
Proof.
  intros Hc Hn Ht Hparty Hkey Hd.
  destruct (cluster_node c i n Hc Hn) as (Hp & Hi & Hvk & Hnew).
  destruct (dispatch_answer _ _ _ _ _ _ Hd) as (now' & Hclock & Hx); [done|].
  unfold dispatch_checked in Hx. rewrite Hclock, try_bind in Hx. cbn [ok_or] in Hx.
  unfold dispatch_vote in Hx. rewrite self_bind in Hx.
  step Hx as (? & [] & [-> _]%try_Ok & Hx).
  step Hx as (r1 & statement & [Hv Hr1]%on_store_Ok & Hx).
  step Hx as (? & st & [-> Hst]%on_read_Ok & Hx). step Hx as (? & [] & [-> _]%try_Ok & Hx).
  step Hx as (? & sg & [-> Hsg%map_err_Ok]%try_Ok & Hx). apply mret_Ok in Hx as [-> [= <-]].
  apply vote_statement in Hv as [-> Hsame].
  assert (ss_status_party st = cn_party n) as Hsp.
  { unfold status in Hst. apply bind_Ok in Hst as (? & _ & [= <-]). simpl. congruence. }
  assert (verifying_key (rt_receipt_signing_key r) = mk_verifying_key (cn_receipt_verifying_key n)) as Hk
    by (rewrite <-Hkey; by destruct (verifying_key _)).
  unfold ask_vote. rewrite (Hnew timeout Ht). unfold client_vote, receipt_key. simpl.
  rewrite Hsp, Hvk, bool_decide_eq_true_2, Z.min_l by (done || unfold u16_max; lia).
  rewrite Z.eqb_refl. simpl. apply signature_ok_signed in Hsg. unfold signature_ok in Hsg.
  destruct (sig_try_from _) as [sg'|]; [|done]. simpl. rewrite <-Hk.
  destruct (verify_strict _ _ sg') as [[]|]; done.
Qed.

(** C11: Ordering survives two silent, failing or lying nodes: when five nodes of the
    cluster vote, the client obtains a verified certificate for the order in its slot, whatever the
    others answer. *)
Theorem certificate_survives_faults c previous order expires_at timeout clock now q prev answers
    (honest : list nat) :
  certificate_slot c previous order expires_at timeout clock = Ok (now, q, prev) →
  bad_statement (cl_market_id c) q order prev expires_at now = false →
  0 ≤ timeout → NoDup honest → (5 ≤ length honest)%nat →
  (∀ i, i ∈ honest → ∃ n env p r r' v,
     cl_nodes c !! i = Some n ∧ st_party (ns_state (rt_store r)) = cn_party n
     ∧ vk_fingerprint (verifying_key (rt_receipt_signing_key r)) = cn_receipt_verifying_key n
     ∧ dispatch env p (RqVote (cl_market_id c) q order prev expires_at) r = (r', Voted v)
     ∧ answers !! i = Some (Some (Ok (Voted v)))) →
  ∃ o, collect_order_certificate c previous order expires_at timeout clock answers = Ok o
    ∧ oc_commitment o = order ∧ oc_sequence o = q ∧ oc_previous_certificate o = prev
    ∧ (5 ≤ length (oc_votes o))%nat.
Proof.
  intros Hs Hb Ht Hnd Hfive Hh.
  assert (cluster_validate c = Ok () ∧ 0 < timeout ≤ 600 * SECOND) as [Hc Htm].
  { unfold certificate_slot in Hs. apply bind_Ok in Hs as (? & Hf%fail_if_Ok & Hs). bool_hyps.
    apply bind_Ok in Hs as ([] & ?%map_err_Ok & _). split; [done|lia]. }
  eapply certificate_collected; [done..|]. etrans; [exact Hfive|].
  eapply (good_count _ v_node_id _ _ 1); [|done|].
  - intros i n a x Hn Hx. destruct (cluster_node c i n Hc Hn) as (Hp & ? & _).
    apply ask_vote_Ok in Hx as [-> _]; lia.
  - intros i Hi. destruct (Hh i Hi) as (n & env & p & r & r' & v & Hn & Hp & Hk & Hd & Ha).
    exists n, (Ok (Voted v)), v. split_and!; [done..|]. by eapply honest_vote_accepted.
Qed.

End client.
