(* ===== verification/DeliveryLife.v ===== *)
(** * Delivery of an order to seven nodes

    [submit_prepared] against the nodes' [dispatch]: a receipt means that every
    node signed for its own two ciphertexts, and seven nodes that admit them make
    one. *)

From S2P Require Import Prelude BTree Bytes AppCrypto Orders Matching Circuit MpcRunner Book.
From S2P Require Import Ordering Reservations Edge EdgeCreate EdgeField EdgeShares EdgeDecimal.
From S2P Require Import EdgeSeal EdgeLife NodeReceipts NodeState NodeStore NodeSteps NodeCore NodeInv.
From S2P Require Import NodeLife NodeAdmit NodeRpc RpcLife EdgeClient ClientLife.
Open Scope string_scope.
Open Scope list_scope.
Open Scope Z_scope.

(** ** Arrays as lists *)

Lemma vec_of_length {A n} (l : list A) : length l = n → ∃ v : vec A n, vec_to_list v = l.
Proof. intros <-. exists (list_to_vec l). apply vec_to_list_to_vec. Qed.

Lemma vec_as_map {A n} (v : vec A n) : vec_to_list v = map (λ i, v !!! i) (fin_range n).
Proof.
  unfold fin_range. rewrite <-vec_to_list_map. f_equal. apply vec_eq. intros i.
  by rewrite vlookup_map, lookup_fun_to_vec.
Qed.

Lemma zip_with_map {A B C I} (f : A → B → C) (a : I → A) (b : I → B) (l : list I) :
  zip_with f (map a l) (map b l) = map (λ i, f (a i) (b i)) l.
Proof. induction l; simpl; congruence. Qed.

Lemma NoDup_fin_range n : NoDup (fin_range n).
Proof.
  unfold fin_range. apply NoDup_alt. intros i j x Hi Hj.
  apply vlookup_lookup' in Hi as (Hi & Ei), Hj as (Hj & Ej).
  rewrite lookup_fun_to_vec in Ei, Ej. unfold id in *. subst x.
  apply (f_equal fin_to_nat) in Ej. rewrite !fin_to_nat_to_fin in Ej. done.
Qed.

Lemma sort_by_id {A} (leb : A → A → bool) l :
  StronglySorted (λ x y, leb x y = true) l → sort_by leb l = l.
Proof.
  induction 1 as [|x l _ IH Hx]; [done|]. unfold sort_by in *. simpl. rewrite IH.
  destruct l as [|y l]; [done|]. simpl. by rewrite (Forall_inv Hx).
Qed.

(** Finitely many existence claims give a function. *)
Lemma fin_choice {A n} (P : fin n → A → Prop) :
  (∀ i, ∃ a, P i a) → ∃ f, ∀ i, P i (f i).
Proof.
  induction n as [|n IH]; intros Hex.
  - exists (λ i, match i in fin m return match m with O => A | S _ => () end with
      | Fin.F1 => () | Fin.FS _ => () end). intros i. inv_fin i.
  - destruct (IH (λ i, P (FS i)) (λ i, Hex (FS i))) as [f Hf]. destruct (Hex 0%fin) as [a Ha].
    exists (λ i, fin_S_inv (λ _, A) a f i). intros i. inv_fin i; [done|]. intros i. apply Hf.
Qed.

Section delivery.
Context `{Crypto} `{!CryptoLaws} `{EdgeLaws} `{ReceiptJson} `{!StoreJson} `{Persistence}.

(** ** One node *)

Lemma admission_sign_verify party order signer share key_share g digest key receipt :
  admission_sign party order signer share key_share g digest key = Some receipt →
  admission_verify receipt order signer party share key_share (verifying_key key) = true.
Proof.
  unfold admission_sign. destruct (_ || is_zero key_share) eqn:E; [done|]. bool_hyps.
  destruct (try_sign _ _) as [sg|] eqn:Es; [|done]. intros [= <-].
  unfold admission_verify. simpl. rewrite !Z.eqb_refl, !bool_decide_eq_true_2 by done.
  repeat match goal with E : is_zero _ = false |- _ => rewrite E; clear E end.
  rewrite (proj2 (Z.ltb_lt _ _)), (proj2 (Z.eqb_neq g 0)) by done. simpl.
  erewrite <-signature_ok_signed; [|exact Es]. done.
Qed.

Lemma save_unguarded_Ok st io s s' :
  save_unguarded st io s = (s', Ok ()) →
  ns_state s' = with_generation (st_generation st + 1) st.
Proof.
  unfold save_unguarded. destruct (next_generation st) as [st'|] eqn:E; [|done].
  apply next_generation_Ok in E as ->. unfold persist. simpl.
  destruct (encode_store _); [|done]. by destruct io; intros [= <-].
Qed.

(** After an admission the store holds exactly what was sent. *)
Lemma ingest_stores m sealed sealed_key now io s s' o :
  ingest m sealed sealed_key now io s = (s', Ok o) →
  st_party (ns_state s') = st_party (ns_state s)
  ∧ ∃ record, st_records (ns_state s') !! m_commitment m = Some record
    ∧ sr_sealed record = sealed ∧ sr_sealed_capability_key_share record = Some sealed_key.
Proof.
  unfold ingest. rewrite self_bind. intros Hx.
  step Hx as (? & [] & [-> _]%try_Ok & Hx). step Hx as (? & opened & [-> _]%try_Ok & Hx).
  step Hx as (? & tag & [-> _]%try_Ok & Hx). step Hx as (? & ks & [-> _]%try_Ok & Hx).
  destruct (st_records _ !! _) as [record|] eqn:Hr.
  - destruct (_ && _) eqn:Hsame; [|done]. apply mret_Ok in Hx as [-> _]. bool_hyps.
    split; [done|]. by exists record.
  - step Hx as (s1 & [] & Hs & Hx).
    rewrite self_bind in Hx. apply mret_Ok in Hx as [-> _].
    rewrite (save_unguarded_Ok _ _ _ _ Hs). simpl. split; [done|]. rewrite lookup_insert_eq. by eexists.
Qed.

(** What a node answers to a delivery it accepts. *)
Lemma dispatch_ingest_Ok env p m sealed sealed_key r r' receipt :
  dispatch env p (RqIngest m sealed sealed_key) r = (r', Ingested receipt) →
  admission_verify receipt (m_commitment m) (m_signer m) (st_party (ns_state (rt_store r)))
    (share_wire_digest sealed) (sealed_key_wire_digest sealed_key)
    (verifying_key (rt_receipt_signing_key r)) = true.
Proof.
  intros Hd. destruct (dispatch_answer _ _ _ _ _ _ Hd) as (now & Hc & Hx); [done|].
  unfold dispatch_checked in Hx. rewrite Hc, try_bind in Hx. cbn [ok_or] in Hx.
  unfold dispatch_ingest in Hx. rewrite self_bind in Hx.
  step Hx as (? & [] & [-> _]%try_Ok & Hx).
  step Hx as (r1 & o & [Hin Hr1]%on_store_Ok & Hx).
  step Hx as (r2 & receipt' & [Hrec Hr2]%on_store_Ok & Hx). apply mret_Ok in Hx as [-> [= <-]].
  apply ingest_stores in Hin as (Hparty & record & Hlook & <- & Hkey).
  unfold admission_receipt in Hrec. rewrite self_bind, Hlook in Hrec. cbn [ok_or] in Hrec.
  rewrite try_bind, Hkey in Hrec. cbn [ok_or] in Hrec. rewrite try_bind, Hparty in Hrec.
  destruct (sr_admission_receipt record) as [old|].
  - step Hrec as (? & [] & [-> Hv%fail_if_Ok]%try_Ok & Hrec). bool_hyps.
    by apply mret_Ok in Hrec as [_ <-].
  - step Hrec as (? & digest & [-> _]%try_Ok & Hrec).
    step Hrec as (? & signed & [-> Hs%ok_or_Ok]%try_Ok & Hrec).
    unfold save_receipt in Hrec. destruct (persist _ _) as [? [[]|]]; [|done].
    injection Hrec as _ <-. by eapply admission_sign_verify.
Qed.

(** ** Seven nodes *)

Abbreviation sealed_of := (λ d p, (pd_deliveries d !!! p).1.2).
Abbreviation key_of := (λ d p, (pd_deliveries d !!! p).2).

(** What the delivery threads return when the nodes' answers are [receipts]. *)
Definition acknowledged (d : PreparedEdgeDelivery) (receipts : fin MPC_PARTIES → NodeAdmissionReceipt)
    (p : fin MPC_PARTIES) : Job (Z * NodeAdmissionReceipt * Digest32 * Digest32) :=
  Some (Ok (index p, receipts p, share_wire_digest (sealed_of d p),
            sealed_key_wire_digest (key_of d p))).

Lemma array_set_spec {A n} (i j : fin n) (x : A) (v : vec A n) :
  array_set (Z.of_nat (fin_to_nat i)) x v !!! j = if decide (j = i) then x else v !!! j.
Proof.
  unfold array_set. rewrite lookup_fun_to_vec. destruct (decide (j = i)) as [->|Hne].
  - by rewrite Z.eqb_refl.
  - rewrite (proj2 (Z.eqb_neq _ _)); [done|]. intros E%Nat2Z.inj%fin_to_nat_inj. done.
Qed.

(** Collecting the threads of the parties [l] fills exactly their entries. *)
Lemma collect_acknowledged d receipts (l : list (fin MPC_PARTIES)) acc :
  ∃ acc', for_each collect_delivery acc (map (acknowledged d receipts) l) = Ok acc'
    ∧ co_receipts acc' = co_receipts acc ++ map receipts l
    ∧ ∀ p, p ∈ l ∨ (co_generations acc !!! p = na_generation (receipts p)
        ∧ co_order_shares acc !!! p = share_wire_digest (sealed_of d p)
        ∧ co_capability_shares acc !!! p = sealed_key_wire_digest (key_of d p)) →
      co_generations acc' !!! p = na_generation (receipts p)
      ∧ co_order_shares acc' !!! p = share_wire_digest (sealed_of d p)
      ∧ co_capability_shares acc' !!! p = sealed_key_wire_digest (key_of d p).
Proof.
  revert acc. induction l as [|q l IH]; intros acc.
  { exists acc. split; [done|]. split; [by rewrite app_nil_r|]. set_solver. }
  set (acc1 := {|
    co_generations := array_set (index q) (na_generation (receipts q)) (co_generations acc);
    co_order_shares := array_set (index q) (share_wire_digest (sealed_of d q)) (co_order_shares acc);
    co_capability_shares := array_set (index q) (sealed_key_wire_digest (key_of d q))
      (co_capability_shares acc);
    co_receipts := co_receipts acc ++ [receipts q] |}).
  destruct (IH acc1) as (acc' & He & Hr & Hp). cbn [map for_each].
  assert (collect_delivery acc (acknowledged d receipts q) = Ok acc1) as -> by reflexivity.
  rewrite Ok_bind, He.
  exists acc'. split; [done|]. split; [rewrite Hr; simpl; by rewrite <-app_assoc|].
  intros p Hpl. apply Hp. simpl. rewrite !array_set_spec.
  destruct (decide (p = q)) as [->|Hne]; [by right|].
  destruct Hpl as [Hl|Hacc]; [left; set_solver|by right].
Qed.

Lemma parties_sorted (receipts : fin MPC_PARTIES → NodeAdmissionReceipt) :
  (∀ p, na_party (receipts p) = index p) →
  sort_by (λ a b, na_party a <=? na_party b) (map receipts (fin_range MPC_PARTIES))
    = map receipts (fin_range MPC_PARTIES).
Proof.
  intros Hp. apply sort_by_id. unfold fin_range. simpl.
  repeat constructor; rewrite !Hp; done.
Qed.

(** Node [p] acknowledged its two ciphertexts with [receipt]. *)
Definition acknowledged_with (c : ClusterPublicConfig) (d : PreparedEdgeDelivery)
    (answers : vec (option Answer) MPC_PARTIES) (p : fin MPC_PARTIES)
    (receipt : NodeAdmissionReceipt) : Prop :=
  ∃ n, cl_nodes c !! fin_to_nat p = Some n
    ∧ answers !!! p = Some (Ok (Ingested receipt) : Answer)
    ∧ admission_verify receipt (m_commitment (pd_manifest d)) (m_signer (pd_manifest d)) (index p)
        (share_wire_digest (sealed_of d p)) (sealed_key_wire_digest (key_of d p))
        (mk_verifying_key (cn_receipt_verifying_key n)) = true.

Lemma admission_verified_fields receipt order signer party share key_share key :
  admission_verify receipt order signer party share key_share key = true →
  na_party receipt = party ∧ na_generation receipt ≠ 0 ∧ is_zero share = false
  ∧ is_zero key_share = false.
Proof. unfold admission_verify. intros Hv. bool_hyps. by subst. Qed.

Lemma delivery_checked c d now :
  delivery_validate d c now = Ok () →
  cluster_validate c = Ok () ∧ manifest_verify (pd_manifest d) now = Ok ()
  ∧ m_market_id (pd_manifest d) = cl_market_id c
  ∧ ∀ p n, cl_nodes c !! fin_to_nat p = Some n → (pd_deliveries d !!! p).1.1 = index p.
Proof.
  unfold delivery_validate. intros Hv. step Hv as ([] & Hc%map_err_Ok & Hv).
  step Hv as ([] & Hm%map_err_Ok & Hv). step Hv as ([] & Hk%fail_if_Ok & Hv%fail_if_Ok). bool_hyps.
  split_and!; [done..|]. intros p n Hn.
  assert (misdirected (pd_manifest d) n (pd_deliveries d !!! p) = false) as Hd.
  { destruct (misdirected _ _ _) eqn:E; [|done]. rewrite <-Hv. symmetry. apply existsb_exists.
    exists (n, pd_deliveries d !!! p). split; [|done].
    apply list_elem_of_In, list_elem_of_lookup. exists (fin_to_nat p).
    rewrite lookup_zip_with, Hn. simpl. rewrite (proj1 (vlookup_lookup _ p _) eq_refl). done. }
  destruct (cluster_node c _ n Hc Hn) as (Hp & _). unfold misdirected in Hd.
  destruct (pd_deliveries d !!! p) as [[party share] key]. simpl. bool_hyps. congruence.
Qed.

(** One thread succeeds exactly when its node acknowledged. *)
Lemma deliver_to_Ok c d now timeout answers p n answer x :
  delivery_validate d c now = Ok () → cl_nodes c !! fin_to_nat p = Some n →
  answers !!! p = Some answer → 0 < timeout ≤ 600 * SECOND →
  deliver_to timeout (pd_manifest d) n (pd_deliveries d !!! p) answer = Ok x ↔
  ∃ receipt, acknowledged_with c d answers p receipt
    ∧ x = (index p, receipt, share_wire_digest (sealed_of d p), sealed_key_wire_digest (key_of d p)).
Proof.
  intros Hv Hn Ha Ht. destruct (delivery_checked c d now Hv) as (Hc & _ & _ & Hd).
  destruct (cluster_node c _ n Hc Hn) as (Hp & _ & Hvk & Hnew). specialize (Hd p n Hn).
  unfold acknowledged_with. destruct (pd_deliveries d !!! p) as [[party sealed] key] eqn:E.
  simpl in Hd. subst party. unfold deliver_to. rewrite (Hnew timeout Ht).
  rewrite pass_guard by (by rewrite Hp, Z.eqb_refl). rewrite Ok_bind.
  unfold client_ingest, receipt_key. simpl. rewrite Hvk. split.
  - intros Hx. step Hx as (receipt & Hx & [= <-]). step Hx as (response & -> & Hx).
    destruct response; try done. destruct (na_party receipt0 =? cn_party n); [|done].
    simpl in Hx. step Hx as ([] & Hok%fail_if_Ok & [= <-]). bool_hyps. rewrite Hp in Hok.
    exists receipt0. split; [|done]. exists n. split_and!; [done..|]. done.
  - intros (receipt & (n' & Hn' & Hans & Hok) & ->). rewrite Hn in Hn'. injection Hn' as <-.
    pose proof (eq_trans (eq_sym Ha) Hans) as [= ->]. simpl.
    destruct (admission_verified_fields _ _ _ _ _ _ _ Hok) as (-> & _).
    rewrite Hp, Z.eqb_refl. simpl. by rewrite Hok.
Qed.

(** The threads, when every node acknowledged. *)
Lemma jobs_acknowledged c d now timeout answers receipts :
  delivery_validate d c now = Ok () → 0 < timeout ≤ 600 * SECOND →
  (∀ p, acknowledged_with c d answers p (receipts p)) →
  ask_all (λ '(delivery, n), deliver_to timeout (pd_manifest d) n delivery)
    (zip (pd_deliveries d) (cl_nodes c)) answers
  = map (acknowledged d receipts) (fin_range MPC_PARTIES).
Proof.
  intros Hv Ht Hall. destruct (delivery_checked c d now Hv) as (Hc & _).
  destruct (vec_of_length (n := MPC_PARTIES) (cl_nodes c)) as [nodes Hnodes];
    [by apply cluster_size|].
  rewrite <-Hnodes, (vec_as_map nodes), (vec_as_map (pd_deliveries d)), (vec_as_map answers).
  unfold ask_all. rewrite !zip_with_map. apply map_ext. intros p.
  assert (cl_nodes c !! fin_to_nat p = Some (nodes !!! p)) as Hn
    by (rewrite <-Hnodes; by apply vlookup_lookup).
  destruct (Hall p) as (n & Hn' & Ha & Hok). rewrite Ha. simpl. unfold acknowledged.
  do 2 f_equal. apply (deliver_to_Ok c d now timeout answers p _ _ _ Hv Hn Ha Ht).
  exists (receipts p). split; [|done]. by exists n.
Qed.

(** A thread that failed ends the collection. *)
Lemma collected_all jobs acc acc' :
  for_each collect_delivery acc jobs = Ok acc' → Forall (λ j, ∃ x, j = Some (Ok x)) jobs.
Proof.
  revert acc. induction jobs as [|j jobs IH]; intros acc; [constructor|]. cbn [for_each].
  intros Hx. step Hx as (acc1 & Hj & Hx). constructor; [|by eapply IH].
  unfold collect_delivery, join in Hj. step Hj as (x & Hj & _). destruct j as [j|]; [|done].
  apply map_err_Ok in Hj as ->. by exists x.
Qed.

(** The receipt made of seven acknowledgements passes its own check. *)
Lemma receipt_verifies c d now now' answers receipts r :
  delivery_validate d c now = Ok () → now' ≤ m_retention_deadline (pd_manifest d) →
  (∀ p, acknowledged_with c d answers p (receipts p)) →
  er_version r = 3 → er_manifest r = pd_manifest d →
  er_node_receipts r = map receipts (fin_range MPC_PARTIES) →
  er_receipt_digest r = receipt_digest (er_manifest r) (er_node_generations r)
    (er_order_share_digests r) (er_capability_key_share_digests r) (er_node_receipts r) →
  (∀ p, er_node_generations r !!! p = na_generation (receipts p)
     ∧ er_order_share_digests r !!! p = share_wire_digest (sealed_of d p)
     ∧ er_capability_key_share_digests r !!! p = sealed_key_wire_digest (key_of d p)) →
  edge_receipt_verify r c now' = Ok ().
Proof.
  intros Hv Hnow Hall Hver Hman Hrec Hdig Hp.
  destruct (delivery_checked c d now Hv) as (Hc & Hm & Hmk & _).
  assert (∀ p, na_generation (receipts p) ≠ 0 ∧ is_zero (share_wire_digest (sealed_of d p)) = false
    ∧ is_zero (sealed_key_wire_digest (key_of d p)) = false) as Hz.
  { intros p. destruct (Hall p) as (n & _ & _ & Hok).
    by destruct (admission_verified_fields _ _ _ _ _ _ _ Hok) as (_ & ?). }
  assert (∀ (v : vec Digest32 MPC_PARTIES), (∀ p, is_zero (v !!! p) = false) →
    existsb is_zero v = false) as Hex.
  { intros v Hvz. destruct (existsb _ _) eqn:E; [|done]. apply existsb_exists in E as (x & Hx & Ex).
    apply list_elem_of_In, elem_of_vlookup in Hx as [p <-]. by rewrite Hvz in Ex. }
  unfold edge_receipt_verify. rewrite Hc. cbn [map_err]. rewrite Ok_bind.
  rewrite Hver, Hman, Hmk, <-Hman, <-Hdig, !bool_decide_eq_true_2 by done.
  rewrite bool_decide_eq_false_2.
  2:{ intros [p Hg]%elem_of_vlookup. destruct (Hp p) as (Hgp & _). destruct (Hz p). congruence. }
  rewrite Hex by (intros p; destruct (Hp p) as (_ & -> & _); by destruct (Hz p) as (_ & ? & _)).
  rewrite Hex by (intros p; destruct (Hp p) as (_ & _ & ->); by destruct (Hz p) as (_ & _ & ?)).
  rewrite Hrec, (bool_decide_eq_true_2 (er_receipt_digest r = _)), pass_guard by done.
  rewrite Hman, (manifest_verify_later _ _ _ Hm Hnow). cbn [map_err]. rewrite Ok_bind.
  apply for_range_Ok. intros p. destruct (Hall p) as (n & Hn & _ & Hok). rewrite Hn.
  assert (map receipts (fin_range MPC_PARTIES) !! fin_to_nat p = Some (receipts p)) as ->.
  { unfold fin_range. rewrite <-vec_to_list_map. apply vlookup_lookup.
    by rewrite vlookup_map, lookup_fun_to_vec. }
  unfold check_node_receipt. destruct (cluster_node c _ n Hc Hn) as (_ & _ & -> & _).
  destruct (Hp p) as (-> & -> & ->). cbn [map_err]. rewrite Ok_bind, Hman, Hok, pass_guard by done.
  by rewrite Z.eqb_refl.
Qed.

Lemma delivery_exact c d timeout answers now now' :
  delivery_validate d c now = Ok () → now' ≤ m_retention_deadline (pd_manifest d) →
  0 < timeout ≤ 600 * SECOND →
  (∀ receipts, (∀ p, acknowledged_with c d answers p (receipts p)) →
    ∃ r, submit_prepared c timeout d answers (Some now) (Some now') = Ok r
      ∧ er_node_receipts r = map receipts (fin_range MPC_PARTIES)
      ∧ ∀ p, er_order_share_digests r !!! p = share_wire_digest (sealed_of d p)
        ∧ er_capability_key_share_digests r !!! p = sealed_key_wire_digest (key_of d p))
  ∧ (∀ r, submit_prepared c timeout d answers (Some now) (Some now') = Ok r →
      ∀ p, ∃ receipt, acknowledged_with c d answers p receipt).
Proof.
  intros Hv Hnow Ht. unfold submit_prepared. cbn [ok_or]. rewrite Ok_bind, Hv, Ok_bind. split.
  - intros receipts Hall. rewrite (jobs_acknowledged c d now timeout answers receipts Hv Ht Hall).
    destruct (collect_acknowledged d receipts (fin_range MPC_PARTIES) {|
      co_generations := vreplicate MPC_PARTIES 0;
      co_order_shares := vreplicate MPC_PARTIES zero_digest;
      co_capability_shares := vreplicate MPC_PARTIES zero_digest; co_receipts := [] |})
      as (acc & -> & Hr & Hp). rewrite Ok_bind. cbn [co_receipts app] in Hr. rewrite Hr.
    rewrite parties_sorted.
    2:{ intros p. destruct (Hall p) as (n & _ & _ & Hok).
        by destruct (admission_verified_fields _ _ _ _ _ _ _ Hok) as (-> & _). }
    assert (∀ p, p ∈ fin_range MPC_PARTIES) as Hin by (intros p; apply elem_of_fin_range).
    rewrite Ok_bind, (receipt_verifies c d now now' answers receipts), Ok_bind; try done.
    2:{ intros p. apply Hp. by left. }
    eexists. split; [reflexivity|]. split; [done|]. intros p. simpl.
    by destruct (Hp p (or_introl (Hin p))) as (_ & ? & ?).
  - intros r Hx p. step Hx as (acc & Hjobs%collected_all & _).
    destruct (delivery_checked c d now Hv) as (Hc & _).
    assert (is_Some (cl_nodes c !! fin_to_nat p)) as [n Hn].
    { apply lookup_lt_is_Some. rewrite (proj1 (cluster_size c Hc)). apply fin_to_nat_lt. }
    rewrite Forall_lookup in Hjobs. destruct (Hjobs (fin_to_nat p) (deliver_to timeout (pd_manifest d) n
      (pd_deliveries d !!! p) <$> (answers !!! p))) as [x Hx].
    { unfold ask_all. rewrite !lookup_zip_with, Hn.
      rewrite (proj1 (vlookup_lookup (pd_deliveries d) p _) eq_refl). simpl.
      by rewrite (proj1 (vlookup_lookup answers p _) eq_refl). }
    destruct (answers !!! p) as [answer|] eqn:Ha; [|done]. simpl in Hx. injection Hx as Hx.
    apply (deliver_to_Ok c d now timeout answers p n answer x Hv Hn Ha Ht) in Hx as (receipt & ? & _).
    by exists receipt.
Qed.

(** C13: A delivery is all or nothing: the participant gets a receipt exactly when every one of the
    seven nodes answered with a receipt that its own key signed over the order, its party and the
    two ciphertexts sent to it. *)
Theorem delivery_all_or_nothing c d timeout answers now now' :
  delivery_validate d c now = Ok () → now' ≤ m_retention_deadline (pd_manifest d) →
  0 < timeout ≤ 600 * SECOND →
  is_ok (submit_prepared c timeout d answers (Some now) (Some now')) = true ↔
  ∀ p, ∃ receipt, acknowledged_with c d answers p receipt.
Proof.
  intros Hv Hnow Ht. destruct (delivery_exact c d timeout answers now now' Hv Hnow Ht) as [Hs Hf].
  split.
  - intros Hok. destruct (submit_prepared _ _ _ _ _ _) as [r|]; [|done]. by eapply Hf.
  - intros Hall. destruct (fin_choice _ Hall) as [receipts Hr].
    by destruct (Hs receipts Hr) as (r & -> & _).
Qed.

(** What the participant holds passed the receipt's own check. *)
Lemma submit_verified c timeout d answers now now' r :
  submit_prepared c timeout d answers (Some now) (Some now') = Ok r →
  edge_receipt_verify r c now' = Ok ().
Proof.
  unfold submit_prepared. intros Hx. step Hx as (? & _ & Hx). step Hx as (? & _ & Hx).
  step Hx as (? & _ & Hx). step Hx as (t & Ht%ok_or_Ok & Hx). injection Ht as <-.
  by step Hx as ([] & Hv & [= <-]).
Qed.

(** The answers of seven nodes that dispatched the request make the receipt. *)
Lemma delivery_of_dispatch c d timeout answers now now' receipts :
  delivery_validate d c now = Ok () → now' ≤ m_retention_deadline (pd_manifest d) →
  0 < timeout ≤ 600 * SECOND →
  (∀ p, ∃ n env peer r r', cl_nodes c !! fin_to_nat p = Some n
     ∧ st_party (ns_state (rt_store r)) = cn_party n
     ∧ vk_fingerprint (verifying_key (rt_receipt_signing_key r)) = cn_receipt_verifying_key n
     ∧ dispatch env peer (RqIngest (pd_manifest d) (sealed_of d p) (key_of d p)) r
       = (r', Ingested (receipts p))
     ∧ answers !!! p = Some (Ok (Ingested (receipts p)) : Answer)) →
  ∃ r, submit_prepared c timeout d answers (Some now) (Some now') = Ok r
    ∧ er_node_receipts r = map receipts (fin_range MPC_PARTIES)
    ∧ ∀ p, er_order_share_digests r !!! p = share_wire_digest (sealed_of d p)
      ∧ er_capability_key_share_digests r !!! p = sealed_key_wire_digest (key_of d p).
Proof.
  intros Hv Hnow Ht Hall. destruct (delivery_checked c d now Hv) as (Hc & _).
  apply (delivery_exact c d timeout answers now now' Hv Hnow Ht). intros p.
  destruct (Hall p) as (n & env & peer & r & r' & Hn & Hparty & Hkey & Hd & Ha).
  exists n. split_and!; [done..|]. apply dispatch_ingest_Ok in Hd.
  destruct (cluster_node c _ n Hc Hn) as (Hp & _). rewrite Hparty, Hp in Hd.
  by destruct (verifying_key (rt_receipt_signing_key r)); simpl in *; subst.
Qed.

End delivery.
