(* ===== verification/OrderDelivery.v ===== *)
(** * An order from the participant to the seven nodes

    Creation at the edge, the nodes' request handler and share store, and the
    participant's fan-out together: an honestly made bundle reaches seven ready
    nodes and comes back as one receipt that verifies. *)

From S2P Require Import Prelude BTree Bytes AppCrypto Orders Matching Circuit MpcRunner Book.
From S2P Require Import Ordering Reservations Edge EdgeCreate EdgeField EdgeShares EdgeDecimal.
From S2P Require Import EdgeSeal EdgeLife NodeReceipts NodeState NodeStore NodeSteps NodeCore NodeInv.
From S2P Require Import NodeLife NodeAdmit NodeRpc RpcLife EdgeClient ClientLife DeliveryLife.
Open Scope string_scope.
Open Scope list_scope.
Open Scope Z_scope.

Section order_delivery.
Context `{Crypto} `{!CryptoLaws} `{EdgeLaws} `{ReceiptJson} `{!StoreJson} `{Persistence}.

(** The state once the receipt is installed. *)
Definition receipted (st : StoreState) (record : StoredRecord) (receipt : NodeAdmissionReceipt) :
    StoreState :=
  with_records (<[m_commitment (sr_manifest record) := with_receipt (Some receipt) record]>
    (st_records st)) st.

(** The receipt a node signs for the record it has just stored. *)
Definition first_receipt (st : StoreState) (record : StoredRecord) (digest : Digest32)
    (key : SigningKey) : option NodeAdmissionReceipt :=
  m ← sr_sealed_capability_key_share record;
  admission_sign (st_party st) (m_commitment (sr_manifest record)) (m_signer (sr_manifest record))
    (share_wire_digest (sr_sealed record)) (sealed_key_wire_digest m) (st_generation st) digest key.

(** Node [n] with runtime [rt] is party [p] and has room for the order: it holds the key, does not
    know the order, honours its reservation if it has one, its serializer can write the states on
    the way, and none of the three digests it signs is the all-zero one that receipts exclude. *)
Definition ready (b : EdgeOrderBundle) (pre : option PreauthorizedReservation)
    (key : NodeDecryptionKey) (now : Z) (p : fin MPC_PARTIES)
    (n : ClusterNodePublic) (rt : NodeRuntime) : Prop :=
  let s := rt_store rt in
  let record := bundle_record b p now in
  let st := admitted (bundle_tag pre (eb_manifest b)) (ns_state s) record in
  ns_key s = key ∧ st_party (ns_state s) = index p
  ∧ honours pre (eb_manifest b) now s
  ∧ lifecycle_blocks (ns_state s) (m_commitment (eb_manifest b)) = false
  ∧ st_records (ns_state s) !! m_commitment (eb_manifest b) = None
  ∧ 0 ≤ st_generation (ns_state s) < u64_max
  ∧ cn_receipt_verifying_key n = vk_fingerprint (verifying_key (rt_receipt_signing_key rt))
  ∧ is_zero (share_wire_digest (eb_sealed_shares b !!! p)) = false
  ∧ is_zero (sealed_key_wire_digest (eb_sealed_capability_key_shares b !!! p)) = false
  ∧ is_ok (encode_store st) = true
  ∧ ∃ digest, state_digest st = Ok digest ∧ is_zero digest = false
    ∧ ∀ receipt, first_receipt st record digest (rt_receipt_signing_key rt) = Some receipt →
        is_ok (encode_store (receipted st record receipt)) = true.

Lemma first_receipt_signed st record digest key sealed :
  sr_sealed_capability_key_share record = Some sealed →
  is_zero (share_wire_digest (sr_sealed record)) = false →
  is_zero (sealed_key_wire_digest sealed) = false →
  0 ≤ st_party st < 7 → 0 < st_generation st → is_zero digest = false →
  ∃ receipt, first_receipt st record digest key = Some receipt.
Proof.
  intros Hs Hz1 Hz2 Hp Hg Hd. unfold first_receipt. rewrite Hs. simpl. unfold admission_sign.
  rewrite Hd, (proj2 (Z.leb_gt _ _)), (proj2 (Z.eqb_neq _ _)) by (unfold MPC_PARTIES; lia).
  rewrite Hz1, Hz2. cbn [orb].
  match goal with |- context [try_sign key ?m] => destruct (try_sign_total key m) as [sg ->] end.
  eauto.
Qed.

(** The first acknowledgement: signed, installed and written. *)
Lemma acknowledge st record digest key receipt s e :
  ns_state s = st → st_records st !! m_commitment (sr_manifest record) = Some record →
  sr_admission_receipt record = None → state_digest st = Ok digest →
  first_receipt st record digest key = Some receipt →
  encode_store (receipted st record receipt) = Ok e →
  admission_receipt (sr_manifest record) key Durable s
  = (with_disk (Some e) (with_state (receipted st record receipt) s), Ok receipt).
Proof.
  intros Hs Hrec Hnone Hd Hf He. unfold admission_receipt. rewrite self_bind, Hs, Hrec. cbn [ok_or].
  rewrite try_bind. unfold first_receipt in Hf.
  destruct (sr_sealed_capability_key_share record) as [sealed|]; [|done]. cbn [ok_or].
  rewrite try_bind, Hnone, Hd, try_bind. simpl in Hf. rewrite Hf. cbn [ok_or]. rewrite try_bind.
  unfold save_receipt, persist. rewrite Hs. cbn [ns_state with_state].
  unfold receipted in He. by rewrite He.
Qed.

Lemma dispatch_ready fuel order handle pre elig cap signer node_keys r r' b
    (keys : fin MPC_PARTIES → NodeDecryptionKey) env peer now p n rt :
  create_inner fuel order handle pre elig cap signer node_keys r = (r', Ok b) →
  node_keys !!! p = node_public_key (keys p) → now ≤ o_expires_at order →
  ready b pre (keys p) now p n rt → pp_role peer = Participant →
  de_clock env = Some now → de_write env = Durable → de_second_write env = Durable →
  ∃ rt' receipt, dispatch env peer (RqIngest (eb_manifest b) (eb_sealed_shares b !!! p)
    (eb_sealed_capability_key_shares b !!! p)) rt = (rt', Ingested receipt).
Proof.
  intros Hr Hk Hnow (Hkey & Hparty & Hhon & Hblock & Hnone & Hgen & Hvk & Hz1 & Hz2 & He1 & digest
    & Hd & Hdz & He2) Hrole Hc Hw1 Hw2.
  destruct (encode_store (admitted _ _ _)) as [e1|] eqn:E1; [|done].
  pose proof (honest_ingest _ _ _ _ _ _ _ _ _ _ _ keys now p (rt_store rt) e1 Hr Hk Hnow Hkey Hparty
    Hhon Hblock Hnone (proj2 Hgen) E1) as Hi.
  set (st := admitted (bundle_tag pre (eb_manifest b)) (ns_state (rt_store rt)) (bundle_record b p now))
    in *.
  assert (fin_to_nat p < 7)%nat as Hp7 by apply fin_to_nat_lt.
  destruct (first_receipt_signed st (bundle_record b p now) digest (rt_receipt_signing_key rt) _
    eq_refl Hz1 Hz2) as [receipt Hf]; [unfold st; simpl; lia..|done|].
  specialize (He2 receipt Hf). destruct (encode_store (receipted _ _ _)) as [e2|] eqn:E2; [|done].
  assert (st_records st !! m_commitment (eb_manifest b) = Some (bundle_record b p now)) as Hrec
    by apply lookup_insert_eq.
  pose proof (acknowledge st (bundle_record b p now) digest _ receipt
    (with_disk (Some e1) (with_state st (rt_store rt))) e2 eq_refl Hrec eq_refl Hd Hf E2) as Ha.
  eexists _, receipt. unfold dispatch, dispatch_checked. rewrite Hc, try_bind. cbn [ok_or].
  unfold dispatch_ingest. rewrite self_bind. unfold require_role. rewrite Hrole, try_bind.
  rewrite method_bind. unfold on_store. rewrite Hw1, Hi, method_bind, Hw2.
  cbn [map_err rt_store with_store]. simpl sr_manifest in Ha. rewrite Ha. reflexivity.
Qed.

Lemma delivery_at b p : pd_deliveries (from_bundle b) !!! p
  = (index p, eb_sealed_shares b !!! p, eb_sealed_capability_key_shares b !!! p).
Proof.
  change (pd_deliveries (from_bundle b)) with (into_deliveries b). unfold into_deliveries.
  by rewrite lookup_fun_to_vec.
Qed.

(** The prepared delivery of a bundle passes the participant's own checks. *)
Lemma bundle_delivery_valid fuel order handle pre elig cap signer node_keys r r' b
    (keys : fin MPC_PARTIES → NodeDecryptionKey) now c :
  create_inner fuel order handle pre elig cap signer node_keys r = (r', Ok b) →
  (∀ p, node_keys !!! p = node_public_key (keys p)) → now ≤ o_expires_at order →
  cluster_validate c = Ok () → cl_market_id c = o_market_id order →
  (∀ p n, cl_nodes c !! fin_to_nat p = Some n → cn_share_encryption_key n = node_keys !!! p) →
  delivery_validate (from_bundle b) c now = Ok ().
Proof.
  intros Hr Hk Hnow Hc Hmk Hkeys. unfold delivery_validate. rewrite Hc. cbn [map_err].
  rewrite Ok_bind. destruct (bundle_opens _ _ _ _ _ _ _ _ _ _ _ keys now Hr Hk Hnow) as (Hm & _).
  simpl pd_manifest. rewrite Hm. cbn [map_err]. rewrite Ok_bind.
  destruct (bundle_share _ _ _ _ _ _ _ _ _ _ _ keys now 0%fin Hr (Hk _) Hnow) as (_ & _ & _ & _ & _ & ->).
  rewrite Hmk, bool_decide_eq_true_2 by done. cbn [negb]. rewrite pass_guard by done.
  destruct (existsb _ _) eqn:E; [|done]. exfalso.
  apply existsb_exists in E as ([n d] & Hin%list_elem_of_In & Hbad).
  apply list_elem_of_lookup in Hin as [i Hi].
  apply lookup_zip_with_Some in Hi as (n' & d' & [= -> ->] & Hn & Hd).
  assert (∃ p : fin MPC_PARTIES, fin_to_nat p = i ∧ pd_deliveries (from_bundle b) !!! p = d')
    as (p & <- & Hd').
  { apply vlookup_lookup' in Hd as (Hlt & Hd). exists (nat_to_fin Hlt).
    by rewrite fin_to_nat_to_fin. }
  clear Hd. rename Hd' into Hd.
  destruct (bundle_share _ _ _ _ _ _ _ _ _ _ _ keys now p Hr (Hk _) Hnow) as (share & ks & Ho & Ho' & _).
  destruct (cluster_node c _ n' Hc Hn) as (Hp & _). rewrite delivery_at in Hd. subst d'.
  unfold share_open in Ho. apply bind_Ok in Ho as (? & Ho%fail_if_Ok & _).
  unfold key_share_open in Ho'. apply bind_Ok in Ho' as (? & Ho'%fail_if_Ok & _). bool_hyps.
  specialize (Hkeys p n' Hn). rewrite Hk in Hkeys. unfold misdirected in Hbad.
  by rewrite Hkeys, !(proj2 (Z.eqb_eq _ _)), !bool_decide_eq_true_2 in Hbad by congruence.
Qed.

(** C9: An order an honest participant makes, with or without a settlement handle and a pre-trade
    reservation, reaches the market's nodes: when the seven nodes of the cluster are ready for it
    (room, keys, an honoured reservation, digests other than zero), each admits its part and signs
    for it, and the participant then holds a receipt that verifies, with the digests of exactly the
    ciphertexts it sent. *)
Theorem order_delivered fuel order handle pre elig cap signer node_keys r r' b
    (keys : fin MPC_PARTIES → NodeDecryptionKey) now now' c timeout
    (nodes : fin MPC_PARTIES → DispatchEnv * Principal * NodeRuntime) :
  create_inner fuel order handle pre elig cap signer node_keys r = (r', Ok b) →
  (∀ p, node_keys !!! p = node_public_key (keys p)) →
  now ≤ o_expires_at order → now' ≤ o_expires_at order → 0 < timeout ≤ 600 * SECOND →
  cluster_validate c = Ok () → cl_market_id c = o_market_id order →
  (∀ p n, cl_nodes c !! fin_to_nat p = Some n →
     let '(env, peer, rt) := nodes p in
     cn_share_encryption_key n = node_keys !!! p ∧ ready b pre (keys p) now p n rt
     ∧ pp_role peer = Participant ∧ de_clock env = Some now
     ∧ de_write env = Durable ∧ de_second_write env = Durable) →
  let answer p := let '(env, peer, rt) := nodes p in
    (dispatch env peer (RqIngest (eb_manifest b) (eb_sealed_shares b !!! p)
       (eb_sealed_capability_key_shares b !!! p)) rt).2 in
  ∃ receipt, submit_prepared c timeout (from_bundle b)
      (fun_to_vec (λ p, Some (Ok (answer p) : Answer))) (Some now) (Some now') = Ok receipt
    ∧ edge_receipt_verify receipt c now' = Ok ()
    ∧ ∀ p, er_order_share_digests receipt !!! p = share_wire_digest (eb_sealed_shares b !!! p)
      ∧ er_capability_key_share_digests receipt !!! p
        = sealed_key_wire_digest (eb_sealed_capability_key_shares b !!! p).
Proof.
  intros Hr Hk Hnow Hnow' Ht Hc Hmk Hnodes answer.
  assert (delivery_validate (from_bundle b) c now = Ok ()) as Hv.
  { apply (bundle_delivery_valid _ _ _ _ _ _ _ _ _ _ _ keys now c Hr Hk Hnow Hc Hmk). intros p n Hn. specialize (Hnodes p n Hn). destruct (nodes p) as [[env peer] rt]. apply Hnodes. }
  assert (∀ p, ∃ rt' receipt, (let '(env, peer, rt) := nodes p in
    dispatch env peer (RqIngest (eb_manifest b) (eb_sealed_shares b !!! p)
      (eb_sealed_capability_key_shares b !!! p)) rt = (rt', Ingested receipt))) as Hex.
  { intros p. assert (is_Some (cl_nodes c !! fin_to_nat p)) as [n Hn].
    { apply lookup_lt_is_Some. rewrite (proj1 (cluster_size c Hc)). apply fin_to_nat_lt. }
    specialize (Hnodes p n Hn). destruct (nodes p) as [[env peer] rt].
    destruct Hnodes as (_ & Hready & ? & ? & ? & ?).
    by apply (dispatch_ready fuel order handle pre elig cap signer node_keys r r' b keys env peer now p n). }
  apply fin_choice in Hex as [runtimes Hex]. apply fin_choice in Hex as [receipts Hex].
  destruct (delivery_of_dispatch c (from_bundle b) timeout
    (fun_to_vec (λ p, Some (Ok (answer p) : Answer))) now now' receipts Hv) as (rc & Hs & _ & Hd).
  - change (pd_manifest (from_bundle b)) with (eb_manifest b).
    by destruct (bundle_share _ _ _ _ _ _ _ _ _ _ _ keys now 0%fin Hr (Hk _) Hnow)
      as (_ & _ & _ & _ & -> & _).
  - done.
  - intros p. assert (is_Some (cl_nodes c !! fin_to_nat p)) as [n Hn].
    { apply lookup_lt_is_Some. rewrite (proj1 (cluster_size c Hc)). apply fin_to_nat_lt. }
    specialize (Hnodes p n Hn). specialize (Hex p). unfold answer.
    rewrite lookup_fun_to_vec. destruct (nodes p) as [[env peer] rt].
    destruct Hnodes as (_ & Hready & _). destruct (cluster_node c _ n Hc Hn) as (Hp & _).
    exists n, env, peer, rt, (runtimes p). rewrite Hex. split_and!; [done| | | |done].
    + rewrite Hp. apply Hready.
    + symmetry. apply Hready.
    + by rewrite delivery_at.
  - exists rc. split; [done|]. split; [by eapply submit_verified|]. intros p. specialize (Hd p).
    by rewrite delivery_at in Hd.
Qed.

End order_delivery.
