(* ===== verification/PublicDepth.v ===== *)
(** * The published book

    [FinalizedPublicBook] of [oclob-node/src/public_depth.rs]: the price levels
    of a completed round with an attestation of every node and, when the round
    matched, a private-state receipt of every node; how it is made from an
    agreed execution and how a reader checks it. *)

From S2P Require Import Prelude BTree Bytes AppCrypto Orders Matching Circuit MpcRunner Book.
From S2P Require Import Ordering Reservations Edge EdgeDecimal NodeReceipts NodeState NodeStore NodeRpc.
From S2P Require Import EdgeClient.
Open Scope string_scope.
Open Scope list_scope.
Open Scope Z_scope.

Record FinalizedPublicBook := mk_public_book {
  pb_version : Z;
  pb_market_id : bytes;
  pb_sequence : Z;
  pb_round_id : Digest32;
  pb_levels : list MpcPriceLevel;
  pb_attestations : list DepthAttestation;
  pb_finality_receipts : list NodePrivateStateReceipt
}.

Section depth.
Context `{Crypto} `{ReceiptJson}.

(** [NodePrivateStateReceipt::verify_public_signature]. *)
Definition verify_public_signature (r : NodePrivateStateReceipt) (key : VerifyingKey) :
    result string () :=
  _ ← fail_if (negb (pr_version r =? RECORD_VERSION) || (7 <=? pr_party r)
      || is_zero (pr_round_id r) || is_zero (pr_private_state_sha256 r)
      || is_zero (pr_transition_digest r) || is_zero (pr_canonical_receipt_digest r)
      || (pr_canonical_height r =? 0) || (pr_generation r =? 0) || is_zero (pr_state_digest r)
      || negb (bool_decide (pr_signer r = vk_fingerprint key))) "protocol";
  signature ← map_err (λ _, "protocol") (sig_try_from (pr_signature r));
  map_err (λ _, "protocol") (verify_strict key (private_state_signature_body r) signature).

(** One finality receipt; an index outside the array would panic. *)
Definition check_finality (b : FinalizedPublicBook) (n : ClusterNodePublic) (a : DepthAttestation)
    (key : VerifyingKey) : result string () :=
  f ← ok_or (pb_finality_receipts b !! Z.to_nat (cn_party n)) "panic";
  first ← ok_or (pb_finality_receipts b !! 0%nat) "panic";
  _ ← verify_public_signature f key;
  fail_if (negb (pr_party f =? cn_party n) || negb (bool_decide (pr_round_id f = da_round_id a))
      || negb (bool_decide (pr_private_state_sha256 f = da_state_commitment a))
      || negb (pr_canonical_height f =? pr_canonical_height first)
      || negb (bool_decide (pr_canonical_receipt_digest f = pr_canonical_receipt_digest first))
      || negb (bool_decide (pr_transition_digest f = pr_transition_digest first)))
    "public depth finality disagrees with execution".

(** The attestation of one node. *)
Definition check_attestation (b : FinalizedPublicBook) (first : DepthAttestation) (program : Digest32)
    (now : Z) (n : ClusterNodePublic) (a : DepthAttestation) : result string () :=
  key ← map_err (λ _, "key") (vk_from_bytes (cn_receipt_verifying_key n));
  _ ← depth_verify a key;
  _ ← fail_if (negb (da_party a =? cn_party n) || negb (bool_decide (da_market_id a = pb_market_id b))
      || negb (da_sequence a =? pb_sequence b) || negb (bool_decide (da_round_id a = pb_round_id b))
      || negb (bool_decide (da_book_digest a = public_depth_digest (pb_levels b)))
      || negb (bool_decide (da_public_output_sha256 a = da_public_output_sha256 first))
      || negb (bool_decide (da_program_sha256 a = program))
      || negb (da_issued_at a =? da_issued_at first) || negb (da_valid_until a =? da_valid_until first)
      || negb (Bool.eqb (da_settlement_required a) (da_settlement_required first))
      || (now <? da_issued_at a) || (da_valid_until a <? now))
    "public depth binding or freshness invalid";
  if da_settlement_required first then check_finality b n a key else Ok ().

(** [program] is the digest of the matching program. *)
Definition public_book_verify (b : FinalizedPublicBook) (c : ClusterPublicConfig) (program : Digest32)
    (now minimum_sequence : Z) : result string () :=
  _ ← map_err (λ _, "cluster") (cluster_validate c);
  _ ← validate_public_levels (pb_levels b);
  _ ← fail_if (negb (pb_version b =? 2) || negb (bool_decide (pb_market_id b = cl_market_id c))
      || (pb_sequence b <? minimum_sequence)
      || negb (Nat.eqb (length (pb_attestations b)) (length (cl_nodes c)))) "incomplete public book";
  first ← ok_or (head (pb_attestations b)) "public depth signatures absent";
  _ ← fail_if (negb (Nat.eqb (length (pb_finality_receipts b))
      (if da_settlement_required first then length (cl_nodes c) else 0%nat)))
    "public book missing canonical finality";
  for_each (λ _ '(n, a), check_attestation b first program now n a) ()
    (zip (cl_nodes c) (pb_attestations b)).

Definition check_execution (plan : RoundPlan) (program : Digest32) (agreed : MpcBatchResult)
    (n : ClusterNodePublic) (r : NodeExecutionReceipt) : result string () :=
  key ← map_err (λ _, "key") (vk_from_bytes (cn_receipt_verifying_key n));
  _ ← map_err (λ _, "receipt") (execution_verify r plan (cn_party n) program key);
  fail_if (negb (bool_decide (ne_result r = agreed))) "depth execution disagreement".

Definition from_execution (c : ClusterPublicConfig) (plan : RoundPlan) (program : Digest32)
    (execution : AgreedRoundExecution) (finality : list NodePrivateStateReceipt) :
    result string FinalizedPublicBook :=
  _ ← for_each (λ _ '(n, r), check_execution plan program (ag_result execution) n r) ()
    (zip (cl_nodes c) (ag_receipts execution));
  levels ← ok_or (br_public_levels (ag_result execution)) "MPC depth absent";
  attestations ← collect (λ r, ok_or (ne_depth_attestation r) "unsigned MPC depth")
    (ag_receipts execution);
  let book := {| pb_version := 2; pb_market_id := rp_market_id plan; pb_sequence := rp_sequence plan;
    pb_round_id := rp_round_id plan; pb_levels := levels; pb_attestations := attestations;
    pb_finality_receipts := finality |} in
  _ ← public_book_verify book c program (rp_issued_at plan) (rp_sequence plan);
  Ok book.

End depth.
