(* ===== verification/DepthLife.v ===== *)
(** * Publication of the book

    Every agreed execution can be published: with no match at once, with a match
    as soon as the nodes have signed the same finality. *)

From S2P Require Import Prelude BTree Bytes AppCrypto Orders Matching Circuit MpcRunner Book.
From S2P Require Import Ordering Reservations Edge EdgeDecimal NodeReceipts NodeState NodeStore NodeRpc.
From S2P Require Import EdgeClient ClientLife PublicDepth.
Open Scope string_scope.
Open Scope list_scope.
Open Scope Z_scope.

Lemma for_each_units {E A} (f : A → result E ()) l :
  for_each (λ _ a, f a) () l = Ok () ↔ Forall (λ a, f a = Ok ()) l.
Proof.
  induction l as [|a l IH]; simpl; [naive_solver|]. rewrite bind_Ok, Forall_cons, <-IH.
  split; [by intros ([] & ? & ?)|]. intros []. by exists ().
Qed.

Lemma Forall_zip {A B} (P : A * B → Prop) (l : list A) (k : list B) :
  Forall P (zip l k) ↔ ∀ i a b, l !! i = Some a → k !! i = Some b → P (a, b).
Proof.
  rewrite Forall_lookup. setoid_rewrite lookup_zip_with_Some. naive_solver.
Qed.

(** A disjunction of checks, each of which passes. *)
Ltac passes :=
  repeat (apply orb_false_iff; split);
  first
    [ assumption
    | apply negb_false_iff, Z.eqb_eq; congruence
    | apply negb_false_iff, Nat.eqb_eq; congruence
    | apply negb_false_iff, bool_decide_eq_true_2; congruence
    | apply negb_false_iff, eqb_true_iff; congruence
    | apply Z.eqb_neq; congruence
    | apply Z.leb_gt; lia
    | apply Z.ltb_ge; lia
    | congruence ].

Lemma collect_total {E A B} (f : A → result E B) l :
  (∀ a, a ∈ l → ∃ b, f a = Ok b) → ∃ bs, collect f l = Ok bs.
Proof.
  induction l as [|a l IH]; intros Hl; [by exists []|].
  destruct (Hl a) as [b Hb]; [by left|]. destruct IH as [bs Hbs]; [intros; apply Hl; by right|].
  exists (b :: bs). simpl. by rewrite Hb, Ok_bind, Hbs.
Qed.

Section publication.
Context `{Crypto} `{ReceiptJson}.

(** What an execution receipt with levels attests. *)
Lemma execution_attests r plan party program key levels :
  execution_verify r plan party program key = Ok () → br_public_levels (ne_result r) = Some levels →
  ∃ a, ne_depth_attestation r = Some a ∧ depth_verify a key = Ok ()
    ∧ da_party a = party ∧ da_market_id a = rp_market_id plan ∧ da_sequence a = rp_sequence plan
    ∧ da_round_id a = rp_round_id plan ∧ da_book_digest a = public_depth_digest levels
    ∧ da_public_output_sha256 a = public_output_digest (ne_result r) ∧ da_program_sha256 a = program
    ∧ da_state_commitment a = ne_private_state_sha256 r ∧ is_zero (ne_private_state_sha256 r) = false
    ∧ ne_round_id r = rp_round_id plan ∧ da_issued_at a = rp_issued_at plan ∧ da_valid_until a = rp_expires_at plan
    ∧ da_settlement_required a = existsb slot_matched (br_slots (ne_result r)).
Proof.
  unfold execution_verify. intros Hv Hl. apply bind_Ok in Hv as ([] & Hg%fail_if_Ok & Hv).
  apply bind_Ok in Hv as ([] & Ha & _). rewrite Hl in Ha. destruct (ne_depth_attestation r) as [a|]; [|done].
  apply bind_Ok in Ha as ([] & Hd%map_err_Ok & Hf%fail_if_Ok). bool_hyps.
  exists a. split_and!; try done; try congruence. by apply eqb_prop.
Qed.

Lemma finality_signed p r f party key :
  private_state_verify p r f party key = true → party < 7 →
  is_zero (ne_round_id r) = false → is_zero (ne_private_state_sha256 r) = false →
  is_zero (pf_transition_digest f) = false → is_zero (pf_canonical_receipt_digest f) = false →
  pf_canonical_height f ≠ 0 →
  verify_public_signature p key = Ok ().
Proof.
  unfold private_state_verify, verify_public_signature. intros Hv Hp Hr Hs Ht Hc Hh. bool_hyps.
  rewrite pass_guard.
  - unfold signature_ok in *. destruct (sig_try_from _) as [s|]; [|done]. simpl.
    destruct (verify_strict _ _ _) as [[]|]; done.
  - by passes.
Qed.

(** The receipts of finality that a round needs: none without a match, one of each node otherwise,
    for one canonical transition. *)
Definition finality_agrees (c : ClusterPublicConfig) (execution : AgreedRoundExecution)
    (finality : list NodePrivateStateReceipt) : Prop :=
  if existsb slot_matched (br_slots (ag_result execution)) then
    length finality = length (cl_nodes c)
    ∧ ∃ f : PrivateStateFinality,
      is_zero (pf_transition_digest f) = false ∧ is_zero (pf_canonical_receipt_digest f) = false
      ∧ pf_canonical_height f ≠ 0
      ∧ ∀ i n r p, cl_nodes c !! i = Some n → ag_receipts execution !! i = Some r →
          finality !! i = Some p →
          private_state_verify p r f (cn_party n) (mk_verifying_key (cn_receipt_verifying_key n)) = true
  else finality = [].

Lemma finality_fields p r f party key :
  private_state_verify p r f party key = true →
  pr_party p = party ∧ pr_round_id p = ne_round_id r
  ∧ pr_private_state_sha256 p = ne_private_state_sha256 r
  ∧ pr_canonical_height p = pf_canonical_height f
  ∧ pr_canonical_receipt_digest p = pf_canonical_receipt_digest f
  ∧ pr_transition_digest p = pf_transition_digest f.
Proof. unfold private_state_verify. intros Hv. bool_hyps. by split_and!. Qed.

Lemma finality_first c execution finality f :
  cluster_validate c = Ok () → length (ag_receipts execution) = length (cl_nodes c) →
  length finality = length (cl_nodes c) →
  (∀ i n r p, cl_nodes c !! i = Some n → ag_receipts execution !! i = Some r → finality !! i = Some p →
     private_state_verify p r f (cn_party n) (mk_verifying_key (cn_receipt_verifying_key n)) = true) →
  ∃ p, finality !! 0%nat = Some p ∧ pr_canonical_height p = pf_canonical_height f
    ∧ pr_canonical_receipt_digest p = pf_canonical_receipt_digest f
    ∧ pr_transition_digest p = pf_transition_digest f.
Proof.
  intros Hc Hr Hf Hall. destruct (cluster_size c Hc) as [Hsize _].
  destruct (lookup_lt_is_Some_2 finality 0) as [p Hp]; [lia|].
  destruct (lookup_lt_is_Some_2 (cl_nodes c) 0) as [n Hn]; [lia|].
  destruct (lookup_lt_is_Some_2 (ag_receipts execution) 0) as [r Hr0]; [lia|].
  destruct (finality_fields _ _ _ _ _ (Hall _ _ _ _ Hn Hr0 Hp)) as (_ & _ & _ & ? & ? & ?). by exists p.
Qed.

(** An attestation of an agreed execution, as the reader checks it. *)
Definition attested (c : ClusterPublicConfig) (plan : RoundPlan) (program : Digest32)
    (execution : AgreedRoundExecution) (levels : list MpcPriceLevel) (i : nat) (n : ClusterNodePublic)
    (r : NodeExecutionReceipt) (a : DepthAttestation) : Prop :=
  let key := mk_verifying_key (cn_receipt_verifying_key n) in
  depth_verify a key = Ok ()
  ∧ da_party a = cn_party n ∧ da_market_id a = rp_market_id plan ∧ da_sequence a = rp_sequence plan
  ∧ da_round_id a = rp_round_id plan ∧ da_book_digest a = public_depth_digest levels
  ∧ da_public_output_sha256 a = public_output_digest (ag_result execution) ∧ da_program_sha256 a = program
  ∧ da_state_commitment a = ne_private_state_sha256 r ∧ is_zero (ne_private_state_sha256 r) = false
  ∧ ne_round_id r = rp_round_id plan ∧ da_issued_at a = rp_issued_at plan
  ∧ da_valid_until a = rp_expires_at plan
  ∧ da_settlement_required a = existsb slot_matched (br_slots (ag_result execution)).

Lemma checked_attests c plan program execution levels i n r :
  cluster_validate c = Ok () → cl_nodes c !! i = Some n →
  check_execution plan program (ag_result execution) n r = Ok () →
  br_public_levels (ag_result execution) = Some levels →
  ∃ a, ne_depth_attestation r = Some a ∧ attested c plan program execution levels i n r a.
Proof.
  intros Hc Hn Hr Hl. destruct (cluster_node c i n Hc Hn) as (Hp & Hi & Hk & _).
  unfold check_execution in Hr. rewrite Hk in Hr. cbn [map_err] in Hr. rewrite Ok_bind in Hr.
  apply bind_Ok in Hr as ([] & Hv%map_err_Ok & Heq%fail_if_Ok). bool_hyps. rename Heq into Hsame.
  destruct (execution_attests _ _ _ _ _ levels Hv) as (a & Ha & Hrest); [congruence|].
  exists a. split; [done|]. unfold attested. rewrite <-Hsame. tauto.
Qed.

Lemma depth_verified a key :
  depth_verify a key = Ok () → is_zero (da_round_id a) = false ∧ da_issued_at a ≤ da_valid_until a.
Proof.
  unfold depth_verify. intros (? & Hf%fail_if_Ok & _)%bind_Ok. bool_hyps. done.
Qed.

Lemma attestation_checks c plan program execution levels finality atts i n r a first :
  cluster_validate c = Ok () → length (ag_receipts execution) = length (cl_nodes c) →
  cl_nodes c !! i = Some n → ag_receipts execution !! i = Some r →
  attested c plan program execution levels i n r a →
  da_public_output_sha256 first = public_output_digest (ag_result execution) →
  da_issued_at first = rp_issued_at plan → da_valid_until first = rp_expires_at plan →
  da_settlement_required first = existsb slot_matched (br_slots (ag_result execution)) →
  finality_agrees c execution finality →
  check_attestation {| pb_version := 2; pb_market_id := rp_market_id plan;
    pb_sequence := rp_sequence plan; pb_round_id := rp_round_id plan; pb_levels := levels;
    pb_attestations := atts; pb_finality_receipts := finality |} first program (rp_issued_at plan) n a
  = Ok ().
Proof.
  intros Hc Hlr Hn Hr Ha Ho Hi Hu Hs Hf. destruct (cluster_node c i n Hc Hn) as (Hp & Hlt & Hk & _).
  destruct Ha as (Hd & ? & ? & ? & Hround & ? & ? & ? & Hst & Hnz & Hrr & ? & ? & ?).
  destruct (depth_verified _ _ Hd) as [Hrz Hw]. unfold check_attestation. rewrite Hk. cbn [map_err].
  rewrite Ok_bind, Hd, Ok_bind. rewrite pass_guard by (simpl; passes). rewrite Hs.
  unfold finality_agrees in Hf. destruct (existsb _ _); [|done].
  destruct Hf as (Hlen & f & Ht & Hcr & Hh & Hall).
  destruct (lookup_lt_is_Some_2 finality i) as [p Hpi]; [rewrite Hlen; by eapply lookup_lt_Some|].
  destruct (finality_first c execution finality f) as (p0 & Hp0 & Hh0 & Hcr0 & Ht0); [done..|].
  pose proof (Hall _ _ _ _ Hn Hr Hpi) as Hv. destruct (finality_fields _ _ _ _ _ Hv) as (? & ? & ? & ? & ? & ?).
  unfold check_finality. cbn [pb_finality_receipts]. rewrite Hp, Nat2Z.id, Hpi, Hp0. cbn [ok_or].
  rewrite !Ok_bind, (finality_signed _ _ _ _ _ Hv), Ok_bind; [|first [lia|congruence]..].
  apply fail_if_Ok. passes.
Qed.

(** C20: An agreed execution is published: when the cluster is valid, every node's execution receipt
    verifies with the agreed result, and that result has valid levels, the book is made (with no match
    from the attestations alone, with a match from seven receipts of one canonical finality), it
    carries exactly the agreed levels, and it passes the reader's check. *)
Theorem agreed_book_published c plan program execution finality levels :
  cluster_validate c = Ok () → rp_market_id plan = cl_market_id c →
  length (ag_receipts execution) = length (cl_nodes c) →
  (∀ i n r, cl_nodes c !! i = Some n → ag_receipts execution !! i = Some r →
     check_execution plan program (ag_result execution) n r = Ok ()) →
  br_public_levels (ag_result execution) = Some levels → validate_public_levels levels = Ok () →
  finality_agrees c execution finality →
  ∃ book, from_execution c plan program execution finality = Ok book ∧ pb_levels book = levels
    ∧ public_book_verify book c program (rp_issued_at plan) (rp_sequence plan) = Ok ().
Proof.
  intros Hc Hm Hlen Hex Hl Hvl Hf. destruct (cluster_size c Hc) as [Hsize _].
  assert (∃ atts, collect (λ r, ok_or (ne_depth_attestation r) "unsigned MPC depth")
    (ag_receipts execution) = Ok atts) as [atts Hatts].
  { apply collect_total. intros r [i Hi]%list_elem_of_lookup.
    destruct (lookup_lt_is_Some_2 (cl_nodes c) i) as [n Hn]; [rewrite <-Hlen; by eapply lookup_lt_Some|].
    destruct (checked_attests c plan program execution levels i n r Hc Hn (Hex _ _ _ Hn Hi) Hl)
      as (a & -> & _). by exists a. }
  pose proof Hatts as Hall. apply collect_Ok in Hall.
  assert (∀ i n a, cl_nodes c !! i = Some n → atts !! i = Some a →
    ∃ r, ag_receipts execution !! i = Some r ∧ attested c plan program execution levels i n r a) as Hat.
  { intros i n a Hn Ha. destruct (Forall2_lookup_r _ _ _ _ _ Hall Ha) as (r & Hr & Hra).
    apply ok_or_Ok in Hra.
    destruct (checked_attests c plan program execution levels i n r Hc Hn (Hex _ _ _ Hn Hr) Hl)
      as (a' & Ha' & Hatt). exists r. split; [done|]. congruence. }
  assert (length atts = 7%nat) as Hla by (rewrite <-(Forall2_length _ _ _ Hall); congruence).
  destruct atts as [|first atts']; [done|]. destruct (lookup_lt_is_Some_2 (cl_nodes c) 0) as [n0 Hn0]; [lia|].
  destruct (Hat 0%nat n0 first Hn0 eq_refl)
    as (r0 & _ & (_ & _ & _ & _ & _ & _ & Ho & _ & _ & _ & _ & Hi & Hu & Hs)).
  assert (length finality = if da_settlement_required first then length (cl_nodes c) else 0%nat) as Hfl.
  { rewrite Hs. unfold finality_agrees in Hf. destruct (existsb _ _); [by destruct Hf|by subst]. }
  unfold from_execution. rewrite (proj2 (for_each_units _ _)).
  2:{ apply Forall_zip. intros i n r Hn Hr. by apply (Hex i). }
  rewrite Ok_bind, Hl. cbn [ok_or]. rewrite Ok_bind, Hatts, Ok_bind.
  match goal with |- ∃ book, (_ ← public_book_verify ?b _ _ _ _; _) = _ ∧ _ => set (book := b) end.
  assert (public_book_verify book c program (rp_issued_at plan) (rp_sequence plan) = Ok ()) as Hv.
  { unfold public_book_verify. rewrite Hc. cbn [map_err]. rewrite Ok_bind. cbn [book pb_levels].
    rewrite Hvl, Ok_bind, pass_guard
      by (cbn [book pb_version pb_market_id pb_sequence pb_attestations]; passes).
    cbn [book pb_attestations head hd_error ok_or].
    rewrite Ok_bind, pass_guard by (cbn [book pb_finality_receipts]; passes). apply for_each_units, Forall_zip.
    intros i n a Hn Ha. destruct (Hat i n a Hn Ha) as (r & Hr & Hatt).
    by apply (attestation_checks c plan program execution levels finality (first :: atts') i n r). }
  exists book. by rewrite Hv, Ok_bind.
Qed.

End publication.
