(* ===== verification/Corporate.v ===== *)
(** * The corporate participant's reservation

    The data of [oclob-node/src/corporate.rs], [corporate_authorization.rs] and
    [corporate_expiry.rs]: signed reservation terms, the prepared reserve
    request, the witness of a facility, expiry resolutions, with the checks the
    participant makes on each of them, and the order it builds on a finalized
    reservation.  Structures of the [defmi] crate are records with the fields
    the sources name; its checks are the parameters of [CorporateCrates]. *)

From S2P Require Import Prelude BTree Bytes AppCrypto Orders Matching Circuit MpcRunner Book.
From S2P Require Import Ordering Reservations Eligibility Edge EdgeCreate NodeState.
Open Scope string_scope.
Open Scope list_scope.
Open Scope Z_scope.

#[export] Instance presentation_context_eq_dec : EqDecision PresentationContext.
Proof. solve_decision. Defined.
#[export] Instance presentation_eq_dec : EqDecision AnonymousPresentation.
Proof. solve_decision. Defined.

(** ** Structures of [defmi] *)

Record ApplicationReserveScope := mk_scope {
  as_application_binding : Digest32;
  as_venue_id : Digest32;
  as_defmi_id : Digest32;
  as_committee_key_digest : Digest32;
  as_pq_committee_digest : Digest32;
  as_committee_epoch : Z;
  as_amount_bits : Z
}.
#[export] Instance scope_eq_dec : EqDecision ApplicationReserveScope.
Proof. solve_decision. Defined.

Record ApplicationReserveMandate := mk_mandate {
  am_version : Z;
  am_scope : ApplicationReserveScope;
  am_request_commitment : Digest32;
  am_facility_id : Digest32;
  am_hold_id : Digest32;
  am_asset_id : Digest32;
  am_amount_commitment : Digest32;
  am_participant_handle : Digest32;
  am_entity_commitment : Digest32;
  am_credential_digest : Digest32;
  am_settlement_terms_commitment : Digest32;
  am_valid_from : Z;
  am_valid_until : Z;
  am_participant_public : bytes;
  am_signature : bytes
}.
#[export] Instance mandate_eq_dec : EqDecision ApplicationReserveMandate.
Proof. solve_decision. Defined.

(** The two optional committee fields are kept as their encoding. *)
Record ApplicationNoteRelease := mk_note_release {
  nr_scope : ApplicationReserveScope;
  nr_before_root : Digest32;
  nr_operation_id : Digest32;
  nr_hold_id : Digest32;
  nr_sequence : Z;
  nr_previous_receipt : Digest32;
  nr_reason : ReleaseReason;
  nr_committee_public : bytes;
  nr_pq_committee : option bytes;
  nr_signature : bytes;
  nr_pq_authorization : option bytes
}.
#[export] Instance note_release_eq_dec : EqDecision ApplicationNoteRelease.
Proof. solve_decision. Defined.

(** ** Configuration and witnesses *)

(** [deployment_crypto_policy] is its canonical encoding, [None] when invalid. *)
Record CorporateNativeConfig := mk_corporate_config {
  cf_deployment_crypto_policy : option bytes;
  cf_host : bytes;
  cf_port : Z;
  cf_server_name : bytes;
  cf_claim_authorization_endpoint : ClaimAuthorizationEndpoint;
  cf_venue_id : Digest32;
  cf_defmi_id : Digest32;
  cf_issuer_public : bytes;
  cf_facility_id : Digest32;
  cf_asset_id : Digest32;
  cf_facility_values : vec Z 3;
  cf_facility_blindings : vec Digest32 3;
  cf_wallet_spend_secret : Digest32;
  cf_wallet_opening_seed : bytes;
  cf_credential_custody_seed : bytes;
  cf_identity_seed : Digest32
}.

Record FacilityWitness := mk_witness {
  fw_facility_id : Digest32;
  fw_sequence : Z;
  fw_values : vec Z 3;
  fw_blindings : vec Digest32 3
}.

(** [outputs] are JSON values, kept as text. *)
Record PrivateReserveRequest := mk_reserve_request {
  rr_mandate : ApplicationReserveMandate;
  rr_order_commitment : Digest32;
  rr_order_authorization_salt : Digest32;
  rr_reserve_reblinding : Digest32;
  rr_operation_id : Digest32;
  rr_before_sequence : Z;
  rr_before : vec Digest32 3;
  rr_after : vec Digest32 3;
  rr_ring : list Digest32;
  rr_outputs : list bytes;
  rr_relation_proof : bytes;
  rr_relation_proof_digest : Digest32;
  rr_spend_proof : bytes;
  rr_identity : AnonymousPresentation
}.

Record PreparedCorporateReserve := mk_prepared {
  pr_request : PrivateReserveRequest;
  pr_order_wire : bytes;
  pr_signing_key : bytes;
  pr_eligibility_commitment : Digest32;
  pr_side_blinding : Digest32;
  pr_reserve_blinding : Digest32;
  pr_facility_after : FacilityWitness
}.

Record CorporateReserveAuthorization := mk_authorization {
  ra_mandate : ApplicationReserveMandate;
  ra_order_wire : bytes;
  ra_signing_key : bytes;
  ra_eligibility_commitment : Digest32;
  ra_order_authorization_salt : Digest32;
  ra_reserve_reblinding : Digest32;
  ra_reserve_blinding : Digest32;
  ra_side_blinding : Digest32;
  ra_identity : AnonymousPresentation
}.

Record FinalizedReservation `{EdgeCrates} := mk_finalized {
  fr_permit : ReservationPermit;
  fr_admission : ReservationAdmission
}.

Inductive ExpiryOutcome :=
| NeverReserved (state_root : Digest32)
| ReleasedBy (release : ApplicationNoteRelease) (transaction_id block_id : bytes) (height : Z)
    (after_root : Digest32).

Record NativeExpiryResolution := mk_resolution {
  xr_request_id : text;
  xr_reserve_digest : Digest32;
  xr_checked_at : Z;
  xr_outcome : ExpiryOutcome
}.
#[export] Instance expiry_outcome_eq_dec : EqDecision ExpiryOutcome.
Proof. solve_decision. Defined.
#[export] Instance resolution_eq_dec : EqDecision NativeExpiryResolution.
Proof. solve_decision. Defined.

(** [defmi], [zkpi] and [serde_json] on these structures. *)
Class CorporateCrates `{EdgeCrates} := {
  order_authorization_commitment : Digest32 → Digest32 → option Digest32;
  mandate_verify : ApplicationReserveMandate → ApplicationReserveScope → Z → result string ();
  scope_check : ApplicationReserveScope → result string ();
  identity_context : ApplicationReserveMandate → Digest32 → option PresentationContext;
  subject_line_id : AnonymousPresentation → option Digest32;
  credential_digest : AnonymousPresentation → option Digest32;
  identity_handle : Digest32 → Handle;
  note_release_verify : ApplicationNoteRelease → ApplicationReserveScope → Z → Z → result string ();
  Binding : Type;
  binding_eq_dec :: EqDecision Binding;
  binding_hold_id : Binding → Digest32;
  mandate_binding : ApplicationReserveMandate → option Binding;
  permit_escrow_note_id : ReservationPermit → Digest32;
  permit_reserve_receipt_digest : ReservationPermit → Digest32;
  json_request : PrivateReserveRequest → option bytes;
  json_authorization : CorporateReserveAuthorization → option bytes
}.

Section corporate.
Context `{Crypto} `{CorporateCrates}.

Definition scalar (b : Digest32) : result string Scalar :=
  ok_or (s_from_canonical b) "corporate scalar encoding is invalid".

(** [SigningKey::from_bytes(..).hybrid_public_key()]. *)
Definition public_of (key : bytes) : bytes := hybrid_public_key (seeds (mk_signing_key key)).

Definition commitments (w : FacilityWitness) : result string (list Digest32) :=
  collect (λ '(value, blinding), s ← scalar blinding; Ok (compress (commit_u64 value s)))
    (zip (fw_values w) (fw_blindings w)).

(** The source joins its comparisons with [||], so a later operand is evaluated only when the
    earlier ones passed. *)
Definition validate_scope (c : CorporateNativeConfig) (scope : ApplicationReserveScope) :
    result string () :=
  let differs b := fail_if b "DeFMI returned another configured application scope" in
  _ ← scope_check scope;
  _ ← differs (negb (bool_decide (as_venue_id scope = cf_venue_id c))
    || negb (bool_decide (as_defmi_id scope = cf_defmi_id c)));
  binding ← ok_or oclob_manifest_digest "manifest";
  differs (negb (bool_decide (as_application_binding scope = binding))
    || negb (as_amount_bits scope =? 32)).

Definition side_value (o : SecretOrder) : Z :=
  match o_side o with Buy => 0 | Sell => 1 end.

Definition prepared_validate (c : CorporateNativeConfig) (p : PreparedCorporateReserve) :
    result string () :=
  order ← map_err (λ _, "order") (from_secret_wire (pr_order_wire p));
  let request := pr_request p in
  let mandate := rr_mandate request in
  let differs b := fail_if b
    "saved corporate reserve does not match the configured order or funding witness" in
  binding ← ok_or oclob_manifest_digest "manifest";
  _ ← differs (negb (bool_decide (as_application_binding (am_scope mandate) = binding))
    || negb (bool_decide (as_venue_id (am_scope mandate) = cf_venue_id c))
    || negb (bool_decide (as_defmi_id (am_scope mandate) = cf_defmi_id c))
    || negb (bool_decide (am_facility_id mandate = cf_facility_id c))
    || negb (bool_decide (am_asset_id mandate = cf_asset_id c))
    || negb (bool_decide (am_hold_id mandate = o_reservation_id order))
    || negb (bool_decide (rr_order_commitment request = commitment order))
    || negb (bool_decide (am_participant_public mandate = public_of (pr_signing_key p))));
  authorized ← ok_or (order_authorization_commitment (commitment order)
    (rr_order_authorization_salt request)) "authorization commitment";
  _ ← differs (negb (bool_decide (am_request_commitment mandate = authorized)));
  reserve ← scalar (pr_reserve_blinding p);
  _ ← differs (negb (bool_decide (am_amount_commitment mandate
    = compress (commit_u64 (o_reservation_limit order) reserve))));
  side ← scalar (pr_side_blinding p);
  _ ← differs (negb (bool_decide (am_settlement_terms_commitment mandate
    = compress (commit_u64 (side_value order) side))));
  _ ← differs (negb (bool_decide (fw_facility_id (pr_facility_after p) = cf_facility_id c))
    || negb (bool_decide (Some (fw_sequence (pr_facility_after p))
         = checked_add (rr_before_sequence request) 1)));
  after ← commitments (pr_facility_after p);
  _ ← differs (negb (bool_decide (after = vec_to_list (rr_after request))));
  _ ← scalar (rr_reserve_reblinding request);
  Ok ().

Definition authorization_digest (a : CorporateReserveAuthorization) : result string Digest32 :=
  payload ← ok_or (json_authorization a) "serde_json";
  Ok (sha256 (ascii_bytes "OCLOB:CORPORATE-AUTHORIZATION:v1" ++ payload)).

Definition authorization_validate (c : CorporateNativeConfig) (a : CorporateReserveAuthorization) :
    result string () :=
  order ← map_err (λ _, "order") (from_secret_wire (ra_order_wire a));
  let mandate := ra_mandate a in
  _ ← validate_scope c (am_scope mandate);
  _ ← mandate_verify mandate (am_scope mandate) (am_valid_from mandate);
  let handle := compress (h_point (identity_handle (cf_identity_seed c))) in
  let differs b := fail_if b
    "corporate authorization differs from the immutable order or deployment" in
  _ ← differs (negb (bool_decide (am_facility_id mandate = cf_facility_id c))
    || negb (bool_decide (am_asset_id mandate = cf_asset_id c))
    || negb (bool_decide (am_hold_id mandate = o_reservation_id order))
    || negb (am_valid_until mandate =? o_expires_at order)
    || negb (bool_decide (am_participant_handle mandate = handle))
    || negb (bool_decide (am_participant_handle mandate = o_participant_handle order))
    || negb (bool_decide (am_participant_public mandate = public_of (ra_signing_key a))));
  authorized ← ok_or (order_authorization_commitment (commitment order)
    (ra_order_authorization_salt a)) "authorization commitment";
  _ ← differs (negb (bool_decide (am_request_commitment mandate = authorized)));
  reserve ← scalar (ra_reserve_blinding a);
  _ ← differs (negb (bool_decide (am_amount_commitment mandate
    = compress (commit_u64 (o_reservation_limit order) reserve))));
  side ← scalar (ra_side_blinding a);
  _ ← differs (negb (bool_decide (am_settlement_terms_commitment mandate
    = compress (commit_u64 (side_value order) side))));
  subject ← ok_or (subject_line_id (ra_identity a)) "subject";
  _ ← differs (negb (bool_decide (am_entity_commitment mandate = subject)));
  credential ← ok_or (credential_digest (ra_identity a)) "credential";
  _ ← differs (negb (bool_decide (am_credential_digest mandate = credential))
    || negb (bool_decide (ap_nullifier (ra_identity a) = o_dekyx_nullifier order)));
  context ← ok_or (identity_context mandate (pc_scope_digest (ap_context (ra_identity a)))) "context";
  _ ← differs (negb (bool_decide (ap_context (ra_identity a) = context)));
  _ ← scalar (ra_reserve_reblinding a);
  Ok ().

Definition reserve_digest (p : PreparedCorporateReserve) : result string Digest32 :=
  payload ← ok_or (json_request (pr_request p)) "serde_json";
  Ok (sha256 payload).

(** ** Expiry *)

Definition validate_expiry_release (r : ApplicationNoteRelease) (p : PreparedCorporateReserve)
    (now : Z) : result string () :=
  let mandate := rr_mandate (pr_request p) in
  _ ← fail_if (negb (bool_decide (nr_reason r = Expired))
      || negb (bool_decide (nr_hold_id r = am_hold_id mandate)) || negb (nr_sequence r =? 0))
    "unadmitted expiry cannot release another or already used reserve";
  note_release_verify r (am_scope mandate) (am_valid_until mandate) now.

Definition resolution_validate (x : NativeExpiryResolution) (p : PreparedCorporateReserve) :
    result string () :=
  digest ← reserve_digest p;
  _ ← fail_if (negb (bool_decide (xr_reserve_digest x = digest))
      || (xr_checked_at x <=? am_valid_until (rr_mandate (pr_request p)))
      || Nat.eqb (length (xr_request_id x)) 0 || Nat.ltb 64 (length (xr_request_id x)))
    "expiry resolution differs from its original reserve";
  match xr_outcome x with
  | NeverReserved root =>
      fail_if (is_zero root) "expiry resolution has no canonical evidence"
  | ReleasedBy release transaction_id block_id height after_root =>
      _ ← validate_expiry_release release p (xr_checked_at x);
      fail_if (Nat.eqb (length transaction_id) 0 || Nat.ltb 128 (length transaction_id)
          || Nat.eqb (length block_id) 0 || Nat.ltb 128 (length block_id) || (height =? 0)
          || is_zero after_root || bool_decide (after_root = nr_before_root release))
        "expiry receipt is incomplete"
  end.

(** ** The order on a finalized reservation *)

Definition build_reserved_delivery (fuel : nat) (c : CorporateNativeConfig)
    (p : PreparedCorporateReserve) (f : FinalizedReservation) (handle : Handle)
    (node_keys : vec NodeEncryptionKey MPC_PARTIES) (now : Z) (r : Rng) :
    result string (EdgeOrderBundle * SealedSettlementCapability) :=
  _ ← prepared_validate c p;
  order ← map_err (λ _, "order") (from_secret_wire (pr_order_wire p));
  let signer := mk_signing_key (pr_signing_key p) in
  delta ← scalar (rr_reserve_reblinding (pr_request p));
  side ← scalar (pr_side_blinding p);
  reserve ← scalar (pr_reserve_blinding p);
  let '(r, bundle) := create_with_reservation_admission fuel order handle
    (pr_eligibility_commitment p) (fr_admission f) (cf_issuer_public c) side (s_add reserve delta)
    signer node_keys now r in
  bundle ← map_err (λ _, "edge") bundle;
  let '(_, authority) := seal_reservation_authority bundle (fr_permit f) (fr_admission f) delta
    (cf_claim_authorization_endpoint c) r in
  authority ← map_err (λ _, "edge") authority;
  Ok (bundle, authority).

End corporate.
