(* ===== verification/Journal.v ===== *)
(** * The corporate journal and its workers

    [NativeCorporateJournal] of [oclob-node/src/corporate_journal.rs] and its two
    clients, [complete_native_submission] of [corporate_submission.rs] and
    [reconcile_expired_submission] of [corporate_expiry.rs].

    Several processes share one encrypted outbox file.  Each call on the outbox
    takes the file's lock for itself, so another process can run between any two
    calls.  An operation is therefore a program, a tree of the calls it makes on
    the outbox, the clock and the network; what the calls return and what the
    others do in between is up to the semantics in [JournalRuns]. *)

From S2P Require Import Prelude BTree Bytes AppCrypto Orders Matching Circuit MpcRunner Book.
From S2P Require Import Ordering Reservations Eligibility Edge EdgeCreate NodeReceipts NodeState.
From S2P Require Import NodeStore NodeRpc EdgeClient Corporate.
Open Scope string_scope.
Open Scope list_scope.
Open Scope Z_scope.

(** ** Data *)

Record StoredCorporateIntent := mk_intent {
  ci_input_digest : Digest32;
  ci_order_wire : bytes;
  ci_signing_key : bytes;
  ci_eligibility_commitment : Digest32;
  ci_accepted_at : Z;
  ci_expires_at : Z;
  ci_reserve_send_tracking : bool
}.

Record ReserveSendDecision := mk_decision {
  sd_intent_digest : Digest32;
  sd_reserve_digest : Digest32;
  sd_may_send : bool
}.

Record StoredCorporateDelivery `{EdgeCrates} := mk_stored_delivery {
  dv_reserve_digest : Digest32;
  dv_delivery : PreparedEdgeDelivery;
  dv_authority : SealedSettlementCapability
}.

Inductive AuthorizationEndReason := EndExpired | InsufficientFunding.
#[export] Instance end_reason_eq_dec : EqDecision AuthorizationEndReason.
Proof. solve_decision. Defined.

Record EndedCorporateAuthorization := mk_ended {
  ea_request_id : text;
  ea_authorization_digest : Digest32;
  ea_ended_at : Z;
  ea_reason : AuthorizationEndReason
}.

Record BoundRecord (T : Type) := mk_bound {
  bd_version : Z;
  bd_context : Digest32;
  bd_body : T
}.
Arguments mk_bound {T} _ _ _.
Arguments bd_version {T} _.
Arguments bd_context {T} _.
Arguments bd_body {T} _.

(** [serde_json] on the records of a body type. *)
Class Serde (T : Type) := {
  to_json : BoundRecord T → option bytes;
  from_json : bytes → option (BoundRecord T)
}.

(** The body types of the journal; [JsonValue] is [serde_json::Value]. *)
Class JournalJson `{EdgeCrates} := {
  json_context :: Serde Digest32;
  json_intent :: Serde StoredCorporateIntent;
  json_decision :: Serde ReserveSendDecision;
  json_terms :: Serde CorporateReserveAuthorization;
  json_ended :: Serde EndedCorporateAuthorization;
  json_prepared :: Serde PreparedCorporateReserve;
  json_finalized :: Serde FinalizedReservation;
  json_delivery :: Serde StoredCorporateDelivery;
  json_receipt :: Serde EdgeAdmissionReceipt;
  json_resolution :: Serde NativeExpiryResolution;
  json_release :: Serde ApplicationNoteRelease;
  json_cancel :: Serde LifecycleCommand;
  json_witness :: Serde FacilityWitness;
  json_scope :: Serde ApplicationReserveScope;
  JsonValue : Type;
  json_value :: Serde JsonValue;
  json_config : CorporateNativeConfig → option bytes;
  json_cluster : ClusterPublicConfig → option bytes
}.

(** ** Programs *)

Record OutboxEntrySummary := mk_summary {
  oe_request_id : text;
  oe_request_digest : Digest32;
  oe_sequence : Z
}.

Inductive SubmissionCheckpoint :=
| ReserveObservedBeforeJournal
| NodesAcknowledgedBeforeJournal
| ExpiryObservedBeforeJournal.

(** The fields of the chain's answers that the sources read. *)
Record ReservationSnapshot `{CorporateCrates} := mk_reservation_snapshot {
  rs_state_root : Digest32;
  rs_binding : Binding;
  rs_status : string;
  rs_accepted_height : Z;
  rs_sequence : Z;
  rs_head_receipt : Digest32;
  rs_escrow_note_id : Digest32;
  rs_reserve_receipt_digest : Digest32;
  rs_remaining_commitment : Digest32
}.

Record FacilitySnapshot := mk_facility_snapshot {
  fs_state_root : Digest32;
  fs_facility_id : Digest32;
  fs_sequence : Z;
  fs_commitments : vec Digest32 3
}.

Record ReleaseAccepted := mk_release_accepted {
  rx_statement : Digest32;
  rx_tx_id : bytes;
  rx_block_id : bytes;
  rx_height : Z;
  rx_after_root : Digest32
}.

(** The dispatch queue is a second outbox; these are the states its worker tells apart. *)
Inductive OutboxState := AbortedBeforeReserve | ManualReview | OtherState.

Record QueueEntry := mk_queue_entry {
  qe_request_id : text;
  qe_request_digest : Digest32;
  qe_state : OutboxState
}.

Record ClaimedRequest := mk_claimed {
  cq_request_id : text;
  cq_request_digest : Digest32;
  cq_attempt : Z
}.

Inductive QueueAction :=
| Expire (request_id : text) (request_digest : Digest32)
| Dispatch (claimed : ClaimedRequest).

Record CanonicalReceipt := mk_canonical_receipt {
  cp_defmi_network_id : text;
  cp_transaction_id : bytes;
  cp_ledger_height : Z;
  cp_request_digest : Digest32;
  cp_finalized_at : Z
}.

Record MpcAdmissionReceipt := mk_mpc_receipt {
  ma_committee_id : text;
  ma_job_id : text;
  ma_admitted_request_digest : Digest32
}.

Inductive PreparationError := PreparationRetry (message : string) | PreparationUnfunded.

(** What a program asks of the world, and the type of the answer. *)
Inductive call `{CorporateCrates} : Type → Type :=
| Summaries : call (result string (list OutboxEntrySummary))
| SignedRequest (id : text) (digest : Digest32) : call (result string bytes)
| EnqueueFirstSeen (id : text) (request : bytes) (accepted_at expires_at : Z) : call (result string ())
| Clock : call (result string Z)
| Random : call Rng
| Observe (point : SubmissionCheckpoint) : call (result string ())
(** [client_tls_context], [private_client] and [.chain()]: keys and certificates from files. *)
| OpenClient : call (result string ())
| ReadScope : call (result string ApplicationReserveScope)
| SendReserve (request : PrivateReserveRequest) : call (result string FinalizedReservation)
| ReadReservation (hold : Digest32) : call (result string ReservationSnapshot)
| ReadFacility (facility : Digest32) : call (result string FacilitySnapshot)
| ReadStateRoot : call (result string Digest32)
| SendRelease (release : ApplicationNoteRelease) : call (result string ReleaseAccepted)
| SendDelivery (delivery : PreparedEdgeDelivery) : call (result string EdgeAdmissionReceipt)
| CheckFundingSpent (source : Digest32) : call (result string ())
| RecoverWallet : call (result string ())
| QueueSummaries : call (result string (list QueueEntry))
| QueueRequest (id : text) (digest : Digest32) : call (result string bytes)
| QueueEnqueue (id : text) (request : bytes) (accepted_at expires_at : Z) : call (result string bool)
| ClaimNext (now : Z) (healthy : bool) (retry_after : Z) : call (result string (option QueueAction))
| MarkReleasePending (id : text) (digest : Digest32) (now : Z) : call (result string ())
| RecordAbort (id : text) (digest : Digest32) (at_ : Z) : call (result string ())
| RecordRelease (id : text) (digest : Digest32) (receipt : CanonicalReceipt) : call (result string ())
| RecordAdmission (id : text) (digest : Digest32) (now : Z) (receipt : MpcAdmissionReceipt) :
    call (result string ())
| NodeHealthy (node : ClusterNodePublic) : call bool
| PrepareReservation (funding : CorporateNativeConfig) (a : CorporateReserveAuthorization) (now : Z)
    (source_note : option Digest32) : call (result PreparationError PreparedCorporateReserve)
| RecoverFacility : call (result string FacilityWitness).

Inductive prog `{CorporateCrates} (A : Type) : Type :=
| Ret (a : A)
| Call {R : Type} (c : call R) (k : R → prog A).
Arguments Ret {_ _ _ _} _.
Arguments Call {_ _ _ _ _} _ _.

Section programs.
Context `{CorporateCrates}.

Fixpoint prog_bind {A B} (m : prog A) (f : A → prog B) : prog B :=
  match m with
  | Ret a => f a
  | Call c k => Call c (λ x, prog_bind (k x) f)
  end.

(** A program that can fail, as a Rust function with [?]. *)
Definition act (A : Type) : Type := prog (result string A).

#[export] Instance act_ret : MRet act := λ A a, Ret (Ok a).
#[export] Instance act_bind : MBind act := λ A B f m,
  prog_bind m (λ r, match r with Ok a => f a | Err e => Ret (Err e) end).

Definition lift {A} (r : result string A) : act A := Ret r.
Definition perform {A} (c : call (result string A)) : act A := Call c Ret.
Definition draw : act Rng := Call Random (λ r, Ret (Ok r)).

End programs.

(** ** Identifiers *)

Definition is_request_char (c : Z) : bool :=
  ((48 <=? c) && (c <=? 57)) || ((65 <=? c) && (c <=? 90)) || ((97 <=? c) && (c <=? 122))
  || (c =? 45) || (c =? 95).

Definition stages : list string :=
  ["intent"; "reserve"; "admission"; "delivery"; "receipt"; "cancel"; "expiry"; "resolved";
   "reserve-send"; "authorization"; "authorization-end"; "market-input"; "market"].

Definition record_id (stage : string) (id : text) : result string text :=
  _ ← fail_if (Nat.eqb (length id) 0 || Nat.ltb 64 (length id) || negb (forallb is_request_char id)
      || negb (bool_decide (stage ∈ stages))) "corporate request ID or stage is invalid";
  Ok (chars stage ++ chars ":" ++ id).

Definition hex_digit (z : Z) : Z := if z <? 10 then 48 + z else 87 + z.
Definition hex (d : Digest32) : text :=
  flat_map (λ b, [hex_digit (byte_val b / 16); hex_digit (byte_val b mod 16)]) (d_bytes d).

Record NativeCorporateJournal := mk_journal { jn_context : Digest32 }.

Section journal.
Context `{Crypto} `{CorporateCrates} `{!JournalJson} `{!StoreJson}.

Implicit Types (j : NativeCorporateJournal) (id : text).

(** ** Immutable records *)

(** The payload of a record, when the outbox lists it. *)
Definition fetch (id : text) : act (option bytes) :=
  entries ← perform Summaries;
  match list_find (λ s, oe_request_id s = id) entries with
  | None => mret None
  | Some (_, summary) =>
      payload ← perform (SignedRequest id (oe_request_digest summary));
      mret (Some payload)
  end.

Definition get {T} `{!Serde T} (j : NativeCorporateJournal) (id : text) : act (option T) :=
  found ← fetch id;
  match found with
  | None => mret None
  | Some payload =>
      record ← lift (ok_or (from_json payload) "corporate stage record is malformed");
      _ ← lift (fail_if (negb (bd_version record =? 2)
          || negb (bool_decide (bd_context record = jn_context j)))
        "corporate stage record has a legacy schema or belongs to another deployment");
      mret (Some (bd_body record))
  end.

(** The result of the insertion is looked at only when the record is not there afterwards. *)
Definition put_first {T} `{!Serde T} (j : NativeCorporateJournal) (id : text) (body : T)
    (accepted_at expires_at : Z) : act T :=
  stored ← get (T := T) j id;
  match stored with
  | Some stored => mret stored
  | None =>
      payload ← lift (ok_or (to_json (mk_bound 2 (jn_context j) body)) "serde_json");
      prog_bind (perform (EnqueueFirstSeen id payload accepted_at expires_at)) (λ inserted,
        stored ← get (T := T) j id;
        match stored with
        | Some stored => mret stored
        | None =>
            _ ← lift inserted;
            lift (Err "corporate stage was not durable after insertion")
        end)
  end.

(** [open], that is [load] without [initialize]: [marker] is what is found of the policy marker. *)
Definition open_journal (marker : option MarkerFile) (secret : Digest32) (c : CorporateNativeConfig)
    (cluster : ClusterPublicConfig) : act NativeCorporateJournal :=
  _ ← lift (map_err (λ _, "cluster") (cluster_validate cluster));
  _ ← lift (fail_if (negb (bool_decide (cl_deployment_crypto_policy cluster
    = cf_deployment_crypto_policy c))) "deployment policies differ");
  _ ← lift (require_existing_state marker (cf_deployment_crypto_policy c));
  _ ← lift (fail_if (is_zero secret) "corporate journal key is empty");
  config ← lift (ok_or (json_config c) "serde_json");
  public ← lift (ok_or (json_cluster cluster) "serde_json");
  let context := sha256 (ascii_bytes "OCLOB:NATIVE-JOURNAL-CONTEXT:v1" ++ config ++ public) in
  _ ← perform Summaries;
  let journal := mk_journal context in
  stored ← put_first journal (chars "context") context 1 u64_max;
  _ ← lift (fail_if (negb (bool_decide (stored = context)))
    "corporate journal belongs to another deployment");
  mret journal.

Definition stage {T} `{!Serde T} j id (name : string) : act (option T) :=
  key ← lift (record_id name id);
  get j key.

Definition intent j id : act (option StoredCorporateIntent) := stage j id "intent".
Definition authorization j id : act (option CorporateReserveAuthorization) :=
  stage j id "authorization".

(** A stage that has to be there. *)
Definition expect {T} (found : act (option T)) (missing : string) : act T :=
  found ← found;
  lift (ok_or found missing).

Definition save_intent j id (i : StoredCorporateIntent) : act StoredCorporateIntent :=
  key ← lift (record_id "intent" id);
  stored ← put_first j key i (ci_accepted_at i) (ci_expires_at i);
  _ ← lift (fail_if (negb (bool_decide (ci_input_digest stored = ci_input_digest i)))
    "corporate request ID was reused for another order instruction");
  mret stored.

(** [save_stage] of a body of any type. *)
Definition save_stage {T} `{!Serde T} j id (name : string) (body : T) (i : StoredCorporateIntent) :
    act T :=
  _ ← lift (fail_if (negb (bool_decide
      (name ∈ ["reserve"; "admission"; "delivery"; "market-input"; "market"])))
    "unknown corporate submission stage");
  key ← lift (record_id name id);
  put_first j key body (ci_accepted_at i) (ci_expires_at i).

Definition read_authorization_scope (c : CorporateNativeConfig) : act ApplicationReserveScope :=
  _ ← perform OpenClient;
  scope ← perform ReadScope;
  _ ← lift (validate_scope c scope);
  mret scope.

Definition authorization_scope j (c : CorporateNativeConfig) : act ApplicationReserveScope :=
  saved ← get (T := ApplicationReserveScope) j (chars "authorization-scope");
  saved ← (match saved with
    | Some saved => mret saved
    | None =>
        scope ← read_authorization_scope c;
        put_first j (chars "authorization-scope") scope 1 u64_max
    end : act ApplicationReserveScope);
  _ ← lift (validate_scope c saved);
  mret saved.

(** The comparison [save_authorization] makes before and after its write. *)
Definition authorization_differs (a : CorporateReserveAuthorization) (i : StoredCorporateIntent) :
    bool :=
  negb (bool_decide (ra_order_wire a = ci_order_wire i))
  || negb (bool_decide (ra_signing_key a = ci_signing_key i))
  || negb (bool_decide (ra_eligibility_commitment a = ci_eligibility_commitment i))
  || (am_valid_from (ra_mandate a) <? ci_accepted_at i)
  || negb (am_valid_until (ra_mandate a) =? ci_expires_at i).

Definition save_authorization j id (a : CorporateReserveAuthorization) (c : CorporateNativeConfig) :
    act CorporateReserveAuthorization :=
  i ← expect (intent j id) "authorization has no durable corporate intent";
  _ ← lift (authorization_validate c a);
  _ ← lift (fail_if (authorization_differs a i) "authorization differs from corporate intake");
  key ← lift (record_id "authorization" id);
  saved ← put_first j key a (ci_accepted_at i) (ci_expires_at i);
  _ ← lift (authorization_validate c saved);
  _ ← lift (fail_if (authorization_differs saved i)
    "saved authorization differs from corporate intake");
  mret saved.

(** ** The send fence *)

Definition send_binding j id (digest : Digest32) : act Digest32 :=
  a ← authorization j id;
  match a with
  | None => mret digest
  | Some a =>
      binding ← lift (authorization_digest a);
      if bool_decide (digest = binding) then mret binding
      else
        prepared ← expect (stage (T := PreparedCorporateReserve) j id "reserve")
          "authorized send lost its prepared funding";
        expected ← lift (reserve_digest prepared);
        let request := pr_request prepared in
        _ ← lift (fail_if (negb (bool_decide (digest = expected))
            || negb (bool_decide (rr_mandate request = ra_mandate a))
            || negb (bool_decide (pr_order_wire prepared = ra_order_wire a))
            || negb (bool_decide (rr_order_authorization_salt request = ra_order_authorization_salt a))
            || negb (bool_decide (rr_reserve_reblinding request = ra_reserve_reblinding a)))
          "prepared send differs from the original signed authorization");
        mret binding
  end.

Definition choose_reserve_send j id (digest : Digest32) (may_send : bool) (now : Z) : act bool :=
  i ← expect (intent j id) "reserve send has no durable intent";
  digest ← send_binding j id digest;
  key ← lift (record_id "reserve-send" id);
  decision ← put_first j key (mk_decision (ci_input_digest i) digest may_send) now u64_max;
  _ ← lift (fail_if (negb (bool_decide (sd_intent_digest decision = ci_input_digest i))
      || negb (bool_decide (sd_reserve_digest decision = digest)))
    "reserve send decision differs from the original request");
  mret (sd_may_send decision).

Definition mark_reserve_send_started j id (digest : Digest32) (now : Z) : act () :=
  may_send ← choose_reserve_send j id digest true now;
  lift (fail_if (negb may_send) "unsent expiry fence prevents this reserve send").

(** Whether one of the stages is recorded, read as [serde_json::Value]. *)
Fixpoint any_stage j id (names : list string) : act bool :=
  match names with
  | [] => mret false
  | name :: names =>
      found ← stage (T := JsonValue) j id name;
      match found with Some _ => mret true | None => any_stage j id names end
  end.

Definition seal_never_dispatched j id (digest : Digest32) (now : Z) : act bool :=
  i ← expect (intent j id) "unsent expiry has no intent";
  if negb (ci_reserve_send_tracking i) || (now <=? ci_expires_at i) then mret false
  else
    advanced ← any_stage j id ["admission"; "delivery"; "receipt"];
    if (advanced : bool) then mret false
    else
      may_send ← choose_reserve_send j id digest false now;
      mret (negb may_send).

(** ** Ended authorizations *)

Definition ended_authorization j id : act (option EndedCorporateAuthorization) :=
  ended ← stage (T := EndedCorporateAuthorization) j id "authorization-end";
  match ended with
  | None => mret None
  | Some e =>
      a ← expect (authorization j id) "ended authorization lost its terms";
      i ← expect (intent j id) "ended authorization lost its intent";
      decision ← expect (stage (T := ReserveSendDecision) j id "reserve-send")
        "ended authorization has no send fence";
      let refuse b := fail_if b "ended authorization is inconsistent or could have been sent" in
      _ ← lift (refuse (negb (bool_decide (ea_request_id e = id))));
      digest ← lift (authorization_digest a);
      _ ← lift (refuse (negb (bool_decide (ea_authorization_digest e = digest))
          || negb (ci_reserve_send_tracking i) || sd_may_send decision
          || negb (bool_decide (sd_intent_digest decision = ci_input_digest i))
          || negb (bool_decide (sd_reserve_digest decision = ea_authorization_digest e))
          || (ea_ended_at e <? ci_accepted_at i)
          || (bool_decide (ea_reason e = EndExpired) && (ea_ended_at e <=? ci_expires_at i))));
      mret (Some e)
  end.

Definition end_unprepared_authorization j id (now : Z) (reason : AuthorizationEndReason) :
    act EndedCorporateAuthorization :=
  saved ← ended_authorization j id;
  match saved with
  | Some e => mret e
  | None =>
      i ← expect (intent j id) "ending authorization has no intent";
      _ ← lift (fail_if (negb (ci_reserve_send_tracking i) || (now <? ci_accepted_at i)
          || (bool_decide (reason = EndExpired) && (now <=? ci_expires_at i)))
        "authorization cannot end before its permitted boundary");
      advanced ← any_stage j id ["reserve"; "admission"; "delivery"; "receipt"];
      _ ← lift (fail_if advanced
        "prepared or delivered authorization requires canonical reconciliation");
      a ← expect (authorization j id) "ending authorization has no signed terms";
      digest ← lift (authorization_digest a);
      may_send ← choose_reserve_send j id digest false now;
      _ ← lift (fail_if may_send "authorization has an ambiguous send");
      key ← lift (record_id "authorization-end" id);
      _ ← put_first j key (mk_ended id digest now reason) now u64_max;
      expect (ended_authorization j id) "authorization end was not durable"
  end.

(** ** Turns *)

(** The request a terminal record is about: [receipt:], [resolved:] or [authorization-end:]. *)
Definition completes (r : OutboxEntrySummary) : option text :=
  match MpcRunner.strip_prefix (chars "receipt:") (oe_request_id r) with
  | Some rest => Some rest
  | None =>
      match MpcRunner.strip_prefix (chars "resolved:") (oe_request_id r) with
      | Some rest => Some rest
      | None => MpcRunner.strip_prefix (chars "authorization-end:") (oe_request_id r)
      end
  end.

(** [min_by_key]: the first of the smallest. *)
Definition min_by_key {A} (key : A → Z) (l : list A) : option A :=
  foldl (λ best a, match best with
    | Some b => Some (if key a <? key b then a else b)
    | None => Some a
    end) None l.

(** The intents whose request has no terminal record. *)
Definition open_intents (records : list OutboxEntrySummary) : list OutboxEntrySummary :=
  let completed := omap completes records in
  List.filter (λ r, match MpcRunner.strip_prefix (chars "intent:") (oe_request_id r) with
    | Some rest => negb (bool_decide (rest ∈ completed))
    | None => false
    end) records.

Definition require_turn j id : act () :=
  target ← lift (record_id "intent" id);
  records ← perform Summaries;
  _ ← lift (fail_if (existsb (λ r, bool_decide (oe_request_id r = chars "resolved:" ++ id)
      || bool_decide (oe_request_id r = chars "authorization-end:" ++ id)) records)
    "corporate request already ended without admission");
  if bool_decide (id ∈ omap completes records) then mret ()
  else
    lift (fail_if (match min_by_key oe_sequence (open_intents records) with
        | Some r => negb (bool_decide (oe_request_id r = target))
        | None => false
        end)
      "an earlier corporate request must be admitted or reconciled first").

Definition admitted_request_ids j : act (list text) :=
  records ← perform Summaries;
  mret (omap (λ r, MpcRunner.strip_prefix (chars "receipt:") (oe_request_id r)) records).

(** ** Expiry *)

Definition expiry_release j id : act (option ApplicationNoteRelease) := stage j id "expiry".

Definition save_expiry_release j id (r : ApplicationNoteRelease) (p : PreparedCorporateReserve)
    (now : Z) : act ApplicationNoteRelease :=
  _ ← lift (validate_expiry_release r p now);
  key ← lift (record_id "expiry" id);
  saved ← put_first j key r now u64_max;
  _ ← lift (validate_expiry_release saved p now);
  mret saved.

Definition verify_unsent_resolution j (x : NativeExpiryResolution) : act () :=
  match xr_outcome x with
  | NeverReserved _ =>
      i ← expect (intent j (xr_request_id x)) "absence record lost its intent";
      decision ← expect (stage (T := ReserveSendDecision) j (xr_request_id x) "reserve-send")
        "absence record has no atomic unsent fence";
      let refuse b := fail_if b "absence record cannot exclude an ambiguous or legacy send" in
      _ ← lift (refuse (negb (ci_reserve_send_tracking i) || sd_may_send decision
        || negb (bool_decide (sd_intent_digest decision = ci_input_digest i))));
      binding ← send_binding j (xr_request_id x) (xr_reserve_digest x);
      lift (refuse (negb (bool_decide (sd_reserve_digest decision = binding))))
  | ReleasedBy _ _ _ _ _ => mret ()
  end.

Definition expiry_result_id (p : PreparedCorporateReserve) : text :=
  chars "expiry-result:" ++ hex (am_hold_id (rr_mandate (pr_request p))).

Definition expiry_resolution j (p : PreparedCorporateReserve) : act (option NativeExpiryResolution) :=
  x ← get (T := NativeExpiryResolution) j (expiry_result_id p);
  match x with
  | None => mret None
  | Some x =>
      _ ← lift (resolution_validate x p);
      _ ← verify_unsent_resolution j x;
      mret (Some x)
  end.

Definition save_expiry_resolution j (x : NativeExpiryResolution) (p : PreparedCorporateReserve) :
    act NativeExpiryResolution :=
  _ ← lift (resolution_validate x p);
  _ ← verify_unsent_resolution j x;
  stored ← put_first j (expiry_result_id p) x (xr_checked_at x) u64_max;
  _ ← lift (resolution_validate stored p);
  _ ← lift (fail_if (negb (bool_decide (stored = x)))
    "expiry result conflicts with earlier canonical evidence");
  mret stored.

Definition complete_expiry j (x : NativeExpiryResolution) (p : PreparedCorporateReserve) : act () :=
  _ ← lift (resolution_validate x p);
  saved ← expiry_resolution j p;
  _ ← lift (fail_if (negb (bool_decide (saved = Some x)))
    "expiry completion has no durable canonical evidence");
  key ← lift (record_id "resolved" (xr_request_id x));
  stored ← put_first j key x (xr_checked_at x) u64_max;
  lift (fail_if (negb (bool_decide (stored = x))) "expiry completion conflicts with saved outcome").

Definition completed_expiry j id : act (option NativeExpiryResolution) :=
  x ← stage (T := NativeExpiryResolution) j id "resolved";
  match x with
  | None => mret None
  | Some x =>
      p ← expect (stage (T := PreparedCorporateReserve) j id "reserve")
        "completed expiry lost its reserve";
      _ ← lift (resolution_validate x p);
      let differs b := fail_if b "completed expiry differs from saved canonical evidence" in
      _ ← lift (differs (negb (bool_decide (xr_request_id x = id))));
      saved ← expiry_resolution j p;
      _ ← lift (differs (negb (bool_decide (saved = Some x))));
      mret (Some x)
  end.

(** [was_never_reserved]: the loop over the ended authorizations, then the resolution. *)
Fixpoint ended_for j (p : PreparedCorporateReserve) (records : list OutboxEntrySummary) : act bool :=
  match records with
  | [] => mret false
  | r :: records =>
      match MpcRunner.strip_prefix (chars "authorization-end:") (oe_request_id r) with
      | None => ended_for j p records
      | Some id =>
          ended ← ended_authorization j id;
          same ← (match ended with
            | None => mret false
            | Some _ =>
                a ← authorization j id;
                mret match a with
                  | Some a => bool_decide (am_hold_id (ra_mandate a)
                      = am_hold_id (rr_mandate (pr_request p)))
                  | None => false
                  end
            end : act bool);
          if (same : bool) then
            digest ← lift (reserve_digest p);
            _ ← send_binding j id digest;
            mret true
          else ended_for j p records
      end
  end.

Definition was_never_reserved j (p : PreparedCorporateReserve) : act bool :=
  records ← perform Summaries;
  ended ← ended_for j p records;
  if (ended : bool) then mret true
  else
    x ← expiry_resolution j p;
    mret match x with
      | Some x => match xr_outcome x with NeverReserved _ => true | _ => false end
      | None => false
      end.

(** ** Cancellation, receipts and funding *)

Definition cancellation j id : act (option LifecycleCommand) := stage j id "cancel".

Definition save_cancellation j id (command : LifecycleCommand) : act LifecycleCommand :=
  i ← expect (intent j id) "cancel has no saved corporate intent";
  receipt ← expect (stage (T := EdgeAdmissionReceipt) j id "receipt") "cancel has no admitted order";
  delivery ← expect (stage (T := StoredCorporateDelivery) j id "delivery")
    "cancel has no saved delivery";
  _ ← lift (fail_if (negb (bool_decide (pd_manifest (dv_delivery delivery) = er_manifest receipt))
      || negb (bool_decide (vk_fingerprint (verifying_key (mk_signing_key (ci_signing_key i)))
           = m_signer (er_manifest receipt)))
      || negb (bool_decide (lc_reason command = Cancelled)))
    "cancel does not belong to the originally admitted corporate order");
  _ ← lift (command_verify command (er_manifest receipt) (lc_issued_at command));
  key ← lift (record_id "cancel" id);
  saved ← put_first j key command (lc_issued_at command) (lc_expires_at command);
  _ ← lift (command_verify saved (er_manifest receipt) (lc_issued_at saved));
  mret saved.

(** One persisted ciphertext pair against the receipt; a party outside the arrays would panic. *)
Definition check_acknowledged (r : EdgeAdmissionReceipt)
    (d : Z * SealedPartyShare * SealedCapabilityKeyShare) : result string () :=
  let '(party, share, key) := d in
  order_share ← ok_or (vec_to_list (er_order_share_digests r) !! Z.to_nat party) "panic";
  key_share ← ok_or (vec_to_list (er_capability_key_share_digests r) !! Z.to_nat party) "panic";
  fail_if (negb (bool_decide (order_share = share_wire_digest share))
      || negb (bool_decide (key_share = sealed_key_wire_digest key)))
    "stored receipt does not acknowledge the persisted ciphertexts".

Definition verify_receipt (r : EdgeAdmissionReceipt) (d : StoredCorporateDelivery)
    (cluster : ClusterPublicConfig) (original_time : Z) : result string () :=
  _ ← map_err (λ _, "delivery") (delivery_validate (dv_delivery d) cluster original_time);
  _ ← map_err (λ _, "receipt") (edge_receipt_verify r cluster original_time);
  _ ← fail_if (negb (bool_decide (er_manifest r = pd_manifest (dv_delivery d))))
    "stored receipt belongs to another encrypted delivery";
  for_each (λ _ d, check_acknowledged r d) () (pd_deliveries (dv_delivery d)).

Definition save_receipt j id (r : EdgeAdmissionReceipt) (d : StoredCorporateDelivery)
    (cluster : ClusterPublicConfig) (i : StoredCorporateIntent) : act EdgeAdmissionReceipt :=
  _ ← lift (verify_receipt r d cluster (ci_accepted_at i));
  key ← lift (record_id "receipt" id);
  stored ← put_first j key r (ci_accepted_at i) (ci_expires_at i);
  _ ← lift (verify_receipt stored d cluster (ci_accepted_at i));
  mret stored.

Definition funding_id (facility : Digest32) (sequence : Z) : text :=
  chars "funding:" ++ hex facility ++ chars ":" ++ dec sequence.

Definition save_funding_witness j (w : FacilityWitness) : act () :=
  expected ← lift (commitments w);
  stored ← put_first j (funding_id (fw_facility_id w) (fw_sequence w)) w 1 u64_max;
  let differs b := fail_if b
    "two different corporate funding witnesses name the same canonical generation" in
  _ ← lift (differs (negb (bool_decide (fw_facility_id stored = fw_facility_id w))
    || negb (fw_sequence stored =? fw_sequence w)));
  found ← lift (commitments stored);
  lift (differs (negb (bool_decide (found = expected)))).

(** The bodies of the records with the prefix, in order. *)
Fixpoint read_all {T} `{!Serde T} j (missing : string) (records : list OutboxEntrySummary) :
    act (list T) :=
  match records with
  | [] => mret []
  | r :: records =>
      body ← expect (get (T := T) j (oe_request_id r)) missing;
      rest ← read_all j missing records;
      mret (body :: rest)
  end.

Definition has_prefix (prefix : text) (r : OutboxEntrySummary) : bool :=
  bool_decide (MpcRunner.strip_prefix prefix (oe_request_id r) ≠ None).

Definition reservations j : act (list PreparedCorporateReserve) :=
  records ← perform Summaries;
  read_all j "saved reserve disappeared"
    (List.filter (has_prefix (chars "reserve:"))
      (sort_by (λ a b, oe_sequence a <=? oe_sequence b) records)).

Fixpoint find_admitted j (reservation : Digest32)
    (found : option (PreparedCorporateReserve * FinalizedReservation))
    (records : list OutboxEntrySummary) :
    act (option (PreparedCorporateReserve * FinalizedReservation)) :=
  match records with
  | [] => mret found
  | r :: records =>
      match MpcRunner.strip_prefix (chars "reserve:") (oe_request_id r) with
      | None => find_admitted j reservation found records
      | Some id =>
          p ← expect (get (T := PreparedCorporateReserve) j (oe_request_id r))
            "saved reserve disappeared";
          if negb (bool_decide (am_hold_id (rr_mandate (pr_request p)) = reservation))
          then find_admitted j reservation found records
          else
            _ ← lift (fail_if (match found with Some _ => true | None => false end)
              "corporate journal contains duplicate reservation ownership");
            finalized ← expect (stage (T := FinalizedReservation) j id "admission")
              "claim authorization reservation has no durable permit";
            _ ← expect (stage (T := EdgeAdmissionReceipt) j id "receipt")
              "claim authorization reservation was not admitted to the market";
            find_admitted j reservation (Some (p, finalized)) records
      end
  end.

Definition admitted_reservation j (reservation : Digest32) :
    act (PreparedCorporateReserve * FinalizedReservation) :=
  records ← perform Summaries;
  found ← find_admitted j reservation None records;
  lift (ok_or found "claim authorization reservation is not owned by this journal").

(** [max_by_key]: the last of the largest. *)
Definition max_by_key {A} (key : A → Z) (l : list A) : option A :=
  foldl (λ best a, match best with
    | Some b => Some (if key b <=? key a then a else b)
    | None => Some a
    end) None l.

Definition latest_funding j (c : CorporateNativeConfig) : act CorporateNativeConfig :=
  records ← perform Summaries;
  let prefix := chars "funding:" ++ hex (cf_facility_id c) ++ chars ":" in
  let numbered := omap (λ r,
    n ← MpcRunner.strip_prefix prefix (oe_request_id r);
    sequence ← parse_u64 n;
    Some (sequence, r)) records in
  match max_by_key fst numbered with
  | None => mret c
  | Some (sequence, r) =>
      w ← expect (get (T := FacilityWitness) j (oe_request_id r)) "funding witness disappeared";
      _ ← lift (fail_if (negb (bool_decide (fw_facility_id w = cf_facility_id c))
          || negb (fw_sequence w =? sequence))
        "corporate funding witness index is inconsistent");
      _ ← lift (commitments w);
      mret {| cf_deployment_crypto_policy := cf_deployment_crypto_policy c; cf_host := cf_host c;
        cf_port := cf_port c; cf_server_name := cf_server_name c;
        cf_claim_authorization_endpoint := cf_claim_authorization_endpoint c;
        cf_venue_id := cf_venue_id c; cf_defmi_id := cf_defmi_id c;
        cf_issuer_public := cf_issuer_public c; cf_facility_id := cf_facility_id c;
        cf_asset_id := cf_asset_id c; cf_facility_values := fw_values w;
        cf_facility_blindings := fw_blindings w;
        cf_wallet_spend_secret := cf_wallet_spend_secret c;
        cf_wallet_opening_seed := cf_wallet_opening_seed c;
        cf_credential_custody_seed := cf_credential_custody_seed c;
        cf_identity_seed := cf_identity_seed c |}
  end.

(** ** Sending a reservation and an order *)

Definition verify_finalized (c : CorporateNativeConfig) (p : PreparedCorporateReserve)
    (f : FinalizedReservation) (now : Z) : act () :=
  _ ← lift (prepared_validate c p);
  let request := pr_request p in
  let mandate := rr_mandate request in
  delta ← lift (scalar (rr_reserve_reblinding request));
  _ ← lift (fail_if (negb (permit_check (fr_permit f) (as_application_binding (am_scope mandate))
    (cf_defmi_id c) (cf_issuer_public c) now)) "permit");
  _ ← lift (fail_if (negb (verify_authority (fr_admission f) (fr_permit f) delta)) "authority");
  _ ← perform OpenClient;
  canonical ← perform (ReadReservation (am_hold_id mandate));
  binding ← lift (ok_or (mandate_binding mandate) "binding");
  _ ← lift (fail_if (negb (bool_decide (rs_binding canonical = binding))
      || negb (bool_decide (rs_status canonical = "active")) || (rs_accepted_height canonical =? 0)
      || negb (rs_sequence canonical =? 0)
      || negb (bool_decide (rs_escrow_note_id canonical = permit_escrow_note_id (fr_permit f)))
      || negb (bool_decide (rs_reserve_receipt_digest canonical
           = permit_reserve_receipt_digest (fr_permit f))))
    "corporate canonical reserve readback differs from the issued permit");
  let witness := pr_facility_after p in
  facility ← perform (ReadFacility (fw_facility_id witness));
  expected ← lift (commitments witness);
  lift (fail_if ((fs_sequence facility <? fw_sequence witness)
      || ((fs_sequence facility =? fw_sequence witness)
          && negb (bool_decide (vec_to_list (fs_commitments facility) = expected))))
    "canonical facility differs from the reserved witness generation").

Definition finalize_reservation (c : CorporateNativeConfig) (p : PreparedCorporateReserve) (now : Z) :
    act FinalizedReservation :=
  _ ← lift (prepared_validate c p);
  _ ← perform OpenClient;
  finalized ← perform (SendReserve (pr_request p));
  _ ← verify_finalized c p finalized now;
  mret finalized.

Fixpoint to_array {A} (n : nat) (l : list A) : option (vec A n) :=
  match n, l with
  | O, [] => Some [#]
  | S n, x :: l => v ← to_array n l; Some (x ::: v)
  | _, _ => None
  end.

Record CompletedNativeSubmission := mk_submission {
  cs_receipt : EdgeAdmissionReceipt;
  cs_authority : SealedSettlementCapability;
  cs_reused_completed_receipt : bool
}.

(** The finalized reservation, from the journal or by sending the durable request. *)
Definition obtain_reservation j (c : CorporateNativeConfig) id (i : StoredCorporateIntent)
    (p : PreparedCorporateReserve) (digest : Digest32) : act FinalizedReservation :=
  saved ← stage (T := FinalizedReservation) j id "admission";
  match saved with
  | Some saved =>
      now ← perform Clock;
      _ ← verify_finalized c p saved now;
      mret saved
  | None =>
      now ← perform Clock;
      _ ← mark_reserve_send_started j id digest now;
      now ← perform Clock;
      finalized ← finalize_reservation c p now;
      _ ← perform (Observe ReserveObservedBeforeJournal);
      save_stage j id "admission" finalized i
  end.

(** The delivery, from the journal or built once and saved before it is sent. *)
Definition obtain_delivery (fuel : nat) j (c : CorporateNativeConfig) (cluster : ClusterPublicConfig)
    id (i : StoredCorporateIntent) (p : PreparedCorporateReserve) (digest : Digest32) :
    act StoredCorporateDelivery :=
  saved ← stage (T := StoredCorporateDelivery) j id "delivery";
  match saved with
  | Some saved => mret saved
  | None =>
      finalized ← obtain_reservation j c id i p digest;
      _ ← save_funding_witness j (pr_facility_after p);
      node_keys ← lift (ok_or (to_array MPC_PARTIES (map cn_share_encryption_key (cl_nodes cluster)))
        "cluster must have seven node keys");
      let handle := identity_handle (cf_identity_seed c) in
      now ← perform Clock;
      rng ← draw;
      '(bundle, authority) ← lift (build_reserved_delivery fuel c p finalized handle node_keys now rng);
      save_stage j id "delivery" (mk_stored_delivery _ _ digest (from_bundle bundle) authority) i
  end.

Definition complete_native_submission (fuel : nat) (c : CorporateNativeConfig)
    (cluster : ClusterPublicConfig) j id (source_note : option Digest32) :
    act CompletedNativeSubmission :=
  _ ← require_turn j id;
  i ← expect (intent j id) "submission has no durable intent";
  p ← expect (stage (T := PreparedCorporateReserve) j id "reserve")
    "submission has no durable signed reserve";
  _ ← lift (prepared_validate c p);
  _ ← lift (fail_if (negb (bool_decide (pr_order_wire p = ci_order_wire i))
      || negb (bool_decide (pr_signing_key p = ci_signing_key i))
      || negb (bool_decide (pr_eligibility_commitment p = ci_eligibility_commitment i)))
    "saved reserve belongs to another durable corporate intent");
  digest ← lift (reserve_digest p);
  completed ← stage (T := EdgeAdmissionReceipt) j id "receipt";
  delivery ← obtain_delivery fuel j c cluster id i p digest;
  _ ← lift (fail_if (negb (bool_decide (dv_reserve_digest delivery = digest)))
    "saved ciphertexts name another reserve request");
  receipt ← (match completed with
    | Some receipt => mret receipt
    | None =>
        _ ← perform OpenClient;
        _ ← lift (map_err (λ _, "distributor") (distributor_new cluster (30 * SECOND)));
        receipt ← perform (SendDelivery (dv_delivery delivery));
        _ ← perform (Observe NodesAcknowledgedBeforeJournal);
        save_receipt j id receipt delivery cluster i
    end : act EdgeAdmissionReceipt);
  _ ← lift (verify_receipt receipt delivery cluster (ci_accepted_at i));
  _ ← (match source_note with
    | Some source => perform (CheckFundingSpent source)
    | None => mret ()
    end : act ());
  mret {| cs_receipt := receipt; cs_authority := dv_authority delivery;
          cs_reused_completed_receipt := match completed with Some _ => true | None => false end |}.

(** ** Reconciling an expired request *)

(** The release of the exact original reserve, from the journal or prepared once. *)
Definition obtain_release j id (p : PreparedCorporateReserve) (root : Digest32)
    (head : ReservationSnapshot) (now : Z) : act ApplicationNoteRelease :=
  saved ← expiry_release j id;
  match saved with
  | Some saved => mret saved
  | None =>
      _ ← lift (fail_if (negb (bool_decide (rs_status head = "active")) || negb (rs_sequence head =? 0))
        "external release needs its canonical transaction receipt");
      digest ← lift (reserve_digest p);
      save_expiry_release j id {|
        nr_scope := am_scope (rr_mandate (pr_request p)); nr_before_root := root;
        nr_operation_id := sha256 (ascii_bytes "OCLOB:CORPORATE-EXPIRY:v1" ++ d_bytes digest);
        nr_hold_id := binding_hold_id (rs_binding head); nr_sequence := rs_sequence head;
        nr_previous_receipt := rs_head_receipt head; nr_reason := Expired;
        nr_committee_public := []; nr_pq_committee := None; nr_signature := [];
        nr_pq_authorization := None |} p now
  end.

(** What the chain and the fence say about the reserve. *)
Definition observe_outcome j (c : CorporateNativeConfig) id (p : PreparedCorporateReserve) (now : Z) :
    act ExpiryOutcome :=
  let mandate := rr_mandate (pr_request p) in
  root ← perform ReadStateRoot;
  facility ← perform (ReadFacility (cf_facility_id c));
  _ ← lift (fail_if (negb (bool_decide (fs_state_root facility = root))
      || negb (bool_decide (fs_facility_id facility = cf_facility_id c)))
    "expiry facility read crossed canonical context");
  let unchanged := (fs_sequence facility =? rr_before_sequence (pr_request p))
    && bool_decide (fs_commitments facility = rr_before (pr_request p)) in
  unsent ← (if unchanged then
      digest ← lift (reserve_digest p);
      seal_never_dispatched j id digest now
    else mret false : act bool);
  if (unsent : bool) then
    again ← perform ReadStateRoot;
    _ ← lift (fail_if (negb (bool_decide (again = root)))
      "absence observation crossed canonical generations");
    mret (NeverReserved root)
  else
    head ← perform (ReadReservation (am_hold_id mandate));
    binding ← lift (ok_or (mandate_binding mandate) "binding");
    _ ← lift (fail_if (negb (bool_decide (rs_state_root head = root))
        || negb (bool_decide (rs_binding head = binding)) || (1 <? rs_sequence head))
      "expiry read does not identify the original unfilled reserve");
    release ← obtain_release j id p root head now;
    _ ← lift (validate_expiry_release release p now);
    accepted ← perform (SendRelease release);
    after ← perform (ReadReservation (nr_hold_id release));
    _ ← lift (fail_if (negb (bool_decide (rs_status after = "released"))
        || negb (rs_sequence after =? 1) || negb (bool_decide (rs_binding after = binding))
        || negb (bool_decide (rs_head_receipt after = rx_statement accepted))
        || negb (bool_decide (rs_remaining_commitment after = am_amount_commitment mandate)))
      "expiry did not terminate the exact original reserve");
    mret (ReleasedBy release (rx_tx_id accepted) (rx_block_id accepted) (rx_height accepted)
      (rx_after_root accepted)).

Definition reconcile_expired_submission (c : CorporateNativeConfig) j id (now : Z) :
    act NativeExpiryResolution :=
  p ← expect (stage (T := PreparedCorporateReserve) j id "reserve")
    "expired request has no saved signed reserve";
  _ ← lift (prepared_validate c p);
  _ ← lift (fail_if (now <=? am_valid_until (rr_mandate (pr_request p)))
    "canonical reserve deadline has not elapsed");
  _ ← perform OpenClient;
  saved ← expiry_resolution j p;
  x ← (match saved with
    | Some saved =>
        _ ← lift (resolution_validate saved p);
        _ ← lift (fail_if (negb (bool_decide (xr_request_id saved = id)))
          "expiry record belongs to another corporate request");
        mret saved
    | None =>
        outcome ← observe_outcome j c id p now;
        digest ← lift (reserve_digest p);
        let x := mk_resolution id digest now outcome in
        _ ← lift (resolution_validate x p);
        _ ← perform (Observe ExpiryObservedBeforeJournal);
        save_expiry_resolution j x p
    end : act NativeExpiryResolution);
  _ ← perform RecoverWallet;
  _ ← complete_expiry j x p;
  mret x.

End journal.
