(* ===== verification/JournalRuns.v ===== *)
(** * Programs of the journal on a shared file

    The outbox file as other processes see it, one program among them, and pools
    of programs.  The outbox is a crate: what it promises is [OutboxLaws], an
    append-only list of entries in which the first request of an identifier
    stays.  Any call on it can fail without effect, and an insertion can succeed
    and be reported as failed. *)

From S2P Require Import Prelude BTree Bytes AppCrypto Orders Matching Circuit MpcRunner Book.
From S2P Require Import Ordering Reservations Eligibility Edge EdgeCreate NodeReceipts NodeState.
From S2P Require Import NodeStore NodeRpc EdgeClient Corporate Journal.
Open Scope string_scope.
Open Scope list_scope.
Open Scope Z_scope.

Class OutboxFile := {
  Box : Type;
  box_summaries : Box → result string (list OutboxEntrySummary);
  box_signed_request : text → Digest32 → Box → result string bytes;
  box_enqueue : text → bytes → Z → Z → Box → Box * result string ()
}.

Record Entry := mk_entry {
  en_id : text;
  en_digest : Digest32;
  en_sequence : Z;
  en_request : bytes
}.

Definition summary_of (e : Entry) : OutboxEntrySummary :=
  mk_summary (en_id e) (en_digest e) (en_sequence e).

Class OutboxLaws `{OutboxFile} := {
  entries_of : Box → list Entry;
  entries_ids b : NoDup (map en_id (entries_of b));
  summaries_entries b l : box_summaries b = Ok l → l ≡ₚ map summary_of (entries_of b);
  signed_request_entry id digest b x : box_signed_request id digest b = Ok x →
    ∃ e, e ∈ entries_of b ∧ en_id e = id ∧ en_request e = x;
  enqueue_entries id x accepted_at expires_at b :
    let b' := (box_enqueue id x accepted_at expires_at b).1 in
    entries_of b' = entries_of b
    ∨ (id ∉ map en_id (entries_of b))
      ∧ ∃ e, entries_of b' = entries_of b ++ [e] ∧ en_id e = id ∧ en_request e = x
}.

Section runs.
Context `{CorporateCrates} `{OutboxLaws}.

(** ** Steps *)

(** The file after any number of insertions. *)
Definition grow (b b' : Box) : Prop := entries_of b `prefix_of` entries_of b'.

Lemma grow_refl b : grow b b.
Proof. unfold grow. done. Qed.
Lemma grow_trans b1 b2 b3 : grow b1 b2 → grow b2 b3 → grow b1 b3.
Proof. unfold grow. apply transitivity. Qed.

(** What a call may answer and leave. *)
Definition call_step {R} (c : call R) : Box → R → Box → Prop :=
  match c in call R return Box → R → Box → Prop with
  | Summaries => λ b x b', b' = b ∧ (x = box_summaries b ∨ ∃ e, x = Err e)
  | SignedRequest id digest => λ b x b',
      b' = b ∧ (x = box_signed_request id digest b ∨ ∃ e, x = Err e)
  | EnqueueFirstSeen id request accepted_at expires_at => λ b x b',
      (b', x) = box_enqueue id request accepted_at expires_at b
      ∨ ∃ e, x = Err e
        ∧ (b' = b ∨ b' = (box_enqueue id request accepted_at expires_at b).1)
  | _ => λ b x b', b' = b
  end.

Lemma call_step_grow {R} (c : call R) b x b' : call_step c b x b' → grow b b'.
Proof.
  assert (∀ id y s t, grow b (box_enqueue id y s t b).1) as He.
  { intros id y s t. unfold grow. destruct (enqueue_entries id y s t b) as [->|(_ & e & -> & _)];
      [done|by eexists]. }
  destruct c; simpl; try (intros ->; apply grow_refl).
  - intros [-> _]. apply grow_refl.
  - intros [-> _]. apply grow_refl.
  - intros [E|(e & _ & [->| ->])]; [|apply grow_refl|apply He].
    pose proof (He id request accepted_at expires_at) as Hg. by rewrite <-E in Hg.
Qed.

(** [m] started on [b] ends with [a], the others acting in between and until [b']. *)
Fixpoint runs {A} (m : prog A) (b : Box) (a : A) (b' : Box) : Prop :=
  match m with
  | Ret x => x = a ∧ grow b b'
  | Call c k => ∃ b1 x b2, grow b b1 ∧ call_step c b1 x b2 ∧ runs (k x) b2 a b'
  end.

(** What a call does outside the journal: on the network, or as a last word on the queue. *)
Inductive event :=
| Reserved (request : PrivateReserveRequest)
| Delivered (delivery : PreparedEdgeDelivery)
| Aborted (id : text)
| Acknowledged (id : text)
| Internal.

Definition event_of {R} (c : call R) : event :=
  match c with
  | SendReserve request => Reserved request
  | SendDelivery delivery => Delivered delivery
  | RecordAbort id _ _ => Aborted id
  | RecordAdmission id _ _ _ => Acknowledged id
  | _ => Internal
  end.

(** [m] started on [b] comes to do [e], at [b'] or before; it may stop right there. *)
Fixpoint does {A} (e : event) (m : prog A) (b b' : Box) : Prop :=
  match m with
  | Ret _ => False
  | Call c k =>
      event_of c = e ∧ grow b b'
      ∨ ∃ b1 x b2, grow b b1 ∧ call_step c b1 x b2 ∧ does e (k x) b2 b'
  end.

(** [m] never does an event of [P]. *)
Fixpoint avoids {A} (P : event → Prop) (m : prog A) : Prop :=
  match m with
  | Ret _ => True
  | Call c k => ¬ P (event_of c) ∧ ∀ x, avoids P (k x)
  end.

Lemma runs_grow {A} (m : prog A) b a b' : runs m b a b' → grow b b'.
Proof.
  revert b. induction m as [x|R c k IH]; intros b; simpl; [by intros []|].
  intros (b1 & x & b2 & Hg1 & Hs2%call_step_grow & Hr3%IH). eauto using grow_trans.
Qed.

Lemma does_grow {A} e (m : prog A) b b' : does e m b b' → grow b b'.
Proof.
  revert b. induction m as [x|R c k IH]; intros b; simpl; [done|].
  intros [[_ Hg1]|(b1 & x & b2 & Hg1 & Hs2%call_step_grow & Hr3%IH)]; eauto using grow_trans.
Qed.

Lemma runs_earlier {A} (m : prog A) b0 b a b' : grow b0 b → runs m b a b' → runs m b0 a b'.
Proof.
  destruct m as [x|R c k]; simpl.
  - intros Hg [-> Hg']. split; [done|]. by eapply grow_trans.
  - intros Hg (b1 & x & b2 & Hg1 & Hs2 & Hr3). exists b1, x, b2. split_and!; [by eapply grow_trans|done..].
Qed.

Lemma does_earlier {A} e (m : prog A) b0 b b' : grow b0 b → does e m b b' → does e m b0 b'.
Proof.
  destruct m as [x|R c k]; simpl; [done|]. intros Hg [[He Hg1]|(b1 & x & b2 & Hg1 & Hs2 & Hr3)].
  - left. split; [done|]. by eapply grow_trans.
  - right. exists b1, x, b2. split_and!; [by eapply grow_trans|done..].
Qed.

Lemma does_later {A} e (m : prog A) b b' b'' : does e m b b' → grow b' b'' → does e m b b''.
Proof.
  revert b. induction m as [x|R c k IH]; intros b; simpl; [done|].
  intros [[He Hg1]|(b1 & x & b2 & Hg1 & Hs2 & Hr3)] Hg.
  - left. split; [done|]. by eapply grow_trans.
  - right. exists b1, x, b2. eauto.
Qed.

Lemma avoids_does {A} P e (m : prog A) b b' : avoids P m → P e → ¬ does e m b b'.
Proof.
  revert b. induction m as [x|R c k IH]; intros b; simpl; [tauto|].
  intros [Hc Hk] He [[E _]|(b1 & x & b2 & _ & _ & Hr3)]; [by subst|].
  by apply (IH x b2 (Hk x) He).
Qed.

(** ** Sequencing *)

Lemma prog_bind_runs {A B} (m : prog A) (f : A → prog B) b a b' :
  runs (prog_bind m f) b a b' → ∃ x b1, runs m b x b1 ∧ runs (f x) b1 a b'.
Proof.
  revert b. induction m as [x|R c k IH]; intros b; simpl.
  - intros Hr. exists x, b. split; [|done]. split; [done|apply grow_refl].
  - intros (b1 & x & b2 & Hg1 & Hs2 & (y & b3 & Hr3 & Hr4)%IH). exists y, b3. split; [|done].
    by exists b1, x, b2.
Qed.

Lemma prog_bind_does {A B} e (m : prog A) (f : A → prog B) b b' :
  does e (prog_bind m f) b b' → does e m b b' ∨ ∃ x b1, runs m b x b1 ∧ does e (f x) b1 b'.
Proof.
  revert b. induction m as [x|R c k IH]; intros b; simpl.
  - intros Hd. right. exists x, b. split; [|done]. split; [done|apply grow_refl].
  - intros [He|(b1 & x & b2 & Hg1 & Hs2 & [Hr3|(y & b3 & Hr3 & Hr4)]%IH)].
    + left. by left.
    + left. right. by exists b1, x, b2.
    + right. exists y, b3. split; [|done]. by exists b1, x, b2.
Qed.

Lemma prog_bind_avoids {A B} P (m : prog A) (f : A → prog B) :
  avoids P m → (∀ x, avoids P (f x)) → avoids P (prog_bind m f).
Proof. intros Hm Hf. induction m as [x|R c k IH]; simpl; [done|]. destruct Hm. eauto. Qed.

(** The success of a sequence. *)
Lemma act_bind_runs {A B} (m : act A) (f : A → act B) b v b' :
  runs (m ≫= f) b (Ok v) b' → ∃ x b1, runs m b (Ok x) b1 ∧ runs (f x) b1 (Ok v) b'.
Proof.
  unfold mbind, act_bind. intros ([x|e] & b1 & Hm & Hf)%prog_bind_runs; [eauto|].
  simpl in Hf. by destruct Hf.
Qed.

Lemma act_bind_does {A B} e (m : act A) (f : A → act B) b b' :
  does e (m ≫= f) b b' → does e m b b' ∨ ∃ x b1, runs m b (Ok x) b1 ∧ does e (f x) b1 b'.
Proof.
  unfold mbind, act_bind. intros [Hm|([x|e'] & b1 & Hm & Hf)]%prog_bind_does; [by left|eauto|].
  simpl in Hf. done.
Qed.

Lemma act_bind_avoids {A B} P (m : act A) (f : A → act B) :
  avoids P m → (∀ x, avoids P (f x)) → avoids P (m ≫= f).
Proof.
  intros Hm Hf. unfold mbind, act_bind. apply prog_bind_avoids; [done|]. intros [x|e]; [apply Hf|done].
Qed.

Lemma lift_runs {A} (r : result string A) b v b' : runs (lift r) b (Ok v) b' → r = Ok v ∧ grow b b'.
Proof. by intros [-> ?]. Qed.

Lemma lift_does {A} e (r : result string A) b b' : ¬ does e (lift r) b b'.
Proof. simpl. tauto. Qed.

Lemma mret_runs {A} (a v : A) b b' : runs (mret a : act A) b (Ok v) b' → a = v ∧ grow b b'.
Proof. unfold mret, act_ret. simpl. by intros [[= ->] ?]. Qed.

(** ** Pools *)

(** Programs that share the file, stepping in any order, with processes outside the pool inserting
    as they like; the events carry the index of the program. *)
Inductive pool_run {A} : Box → list (prog A) → list (nat * event) → Box → list (prog A) → Prop :=
| pool_idle b ts : pool_run b ts [] b ts
| pool_step b ts i R (c : call R) k x b1 l b2 ts2 :
    ts !! i = Some (Call c k) → call_step c b x b1 →
    pool_run b1 (<[i := k x]> ts) l b2 ts2 → pool_run b ts ((i, event_of c) :: l) b2 ts2
| pool_outside b b1 ts l b2 ts2 :
    grow b b1 → pool_run b1 ts l b2 ts2 → pool_run b ts l b2 ts2.

Lemma pool_grow {A} b (ts : list (prog A)) l b' ts' : pool_run b ts l b' ts' → grow b b'.
Proof. induction 1; eauto using grow_refl, grow_trans, call_step_grow. Qed.

(** A program of the pool runs as it would alone among the others. *)
Lemma pool_result {A} b (ts : list (prog A)) l b' ts' i m a :
  pool_run b ts l b' ts' → ts !! i = Some m → ts' !! i = Some (Ret a) → runs m b a b'.
Proof.
  intros Hp. revert m. induction Hp as [b ts|b ts i' R c k x b1 l b2 ts2 Hi Hs Hp IH|b b1 ts l b2 ts2 Hg Hp IH];
    intros m Hm Ha.
  - rewrite Hm in Ha. injection Ha as ->. split; [done|apply grow_refl].
  - destruct (decide (i' = i)) as [->|Hne].
    + rewrite Hi in Hm. injection Hm as <-. simpl. exists b, x, b1. split_and!; [apply grow_refl|done|].
      apply IH; [|done]. apply list_lookup_insert_eq. by eapply lookup_lt_Some.
    + apply runs_earlier with b1; [by eapply call_step_grow|]. apply IH; [|done].
      by rewrite list_lookup_insert_ne.
  - apply runs_earlier with b1; [done|]. by apply IH.
Qed.

(** Only programs of the pool do something. *)
Lemma pool_member {A} b (ts : list (prog A)) l b' ts' i e :
  pool_run b ts l b' ts' → (i, e) ∈ l → is_Some (ts !! i).
Proof.
  induction 1 as [b ts|b ts i' R c k x b1 l b2 ts2 Hi Hs Hp IH|b b1 ts l b2 ts2 Hg Hp IH]; intros He.
  - by apply elem_of_nil in He.
  - apply elem_of_cons in He as [[= -> _]|He]; [by eexists|]. apply IH in He.
    apply lookup_lt_is_Some in He. apply lookup_lt_is_Some. by rewrite length_insert in He.
  - by apply IH.
Qed.

Lemma pool_does {A} b (ts : list (prog A)) l b' ts' i m e :
  pool_run b ts l b' ts' → ts !! i = Some m → (i, e) ∈ l → does e m b b'.
Proof.
  intros Hp. revert m. induction Hp as [b ts|b ts i' R c k x b1 l b2 ts2 Hi Hs Hp IH|b b1 ts l b2 ts2 Hg Hp IH];
    intros m Hm He.
  - by apply elem_of_nil in He.
  - destruct (decide (i' = i)) as [->|Hne].
    + rewrite Hi in Hm. injection Hm as <-. simpl. apply elem_of_cons in He as [[= ->]|He].
      * left. split; [done|]. eapply grow_trans; [by eapply call_step_grow|by eapply pool_grow].
      * right. exists b, x, b1. split_and!; [apply grow_refl|done|]. apply IH; [|done].
        apply list_lookup_insert_eq. by eapply lookup_lt_Some.
    + apply elem_of_cons in He as [[= ? _]|He]; [done|].
      apply does_earlier with b1; [by eapply call_step_grow|]. apply IH; [|done].
      by rewrite list_lookup_insert_ne.
  - apply does_earlier with b1; [done|]. by apply IH.
Qed.

End runs.

#[export] Hint Resolve grow_refl : core.
