(* ===== verification/JournalLife.v ===== *)
(** * What the corporate journal guarantees

    Agreement on its immutable records, the exclusive fence between sending a
    reservation and declaring it never sent, identical resubmission, and turns,
    over any interleaving of the journal's programs. *)

From S2P Require Import Prelude BTree Bytes AppCrypto Orders Matching Circuit MpcRunner Book.
From S2P Require Import Ordering Reservations Eligibility Edge EdgeCreate NodeReceipts NodeState.
From S2P Require Import NodeStore NodeRpc EdgeClient Corporate Journal JournalRuns.
Open Scope string_scope.
Open Scope list_scope.
Open Scope Z_scope.

(** Splits the success of a sequence. *)
Tactic Notation "run" hyp(H) "as" simple_intropattern(p) := apply act_bind_runs in H as p.

Section life.
Context `{Crypto} `{CorporateCrates} `{!JournalJson} `{!StoreJson} `{OutboxLaws}.

Implicit Types (j : NativeCorporateJournal) (id : text) (b : Box).

(** ** Records *)

(** The file holds the payload under [key]. *)
Definition stored b (key : text) (payload : bytes) : Prop :=
  ∃ e, e ∈ entries_of b ∧ en_id e = key ∧ en_request e = payload.

Lemma entry_later b b' e : e ∈ entries_of b → grow b b' → e ∈ entries_of b'.
Proof. intros He [l Hl]. rewrite Hl. apply elem_of_app. by left. Qed.

Lemma entry_unique b e e' : e ∈ entries_of b → e' ∈ entries_of b → en_id e = en_id e' → e = e'.
Proof.
  intros He He' E. apply list_elem_of_lookup in He as [i Hi], He' as [i' Hi'].
  pose proof (entries_ids b) as Hnd. rewrite NoDup_alt in Hnd.
  assert (i = i') as <-; [|congruence].
  apply (Hnd i i' (en_id e)); rewrite list_lookup_fmap, ?Hi, ?Hi'; simpl; congruence.
Qed.

Lemma stored_later b b' key x : stored b key x → grow b b' → stored b' key x.
Proof. intros (e & He & Hrest) Hg. exists e. split; [|done]. by eapply entry_later. Qed.

Lemma stored_agree b key x y : stored b key x → stored b key y → x = y.
Proof.
  intros (e & He & Hid & <-) (e' & He' & Hid' & <-). f_equal. apply (entry_unique b); congruence.
Qed.

(** The listing of the file at some point of a run. *)
Lemma summaries_runs b l b' :
  runs (perform Summaries) b (Ok l) b' →
  ∃ b1, grow b b1 ∧ grow b1 b' ∧ l ≡ₚ map summary_of (entries_of b1).
Proof.
  intros (b1 & x & b2 & Hg1 & Hs & [-> Hg2]). simpl in Hs. destruct Hs as [-> [Hs|[e [=]]]].
  exists b1. split_and!; [done..|]. by apply summaries_entries.
Qed.

Lemma fetch_runs key b x b' : runs (fetch key) b (Ok (Some x)) b' → stored b' key x.
Proof.
  unfold fetch. intros Hr. run Hr as (l & b1 & _ & Hr).
  destruct (list_find _ l) as [[n s]|]; [|by apply mret_runs in Hr as [[=] _]].
  run Hr as (payload & b2 & Hp & Hr). apply mret_runs in Hr as [[= <-] Hg2].
  destruct Hp as (b5 & y & b6 & _ & Hs & [-> Hg6]). simpl in Hs.
  destruct Hs as [-> [Hs|[e [=]]]]. symmetry in Hs. apply signed_request_entry in Hs.
  eapply stored_later; [exact Hs|]. by eapply grow_trans.
Qed.

(** A record that is on file is found. *)
Lemma fetch_found key b e b' o :
  e ∈ entries_of b → en_id e = key → runs (fetch key) b (Ok o) b' → o ≠ None.
Proof.
  intros He Hid Hr ->. unfold fetch in Hr. run Hr as (l & b1 & (b2 & Hg2 & _ & Hs)%summaries_runs & Hr).
  destruct (list_find _ l) as [[n s]|] eqn:Hf.
  - run Hr as (payload & b4 & _ & Hr). by apply mret_runs in Hr as [[=] _].
  - apply list_find_None in Hf. rewrite Forall_forall in Hf. apply (Hf (summary_of e)); [|done].
    rewrite Hs. apply list_elem_of_fmap_2. by eapply entry_later.
Qed.

(** The file holds the journal's record [v] under [key]. *)
Definition has {T} `{!Serde T} j b (key : text) (v : T) : Prop :=
  ∃ x, stored b key x ∧ from_json x = Some (mk_bound 2 (jn_context j) v).

Lemma has_later {T} `{!Serde T} j b b' key (v : T) : has j b key v → grow b b' → has j b' key v.
Proof. intros (x & Hx & Hv) Hg. exists x. split; [|done]. by eapply stored_later. Qed.

Lemma has_agree {T} `{!Serde T} j b key (v w : T) : has j b key v → has j b key w → v = w.
Proof. intros (x & Hx & Hv) (y & Hy & Hw). rewrite (stored_agree _ _ _ _ Hx Hy) in Hv. congruence. Qed.

Lemma get_runs {T} `{!Serde T} j key b (v : T) b' :
  runs (get j key) b (Ok (Some v)) b' → has j b' key v.
Proof.
  unfold get. intros Hr. run Hr as (found & b1 & Hf & Hr).
  destruct found as [x|]; [|by apply mret_runs in Hr as [[=] _]]. apply fetch_runs in Hf.
  pose proof (runs_grow _ _ _ _ Hr) as Hg.
  run Hr as (record & b3 & [Hrec%ok_or_Ok _]%lift_runs & Hr).
  run Hr as ([] & b4 & [Hg4%fail_if_Ok _]%lift_runs & Hr). apply mret_runs in Hr as [[= <-] _]. bool_hyps.
  exists x. split; [by eapply stored_later|]. rewrite Hrec.
  destruct record as [version context body]. simpl in *. congruence.
Qed.

Lemma get_recorded {T} `{!Serde T} j key b (v : T) o b' :
  has j b key v → runs (get j key) b (Ok o) b' → o = Some v.
Proof.
  intros Hv Hr. destruct o as [w|].
  - pose proof (runs_grow _ _ _ _ Hr) as Hg. apply get_runs in Hr. f_equal.
    eapply has_agree; [done|]. by eapply has_later.
  - exfalso. unfold get in Hr. run Hr as (found & b1 & Hf & Hr).
    destruct Hv as (x & (e & He & Hid & _) & _). destruct found as [y|].
    + run Hr as (record & b5 & _ & Hr). run Hr as ([] & b6 & _ & Hr).
      by apply mret_runs in Hr as [[=] _].
    + by apply (fetch_found _ _ _ _ _ He Hid Hf).
Qed.

Lemma put_first_runs {T} `{!Serde T} j key (body : T) s t b v b' :
  runs (put_first j key body s t) b (Ok v) b' → has j b' key v.
Proof.
  unfold put_first. intros Hr. run Hr as (stored & b1 & Hget & Hr).
  destruct stored as [w|].
  - apply mret_runs in Hr as [-> Hg]. eapply has_later; [by eapply get_runs|done].
  - run Hr as (payload & b2 & _ & Hr). apply prog_bind_runs in Hr as (inserted & b3 & _ & Hr).
    run Hr as (stored & b4 & Hget' & Hr). destruct stored as [w|].
    + apply mret_runs in Hr as [-> Hg]. eapply has_later; [by eapply get_runs|done].
    + run Hr as (? & b5 & _ & Hr). by apply lift_runs in Hr as [[=] _].
Qed.

Lemma stage_runs {T} `{!Serde T} j id name b (v : T) b' :
  runs (stage j id name) b (Ok (Some v)) b' →
  ∃ key, record_id name id = Ok key ∧ has j b' key v.
Proof.
  unfold stage. intros Hr. run Hr as (key & b1 & [Hk _]%lift_runs & Hr).
  exists key. split; [done|]. by eapply get_runs.
Qed.

Lemma expect_runs {T} (m : act (option T)) missing b v b' :
  runs (expect m missing) b (Ok v) b' → ∃ b1, runs m b (Ok (Some v)) b1 ∧ grow b1 b'.
Proof.
  unfold expect. intros Hr. run Hr as (found & b1 & Hm & Hr).
  apply lift_runs in Hr as [Hf%ok_or_Ok Hg]. subst. eauto.
Qed.

(** A stage of the request [id], once recorded. *)
Definition recorded {T} `{!Serde T} j b (name : string) id (v : T) : Prop :=
  ∃ key, record_id name id = Ok key ∧ has j b key v.

Lemma recorded_later {T} `{!Serde T} j b b' name id (v : T) :
  recorded j b name id v → grow b b' → recorded j b' name id v.
Proof. intros (key & Hk & Hh) Hg. exists key. split; [done|]. by eapply has_later. Qed.

Lemma recorded_agree {T} `{!Serde T} j b name id (v w : T) :
  recorded j b name id v → recorded j b name id w → v = w.
Proof.
  intros (key & Hk & Hv) (key' & Hk' & Hw). rewrite Hk in Hk'. injection Hk' as <-.
  by eapply has_agree.
Qed.

Lemma expect_stage {T} `{!Serde T} j id name missing b (v : T) b' :
  runs (expect (stage j id name) missing) b (Ok v) b' → recorded j b' name id v.
Proof.
  intros (b1 & Hs%stage_runs & Hg)%expect_runs. destruct Hs as (key & Hk & Hh).
  exists key. split; [done|]. by eapply has_later.
Qed.

Lemma stage_recorded {T} `{!Serde T} j id name b (v : T) o b' :
  recorded j b name id v → runs (stage j id name) b (Ok o) b' → o = Some v.
Proof.
  intros (key & Hk & Hv) Hr. unfold stage in Hr. run Hr as (key' & b1 & [Hk' Hg]%lift_runs & Hr).
  rewrite Hk in Hk'. injection Hk' as <-. eapply get_recorded; [|done]. by eapply has_later.
Qed.

Lemma save_stage_runs {T} `{!Serde T} j id name (body : T) i b v b' :
  runs (save_stage j id name body i) b (Ok v) b' → recorded j b' name id v.
Proof.
  unfold save_stage. intros Hr. run Hr as ([] & b1 & _ & Hr).
  run Hr as (key & b2 & [Hk _]%lift_runs & Hr). exists key. split; [done|]. by eapply put_first_runs.
Qed.

Lemma save_intent_runs j id i b v b' :
  runs (save_intent j id i) b (Ok v) b' →
  recorded j b' "intent" id v ∧ ci_input_digest v = ci_input_digest i.
Proof.
  unfold save_intent. intros Hr. run Hr as (key & b1 & [Hk _]%lift_runs & Hr).
  run Hr as (w & b2 & Hw%put_first_runs & Hr). run Hr as ([] & b3 & [Hd%fail_if_Ok Hg]%lift_runs & Hr).
  apply mret_runs in Hr as [<- Hg']. bool_hyps. split; [|done].
  exists key. split; [done|]. eapply has_later; [done|]. by eapply grow_trans.
Qed.

(** ** The fence *)

(** The recorded decision for the request. *)
Definition fence j b id (may_send : bool) : Prop :=
  ∃ d : ReserveSendDecision, recorded j b "reserve-send" id d ∧ sd_may_send d = may_send.

Lemma fence_later j b b' id m : fence j b id m → grow b b' → fence j b' id m.
Proof. intros (d & Hd & Hm) Hg. exists d. split; [|done]. by eapply recorded_later. Qed.

Lemma fence_agree j b id m m' : fence j b id m → fence j b id m' → m = m'.
Proof. intros (d & Hd & <-) (d' & Hd' & <-). f_equal. by eapply recorded_agree. Qed.

Lemma choose_runs j id digest may_send now b m b' :
  runs (choose_reserve_send j id digest may_send now) b (Ok m) b' → fence j b' id m.
Proof.
  unfold choose_reserve_send. intros Hr. run Hr as (i & b1 & _ & Hr). run Hr as (bound & b2 & _ & Hr).
  run Hr as (key & b3 & [Hk _]%lift_runs & Hr). run Hr as (d & b4 & Hd%put_first_runs & Hr).
  run Hr as ([] & b5 & [_ Hg]%lift_runs & Hr). apply mret_runs in Hr as [<- Hg'].
  exists d. split; [|done]. exists key. split; [done|].
  eapply has_later; [done|]. by eapply grow_trans.
Qed.

Lemma mark_runs j id digest now b u b' :
  runs (mark_reserve_send_started j id digest now) b (Ok u) b' → fence j b' id true.
Proof.
  unfold mark_reserve_send_started. intros Hr. run Hr as (m & b1 & Hm%choose_runs & Hr).
  apply lift_runs in Hr as [Hm'%fail_if_Ok Hg]. bool_hyps. subst. by eapply fence_later.
Qed.

Lemma seal_runs j id digest now b b' :
  runs (seal_never_dispatched j id digest now) b (Ok true) b' → fence j b' id false.
Proof.
  unfold seal_never_dispatched. intros Hr. run Hr as (i & b1 & _ & Hr).
  destruct (_ || _); [by apply mret_runs in Hr as [[=] _]|].
  run Hr as (advanced & b2 & _ & Hr). destruct advanced; [by apply mret_runs in Hr as [[=] _]|].
  run Hr as (m & b3 & Hm%choose_runs & Hr). apply mret_runs in Hr as [Hm' Hg].
  apply negb_true_iff in Hm'. subst. by eapply fence_later.
Qed.

Lemma unsent_runs j x b u b' :
  runs (verify_unsent_resolution j x) b (Ok u) b' →
  match xr_outcome x with NeverReserved _ => fence j b' (xr_request_id x) false | _ => True end.
Proof.
  unfold verify_unsent_resolution. destruct (xr_outcome x); [|done]. intros Hr.
  run Hr as (i & b1 & _ & Hr). run Hr as (d & b2 & Hd%expect_stage & Hr).
  run Hr as ([] & b3 & [Hf%fail_if_Ok Hg3]%lift_runs & Hr). bool_hyps.
  apply runs_grow in Hr. exists d. split; [|done]. eapply recorded_later; [done|]. by eapply grow_trans.
Qed.

Lemma expiry_resolution_runs j p b x b' :
  runs (expiry_resolution j p) b (Ok (Some x)) b' →
  match xr_outcome x with NeverReserved _ => fence j b' (xr_request_id x) false | _ => True end.
Proof.
  unfold expiry_resolution. intros Hr. run Hr as (found & b1 & _ & Hr).
  destruct found as [y|]; [|by apply mret_runs in Hr as [[=] _]].
  run Hr as ([] & b2 & _ & Hr). run Hr as ([] & b3 & Hu%unsent_runs & Hr).
  apply mret_runs in Hr as [[= ->] Hg]. destruct (xr_outcome x); [|done]. by eapply fence_later.
Qed.

Lemma ended_runs j id b e b' :
  runs (ended_authorization j id) b (Ok (Some e)) b' → fence j b' id false ∧ ea_request_id e = id.
Proof.
  unfold ended_authorization. intros Hr. run Hr as (found & b1 & _ & Hr).
  destruct found as [y|]; [|by apply mret_runs in Hr as [[=] _]].
  run Hr as (a & b2 & _ & Hr). run Hr as (i & b3 & _ & Hr). run Hr as (d & b4 & Hd%expect_stage & Hr).
  assert (grow b4 b') as Hg by (by eapply runs_grow).
  run Hr as ([] & b5 & [Hid%fail_if_Ok _]%lift_runs & Hr). run Hr as (digest & b6 & _ & Hr).
  run Hr as ([] & b7 & [Hf%fail_if_Ok _]%lift_runs & Hr). apply mret_runs in Hr as [[= ->] _].
  bool_hyps. split; [|done]. exists d. split; [|done]. by eapply recorded_later.
Qed.

Lemma end_runs j id now reason b e b' :
  runs (end_unprepared_authorization j id now reason) b (Ok e) b' →
  fence j b' id false ∧ ea_request_id e = id.
Proof.
  unfold end_unprepared_authorization. intros Hr. run Hr as (saved & b1 & Hs & Hr).
  destruct saved as [y|].
  - apply ended_runs in Hs as [Hf Hid]. apply mret_runs in Hr as [-> Hg]. split; [|done].
    by eapply fence_later.
  - run Hr as (i & b2 & _ & Hr). run Hr as ([] & b3 & _ & Hr). run Hr as (adv & b4 & _ & Hr).
    run Hr as ([] & b5 & _ & Hr). run Hr as (a & b6 & _ & Hr). run Hr as (digest & b7 & _ & Hr).
    run Hr as (m & b8 & _ & Hr). run Hr as ([] & b9 & _ & Hr). run Hr as (key & b10 & _ & Hr).
    run Hr as (? & b11 & _ & Hr). apply expect_runs in Hr as (b12 & [Hf Hid]%ended_runs & Hg).
    split; [|done]. by eapply fence_later.
Qed.

(** ** Programs without events *)

Definition quiet {A} (m : prog A) : Prop := avoids (λ e, e ≠ Internal) m.

Lemma quiet_does {A} e (m : prog A) b b' : quiet m → e ≠ Internal → ¬ does e m b b'.
Proof. intros Hm He. by apply (avoids_does (λ e, e ≠ Internal)). Qed.

Lemma quiet_perform {A} (c : call (result string A)) : event_of c = Internal → quiet (perform c).
Proof. intros E. split; [by intros []|done]. Qed.

Lemma quiet_lift {A} (r : result string A) : quiet (lift r).
Proof. done. Qed.

Lemma quiet_ret {A} (a : A) : quiet (Ret a).
Proof. done. Qed.

Lemma quiet_mret {A} (a : A) : quiet (mret a : act A).
Proof. done. Qed.

Lemma quiet_bind {A B} (m : act A) (f : A → act B) :
  quiet m → (∀ x, quiet (f x)) → quiet (m ≫= f).
Proof. apply act_bind_avoids. Qed.

Lemma quiet_prog_bind {A B} (m : prog A) (f : A → prog B) :
  quiet m → (∀ x, quiet (f x)) → quiet (prog_bind m f).
Proof. apply prog_bind_avoids. Qed.

End life.

Create HintDb journal.
#[export] Hint Resolve quiet_lift quiet_ret quiet_mret : journal.
#[export] Hint Extern 2 (quiet (perform _)) => (apply quiet_perform; reflexivity) : journal.

(** Walks through a program, splitting its matches. *)
Ltac quietly :=
  repeat first
    [ solve [auto with journal]
    | apply quiet_bind; [|intros ?]
    | apply quiet_prog_bind; [|intros ?]
    | case_match ].

(** One step: its own events are excluded by [journal] or left as the first goal. *)
Tactic Notation "doing" hyp(D) "as" simple_intropattern(p) :=
  apply act_bind_does in D as [D|p];
  [try (exfalso; revert D; apply quiet_does; [solve [quietly]|assumption])|].

Section clients.
Context `{Crypto} `{CorporateCrates} `{!JournalJson} `{!StoreJson} `{OutboxLaws}.

Implicit Types (j : NativeCorporateJournal) (id : text) (b : Box).

Lemma quiet_fetch key : quiet (fetch key).
Proof. unfold fetch. quietly. Qed.
Hint Resolve quiet_fetch : journal.

Lemma quiet_get {T} `{!Serde T} j key : quiet (get (T := T) j key).
Proof. unfold get. quietly. Qed.
Hint Resolve quiet_get : journal.

Lemma quiet_put_first {T} `{!Serde T} j key (body : T) s t : quiet (put_first j key body s t).
Proof. unfold put_first. quietly. Qed.
Hint Resolve quiet_put_first : journal.

Lemma quiet_stage {T} `{!Serde T} j id name : quiet (stage (T := T) j id name).
Proof. unfold stage. quietly. Qed.
Hint Resolve quiet_stage : journal.

Lemma quiet_expect {T} (m : act (option T)) missing : quiet m → quiet (expect m missing).
Proof. intros Hm. unfold expect. quietly. Qed.
Hint Resolve quiet_expect : journal.

Lemma quiet_intent j id : quiet (intent j id).
Proof. unfold intent. quietly. Qed.
Lemma quiet_authorization j id : quiet (authorization j id).
Proof. unfold authorization. quietly. Qed.
Hint Resolve quiet_intent quiet_authorization : journal.

Lemma quiet_mark j id digest now : quiet (mark_reserve_send_started j id digest now).
Proof. unfold mark_reserve_send_started, choose_reserve_send, send_binding. quietly. Qed.
Lemma quiet_save_stage {T} `{!Serde T} j id name (body : T) i : quiet (save_stage j id name body i).
Proof. unfold save_stage. quietly. Qed.
Lemma quiet_require_turn j id : quiet (require_turn j id).
Proof. unfold require_turn. quietly. Qed.
Lemma quiet_verify_finalized c p f now : quiet (verify_finalized c p f now).
Proof. unfold verify_finalized. quietly. Qed.
Lemma quiet_funding j w : quiet (save_funding_witness j w).
Proof. unfold save_funding_witness. quietly. Qed.
Lemma quiet_save_receipt j id r d cluster i : quiet (save_receipt j id r d cluster i).
Proof. unfold save_receipt. quietly. Qed.
Lemma quiet_draw : quiet draw.
Proof. split; [by intros []|done]. Qed.
Lemma quiet_any_stage j id names : quiet (any_stage j id names).
Proof. induction names as [|n names IH]; simpl; quietly. Qed.
Hint Resolve quiet_any_stage : journal.
Lemma quiet_ended j id : quiet (ended_authorization j id).
Proof. unfold ended_authorization. quietly. Qed.
Hint Resolve quiet_ended : journal.
Lemma quiet_choose j id digest may_send now : quiet (choose_reserve_send j id digest may_send now).
Proof. unfold choose_reserve_send, send_binding. quietly. Qed.
Hint Resolve quiet_choose : journal.
Lemma quiet_end j id now reason : quiet (end_unprepared_authorization j id now reason).
Proof. unfold end_unprepared_authorization. quietly. Qed.
Lemma quiet_latest_funding j c : quiet (latest_funding j c).
Proof. unfold latest_funding. quietly. Qed.
Lemma quiet_expiry_resolution j p : quiet (expiry_resolution j p).
Proof. unfold expiry_resolution, verify_unsent_resolution, send_binding. quietly. Qed.
Hint Resolve quiet_expiry_resolution : journal.
Lemma quiet_reconcile c j id now : quiet (reconcile_expired_submission c j id now).
Proof.
  unfold reconcile_expired_submission, observe_outcome, seal_never_dispatched, obtain_release,
    expiry_release, save_expiry_release, save_expiry_resolution, verify_unsent_resolution, send_binding,
    complete_expiry.
  quietly.
Qed.
Hint Resolve quiet_mark quiet_save_stage quiet_require_turn quiet_verify_finalized quiet_funding
  quiet_save_receipt quiet_draw : journal.

(** ** What the submission does outside *)

Lemma perform_does {A} e (c : call (result string A)) b b' : does e (perform c) b b' → e = event_of c.
Proof. intros [[<- _]|(b1 & x & b2 & _ & _ & [])]. done. Qed.

Lemma obtain_reservation_does e j c id i p digest b b' :
  does e (obtain_reservation j c id i p digest) b b' → e ≠ Internal →
  e = Reserved (pr_request p) ∧ fence j b' id true.
Proof.
  intros D He. unfold obtain_reservation in D. doing D as (saved & b1 & _ & D).
  destruct saved as [saved|].
  { exfalso. revert D. apply quiet_does; [quietly|done]. }
  doing D as (t1 & b2 & _ & D). doing D as ([] & b3 & Hm%mark_runs & D).
  assert (fence j b' id true) as Hf by (eapply fence_later; [done|by eapply does_grow]).
  doing D as (t2 & b4 & _ & D).
  apply act_bind_does in D as [D|(f & b5 & _ & D)].
  - split; [|done]. unfold finalize_reservation in D. doing D as ([] & b6 & _ & D).
    doing D as ([] & b8 & _ & D). apply act_bind_does in D as [D|(f & b7 & _ & D)]; [by apply perform_does in D|].
    exfalso. revert D. apply quiet_does; [quietly|done].
  - exfalso. revert D. apply quiet_does; [quietly|done].
Qed.

Lemma obtain_delivery_does fuel e j c cluster id i p digest b b' :
  does e (obtain_delivery fuel j c cluster id i p digest) b b' → e ≠ Internal →
  e = Reserved (pr_request p) ∧ fence j b' id true.
Proof.
  intros D He. unfold obtain_delivery in D. doing D as (saved & b1 & _ & D).
  destruct saved as [saved|]; [done|].
  apply act_bind_does in D as [D|(f & b2 & _ & D)]; [by eapply obtain_reservation_does|].
  exfalso. revert D. apply quiet_does; [quietly|done].
Qed.

Lemma obtain_delivery_runs fuel j c cluster id i p digest b d b' :
  runs (obtain_delivery fuel j c cluster id i p digest) b (Ok d) b' → recorded j b' "delivery" id d.
Proof.
  unfold obtain_delivery. intros Hr. run Hr as (saved & b1 & Hs & Hr). destruct saved as [saved|].
  - apply stage_runs in Hs. apply mret_runs in Hr as [<- Hg]. by eapply recorded_later.
  - run Hr as (f & b2 & _ & Hr). run Hr as ([] & b3 & _ & Hr). run Hr as (keys & b4 & _ & Hr).
    run Hr as (t & b5 & _ & Hr). run Hr as (rng & b6 & _ & Hr). run Hr as ([bundle authority] & b7 & _ & Hr).
    by eapply save_stage_runs.
Qed.

(** Everything a submission sends is in the journal. *)
Lemma submission_does fuel e c cluster j id source b b' :
  does e (complete_native_submission fuel c cluster j id source) b b' → e ≠ Internal →
  (∃ p : PreparedCorporateReserve, recorded j b' "reserve" id p ∧ e = Reserved (pr_request p)
     ∧ fence j b' id true)
  ∨ (∃ d : StoredCorporateDelivery, recorded j b' "delivery" id d ∧ e = Delivered (dv_delivery d)).
Proof.
  intros D He. unfold complete_native_submission in D. doing D as ([] & b1 & _ & D).
  doing D as (i & b2 & _ & D). doing D as (p & b3 & Hp%expect_stage & D).
  assert (recorded j b' "reserve" id p) as Hp' by (eapply recorded_later; [done|by eapply does_grow]).
  doing D as ([] & b4 & _ & D). doing D as ([] & b5 & _ & D). doing D as (digest & b6 & _ & D).
  doing D as (completed & b7 & _ & D).
  apply act_bind_does in D as [D|(d & b8 & Hd%obtain_delivery_runs & D)].
  { left. exists p. split; [done|]. by eapply obtain_delivery_does. }
  right. exists d. split; [eapply recorded_later; [done|by eapply does_grow]|].
  doing D as ([] & b9 & _ & D). apply act_bind_does in D as [D|(r & b10 & _ & D)].
  - destruct completed as [r|]; [done|]. doing D as ([] & b11 & _ & D). doing D as ([] & b13 & _ & D).
    apply act_bind_does in D as [D|(r & b12 & _ & D)]; [by apply perform_does in D|].
    exfalso. revert D. apply quiet_does; [quietly|done].
  - exfalso. revert D. apply quiet_does; [quietly|done].
Qed.

(** A submission that sends something had its turn first. *)
Lemma submission_turn fuel e c cluster j id source b b' :
  does e (complete_native_submission fuel c cluster j id source) b b' → e ≠ Internal →
  ∃ u b1, runs (require_turn j id) b (Ok u) b1 ∧ grow b1 b'.
Proof.
  intros D He. unfold complete_native_submission in D. doing D as (u & b1 & Hr & D).
  exists u, b1. split; [done|]. by eapply does_grow.
Qed.

(** A submission whose delivery and receipt are on file. *)
Lemma admitted_silent fuel e c cluster j id source (d : StoredCorporateDelivery)
    (r : EdgeAdmissionReceipt) b b' :
  recorded j b "delivery" id d → recorded j b "receipt" id r →
  does e (complete_native_submission fuel c cluster j id source) b b' → e = Internal.
Proof.
  intros Hd Hr D. assert (e = Internal ∨ e ≠ Internal) as [|He] by (destruct e; auto); [done|exfalso].
  unfold complete_native_submission in D.
  doing D as ([] & b1 & G1%runs_grow & D). doing D as (i & b2 & G2%runs_grow & D).
  doing D as (p & b3 & G3%runs_grow & D). doing D as ([] & b4 & G4%runs_grow & D).
  doing D as ([] & b5 & G5%runs_grow & D). doing D as (digest & b6 & G6%runs_grow & D).
  assert (grow b b6) as Hg by eauto 10 using grow_trans.
  doing D as (completed & b7 & Hc & D). pose proof (runs_grow _ _ _ _ Hc) as G7.
  apply (stage_recorded _ _ _ _ r) in Hc; [|by eapply recorded_later]. subst completed.
  apply act_bind_does in D as [D|(d' & b8 & _ & D)].
  - unfold obtain_delivery in D. doing D as (saved & b9 & Hs & D).
    apply (stage_recorded _ _ _ _ d) in Hs; [by subst|].
    eapply recorded_later; [done|]. by eapply grow_trans.
  - revert D. apply quiet_does; [quietly|done].
Qed.

Lemma reconcile_runs c j id now b x b' :
  runs (reconcile_expired_submission c j id now) b (Ok x) b' →
  match xr_outcome x with NeverReserved _ => fence j b' id false | _ => True end.
Proof.
  unfold reconcile_expired_submission. intros Hr. run Hr as (p & b1 & _ & Hr).
  run Hr as ([] & b2 & _ & Hr). run Hr as ([] & b3 & _ & Hr). run Hr as ([] & b17 & _ & Hr).
  run Hr as (saved & b4 & Hs & Hr).
  run Hr as (y & b5 & Hy & Hr). assert (grow b5 b') as Hg by (by eapply runs_grow).
  assert (grow b4 b5) as Hg4 by (by eapply runs_grow).
  run Hr as ([] & b6 & _ & Hr). run Hr as ([] & b7 & _ & Hr). apply mret_runs in Hr as [-> _].
  destruct (xr_outcome x) as [root|] eqn:E; [|done]. eapply fence_later; [|exact Hg].
  destruct saved as [saved|].
  - apply expiry_resolution_runs in Hs. run Hy as ([] & b8 & _ & Hy).
    run Hy as ([] & b9 & [Hid%fail_if_Ok Hg9]%lift_runs & Hy). apply mret_runs in Hy as [-> Hg10].
    bool_hyps. subst id. rewrite E in Hs. eapply fence_later; [exact Hs|].
    done.
  - run Hy as (outcome & b8 & _ & Hy). run Hy as (digest & b9 & _ & Hy). run Hy as ([] & b10 & _ & Hy).
    run Hy as ([] & b11 & _ & Hy). unfold save_expiry_resolution in Hy. run Hy as ([] & b12 & _ & Hy).
    run Hy as ([] & b13 & Hu%unsent_runs & Hy). assert (grow b13 b5) as Hg13 by (by eapply runs_grow).
    run Hy as (stored & b14 & _ & Hy). run Hy as ([] & b15 & _ & Hy).
    run Hy as ([] & b16 & [Hsame%fail_if_Ok _]%lift_runs & Hy). apply mret_runs in Hy as [-> _].
    bool_hyps. subst x. simpl in *. subst outcome. by eapply fence_later.
Qed.

End clients.

#[export] Hint Resolve quiet_get quiet_put_first quiet_stage quiet_expect quiet_intent quiet_authorization
  quiet_ended quiet_end quiet_latest_funding quiet_reconcile quiet_save_stage quiet_require_turn
  quiet_funding : journal.
