(* ===== verification/JournalPool.v ===== *)
(** * The corporate journal among its workers

    Pools of submissions, reconciliations and endings over one journal, with
    other processes inserting records and every call liable to fail: what was
    sent is never declared unsent, a resubmission repeats the same bytes, an
    admitted request stays silent, and requests go out in the order of their
    intents. *)

From S2P Require Import Prelude BTree Bytes AppCrypto Orders Matching Circuit MpcRunner Book.
From S2P Require Import Ordering Reservations Eligibility Edge EdgeCreate NodeReceipts NodeState.
From S2P Require Import NodeStore NodeRpc EdgeClient Corporate Journal JournalRuns JournalLife.
Open Scope string_scope.
Open Scope list_scope.
Open Scope Z_scope.

(** ** Prefixes and minima *)

Lemma strip_prefix_Some p s r : MpcRunner.strip_prefix p s = Some r → s = p ++ r.
Proof.
  revert s. induction p as [|c p IH]; intros s; simpl; [by intros [= ->]|].
  destruct s as [|c' s]; [done|]. destruct (Z.eqb_spec c c') as [->|]; [|done].
  intros Hs%IH. by subst.
Qed.

Lemma strip_prefix_app p r : MpcRunner.strip_prefix p (p ++ r) = Some r.
Proof. induction p as [|c p IH]; simpl; [done|]. by rewrite Z.eqb_refl. Qed.

Lemma min_by_key_spec {A} (key : A → Z) l :
  match min_by_key key l with
  | Some m => m ∈ l ∧ ∀ a, a ∈ l → key m ≤ key a
  | None => l = []
  end.
Proof.
  unfold min_by_key. induction l as [|a l IH] using rev_ind; [done|]. rewrite foldl_app. simpl.
  destruct (foldl _ None l) as [m|].
  - destruct IH as [Hm Hle]. destruct (Z.ltb_spec (key a) (key m)); (split; [set_solver|]).
    + intros a' [Ha'%Hle| ->%list_elem_of_singleton]%elem_of_app; lia.
    + intros a' [Ha'%Hle| ->%list_elem_of_singleton]%elem_of_app; lia.
  - subst l. split; [set_solver|]. intros a' ->%list_elem_of_singleton. lia.
Qed.

Section pool.
Context `{Crypto} `{CorporateCrates} `{!JournalJson} `{!StoreJson} `{OutboxLaws}.

Implicit Types (j : NativeCorporateJournal) (id : text) (b : Box).

(** ** Jobs *)

Inductive Job :=
| Submit (fuel : nat) (c : CorporateNativeConfig) (cluster : ClusterPublicConfig) (id : text)
    (source_note : option Digest32)
| Reconcile (c : CorporateNativeConfig) (id : text) (now : Z)
| EndUnprepared (id : text) (now : Z) (reason : AuthorizationEndReason).

Inductive JobResult :=
| Submitted (r : result string CompletedNativeSubmission)
| Reconciled (r : result string NativeExpiryResolution)
| Ended (r : result string EndedCorporateAuthorization).

Definition job_prog j (job : Job) : prog JobResult :=
  match job with
  | Submit fuel c cluster id source =>
      prog_bind (complete_native_submission fuel c cluster j id source) (λ r, Ret (Submitted r))
  | Reconcile c id now => prog_bind (reconcile_expired_submission c j id now) (λ r, Ret (Reconciled r))
  | EndUnprepared id now reason =>
      prog_bind (end_unprepared_authorization j id now reason) (λ r, Ret (Ended r))
  end.

(** The job submits the request [id]. *)
Definition submits id (job : Job) : Prop :=
  match job with Submit _ _ _ id' _ => id' = id | _ => False end.

(** The job ended by declaring that the reserve of [id] was never sent. *)
Definition declares_unsent id (job : Job) (r : prog JobResult) : Prop :=
  match job, r with
  | Reconcile _ id' _, Ret (Reconciled (Ok x)) => id' = id ∧ ∃ root, xr_outcome x = NeverReserved root
  | EndUnprepared id' _ _, Ret (Ended (Ok _)) => id' = id
  | _, _ => False
  end.

Lemma pool_job {ts' : list (prog JobResult)} j b jobs l b' i job :
  pool_run b (map (job_prog j) jobs) l b' ts' → jobs !! i = Some job →
  (∀ e, (i, e) ∈ l → does e (job_prog j job) b b')
  ∧ (∀ r, ts' !! i = Some (Ret r) → runs (job_prog j job) b r b').
Proof.
  intros Hp Hi. assert (map (job_prog j) jobs !! i = Some (job_prog j job)) as Hi'
    by (by rewrite list_lookup_fmap, Hi).
  split; [intros e He; by eapply pool_does|intros r Hr; by eapply pool_result].
Qed.

(** What a submission of the pool sent is on file at the end. *)
Lemma submit_does {ts' : list (prog JobResult)} j b jobs l b' i job id e :
  pool_run b (map (job_prog j) jobs) l b' ts' → jobs !! i = Some job → submits id job →
  (i, e) ∈ l → e ≠ Internal →
  (∃ p : PreparedCorporateReserve, recorded j b' "reserve" id p ∧ e = Reserved (pr_request p)
     ∧ fence j b' id true)
  ∨ (∃ d : StoredCorporateDelivery, recorded j b' "delivery" id d ∧ e = Delivered (dv_delivery d)).
Proof.
  intros Hp Hi Hs He Hne. destruct job as [fuel c cluster id' source| |]; [|done..]. simpl in Hs. subst id'.
  apply (proj1 (pool_job _ _ _ _ _ _ _ Hp Hi)) in He. simpl in He.
  apply prog_bind_does in He as [He|(x & b1 & _ & [])]. by eapply submission_does.
Qed.

Lemma unsent_fence {ts' : list (prog JobResult)} j b jobs l b' i job id r :
  pool_run b (map (job_prog j) jobs) l b' ts' → jobs !! i = Some job → ts' !! i = Some r →
  declares_unsent id job r → fence j b' id false.
Proof.
  intros Hp Hi Hr Hd. destruct job as [| |], r as [[| |]|]; simpl in Hd; try done.
  - destruct r as [x|]; [|done]. destruct Hd as [-> [root Hx]].
    apply (proj2 (pool_job _ _ _ _ _ _ _ Hp Hi)) in Hr. simpl in Hr.
    apply prog_bind_runs in Hr as (y & b1 & Hr & [[= ->] Hg]). apply reconcile_runs in Hr.
    rewrite Hx in Hr. by eapply fence_later.
  - destruct r as [x|]; [|done]. subst.
    apply (proj2 (pool_job _ _ _ _ _ _ _ Hp Hi)) in Hr. simpl in Hr.
    apply prog_bind_runs in Hr as (y & b1 & Hr & [[= ->] Hg]). apply end_runs in Hr as [Hr _].
    by eapply fence_later.
Qed.

(** ** The theorems *)

(** A request identifier stands for one order instruction: two intakes that succeed for it, in any
    interleaving and with any failures in between, hold the same stored intent, and their instructions
    have the same digest. *)
Theorem request_id_bound j id i i' v v' b1 b2 b1' b2' b :
  runs (save_intent j id i) b1 (Ok v) b1' → grow b1' b →
  runs (save_intent j id i') b2 (Ok v') b2' → grow b2' b →
  v = v' ∧ ci_input_digest i = ci_input_digest i'.
Proof.
  intros [Hv Hd]%save_intent_runs Hg [Hv' Hd']%save_intent_runs Hg'.
  assert (v = v') as <-; [|by rewrite <-Hd, Hd'].
  eapply recorded_agree; eapply recorded_later; done.
Qed.

(** C17: Whatever the interleaving, once a worker sent the reserve request of [id], no worker that
    reconciles or ends [id] concludes that it was never sent, neither before nor after. *)
Theorem sent_never_declared_unsent j b jobs l b' ts' id i job request :
  pool_run b (map (job_prog j) jobs) l b' ts' →
  jobs !! i = Some job → submits id job → (i, Reserved request) ∈ l →
  ¬ ∃ k job' r, jobs !! k = Some job' ∧ ts' !! k = Some r ∧ declares_unsent id job' r.
Proof.
  intros Hp Hi Hs He (k & job' & r & Hk & Hr & Hd).
  pose proof (unsent_fence _ _ _ _ _ _ _ _ _ Hp Hk Hr Hd) as Hf.
  destruct (submit_does _ _ _ _ _ _ _ _ _ Hp Hi Hs He) as [(p & _ & _ & Ht)|(d & _ & [=])]; [done|].
  by pose proof (fence_agree _ _ _ _ _ Hf Ht).
Qed.

(** Two sends of one kind carry the same content. *)
Definition same_send (e e' : event) : Prop :=
  match e, e' with
  | Reserved r, Reserved r' => r = r'
  | Delivered d, Delivered d' => d = d'
  | _, _ => True
  end.

(** C18: However often and by however many workers a request is submitted, and wherever they stopped,
    every reserve request sent for it is the same, and so is every delivery: a retry repeats the
    recorded bytes. *)
Theorem resubmission_identical j b jobs l b' ts' id i k job job' e e' :
  pool_run b (map (job_prog j) jobs) l b' ts' →
  jobs !! i = Some job → submits id job → (i, e) ∈ l →
  jobs !! k = Some job' → submits id job' → (k, e') ∈ l →
  same_send e e'.
Proof.
  intros Hp Hi Hs He Hk Hs' He'.
  pose proof (submit_does _ _ _ _ _ _ _ _ _ Hp Hi Hs He) as Ha.
  pose proof (submit_does _ _ _ _ _ _ _ _ _ Hp Hk Hs' He') as Hb.
  destruct e as [r|d| | |], e' as [r'|d'| | |]; simpl; try done.
  - destruct Ha as [(p & Hq & [= ->] & _)|(? & _ & [=])]; [done|].
    destruct Hb as [(p' & Hq' & [= ->] & _)|(? & _ & [=])]; [done|].
    f_equal. by eapply recorded_agree.
  - destruct Ha as [(? & _ & [=] & _)|(p & Hq & [= ->])]; [done|].
    destruct Hb as [(? & _ & [=] & _)|(p' & Hq' & [= ->])]; [done|].
    f_equal. by eapply recorded_agree.
Qed.

(** Once the delivery and its receipt are on file, submitting the request again does nothing
    outside the journal, even if its calls fail. *)
Theorem admitted_request_silent j b jobs l b' ts' id i job (d : StoredCorporateDelivery)
    (r : EdgeAdmissionReceipt) e :
  pool_run b (map (job_prog j) jobs) l b' ts' →
  jobs !! i = Some job → submits id job →
  recorded j b "delivery" id d → recorded j b "receipt" id r →
  (i, e) ∈ l → e = Internal.
Proof.
  intros Hp Hi Hs Hd Hr He. destruct job as [fuel c cluster id' source| |]; [|done..].
  simpl in Hs. subst id'. apply (proj1 (pool_job _ _ _ _ _ _ _ Hp Hi)) in He. simpl in He.
  apply prog_bind_does in He as [He|(x & b1 & _ & [])]. by eapply admitted_silent.
Qed.

(** ** Turns *)

Definition ids_of b : list text := map en_id (entries_of b).

(** The request was admitted, or ended without admission. *)
Definition admitted b id : Prop := chars "receipt:" ++ id ∈ ids_of b.
Definition terminal b id : Prop :=
  admitted b id ∨ chars "resolved:" ++ id ∈ ids_of b ∨ chars "authorization-end:" ++ id ∈ ids_of b.

Lemma ids_later b b' k : k ∈ ids_of b → grow b b' → k ∈ ids_of b'.
Proof. intros Hk [l Hl]. unfold ids_of. rewrite Hl, map_app. apply elem_of_app. by left. Qed.

Lemma terminal_later b b' id : terminal b id → grow b b' → terminal b' id.
Proof. unfold terminal, admitted. intros [?|[?|?]]; eauto using ids_later. Qed.

Lemma completes_terminal b l id : l ≡ₚ map summary_of (entries_of b) → id ∈ omap completes l → terminal b id.
Proof.
  intros Hl (r & Hr & Hc)%list_elem_of_omap. rewrite Hl in Hr. apply list_elem_of_fmap in Hr as (e & -> & He).
  assert (∀ p, MpcRunner.strip_prefix p (en_id e) = Some id → p ++ id ∈ ids_of b) as Hp.
  { intros p ->%strip_prefix_Some%eq_sym. by apply list_elem_of_fmap_2. }
  unfold completes in Hc. cbn [oe_request_id summary_of] in Hc. unfold terminal, admitted.
  destruct (MpcRunner.strip_prefix (chars "receipt:") _) as [i1|] eqn:E1; [left; apply Hp; congruence|].
  destruct (MpcRunner.strip_prefix (chars "resolved:") _) as [i2|] eqn:E2;
    right; [left; apply Hp; congruence|right; by apply Hp].
Qed.

(** The outbox reports exactly its entries. *)
Definition reports b (l : list OutboxEntrySummary) : Prop := l ≡ₚ map summary_of (entries_of b).

Lemma reports_entry b l e : reports b l → e ∈ entries_of b → summary_of e ∈ l.
Proof. intros -> He. by apply list_elem_of_fmap_2. Qed.

Lemma reports_elem b l r : reports b l → r ∈ l → ∃ e, r = summary_of e ∧ e ∈ entries_of b.
Proof. intros -> Hr. by apply list_elem_of_fmap in Hr. Qed.

Lemma terminal_admitted b l id :
  reports b l → terminal b id →
  existsb (λ r, bool_decide (oe_request_id r = chars "resolved:" ++ id)
    || bool_decide (oe_request_id r = chars "authorization-end:" ++ id)) l = false →
  admitted b id.
Proof.
  intros Hl [Hd|Hd] Hne; [done|exfalso]. apply not_true_iff_false in Hne. apply Hne, existsb_exists.
  destruct Hd as [(e & Hid & He)%list_elem_of_fmap|(e & Hid & He)%list_elem_of_fmap];
    exists (summary_of e); (split; [by apply list_elem_of_In, (reports_entry b)|]);
    apply orb_true_iff; [left|right]; by apply bool_decide_eq_true.
Qed.

(** When the first open intent is that of [id], the intents before it are closed. *)
Lemma first_open b l e1 e2 id1 :
  reports b l → e1 ∈ entries_of b → en_id e1 = chars "intent:" ++ id1 → e2 ∈ entries_of b →
  en_sequence e1 < en_sequence e2 →
  match min_by_key oe_sequence (open_intents l) with
  | Some r => negb (bool_decide (oe_request_id r = en_id e2))
  | None => false
  end = false →
  id1 ∈ omap completes l.
Proof.
  intros Hl He1 Hid1 He2 Hlt Hfirst. apply dec_stable. intros Hopen.
  assert (summary_of e1 ∈ open_intents l) as Hin.
  { unfold open_intents. apply list_elem_of_In, filter_In.
    split; [by apply list_elem_of_In, (reports_entry b)|].
    cbn [oe_request_id summary_of]. rewrite Hid1, strip_prefix_app. by rewrite bool_decide_false. }
  pose proof (min_by_key_spec oe_sequence (open_intents l)) as Hmin.
  destruct (min_by_key _ _) as [m|]; [|rewrite Hmin in Hin; by apply elem_of_nil in Hin].
  destruct Hmin as [Hm Hle]. apply Hle in Hin. apply negb_false_iff, bool_decide_eq_true in Hfirst.
  unfold open_intents in Hm. apply list_elem_of_In, filter_In in Hm as [Hm%list_elem_of_In _].
  apply (reports_elem b) in Hm as (e & -> & He); [|done].
  rewrite (entry_unique b e e2) in Hin by done. cbn [oe_sequence summary_of] in Hin. lia.
Qed.

Lemma require_turn_runs j id b u b' e1 e2 id1 :
  runs (require_turn j id) b (Ok u) b' →
  e1 ∈ entries_of b → en_id e1 = chars "intent:" ++ id1 →
  e2 ∈ entries_of b → en_id e2 = chars "intent:" ++ id → en_sequence e1 < en_sequence e2 →
  terminal b' id1 ∨ admitted b' id.
Proof.
  intros Hr He1 Hid1 He2 Hid2 Hlt. unfold require_turn in Hr.
  run Hr as (target & b1 & [Ht Hg1]%lift_runs & Hr). apply bind_Ok in Ht as ([] & _ & [= <-]).
  run Hr as (l & b2 & (b3 & Hg3 & Hg4 & Hs)%summaries_runs & Hr).
  run Hr as ([] & b5 & [Hne%fail_if_Ok Hg5]%lift_runs & Hr).
  assert (grow b3 b') as Hg by (eauto using grow_trans, runs_grow).
  case_bool_decide as Hdone.
  - right. apply (completes_terminal b3) in Hdone; [|done].
    eapply ids_later; [by eapply terminal_admitted|done].
  - left. apply lift_runs in Hr as [Hr%fail_if_Ok _].
    assert (grow b b3) as [k Hk] by eauto using grow_trans.
    apply terminal_later with b3; [|done]. eapply completes_terminal; [done|].
    apply (first_open b3 l e1 e2); rewrite ?Hid2, ?Hk, ?elem_of_app; auto.
Qed.

(** C19: A submission reaches the network only in turn: of two requests whose intents are on file, the
    later one is sent only when the earlier one was admitted or ended (or the later one was itself
    admitted already). *)
Theorem submissions_in_order j b jobs l b' ts' id i job e e1 e2 id1 :
  pool_run b (map (job_prog j) jobs) l b' ts' →
  jobs !! i = Some job → submits id job → (i, e) ∈ l → e ≠ Internal →
  e1 ∈ entries_of b → en_id e1 = chars "intent:" ++ id1 →
  e2 ∈ entries_of b → en_id e2 = chars "intent:" ++ id → en_sequence e1 < en_sequence e2 →
  terminal b' id1 ∨ admitted b' id.
Proof.
  intros Hp Hi Hs He Hne. destruct job as [fuel c cluster id' source| |]; [|done..].
  simpl in Hs. subst id'. apply (proj1 (pool_job _ _ _ _ _ _ _ Hp Hi)) in He. simpl in He.
  apply prog_bind_does in He as [He|(x & b1 & _ & [])].
  apply submission_turn in He as ([] & b1 & Hr & Hg); [|done]. intros.
  destruct (require_turn_runs _ _ _ _ _ e1 e2 id1 Hr) as [Ht|Ha]; [done..| |].
  - left. by eapply terminal_later.
  - right. by eapply ids_later.
Qed.

End pool.
