(* ===== verification/Dispatch.v ===== *)
(** * The corporate dispatch worker

    [NativeCorporateDispatch] of [oclob-node/src/corporate_dispatch.rs]: queued
    requests and the worker's [pump], one program over the journal, the queue and
    the network.  The queue is a second outbox of the SDK; whatever it answers is
    an answer of the calls. *)

From S2P Require Import Prelude BTree Bytes AppCrypto Orders Matching Circuit MpcRunner Book.
From S2P Require Import Ordering Reservations Eligibility Edge EdgeCreate NodeReceipts NodeState.
From S2P Require Import NodeStore NodeRpc EdgeClient Corporate Journal.
Open Scope string_scope.
Open Scope list_scope.
Open Scope Z_scope.

Record DispatchRequest := mk_dispatch {
  dr_version : Z;
  dr_journal_context : Digest32;
  dr_request_id : text;
  dr_intent_digest : Digest32;
  dr_reserve_digest : Digest32;
  dr_authorization_digest : option Digest32;
  dr_source_note : option Digest32
}.

Inductive DispatchProgress :=
| Idle
| WaitingForNodes
| RetryScheduled (request_id : text) (attempt : Z)
| AdmittedProgress (request_id : text) (receipt_digest : text)
| ReleaseReconciliationRequired (request_id : text)
| ManualReviewRequired (request_id : text)
| ReservationReleased (request_id : text) (transaction_id : bytes)
| NeverReservedProgress (request_id : text)
| FundingRejected (request_id : text).

(** [serde_json] on queued requests. *)
Class DispatchJson := {
  json_dispatch : DispatchRequest → option bytes;
  parse_dispatch : bytes → option DispatchRequest
}.

Section dispatch.
Context `{Crypto} `{CorporateCrates} `{!JournalJson} `{!StoreJson} `{!DispatchJson}.

Implicit Types (j : NativeCorporateJournal) (id : text).

(** ** The queue *)

Definition enqueue_request (request : DispatchRequest) (i : StoredCorporateIntent) : act bool :=
  payload ← lift (ok_or (json_dispatch request) "serde_json");
  let digest := sha256 payload in
  present ← perform (QueueEnqueue (dr_request_id request) payload (ci_accepted_at i) (ci_expires_at i));
  saved ← perform (QueueRequest (dr_request_id request) digest);
  _ ← lift (fail_if (negb (bool_decide (saved = payload)))
    "dispatch request ID was reused with different contents");
  mret present.

Definition enqueue j (c : CorporateNativeConfig) id (source_note : option Digest32) : act bool :=
  i ← expect (intent j id) "queued request has no saved intent";
  reserve ← expect (stage (T := PreparedCorporateReserve) j id "reserve")
    "queued request has no saved signed reserve";
  _ ← lift (prepared_validate c reserve);
  _ ← lift (fail_if (negb (bool_decide (pr_order_wire reserve = ci_order_wire i))
      || negb (bool_decide (pr_signing_key reserve = ci_signing_key i)))
    "queued reserve differs from the original intent");
  digest ← lift (reserve_digest reserve);
  enqueue_request {| dr_version := 1; dr_journal_context := jn_context j; dr_request_id := id;
    dr_intent_digest := ci_input_digest i; dr_reserve_digest := digest;
    dr_authorization_digest := None; dr_source_note := source_note |} i.

Definition enqueue_authorized j (c : CorporateNativeConfig) id (source_note : option Digest32) :
    act bool :=
  i ← expect (intent j id) "authorized queue request has no intent";
  a ← expect (authorization j id) "authorized queue request has no signed terms";
  _ ← lift (authorization_validate c a);
  _ ← lift (fail_if (negb (bool_decide (ra_order_wire a = ci_order_wire i))
      || negb (bool_decide (ra_signing_key a = ci_signing_key i)))
    "authorized queue request differs from corporate intake");
  digest ← lift (authorization_digest a);
  enqueue_request {| dr_version := 2; dr_journal_context := jn_context j; dr_request_id := id;
    dr_intent_digest := ci_input_digest i; dr_reserve_digest := zero_digest;
    dr_authorization_digest := Some digest; dr_source_note := source_note |} i.

Definition no_claim_progress (healthy : bool) : act DispatchProgress :=
  entries ← perform QueueSummaries;
  mret match List.find (λ e, match qe_state e with ManualReview => true | _ => false end) entries with
    | Some e => ManualReviewRequired (qe_request_id e)
    | None => if healthy then Idle else WaitingForNodes
    end.

Definition verified_request j id (digest : Digest32) : act DispatchRequest :=
  payload ← perform (QueueRequest id digest);
  request ← lift (ok_or (parse_dispatch payload) "malformed encrypted dispatch payload");
  i ← expect (intent j id) "dispatch intent disappeared";
  source_matches ← (match dr_version request, dr_authorization_digest request with
    | 1, None =>
        prepared ← stage (T := PreparedCorporateReserve) j id "reserve";
        match prepared with
        | Some prepared =>
            d ← lift (reserve_digest prepared);
            mret (bool_decide (d = dr_reserve_digest request))
        | None => mret false
        end
    | 2, Some digest =>
        if is_zero (dr_reserve_digest request) then
          a ← authorization j id;
          match a with
          | Some a => d ← lift (authorization_digest a); mret (bool_decide (d = digest))
          | None => mret false
          end
        else mret false
    | _, _ => mret false
    end : act bool);
  _ ← lift (fail_if (negb source_matches
      || negb (bool_decide (dr_journal_context request = jn_context j))
      || negb (bool_decide (dr_request_id request = id))
      || negb (bool_decide (dr_intent_digest request = ci_input_digest i)))
    "dispatch payload does not match its corporate journal");
  mret request.

Definition record_authorization_end (digest : Digest32) (ended : EndedCorporateAuthorization) :
    act DispatchProgress :=
  _ ← perform (RecordAbort (ea_request_id ended) digest (ea_ended_at ended));
  mret match ea_reason ended with
    | EndExpired => NeverReservedProgress (ea_request_id ended)
    | InsufficientFunding => FundingRejected (ea_request_id ended)
    end.

(** ** Expiry *)

(** Both outcomes of a call that the source matches on. *)
Definition attempt {A B} (m : act A) (ok : A → act B) (err : string → act B) : act B :=
  prog_bind m (λ r, match r with Ok a => ok a | Err e => err e end).

(** A version-2 request whose reserve was not prepared. *)
Definition unprepared j (request : DispatchRequest) id : act bool :=
  if dr_version request =? 2 then
    prepared ← stage (T := PreparedCorporateReserve) j id "reserve";
    mret match prepared with Some _ => false | None => true end
  else mret false.

Definition reconcile_expiry (c : CorporateNativeConfig) j id (digest : Digest32) (now : Z) :
    act DispatchProgress :=
  request ← verified_request j id digest;
  _ ← perform (MarkReleasePending id digest now);
  local ← unprepared j request id;
  if (local : bool) then
    attempt (end_unprepared_authorization j id now EndExpired)
      (record_authorization_end digest)
      (λ _, mret (ReleaseReconciliationRequired id))
  else
    attempt (reconcile_expired_submission c j id now)
      (λ x, match xr_outcome x with
        | NeverReserved _ =>
            _ ← perform (RecordAbort id digest (xr_checked_at x));
            mret (NeverReservedProgress id)
        | ReleasedBy _ transaction_id _ height _ =>
            _ ← perform (RecordRelease id digest (mk_canonical_receipt (hex (cf_defmi_id c))
              transaction_id height digest (xr_checked_at x)));
            mret (ReservationReleased id transaction_id)
        end)
      (λ _, mret (ReleaseReconciliationRequired id)).

(** ** The worker *)

(** The first queue entry whose authorization has ended but is not recorded as aborted. *)
Fixpoint finish_ended j (entries : list QueueEntry) : act (option DispatchProgress) :=
  match entries with
  | [] => mret None
  | e :: entries =>
      match qe_state e with
      | AbortedBeforeReserve => finish_ended j entries
      | _ =>
          ended ← ended_authorization j (qe_request_id e);
          match ended with
          | None => finish_ended j entries
          | Some ended =>
              _ ← verified_request j (qe_request_id e) (qe_request_digest e);
              progress ← record_authorization_end (qe_request_digest e) ended;
              mret (Some progress)
          end
      end
  end.

(** A thread per node, all joined. *)
Fixpoint all_healthy (nodes : list ClusterNodePublic) : prog bool :=
  match nodes with
  | [] => Ret true
  | n :: nodes => Call (NodeHealthy n) (λ ok, prog_bind (all_healthy nodes) (λ rest, Ret (ok && rest)))
  end.

Definition preparation j (c : CorporateNativeConfig) id (source_note : option Digest32) (now : Z) :
    prog (result PreparationError ()) :=
  prog_bind
    (_ ← require_turn j id;
     a ← expect (authorization j id) "queued authorization disappeared";
     i ← expect (intent j id) "queued intent disappeared";
     funding ← latest_funding j c;
     mret (a, i, funding) : act (CorporateReserveAuthorization * StoredCorporateIntent * CorporateNativeConfig))
    (λ r, match r with
      | Err e => Ret (Err (PreparationRetry e))
      | Ok (a, i, funding) =>
          Call (PrepareReservation funding a now source_note) (λ prepared, match prepared with
            | Err e => Ret (Err e)
            | Ok prepared => prog_bind (save_stage j id "reserve" prepared i) (λ s,
                Ret match s with Ok _ => Ok () | Err e => Err (PreparationRetry e) end)
            end)
      end).

(** [Some] is an early return. *)
Definition prepare_claimed j (c : CorporateNativeConfig) (request : DispatchRequest)
    (claimed : ClaimedRequest) (now : Z) : act (option DispatchProgress) :=
  missing ← unprepared j request (cq_request_id claimed);
  if (missing : bool) then
    prog_bind (preparation j c (cq_request_id claimed) (dr_source_note request) now) (λ r, match r return act (option DispatchProgress) with
      | Ok _ => mret None
      | Err PreparationUnfunded =>
          ended ← end_unprepared_authorization j (cq_request_id claimed) now InsufficientFunding;
          progress ← record_authorization_end (cq_request_digest claimed) ended;
          mret (Some progress)
      | Err (PreparationRetry _) =>
          _ ← perform OpenClient;
          let again : act (option DispatchProgress) :=
            mret (Some (RetryScheduled (cq_request_id claimed) (cq_attempt claimed))) in
          attempt (perform RecoverFacility)
            (λ w, _ ← save_funding_witness j w; again)
            (λ _, again)
      end)
  else mret None.

(** A claimed request: prepared if need be, submitted, acknowledged on the queue. *)
Definition dispatch_claimed (fuel : nat) (c : CorporateNativeConfig) (cluster : ClusterPublicConfig) j
    (claimed : ClaimedRequest) (now : Z) : act DispatchProgress :=
  let id := cq_request_id claimed in
  request ← verified_request j id (cq_request_digest claimed);
  early ← prepare_claimed j c request claimed now;
  match early with
  | Some progress => mret progress
  | None =>
      attempt (complete_native_submission fuel c cluster j id (dr_source_note request))
        (λ completed,
          _ ← perform (RecordAdmission id (cq_request_digest claimed) now {|
            ma_committee_id := chars "oclob:" ++ map byte_val (cl_market_id cluster);
            ma_job_id := hex (m_commitment (er_manifest (cs_receipt completed)));
            ma_admitted_request_digest := cq_request_digest claimed |});
          mret (AdmittedProgress id (hex (er_receipt_digest (cs_receipt completed)))))
        (λ _, mret (RetryScheduled id (cq_attempt claimed)))
  end.

Definition pump (fuel : nat) (c : CorporateNativeConfig) (cluster : ClusterPublicConfig) j
    (now retry_after_seconds : Z) : act DispatchProgress :=
  _ ← lift (fail_if (negb ((1 <=? retry_after_seconds) && (retry_after_seconds <=? 300)))
    "dispatch retry interval outside1..300 seconds");
  entries ← perform QueueSummaries;
  finished ← finish_ended j entries;
  match finished with
  | Some progress => mret progress
  | None =>
      expired ← perform (ClaimNext now false retry_after_seconds);
      match expired with
      | Some (Expire id digest) => reconcile_expiry c j id digest now
      | _ =>
          _ ← perform OpenClient;
          prog_bind (all_healthy (cl_nodes cluster)) (λ healthy,
            action ← perform (ClaimNext now healthy retry_after_seconds);
            match action with
            | None => no_claim_progress healthy
            | Some (Expire id digest) => reconcile_expiry c j id digest now
            | Some (Dispatch claimed) => dispatch_claimed fuel c cluster j claimed now
            end)
      end
  end.

End dispatch.
