(* ===== verification/DispatchLife.v ===== *)
(** * What the dispatch worker guarantees

    Pools of dispatch workers, submissions and reconciliations over one journal:
    every last word on the queue is backed by the journal, whatever the queue
    answers. *)

From S2P Require Import Prelude BTree Bytes AppCrypto Orders Matching Circuit MpcRunner Book.
From S2P Require Import Ordering Reservations Eligibility Edge EdgeCreate NodeReceipts NodeState.
From S2P Require Import NodeStore NodeRpc EdgeClient Corporate Journal JournalRuns JournalLife.
From S2P Require Import JournalPool Dispatch.
Open Scope string_scope.
Open Scope list_scope.
Open Scope Z_scope.

Section life.
Context `{Crypto} `{CorporateCrates} `{!JournalJson} `{!StoreJson} `{!DispatchJson} `{OutboxLaws}.

Implicit Types (j : NativeCorporateJournal) (id : text) (b : Box).

(** ** Completed submissions *)

(** The journal holds an intent, a delivery and a receipt for the request, and the receipt verifies
    against the delivery. *)
Definition receipted j b (cluster : ClusterPublicConfig) id : Prop :=
  ∃ (i : StoredCorporateIntent) (d : StoredCorporateDelivery) (r : EdgeAdmissionReceipt),
    recorded j b "intent" id i ∧ recorded j b "delivery" id d ∧ recorded j b "receipt" id r
    ∧ verify_receipt r d cluster (ci_accepted_at i) = Ok ().

Lemma receipted_later j b b' cluster id :
  receipted j b cluster id → grow b b' → receipted j b' cluster id.
Proof. intros (i & d & r & Hi & Hd & Hr & Hv) Hg. exists i, d, r. eauto 10 using recorded_later. Qed.

Lemma save_receipt_runs j id r d cluster i b r' b' :
  runs (save_receipt j id r d cluster i) b (Ok r') b' → recorded j b' "receipt" id r'.
Proof.
  unfold save_receipt. intros Hr. run Hr as ([] & b1 & _ & Hr). run Hr as (key & b2 & [Hk _]%lift_runs & Hr).
  run Hr as (stored & b3 & Hs%put_first_runs & Hr). run Hr as ([] & b4 & [_ Hg]%lift_runs & Hr).
  apply mret_runs in Hr as [<- Hg']. exists key. split; [done|]. eapply has_later; [done|].
  by eapply grow_trans.
Qed.

Lemma submission_runs fuel c cluster j id source b x b' :
  runs (complete_native_submission fuel c cluster j id source) b (Ok x) b' → receipted j b' cluster id.
Proof.
  unfold complete_native_submission. intros Hr. run Hr as ([] & b1 & _ & Hr).
  run Hr as (i & b2 & Hi%expect_stage & Hr). pose proof (runs_grow _ _ _ _ Hr) as Hgi.
  run Hr as (p & b3 & _ & Hr). run Hr as ([] & b4 & _ & Hr). run Hr as ([] & b5 & _ & Hr).
  run Hr as (digest & b6 & _ & Hr). run Hr as (completed & b7 & Hc & Hr).
  pose proof (runs_grow _ _ _ _ Hr) as Hgc.
  run Hr as (d & b8 & Hd%obtain_delivery_runs & Hr). pose proof (runs_grow _ _ _ _ Hr) as Hgd.
  run Hr as ([] & b9 & _ & Hr). run Hr as (r & b10 & Hreceipt & Hr). pose proof (runs_grow _ _ _ _ Hr) as Hgr.
  run Hr as ([] & b11 & [Hv _]%lift_runs & Hr).
  exists i, d, r. split_and!; [by eapply recorded_later..| |done].
  destruct completed as [r0|].
  - apply mret_runs in Hreceipt as [-> _]. eapply recorded_later; [by apply stage_runs in Hc|done].
  - run Hreceipt as ([] & b12 & _ & Hq). run Hq as ([] & b13 & _ & Hq). run Hq as (r1 & b14 & _ & Hq).
    run Hq as ([] & b15 & _ & Hq). apply save_receipt_runs in Hq. by eapply recorded_later.
Qed.

(** ** The worker's steps *)

(** What the journal holds when [e] happened. *)
Definition justified j b (cluster : ClusterPublicConfig) (e : event) : Prop :=
  match e with
  | Reserved request => ∃ id (p : PreparedCorporateReserve),
      recorded j b "reserve" id p ∧ request = pr_request p ∧ fence j b id true
  | Delivered delivery => ∃ id (d : StoredCorporateDelivery),
      recorded j b "delivery" id d ∧ delivery = dv_delivery d
  | Aborted id => fence j b id false
  | Acknowledged id => receipted j b cluster id
  | Internal => True
  end.

Lemma attempt_does {A B} e (m : act A) (ok : A → act B) (err : string → act B) b b' :
  does e (attempt m ok err) b b' →
  does e m b b' ∨ (∃ x b1, runs m b (Ok x) b1 ∧ does e (ok x) b1 b')
  ∨ ∃ x b1, does e (err x) b1 b'.
Proof. intros [?|([x|x] & b1 & Hm & Hf)]%prog_bind_does; eauto 10. Qed.

Lemma quiet_verified j id digest : quiet (verified_request j id digest).
Proof. unfold verified_request. quietly. Qed.
Lemma quiet_unprepared j request id : quiet (unprepared j request id).
Proof. unfold unprepared. quietly. Qed.
Hint Resolve quiet_verified quiet_unprepared : journal.

Lemma quiet_preparation j c id source now : quiet (preparation j c id source now).
Proof.
  unfold preparation. apply quiet_prog_bind; [quietly|]. intros [[[a i] funding]|]; [|done].
  split; [by intros []|]. intros [p|]; [|done]. quietly.
Qed.

Lemma quiet_healthy nodes : quiet (all_healthy nodes).
Proof.
  induction nodes as [|n nodes IH]; [done|]. split; [by intros []|]. intros ok.
  apply quiet_prog_bind; [done|]. done.
Qed.
Hint Resolve quiet_preparation quiet_healthy : journal.

Lemma record_end_does j cluster e digest ended id b b' :
  does e (record_authorization_end digest ended) b b' → e ≠ Internal →
  fence j b id false → ea_request_id ended = id → justified j b' cluster e.
Proof.
  intros D He Hf <-. pose proof (does_grow _ _ _ _ D) as Hg. unfold record_authorization_end in D.
  apply act_bind_does in D as [D|([] & b1 & _ & [])]. apply perform_does in D as ->.
  by eapply fence_later.
Qed.

Lemma finish_ended_does cluster e j entries b b' :
  does e (finish_ended j entries) b b' → e ≠ Internal → justified j b' cluster e.
Proof.
  intros D He. revert b D. induction entries as [|q entries IH]; intros b D; simpl in D; [done|].
  assert (does e (ended ← ended_authorization j (qe_request_id q);
    match ended with
    | None => finish_ended j entries
    | Some ended =>
        _ ← verified_request j (qe_request_id q) (qe_request_digest q);
        progress ← record_authorization_end (qe_request_digest q) ended;
        mret (Some progress)
    end) b b' ∨ does e (finish_ended j entries) b b') as [D'|D'] by (destruct (qe_state q); auto); [|by eapply IH].
  doing D' as (ended & b1 & Hended & D'). destruct ended as [ended|]; [|by eapply IH].
  apply ended_runs in Hended as [Hf Hid]. doing D' as (r & b2 & Hg%runs_grow & D').
  apply act_bind_does in D' as [D'|(x & b3 & _ & [])].
  eapply record_end_does; [done|done|by eapply fence_later|done].
Qed.

Lemma reconcile_does cluster e c j id digest now b b' :
  does e (reconcile_expiry c j id digest now) b b' → e ≠ Internal → justified j b' cluster e.
Proof.
  intros D He. unfold reconcile_expiry in D. doing D as (request & b1 & _ & D).
  doing D as ([] & b2 & _ & D). doing D as (local & b3 & _ & D). destruct local.
  - apply attempt_does in D as [D|[(ended & b4 & [Hf Hid]%end_runs & D)|(x & b4 & [])]].
    + exfalso. revert D. apply quiet_does; [quietly|done].
    + by eapply record_end_does.
  - apply attempt_does in D as [D|[(x & b4 & Hx%reconcile_runs & D)|(x & b4 & [])]].
    + exfalso. revert D. apply quiet_does; [quietly|done].
    + pose proof (does_grow _ _ _ _ D) as Hg. destruct (xr_outcome x).
      * apply act_bind_does in D as [D|([] & b5 & _ & [])]. apply perform_does in D as ->.
        by eapply fence_later.
      * exfalso. revert D. apply quiet_does; [quietly|done].
Qed.

Lemma prepare_claimed_does cluster e j c request claimed now b b' :
  does e (prepare_claimed j c request claimed now) b b' → e ≠ Internal → justified j b' cluster e.
Proof.
  intros D He. unfold prepare_claimed in D. doing D as (missing & b1 & _ & D). destruct missing; [|done].
  apply prog_bind_does in D as [D|(r & b2 & _ & D)].
  { exfalso. revert D. apply quiet_does; [quietly|done]. }
  destruct r as [u|[m|]]; [done| |].
  - exfalso. revert D. apply quiet_does; [|done]. unfold attempt. quietly.
  - doing D as (ended & b3 & [Hf Hid]%end_runs & D).
    apply act_bind_does in D as [D|(x & b4 & _ & [])]. by eapply record_end_does.
Qed.

Lemma submission_justified fuel e c cluster j id source b b' :
  does e (complete_native_submission fuel c cluster j id source) b b' → e ≠ Internal →
  justified j b' cluster e.
Proof.
  intros D He. destruct (submission_does _ _ _ _ _ _ _ _ _ D He) as [(p & Hp & -> & Hf)|(d & Hd & ->)].
  - by exists id, p.
  - by exists id, d.
Qed.

Lemma dispatch_claimed_does fuel e c cluster j claimed now b b' :
  does e (dispatch_claimed fuel c cluster j claimed now) b b' → e ≠ Internal → justified j b' cluster e.
Proof.
  intros D He. unfold dispatch_claimed in D. doing D as (request & b1 & _ & D).
  apply act_bind_does in D as [D|(early & b2 & _ & D)]; [by eapply prepare_claimed_does|].
  destruct early; [done|].
  apply attempt_does in D as [D|[(x & b4 & Hx%submission_runs & D)|(x & b4 & [])]].
  - by eapply submission_justified.
  - pose proof (does_grow _ _ _ _ D) as Hg. apply act_bind_does in D as [D|([] & b5 & _ & [])].
    apply perform_does in D as ->. by eapply receipted_later.
Qed.

Lemma pump_does fuel e c cluster j now retry b b' :
  does e (pump fuel c cluster j now retry) b b' → e ≠ Internal → justified j b' cluster e.
Proof.
  intros D He. unfold pump in D. doing D as ([] & b1 & _ & D). doing D as (entries & b2 & _ & D).
  apply act_bind_does in D as [D|(finished & b3 & _ & D)]; [by eapply finish_ended_does|].
  destruct finished; [done|]. doing D as (expired & b4 & _ & D).
  destruct expired as [[id digest|claimed]|]; [by eapply reconcile_does|..];
    (doing D as ([] & b5 & _ & D); apply prog_bind_does in D as [D|(healthy & b6 & _ & D)];
      [exfalso; revert D; apply quiet_does; [quietly|done]|]);
    (doing D as (action & b7 & _ & D); destruct action as [[id digest|claimed']|];
      [by eapply reconcile_does|by eapply dispatch_claimed_does|
       exfalso; revert D; apply quiet_does; [unfold no_claim_progress; quietly|done]]).
Qed.

(** ** Pools of workers *)

Inductive Worker :=
| Pump (fuel : nat) (c : CorporateNativeConfig) (cluster : ClusterPublicConfig) (now retry_after : Z)
| Direct (job : Job).

Inductive WorkResult :=
| Pumped (r : result string DispatchProgress)
| Worked (r : JobResult).

Definition work_prog j (w : Worker) : prog WorkResult :=
  match w with
  | Pump fuel c cluster now retry_after =>
      prog_bind (pump fuel c cluster j now retry_after) (λ r, Ret (Pumped r))
  | Direct job => prog_bind (job_prog j job) (λ r, Ret (Worked r))
  end.

Lemma job_justified e j job b b' :
  does e (job_prog j job) b b' → e ≠ Internal → ∃ cluster, justified j b' cluster e.
Proof.
  intros D He. destruct job as [fuel c cluster' id source|c id now|id now reason];
    apply prog_bind_does in D as [D|(x & b1 & _ & [])].
  - exists cluster'. by eapply submission_justified.
  - exfalso. revert D. apply quiet_does; [quietly|done].
  - exfalso. revert D. apply quiet_does; [quietly|done].
Qed.

Lemma worker_justified {ts' : list (prog WorkResult)} j b ws l b' i e :
  pool_run b (map (work_prog j) ws) l b' ts' → (i, e) ∈ l → e ≠ Internal →
  ∃ cluster, justified j b' cluster e.
Proof.
  intros Hp Hin He. destruct (pool_member _ _ _ _ _ _ _ Hp Hin) as [m Hm].
  pose proof (pool_does _ _ _ _ _ _ _ _ Hp Hm Hin) as D.
  apply list_lookup_fmap_Some in Hm as (w & -> & Hw).
  destruct w as [fuel c cluster now retry|job]; apply prog_bind_does in D as [D|(x & b1 & _ & [])].
  - exists cluster. by eapply pump_does.
  - by eapply job_justified.
Qed.

(** C15: Whatever the queue answers and however dispatch workers, submissions and reconciliations
    interleave, when a worker closes a request on the queue as aborted before its reserve, no reserve
    request that any of them sends, before or after, is that request's: each is the recorded reserve
    of another identifier. *)
Theorem aborted_never_sent j b ws l b' ts' i k id request :
  pool_run b (map (work_prog j) ws) l b' ts' →
  (i, Aborted id) ∈ l → (k, Reserved request) ∈ l →
  ∃ id' (p : PreparedCorporateReserve),
    id' ≠ id ∧ recorded j b' "reserve" id' p ∧ request = pr_request p.
Proof.
  intros Hp Ha Hr. destruct (worker_justified _ _ _ _ _ _ _ Hp Ha) as [cluster Hf]; [done|].
  destruct (worker_justified _ _ _ _ _ _ _ Hp Hr) as [cluster' (id' & p & Hrec & -> & Ht)]; [done|].
  exists id', p. split; [|done]. intros ->. by pose proof (fence_agree _ _ _ _ _ Hf Ht).
Qed.

(** C16: A dispatch worker acknowledges the admission of a request on the queue only when the journal
    holds its intent, its delivery and a receipt of the cluster that verifies against exactly that
    delivery. *)
Theorem acknowledgement_backed j b ws l b' ts' i id fuel c cluster now retry_after :
  pool_run b (map (work_prog j) ws) l b' ts' →
  ws !! i = Some (Pump fuel c cluster now retry_after) → (i, Acknowledged id) ∈ l →
  receipted j b' cluster id.
Proof.
  intros Hp Hi Ha. assert (map (work_prog j) ws !! i = Some (work_prog j (Pump fuel c cluster now retry_after)))
    as Hm by (by rewrite list_lookup_fmap, Hi).
  pose proof (pool_does _ _ _ _ _ _ _ _ Hp Hm Ha) as D. simpl in D.
  apply prog_bind_does in D as [D|(x & b1 & _ & [])]. by apply (pump_does _ _ _ _ _ _ _ _ _ D).
Qed.

End life.
