(* ===== verification/MarketJournal.v ===== *)
(** * The market's journal

    [MarketJournal] of [oclob-node/src/market_journal.rs] and the signed intake
    envelope [MarketIngress] of [market_network.rs]: admitted orders and completed
    rounds as immutable records of an outbox, as programs like those of
    [Journal]. *)

From S2P Require Import Prelude BTree Bytes AppCrypto Orders Matching Circuit MpcRunner Book.
From S2P Require Import Ordering Reservations Eligibility Edge EdgeCreate NodeReceipts NodeState.
From S2P Require Import NodeStore NodeRpc EdgeClient PublicDepth Corporate Journal.
Open Scope string_scope.
Open Scope list_scope.
Open Scope Z_scope.

(** ** Data *)

Record MarketBookEntry := mk_market_entry {
  me_commitment : OrderCommitment;
  me_remaining : Z
}.

Record MarketCompletedRound := mk_market_round {
  mr_certificate : OrderCertificate;
  mr_result : MpcBatchResult;
  mr_book : list MarketBookEntry;
  mr_transaction_id : option bytes;
  mr_canonical_root : option Digest32;
  mr_finality_observations : Z;
  mr_public_snapshot : option FinalizedPublicBook
}.

(** [authority] is the sealed capability that [SealedReservationAuthority] wraps. *)
Record MarketIngress := mk_ingress {
  mi_version : Z;
  mi_receipt : EdgeAdmissionReceipt;
  mi_authority : SealedSettlementCapability;
  mi_signature : bytes
}.

Record Bound (T : Type) := mk_market_bound { mb_context : Digest32; mb_body : T }.
Arguments mk_market_bound {T} _ _.
Arguments mb_context {T} _.
Arguments mb_body {T} _.

(** [serde_json] on the records of a body type, and on envelopes. *)
Class MarketSerde (T : Type) := {
  market_to_json : Bound T → option bytes;
  market_from_json : bytes → option (Bound T)
}.

Class MarketJson := {
  market_json_context :: MarketSerde Digest32;
  market_json_ingress :: MarketSerde MarketIngress;
  market_json_round :: MarketSerde MarketCompletedRound;
  json_ingress : MarketIngress → option bytes;
  json_ingress_body : Z → EdgeAdmissionReceipt → SealedSettlementCapability → option bytes
}.

Record MarketJournal := mk_market_journal { mj_context : Digest32 }.

Section market.
Context `{Crypto} `{CorporateCrates} `{!MarketJson}.

Implicit Types (j : MarketJournal) (id : text).

(** ** Intake envelopes *)

Definition ingress_statement (i : MarketIngress) : result string Digest32 :=
  body ← ok_or (json_ingress_body (mi_version i) (mi_receipt i) (mi_authority i)) "serde_json";
  Ok (sha256 (ascii_bytes "OCLOB:MARKET-INGRESS:v2" ++ body)).

Definition ingress_sign (receipt : EdgeAdmissionReceipt) (authority : SealedSettlementCapability)
    (key : SigningKey) : result string MarketIngress :=
  _ ← fail_if (negb (bool_decide (m_signer (er_manifest receipt) = vk_fingerprint (verifying_key key))))
    "market input signer differs from admitted order";
  let unsigned := mk_ingress 2 receipt authority [] in
  statement ← ingress_statement unsigned;
  signature ← map_err (λ _, "signature") (try_sign key (d_bytes statement));
  Ok (mk_ingress 2 receipt authority (sig_bytes signature)).

Definition ingress_digest (i : MarketIngress) : result string Digest32 :=
  body ← ok_or (json_ingress i) "serde_json";
  Ok (sha256 (ascii_bytes "OCLOB:MARKET-INGRESS-DIGEST:v2" ++ body)).

Definition ingress_verify (i : MarketIngress) (cluster : ClusterPublicConfig) (now : Z) :
    result string () :=
  let manifest := er_manifest (mi_receipt i) in
  _ ← fail_if (negb (mi_version i =? 2) || negb (uses_pretrade_reservation manifest))
    "market intake refuses legacy or unknown input";
  _ ← map_err (λ _, "receipt") (edge_receipt_verify (mi_receipt i) cluster now);
  _ ← map_err (λ _, "authority") (validate_envelope (mi_authority i) manifest);
  key ← map_err (λ _, "key") (vk_from_bytes (m_signer manifest));
  statement ← ingress_statement i;
  signature ← map_err (λ _, "signature") (sig_try_from (mi_signature i));
  map_err (λ _, "signature") (verify_strict key (d_bytes statement) signature).

(** ** Records *)

Definition market_get {T} `{!MarketSerde T} j id : act (option T) :=
  found ← fetch id;
  match found with
  | None => mret None
  | Some payload =>
      value ← lift (ok_or (market_from_json payload) "serde_json");
      _ ← lift (fail_if (negb (bool_decide (mb_context value = mj_context j)))
        "market record belongs to another deployment");
      mret (Some (mb_body value))
  end.

(** The result of the insertion is looked at only when the record is not there afterwards. *)
Definition market_put {T} `{!MarketSerde T} j id (value : T) (accepted_at expires_at : Z) : act T :=
  body ← lift (ok_or (market_to_json (mk_market_bound (mj_context j) value)) "serde_json");
  prog_bind (perform (EnqueueFirstSeen id body accepted_at expires_at)) (λ outcome,
    saved ← market_get (T := T) j id;
    match saved with
    | Some saved => mret saved
    | None =>
        _ ← lift outcome;
        lift (Err "market journal insertion was not durable")
    end).

Definition input_id (c : OrderCommitment) : text := chars "input:" ++ hex c.

(** The sequence of a listed record. *)
Definition sequence_of id (entries : list OutboxEntrySummary) : option Z :=
  (λ '(_, e), oe_sequence e) <$> list_find (λ e, oe_request_id e = id) entries.

Definition same_envelope (saved input : MarketIngress) : result string () :=
  a ← ingress_digest saved;
  b ← ingress_digest input;
  fail_if (negb (bool_decide (a = b))) "market commitment already has another envelope".

Definition market_accept j (input : MarketIngress) (cluster : ClusterPublicConfig) (now : Z) : act Z :=
  let id := input_id (m_commitment (er_manifest (mi_receipt input))) in
  entries ← perform Summaries;
  match sequence_of id entries with
  | Some sequence =>
      saved ← expect (market_get (T := MarketIngress) j id) "market input disappeared";
      _ ← lift (same_envelope saved input);
      mret sequence
  | None =>
      _ ← lift (ingress_verify input cluster now);
      saved ← market_put j id input now u64_max;
      _ ← lift (same_envelope saved input);
      entries ← perform Summaries;
      lift (ok_or (sequence_of id entries) "market input disappeared")
  end.

Definition ingress j (c : OrderCommitment) : act MarketIngress :=
  expect (market_get (T := MarketIngress) j (input_id c)) "market order has no durable intake".

Definition by_sequence (entries : list OutboxEntrySummary) : list OutboxEntrySummary :=
  sort_by (λ a b, oe_sequence a <=? oe_sequence b) entries.

(** The first input without a completed round. *)
Fixpoint next_input j (entries : list OutboxEntrySummary) : act (option MarketIngress) :=
  match entries with
  | [] => mret None
  | e :: entries =>
      match MpcRunner.strip_prefix (chars "input:") (oe_request_id e) with
      | None => next_input j entries
      | Some id =>
          completed ← market_get (T := MarketCompletedRound) j (chars "done:" ++ id);
          match completed with
          | Some _ => next_input j entries
          | None => market_get (T := MarketIngress) j (oe_request_id e)
          end
      end
  end.

Definition market_next j : act (option MarketIngress) :=
  entries ← perform Summaries;
  next_input j (by_sequence entries).

Fixpoint read_rounds j (entries : list OutboxEntrySummary) : act (list MarketCompletedRound) :=
  match entries with
  | [] => mret []
  | e :: entries =>
      round ← expect (market_get (T := MarketCompletedRound) j (oe_request_id e))
        "market completion disappeared";
      rest ← read_rounds j entries;
      mret (round :: rest)
  end.

Definition completed j : act (list MarketCompletedRound) :=
  entries ← perform Summaries;
  read_rounds j (List.filter (has_prefix (chars "done:")) (by_sequence entries)).

End market.
