(* ===== verification/MarketLife.v ===== *)
(** * What the market's journal guarantees

    One envelope and one place in the queue for every order, and rounds taken up
    in the order of intake, among other processes on the same file. *)

From S2P Require Import Prelude BTree Bytes AppCrypto Orders Matching Circuit MpcRunner Book.
From S2P Require Import Ordering Reservations Eligibility Edge EdgeCreate NodeReceipts NodeState.
From S2P Require Import NodeStore NodeRpc EdgeClient PublicDepth Corporate Journal JournalRuns.
From S2P Require Import JournalLife JournalPool MarketJournal.
Open Scope string_scope.
Open Scope list_scope.
Open Scope Z_scope.

Section life.
Context `{Crypto} `{CorporateCrates} `{!MarketJson} `{OutboxLaws}.

Implicit Types (j : MarketJournal) (b : Box).

(** ** Records *)

Definition market_has {T} `{!MarketSerde T} j b (key : text) (v : T) : Prop :=
  ∃ x, stored b key x ∧ market_from_json x = Some (mk_market_bound (mj_context j) v).

Lemma market_has_later {T} `{!MarketSerde T} j b b' key (v : T) :
  market_has j b key v → grow b b' → market_has j b' key v.
Proof. intros (x & Hx & Hv) Hg. exists x. split; [|done]. by eapply stored_later. Qed.

Lemma market_has_agree {T} `{!MarketSerde T} j b key (v w : T) :
  market_has j b key v → market_has j b key w → v = w.
Proof. intros (x & Hx & Hv) (y & Hy & Hw). rewrite (stored_agree _ _ _ _ Hx Hy) in Hv. congruence. Qed.

Lemma market_get_runs {T} `{!MarketSerde T} j key b (v : T) b' :
  runs (market_get j key) b (Ok (Some v)) b' → market_has j b' key v.
Proof.
  unfold market_get. intros Hr. run Hr as (found & b1 & Hf & Hr).
  destruct found as [x|]; [|by apply mret_runs in Hr as [[=] _]]. apply fetch_runs in Hf.
  pose proof (runs_grow _ _ _ _ Hr) as Hg.
  run Hr as (record & b3 & [Hrec%ok_or_Ok _]%lift_runs & Hr).
  run Hr as ([] & b4 & [Hg4%fail_if_Ok _]%lift_runs & Hr). apply mret_runs in Hr as [[= <-] _]. bool_hyps.
  exists x. split; [by eapply stored_later|]. rewrite Hrec. destruct record. simpl in *. congruence.
Qed.

Lemma market_get_found {T} `{!MarketSerde T} j e b (o : option T) b' :
  e ∈ entries_of b → runs (market_get j (en_id e)) b (Ok o) b' → o ≠ None.
Proof.
  intros He Hr ->. unfold market_get in Hr. run Hr as (found & b1 & Hf & Hr). destruct found as [x|].
  - run Hr as (record & b3 & _ & Hr). run Hr as ([] & b4 & _ & Hr). by apply mret_runs in Hr as [[=] _].
  - by apply (fetch_found _ _ _ _ _ He eq_refl Hf).
Qed.

Lemma market_put_runs {T} `{!MarketSerde T} j key (body : T) s t b v b' :
  runs (market_put j key body s t) b (Ok v) b' → market_has j b' key v.
Proof.
  unfold market_put. intros Hr. run Hr as (payload & b2 & _ & Hr).
  apply prog_bind_runs in Hr as (inserted & b3 & _ & Hr). run Hr as (saved & b4 & Hget & Hr).
  destruct saved as [w|].
  - apply mret_runs in Hr as [-> Hg]. eapply market_has_later; [by eapply market_get_runs|done].
  - run Hr as (? & b5 & _ & Hr). by apply lift_runs in Hr as [[=] _].
Qed.

(** ** Intake *)

Lemma sequence_of_entry b l id q :
  reports b l → sequence_of id l = Some q → ∃ e, e ∈ entries_of b ∧ en_id e = id ∧ en_sequence e = q.
Proof.
  intros Hl. unfold sequence_of. intros ([n r] & (Hr & Hid & _)%list_find_Some & ->)%fmap_Some.
  apply list_elem_of_lookup_2 in Hr. apply (reports_elem b) in Hr as (e & -> & He); [|done]. by exists e.
Qed.

Definition commitment_of (i : MarketIngress) : OrderCommitment := m_commitment (er_manifest (mi_receipt i)).

Lemma accept_runs j i cluster now b q b' :
  runs (market_accept j i cluster now) b (Ok q) b' →
  ∃ e v, e ∈ entries_of b' ∧ en_id e = input_id (commitment_of i) ∧ en_sequence e = q
    ∧ market_has j b' (en_id e) v ∧ same_envelope v i = Ok ().
Proof.
  unfold market_accept. intros Hr. run Hr as (l & b1 & (b2 & Hg2 & Hg2' & Hl)%summaries_runs & Hr).
  pose proof (runs_grow _ _ _ _ Hr) as Hg. destruct (sequence_of _ l) as [q'|] eqn:Hq.
  - destruct (sequence_of_entry b2 l _ _ Hl Hq) as (e & He & Hid & Hs).
    run Hr as (v & b3 & (b4 & Hv%market_get_runs & Hg4)%expect_runs & Hr).
    pose proof (runs_grow _ _ _ _ Hr) as Hg3.
    run Hr as ([] & b5 & [Hsame _]%lift_runs & Hr). apply mret_runs in Hr as [<- _].
    exists e, v. split_and!; [|done|done| |done].
    + eapply entry_later; [done|]. by eapply grow_trans.
    + rewrite Hid. eapply market_has_later; [done|]. by eapply grow_trans.
  - run Hr as ([] & b3 & _ & Hr). run Hr as (v & b4 & Hv%market_put_runs & Hr).
    pose proof (runs_grow _ _ _ _ Hr) as Hg4. run Hr as ([] & b5 & [Hsame _]%lift_runs & Hr).
    run Hr as (l' & b6 & (b7 & Hg7 & Hg7' & Hl')%summaries_runs & Hr).
    apply lift_runs in Hr as [Hq'%ok_or_Ok Hg8].
    destruct (sequence_of_entry b7 l' _ _ Hl' Hq') as (e & He & Hid & Hs).
    exists e, v. split_and!; [|done|done| |done].
    + eapply entry_later; [done|]. by eapply grow_trans.
    + rewrite Hid. by eapply market_has_later.
Qed.

(** C22: An order has one place in the market: any two intakes of one commitment that succeed, in any
    interleaving and with any failures, are given the same sequence number, and their envelopes have
    the same digest. *)
Theorem market_intake_unique j i i' cluster cluster' now now' b1 b1' b2 b2' b q q' :
  runs (market_accept j i cluster now) b1 (Ok q) b1' → grow b1' b →
  runs (market_accept j i' cluster' now') b2 (Ok q') b2' → grow b2' b →
  commitment_of i = commitment_of i' →
  q = q' ∧ ∃ d, ingress_digest i = Ok d ∧ ingress_digest i' = Ok d.
Proof.
  intros (e & v & He & Hid & <- & Hv & Hs)%accept_runs Hg
    (e' & v' & He' & Hid' & <- & Hv' & Hs')%accept_runs Hg' Hc.
  assert (e = e') as <-.
  { apply (entry_unique b); [by eapply entry_later..|congruence]. }
  split; [done|]. assert (v = v') as <-.
  { eapply market_has_agree; [by eapply market_has_later|]. by eapply market_has_later. }
  unfold same_envelope in Hs, Hs'. apply bind_Ok in Hs as (d & Hd & Hs), Hs' as (d' & Hd' & Hs').
  apply bind_Ok in Hs as (x & Hx & Hs%fail_if_Ok), Hs' as (x' & Hx' & Hs'%fail_if_Ok). bool_hyps.
  exists d. split; congruence.
Qed.

(** ** Rounds *)

(** A lookup that found nothing: the key was not on file at that moment. *)
Lemma market_get_absent {T} `{!MarketSerde T} j key b b' :
  runs (market_get (T := T) j key) b (Ok None) b' →
  ∃ b0, grow b b0 ∧ grow b0 b' ∧ key ∉ ids_of b0.
Proof.
  unfold market_get. intros Hr. run Hr as (found & b1 & Hf & Hr). destruct found as [x|].
  { run Hr as (record & b3 & _ & Hr). run Hr as ([] & b4 & _ & Hr). by apply mret_runs in Hr as [[=] _]. }
  apply mret_runs in Hr as [_ Hg]. unfold fetch in Hf.
  run Hf as (l & b2 & (b0 & Hg0 & Hg0' & Hl)%summaries_runs & Hf).
  destruct (list_find _ l) as [[n s]|] eqn:E.
  { run Hf as (payload & b4 & _ & Hf). by apply mret_runs in Hf as [[=] _]. }
  apply mret_runs in Hf as [_ Hg2]. exists b0. split_and!; [done|eauto using grow_trans|].
  unfold ids_of. intros (e & -> & He)%list_elem_of_fmap. apply list_find_None in E.
  rewrite Forall_forall in E. apply (E (summary_of e)); [|done]. rewrite Hl. by apply list_elem_of_fmap_2.
Qed.

(** The round of the input [id] is on file. *)
Definition completed j b (id : text) : Prop :=
  ∃ v : MarketCompletedRound, market_has j b (chars "done:" ++ id) v.

(** Between [b] and [b'] the input [e] with body [v] was seen to have no round. *)
Definition taken j b b' (e : Entry) (v : MarketIngress) : Prop :=
  ∃ id, e ∈ entries_of b' ∧ en_id e = chars "input:" ++ id ∧ market_has j b' (en_id e) v
    ∧ ∃ b0, grow b b0 ∧ grow b0 b' ∧ chars "done:" ++ id ∉ ids_of b0.

Lemma taken_earlier j b0 b b' e v : grow b0 b → taken j b b' e v → taken j b0 b' e v.
Proof. intros Hg (id & ? & ? & ? & b1 & ? & ? & ?). exists id. split_and!; [done..|]. eauto using grow_trans. Qed.

(** Every listed input that comes before [limit] has its round. *)
Definition cleared j b (l : list OutboxEntrySummary) (limit : option Z) : Prop :=
  ∀ e id, summary_of e ∈ l → en_id e = chars "input:" ++ id →
    match limit with Some q => en_sequence e < q | None => True end → completed j b id.

Lemma cleared_cons j b e l limit :
  (∀ id, en_id e = chars "input:" ++ id →
     match limit with Some q => en_sequence e < q | None => True end → completed j b id) →
  cleared j b l limit → cleared j b (summary_of e :: l) limit.
Proof.
  intros He Hl e1 id [E|Hin]%elem_of_cons Hid Hq; [|by eapply Hl].
  unfold summary_of in E. injection E as E1 _ E2. apply He; [congruence|]. by destruct limit; rewrite <-?E2.
Qed.

Lemma next_input_runs j l b o b' :
  runs (next_input j l) b (Ok o) b' →
  StronglySorted (λ r r', (oe_sequence r <=? oe_sequence r') = true) l →
  (∀ r, r ∈ l → ∃ e, r = summary_of e ∧ e ∈ entries_of b) →
  match o with
  | None => cleared j b' l None
  | Some v => ∃ e2, taken j b b' e2 v ∧ cleared j b' l (Some (en_sequence e2))
  end.
Proof.
  revert b. induction l as [|r l IH]; intros b Hr Hsort Hl.
  { apply mret_runs in Hr as [[= <-] _]. by intros e1 id ?%elem_of_nil. }
  apply StronglySorted_inv in Hsort as [Hsort Hhead]. destruct (Hl r) as (e & -> & He); [by left|].
  assert (∀ b1, grow b b1 → runs (next_input j l) b1 (Ok o) b' →
    (∀ id, en_id e = chars "input:" ++ id → completed j b' id) →
    match o with
    | None => cleared j b' (summary_of e :: l) None
    | Some v => ∃ e2, taken j b b' e2 v ∧ cleared j b' (summary_of e :: l) (Some (en_sequence e2))
    end) as Hskip.
  { intros b1 Hg Hrun Hdone.
    assert (∀ r, r ∈ l → ∃ e, r = summary_of e ∧ e ∈ entries_of b1) as Hl1.
    { intros r Hr'. destruct (Hl r) as (e' & -> & He'); [by right|]. exists e'. split; [done|].
      by eapply entry_later. }
    specialize (IH b1 Hrun Hsort Hl1). destruct o as [v|]; [|by apply cleared_cons; [auto|]].
    destruct IH as (e2 & Ht & Hc). exists e2. split; [by eapply taken_earlier|].
    apply cleared_cons; [auto|done]. }
  cbn [next_input oe_request_id summary_of] in Hr.
  destruct (MpcRunner.strip_prefix _ _) as [id|] eqn:Hp.
  2:{ apply (Hskip b (grow_refl b) Hr). intros id Hid. by rewrite Hid, strip_prefix_app in Hp. }
  apply strip_prefix_Some in Hp. run Hr as (done & b1 & Hd & Hr).
  pose proof (runs_grow _ _ _ _ Hd) as Hg. destruct done as [v|].
  - apply (Hskip b1 Hg Hr). intros id' Hid'. assert (id' = id) as ->.
    { rewrite Hp in Hid'. by apply app_inv_head in Hid'. }
    exists v. apply market_get_runs in Hd. eapply market_has_later; [done|by eapply runs_grow].
  - destruct o as [v|]; [|by eapply market_get_found in Hr; [|by eapply entry_later]].
    pose proof (runs_grow _ _ _ _ Hr) as Hg'. exists e. split.
    + apply market_get_absent in Hd as (b0 & Hg0 & Hg0' & Hnone). exists id.
      split_and!; [eauto using entry_later, grow_trans|done|by eapply market_get_runs|].
      exists b0. split_and!; [done|eauto using grow_trans|done].
    + apply cleared_cons; [intros; lia|]. intros e1 id1 Hin _ Hlt. rewrite Forall_forall in Hhead.
      apply Hhead in Hin. bool_hyps. unfold summary_of in *. simpl in *. lia.
Qed.

(** C21: Rounds are taken up in the order of intake, and none twice: when the market asks for the next
    input and gets one, it is a recorded input whose round was not on file when it was looked up, and
    every input on file with a smaller sequence number has its completed round on file; when it gets
    none, every input on file is completed. *)
Theorem market_next_in_order j b o b' :
  runs (market_next j) b (Ok o) b' →
  match o with
  | Some v => ∃ e2, taken j b b' e2 v
      ∧ ∀ e1 id1, e1 ∈ entries_of b → en_id e1 = chars "input:" ++ id1 →
          en_sequence e1 < en_sequence e2 → completed j b' id1
  | None => ∀ e1 id1, e1 ∈ entries_of b → en_id e1 = chars "input:" ++ id1 → completed j b' id1
  end.
Proof.
  unfold market_next. intros Hr. run Hr as (l & b1 & (b2 & Hg2 & Hg2' & Hl)%summaries_runs & Hr).
  unfold by_sequence in Hr.
  assert (∀ e, e ∈ entries_of b → summary_of e ∈ sort_by (λ r r', oe_sequence r <=? oe_sequence r') l)
    as Hin.
  { intros e He. rewrite sort_by_perm. apply (reports_entry b2); [done|]. by eapply entry_later. }
  apply next_input_runs in Hr.
  - destruct o as [v|].
    + destruct Hr as (e2 & Ht & Hc). exists e2. split; [eapply taken_earlier; [|done]; eauto using grow_trans|].
      intros e1 id1 He1 Hid Hlt. by eapply Hc; [apply Hin| |].
    + intros e1 id1 He1 Hid. by eapply Hr; [apply Hin| |].
  - apply sort_by_sorted; intros; rewrite ?Z.leb_le in *; lia.
  - intros r Hin'. rewrite sort_by_perm in Hin'. apply (reports_elem b2) in Hin' as (e & -> & He'); [|done].
    exists e. split; [done|]. by eapply entry_later.
Qed.

End life.
