(* ===== verification/ToyEdge.v ===== *)
(** * A concrete instance of the edge's crates

    Executable functions with the laws assumed of the curve, the KEM, the AEAD
    and [serde_json]: scalars and points are the integers modulo eleven, clear
    payloads have a fixed binary form.  Test doubles with no security. *)

From Stdlib Require Import Zmod.
From S2P Require Import Prelude BTree Bytes AppCrypto Orders Toy Matching Book Reservations.
From S2P Require Import MpcRunner Edge EdgeCreate EdgeField.
Open Scope list_scope.
Open Scope Z_scope.

Abbreviation F11 := (Zmod 11).

#[export] Instance f11_eq_dec : EqDecision F11.
Proof. intros x y. destruct (Zmod.eqb x y) eqn:E; [left|right]; by destruct (Zmod.eqb_spec x y). Defined.

Lemma prime_11 : Z.prime 11.
Proof.
  split; [lia|]. intros n Hn Hd. assert (n = 2 ∨ n = 3 ∨ n = 4 ∨ n = 5 ∨ n = 6 ∨ n = 7 ∨ n = 8 ∨ n = 9 ∨ n = 10)
    as Hc by lia. apply Z.mod_divide in Hd; [|lia].
  repeat destruct Hc as [->|Hc]; try done. by subst.
Qed.

(** One byte repeated. *)
Definition f11_digest (x : F11) : Digest32 := digest_fill (byte_of (Zmod.unsigned x)).

Definition f11_parse (d : Digest32) : option F11 :=
  match d_bytes d with
  | b :: _ =>
      let x := Zmod.of_Z 11 (byte_val b) in
      if bool_decide (f11_digest x = d) then Some x else None
  | [] => None
  end.

Lemma f11_parse_digest x : f11_parse (f11_digest x) = Some x.
Proof.
  unfold f11_parse. pose proof (Zmod.unsigned_pos_bound x ltac:(lia)).
  change (d_bytes (f11_digest x)) with (replicate 32 (byte_of (Zmod.unsigned x))). simpl.
  rewrite byte_val_of, Z.mod_small, Zmod.of_Z_unsigned by lia.
  by rewrite bool_decide_eq_true_2.
Qed.

Lemma f11_parse_canonical d x : f11_parse d = Some x → f11_digest x = d.
Proof.
  unfold f11_parse. destruct (d_bytes d); [done|]. case_bool_decide; [|done]. by intros [= <-].
Qed.

#[export] Instance toy_group : Points := {|
  RistrettoPoint := F11;
  Scalar := F11;
  point_identity := Zmod.zero;
  point_add := Zmod.add;
  point_sub := Zmod.sub;
  compress := f11_digest;
  commit_u64 v s := Zmod.add (Zmod.of_Z 11 v) (Zmod.mul (Zmod.of_Z 11 2) s)
|}.

(** ** Payloads *)

Definition get_u16 (b : bytes) : option (Z * bytes) :=
  match b with x :: y :: b => Some (be_val [x; y], b) | _ => None end.
Definition get_digest (b : bytes) : option (Digest32 * bytes) :=
  d ← digest_of (take 32 b); Some (d, drop 32 b).
Fixpoint get_vec (n : nat) (b : bytes) : option (vec Digest32 n * bytes) :=
  match n with
  | O => Some ([#], b)
  | S n => '(d, b) ← get_digest b; '(v, b) ← get_vec n b; Some (d ::: v, b)
  end.

(** A byte string that ends before the rest: a mark before each byte. *)
Definition put_marked (l : bytes) : bytes := concat (map (λ b, [Byte.x01; b]) l) ++ [Byte.x00].
Fixpoint get_marked (b : bytes) : option (bytes * bytes) :=
  match b with
  | Byte.x01 :: x :: b => '(l, b) ← get_marked b; Some (x :: l, b)
  | Byte.x00 :: b => Some ([], b)
  | _ => None
  end.

Lemma get_put_u16 z b : is_u16 z = true → get_u16 (u16_be z ++ b) = Some (z, b).
Proof.
  intros Hz. unfold is_u16, u16_max in Hz. bool_hyps. unfold u16_be.
  assert (∃ x y, be_bytes 2 z = [x; y]) as (x & y & E) by (simpl; eauto).
  rewrite E. simpl. rewrite <-E, be_val_be_bytes, Z.mod_small; [done|].
  change (8 * Z.of_nat 2) with 16. lia.
Qed.

Lemma get_put_digest d b : get_digest (d_bytes d ++ b) = Some (d, b).
Proof.
  unfold get_digest. rewrite take_app_length', drop_app_length' by (by rewrite length_digest).
  by rewrite digest_of_bytes.
Qed.

Lemma get_put_vec {n} (v : vec Digest32 n) b : get_vec n (array_bytes v ++ b) = Some (v, b).
Proof.
  unfold array_bytes. induction v as [|d n v IH]; [done|]. cbn [vec_to_list map concat get_vec].
  rewrite <-app_assoc, get_put_digest. simpl. by rewrite IH.
Qed.

Lemma get_put_marked l b : get_marked (put_marked l ++ b) = Some (l, b).
Proof.
  unfold put_marked. rewrite <-app_assoc. induction l as [|x l IH]; [done|]. simpl in *. by rewrite IH.
Qed.

Lemma length_put_marked l : length (put_marked l) = (2 * length l + 1)%nat.
Proof.
  unfold put_marked. rewrite length_app. simpl. induction l as [|x l IH]; simpl in *; lia.
Qed.

Lemma length_array_bytes {n} (v : vec Digest32 n) : length (array_bytes v) = (32 * n)%nat.
Proof.
  unfold array_bytes. induction v as [|d n v IH]; [done|]. cbn [vec_to_list map concat].
  rewrite length_app, length_digest, IH. lia.
Qed.

Definition put_share (s : PartyOrderShare) : bytes :=
  u16_be (sh_version s) ++ u16_be (sh_party s) ++ d_bytes (sh_commitment s)
  ++ array_bytes (sh_value_shares s) ++ array_bytes (sh_blinding_shares s)
  ++ array_bytes (sh_settlement_value_shares s) ++ array_bytes (sh_settlement_blinding_shares s)
  ++ d_bytes (sh_signer s) ++ put_marked (sh_signature s) ++ sh_reservation_admission s.
Definition get_share (b : bytes) : option PartyOrderShare :=
  '(version, b) ← get_u16 b; '(party, b) ← get_u16 b; '(commitment, b) ← get_digest b;
  '(values, b) ← get_vec MATCH_FIELD_COUNT b; '(blindings, b) ← get_vec MATCH_FIELD_COUNT b;
  '(settlement, b) ← get_vec SETTLEMENT_FIELD_COUNT b;
  '(settlement_blindings, b) ← get_vec SETTLEMENT_FIELD_COUNT b;
  '(signer, b) ← get_digest b; '(signature, b) ← get_marked b;
  Some (mk_share version party commitment values blindings settlement settlement_blindings b signer
    signature).

Definition put_key_share (s : CapabilityKeyShare) : bytes :=
  u16_be (ck_version s) ++ u16_be (ck_party s) ++ d_bytes (ck_order_commitment s)
  ++ d_bytes (ck_capability_commitment s) ++ d_bytes (ck_value s) ++ d_bytes (ck_signer s)
  ++ ck_signature s.
Definition get_key_share (b : bytes) : option CapabilityKeyShare :=
  '(version, b) ← get_u16 b; '(party, b) ← get_u16 b; '(order, b) ← get_digest b;
  '(capability, b) ← get_digest b; '(value, b) ← get_digest b; '(signer, b) ← get_digest b;
  Some (mk_key_share version party order capability value signer b).

Definition put_capability (c : SettlementCapabilityClear) : bytes :=
  u16_be (cc_version c) ++ d_bytes (cc_eligibility_commitment c)
  ++ array_bytes (cc_constant_blindings c) ++ d_bytes (cc_signer c)
  ++ put_marked (cc_order_wire c) ++ put_marked (cc_eligibility_evidence c) ++ cc_signature c.
Definition get_capability (b : bytes) : option SettlementCapabilityClear :=
  '(version, b) ← get_u16 b; '(eligibility, b) ← get_digest b;
  '(blindings, b) ← get_vec MATCH_FIELD_COUNT b; '(signer, b) ← get_digest b;
  '(order, b) ← get_marked b; '(evidence, b) ← get_marked b;
  Some (mk_capability_clear version order eligibility evidence blindings signer b).

(** A byte as two letters. *)
Definition nibbles (b : bytes) : bytes :=
  flat_map (λ x, [byte_of (65 + byte_val x / 16); byte_of (65 + byte_val x mod 16)]) b.
Fixpoint of_nibbles (b : bytes) : option bytes :=
  match b with
  | [] => Some []
  | x :: y :: b => l ← of_nibbles b; Some (byte_of (16 * (byte_val x - 65) + (byte_val y - 65)) :: l)
  | _ => None
  end.

Lemma of_nibbles_nibbles b : of_nibbles (nibbles b) = Some b.
Proof.
  induction b as [|x b IH]; [done|]. cbn [nibbles flat_map app of_nibbles].
  change (flat_map _ b) with (nibbles b). rewrite IH. cbn [mbind option_bind]. do 2 f_equal.
  by destruct x.
Qed.

Lemma nibbles_plain b : json_plain (nibbles b) = true.
Proof.
  induction b as [|x b IH]; [done|]. cbn [nibbles flat_map app json_plain forallb].
  change (forallb _ (flat_map _ b)) with (json_plain (nibbles b)). rewrite IH. by destruct x.
Qed.

Definition get_admission (b : bytes) : option (vec Digest32 4) := '(a, _) ← get_vec 4 b; Some a.

Lemma get_put_admission a : get_admission (array_bytes a) = Some a.
Proof. unfold get_admission. by rewrite <-(app_nil_r (array_bytes a)), get_put_vec. Qed.

(** ** The crates *)

(** The tag of a sealed message. *)
Definition toy_mac (key : Digest32) (nonce clear aad : bytes) : bytes :=
  take 16 (d_bytes (toy_sha256 (d_bytes key ++ nonce ++ clear ++ aad))).

#[export] Instance toy_edge : EdgeCrates := {|
  scalar_eq_dec := f11_eq_dec;
  s_zero := Zmod.zero;
  s_one := Zmod.one;
  s_add := Zmod.add;
  s_sub := Zmod.sub;
  s_mul := Zmod.mul;
  s_opp := Zmod.opp;
  s_inv := Zmod.inv;
  s_from := Zmod.of_Z 11;
  s_to_bytes := f11_digest;
  s_from_canonical := f11_parse;
  p_mul := Zmod.mul;
  basepoint := Zmod.one;
  decompress := f11_parse;
  pedersen v r := Zmod.add v (Zmod.mul (Zmod.of_Z 11 2) r);
  Rng := Z;
  random_scalar r := (r + 1, Zmod.of_Z 11 r);
  fill_bytes n r := (r + 1, replicate n (byte_of r));
  Suite := ();
  X25519MlKem768 := ();
  kem_suite_encode _ := [Byte.x01];
  kem_public_key seed := seed;
  encapsulate public r := (r + 1, Ok (public, public));
  decapsulate seed _ := Ok seed;
  aead_seal key nonce clear aad := Ok (clear, toy_mac key nonce clear aad);
  aead_open key nonce c tag aad := if bool_decide (tag = toy_mac key nonce c aad) then Some c else None;
  base64_encode := nibbles;
  base64_decode := of_nibbles;
  ReservationAdmission := vec Digest32 4;
  ReservationPermit := ();
  ad_venue_id _ := zero_digest;
  ad_defmi_id _ := zero_digest;
  ad_order_commitment a := a !!! 0%fin;
  ad_participant_handle a := a !!! 1%fin;
  ad_amount_commitment a := a !!! 2%fin;
  ad_side_commitment a := a !!! 3%fin;
  ad_valid_until _ := u64_max;
  ad_reservation_nullifier a := a !!! 0%fin;
  admission_encode a := Some (array_bytes a);
  admission_decode := get_admission;
  admission_digest a := Some (toy_sha256 (array_bytes a));
  admission_check _ _ _ _ _ := true;
  permit_check _ _ _ _ _ := false;
  verify_authority _ _ _ := false;
  oclob_manifest_digest := Some (digest_fill Byte.x01);
  json_share s := Some (put_share s);
  parse_share := get_share;
  json_key_share s := Some (put_key_share s);
  parse_key_share := get_key_share;
  json_capability c := Some (put_capability c);
  parse_capability := get_capability;
  json_authority _ := None;
  parse_authority _ := None
|}.

Add Ring f11_ring : (Zmod.ring_theory 11).

Lemma toy_zero_digest : f11_digest Zmod.zero = zero_digest.
Proof. by apply digest_eq. Qed.

#[export] Instance toy_edge_laws : EdgeLaws.
Proof.
  split; simpl.
  - apply (Zmod.field_theory 11 prime_11).
  - intros a b Ha Hb E%Zmod.of_Z_inj. rewrite !Z.mod_small in E by lia. done.
  - apply f11_parse_digest.
  - apply toy_zero_digest.
  - intros. ring.
  - intros. ring.
  - intros. ring.
  - intros. ring.
  - intros. ring.
  - intros. ring.
  - intros. ring.
  - intros. ring.
  - intros s Hs. rewrite <-Hs. ring.
  - apply f11_parse_digest.
  - apply f11_parse_canonical.
  - intros. ring.
  - intros. ring.
  - intros. apply length_replicate.
  - done.
  - intros seed r ct shared [= <- <-]. done.
  - done.
  - intros key nonce clear aad c tag [= <- <-]. split; [done|]. split.
    + unfold toy_mac. by rewrite length_take, length_digest.
    + by rewrite bool_decide_eq_true_2.
  - intros s Hv Hp. unfold put_share, get_share. rewrite get_put_u16 by done. cbn [mbind option_bind].
    rewrite get_put_u16 by done. cbn [mbind option_bind]. rewrite get_put_digest. cbn [mbind option_bind].
    do 4 (rewrite get_put_vec; cbn [mbind option_bind]). rewrite get_put_digest. cbn [mbind option_bind]. rewrite get_put_marked. cbn [mbind option_bind].
    by destruct s.
  - intros s Hv Hp. unfold put_key_share, get_key_share. rewrite get_put_u16 by done. cbn [mbind option_bind].
    rewrite get_put_u16 by done. cbn [mbind option_bind]. do 4 (rewrite get_put_digest; cbn [mbind option_bind]). by destruct s.
  - intros c Hv. unfold put_capability, get_capability. rewrite get_put_u16 by done. cbn [mbind option_bind].
    rewrite get_put_digest. cbn [mbind option_bind]. rewrite get_put_vec. cbn [mbind option_bind]. rewrite get_put_digest. cbn [mbind option_bind].
    do 2 (rewrite get_put_marked; cbn [mbind option_bind]). by destruct c.
  - apply of_nibbles_nibbles.
  - apply nibbles_plain.
  - by intros [|x b].
  - intros a w [= <-]. split.
    { intros E%(f_equal length). by rewrite length_array_bytes in E. }
    apply get_put_admission.
  - intros s b [= <-] _. unfold put_share, u16_be.
    rewrite !length_app, !length_be_bytes, !length_digest, !length_array_bytes, length_put_marked.
    unfold MATCH_FIELD_COUNT, SETTLEMENT_FIELD_COUNT. lia.
  - intros s b [= <-]. unfold put_key_share, u16_be.
    rewrite !length_app, !length_be_bytes, !length_digest. lia.
  - intros c b [= <-]. unfold put_capability, u16_be.
    rewrite !length_app, !length_be_bytes, !length_digest, !length_array_bytes, !length_put_marked.
    unfold MATCH_FIELD_COUNT. lia.
Qed.
