(* ===== verification/ToyStore.v ===== *)
(** * A concrete instance of the store's crates

    A [serde_json] that can write a given list of states (and fails on others),
    with the laws the store relies on, and persistence files that cannot be
    read.  Test doubles. *)

From S2P Require Import Prelude BTree Bytes AppCrypto Orders Toy Matching Circuit MpcRunner Book.
From S2P Require Import Ordering Reservations Edge EdgeDecimal ToyEdge NodeReceipts NodeState.
From S2P Require Import NodeStore NodeSteps NodeCore.
Open Scope list_scope.
Open Scope Z_scope.

#[export] Instance toy_receipt_json : ReceiptJson := {|
  json_depth _ := Some [Byte.x01];
  json_observation _ := Some [Byte.x01]
|}.

#[export] Instance toy_persistence : Persistence := {|
  read_persistence _ _ := None;
  from_montgomery _ _ _ := None;
  biguint_text _ := []
|}.

#[export] Instance stored_lifecycle_eq_dec : EqDecision StoredLifecycle.
Proof. solve_decision. Defined.
#[export] Instance stored_vote_eq_dec : EqDecision StoredOrderVote.
Proof. solve_decision. Defined.
#[export] Instance head_eq_dec : EqDecision PrivateBookStateRef.
Proof. solve_decision. Defined.
#[export] Instance finalization_eq_dec : EqDecision PrivateRoundFinalization.
Proof. solve_decision. Defined.
#[export] Instance stored_record_eq_dec : EqDecision StoredRecord.
Proof. solve_decision. Defined.
#[export] Instance store_state_eq_dec : EqDecision StoreState.
Proof. solve_decision. Defined.

(** A state is written as its position in the list, in unary. *)
Definition table_json (l : list StoreState) : StoreJson := {|
  json_command c := Some (d_bytes (lc_target c));
  json_store st := (λ '(i, _), replicate i Byte.x00) <$> list_find (λ st', st' = st) l;
  json_version payload := Some <$> (st_version <$> l !! length payload);
  parse_store payload := l !! length payload
|}.

#[export] Instance table_laws l : @StoreLaws _ _ (table_json l).
Proof.
  split; simpl.
  - intros st payload ([i st'] & (Hi & -> & _)%list_find_Some & ->)%fmap_Some.
    by rewrite length_replicate.
  - intros st payload ->. done.
Qed.

Lemma table_encodes (l : list StoreState) st :
  st ∈ l → (length l ≤ 100)%nat → ∃ e, @encode_store _ _ _ (table_json l) st = Ok e.
Proof.
  intros Hin Hlen. unfold encode_store. simpl.
  destruct (list_find_elem_of (λ st', st' = st) l st Hin eq_refl) as [[i st'] E].
  rewrite E. simpl. apply list_find_Some in E as (Hi & -> & _).
  apply lookup_lt_Some in Hi. rewrite pass_guard; [eauto|].
  apply Z.ltb_ge. rewrite length_replicate. unfold MAX_STORE_BYTES. lia.
Qed.

(** ** Operations that go through *)

Section exec.
Context `{!StoreJson}.

Definition with_round (r : NodeExecutionReceipt) (st : StoreState) : StoreState :=
  with_generation (st_generation st + 1)
    (with_completed_rounds (<[ne_round_id r := r]> (st_completed_rounds st)) st).

Lemma bump_ok g : g < u64_max → checked_add g 1 = Some (g + 1).
Proof. intros. apply checked_add_Some. lia. Qed.

Lemma completed_exec s r e :
  incomplete_receipt (st_party (ns_state s)) r = false →
  st_completed_rounds (ns_state s) !! ne_round_id r = None →
  st_generation (ns_state s) < u64_max → encode_store (with_round r (ns_state s)) = Ok e →
  exec (OpCompleted r Durable) s
    = Some (with_disk (Some e) (with_state (with_round r (ns_state s)) s))
  ∧ exec (OpCompleted r FailedAfter) s
    = Some (with_state (ns_state s) (with_disk (Some e) (with_state (with_round r (ns_state s)) s))).
Proof.
  intros Hr Hn Hg He. simpl. unfold record_completed_round. rewrite !self_bind, !try_bind.
  rewrite Hr. simpl fail_if. cbv iota. rewrite Hn. unfold save_unguarded, next_generation.
  simpl st_generation. rewrite (bump_ok _ Hg).
  simpl. unfold persist. simpl ns_state.
  change (with_generation _ (with_completed_rounds _ _)) with (with_round r (ns_state s)).
  by rewrite He.
Qed.

Lemma completed_answer s r e :
  incomplete_receipt (st_party (ns_state s)) r = false →
  st_completed_rounds (ns_state s) !! ne_round_id r = None →
  st_generation (ns_state s) < u64_max → encode_store (with_round r (ns_state s)) = Ok e →
  answer (OpCompleted r Durable) s = Ok ().
Proof.
  intros Hr Hn Hg He. simpl. unfold record_completed_round. rewrite self_bind, try_bind.
  rewrite Hr. simpl fail_if. cbv iota. rewrite Hn. unfold save_unguarded, next_generation.
  simpl st_generation. rewrite (bump_ok _ Hg).
  simpl. unfold persist. simpl ns_state.
  change (with_generation _ (with_completed_rounds _ _)) with (with_round r (ns_state s)).
  by rewrite He.
Qed.

Lemma vote_exec s market q c prev expires_at now dl e :
  checked_add (st_ordering_sequence (ns_state s)) 1 = Some q →
  barrier_for (ns_state s) c = Ok () →
  ordering_admission (ns_state s) c now = Ok (market, dl) →
  bad_market_id market = false → prev = st_ordering_head (ns_state s) → now ≤ expires_at ≤ dl →
  c ∉ st_ordered_commitments (ns_state s) →
  (∀ v, st_ordering_votes (ns_state s) !! q = Some v →
    sv_statement_digest v ≠ vote_digest market q c prev expires_at ∧ sv_expires_at v < now) →
  st_generation (ns_state s) < u64_max →
  let v := mk_stored_vote (vote_digest market q c prev expires_at) expires_at in
  let st := with_generation (st_generation (ns_state s) + 1)
    (with_votes (<[q := v]> (st_ordering_votes (ns_state s))) (ns_state s)) in
  encode_store st = Ok e →
  record_order_vote market q c prev expires_at now Durable s
    = (with_disk (Some e) (with_state st s), Ok (vote_digest market q c prev expires_at)).
Proof.
  intros Hq Hb Ha Hm Hp Hx Hc Hv Hg v st He.
  assert (save (with_votes (<[q := v]> (st_ordering_votes (ns_state s))) (ns_state s)) Durable s
    = (with_disk (Some e) (with_state st s), Ok ())) as Hs.
  { unfold save, next_generation. simpl st_generation.
    rewrite (bump_ok _ Hg). simpl.
    unfold persist. simpl ns_state. change (with_generation _ (with_votes _ _)) with st. by rewrite He. }
  unfold record_order_vote. rewrite self_bind, try_bind, Hq. simpl ok_or. cbv beta iota zeta.
  rewrite try_bind, Hb, try_bind, Ha. cbv beta iota zeta.
  rewrite try_bind, Hm, Hp, Z.eqb_refl, !bool_decide_eq_true_2, bool_decide_eq_false_2 by done.
  rewrite (proj2 (Z.ltb_ge expires_at now)), (proj2 (Z.ltb_ge dl expires_at)) by lia. simpl fail_if.
  cbv iota. rewrite <-Hp. destruct (st_ordering_votes (ns_state s) !! q) as [v'|] eqn:Hv'.
  - destruct (Hv v' eq_refl) as [Hne Hlt]. rewrite bool_decide_eq_false_2 by done.
    rewrite (proj2 (Z.leb_gt now (sv_expires_at v'))) by lia. rewrite method_bind. unfold v in Hs.
    by rewrite Hs.
  - rewrite method_bind. unfold v in Hs. by rewrite Hs.
Qed.

End exec.
