(* ===== verification/Fixtures.v ===== *)
(** * Concrete data

    A small market run with the test doubles of [Toy]: three signed orders, a
    book with two resting sellers, a committee and a settlement engine, used
    to apply the theorems to concrete inputs. *)

From S2P Require Import Prelude BTree Bytes AppCrypto Orders Toy Matching Circuit MpcRunner.
From S2P Require Import Book BookInv BookMatch BookApply BookLife.
Open Scope list_scope.
Open Scope Z_scope.

Definition fix_market : bytes := ascii_bytes "JGB10Y-JPY".
Definition fix_key (b : Z) : SigningKey := mk_signing_key (replicate 64 (byte_of b)).
Definition dig (z : Z) : Digest32 := digest_fill (byte_of z).

Definition ok_else {E A} (d : A) (r : result E A) : A := match r with Ok a => a | Err _ => d end.

(** An order with every control derived from one byte. *)
Definition fee_order (fee n : Z) (side : Side) (price quantity : Z) (tif : TimeInForce) :
    SecretOrder :=
  {| o_version := 2;
     o_order_id := dig n;
     o_ephemeral_public_key := vk_fingerprint (verifying_key (fix_key n));
     o_market_id := fix_market;
     o_side := side;
     o_limit_price := price;
     o_quantity := quantity;
     o_time_in_force := tif;
     o_expires_at := 2000;
     o_participant_handle := dig (n + 50);
     o_dekyx_nullifier := dig (n + 100);
     o_reservation_id := dig (n + 150);
     o_reservation_limit := match side with Buy => price * quantity + fee | Sell => quantity end;
     o_minimum_lot := 1;
     o_max_fee := fee;
     o_cancellation_secret_digest := cancellation_digest (dig (n + 7));
     o_client_nonce := dig (n + 1);
     o_salt := dig (n + 2) |}.

Definition fix_order := fee_order 2.

Definition fix_authority (o : SecretOrder) (n : Z) : OrderAuthority :=
  ok_else {| a_commitment := zero_digest; a_authorization_deadline := 0;
             a_verifying_key := zero_digest; a_signature := [] |}
    (authorize_order o 2000 (fix_key n)).

Definition sell1 : SecretOrder := fix_order 1 Sell 100 4 GoodTilCancelled.
Definition sell2 : SecretOrder := fix_order 2 Sell 101 5 GoodTilCancelled.
Definition buy3 : SecretOrder := fix_order 3 Buy 101 6 GoodTilCancelled.
Definition ioc3 : SecretOrder := fix_order 3 Buy 100 6 ImmediateOrCancel.

Definition book0 : PrivateBook := mk_book fix_market 0 [] [] ∅.
Definition book1 : PrivateBook := (insert_resting sell1 (fix_authority sell1 1) 1 1000 book0).1.
Definition book2 : PrivateBook := (insert_resting sell2 (fix_authority sell2 2) 2 1000 book1).1.

Definition batch3 : PrivateMatchBatch :=
  ok_else (mk_batch [] Buy 0 0 true) (private_match_batch book2 buy3 1000).

Lemma book2_run : book_run fix_market
  [a_commitment (fix_authority sell2 2); a_commitment (fix_authority sell1 1)] book2.
Proof.
  eapply run_step; [eapply run_step; [by apply run_new| |]| |].
  - simpl. unfold u64_max. lia.
  - eapply (step_insert book0 book1 sell1 _ 1 1000); vm_compute; reflexivity.
  - simpl. unfold u64_max. lia.
  - eapply (step_insert book1 book2 sell2 _ 2 1000); vm_compute; reflexivity.
Qed.

Lemma book2_wf : book_wf book2.
Proof.
  assert (book_wf book0) as H0 by (eapply (book_new_wf fix_market); vm_compute; reflexivity).
  assert (book_wf book1) as H1.
  { eapply (book_step_spec book0); [done|vm_compute; reflexivity|].
    eapply (step_insert book0 book1 sell1 (fix_authority sell1 1) 1 1000); vm_compute; reflexivity. }
  eapply (book_step_spec book1); [done|vm_compute; reflexivity|].
  eapply (step_insert book1 book2 sell2 (fix_authority sell2 2) 2 1000); vm_compute; reflexivity.
Qed.
