(* ===== verification/WitnessBook.v ===== *)
(** * Orders, matching and the book on concrete data

    Each theorem about orders, the canonical match, the circuit and the book,
    applied to the fixtures with its hypotheses evaluated. *)

From S2P Require Import Prelude BTree Bytes AppCrypto Orders Toy Matching Circuit MpcRunner.
From S2P Require Import Book BookInv BookMatch BookApply BookLife Fixtures.
Open Scope list_scope.
Open Scope Z_scope.

Ltac evaluate := vm_compute; reflexivity.

Lemma wire_roundtrip_witness : from_secret_wire (to_secret_wire sell1) = Ok sell1.
Proof. apply wire_roundtrip. evaluate. Defined.

Lemma wire_canonical_witness : order_valid sell1 = true.
Proof. apply (wire_canonical (to_secret_wire sell1) sell1). evaluate. Defined.

Lemma commitment_binding_witness :
  sell1 = sell1 ∨ collision (commitment_preimage sell1) (commitment_preimage sell1).
Proof. apply commitment_binding; evaluate. Defined.

Lemma authorize_then_verify_witness :
  authority_verify (fix_authority sell1 1) sell1 1000 = Ok () ↔ 1000 ≤ o_expires_at sell1.
Proof.
  apply (authorize_then_verify sell1 2000 (fix_key 1)).
  - intros E. apply (f_equal d_bytes) in E. vm_compute in E. discriminate E.
  - evaluate.
Defined.

Definition batch_small : PrivateMatchBatch := mk_batch
  [mk_resting_input (dig 1) Sell 100 4; mk_resting_input (dig 2) Sell 101 5] Buy 101 6 true.

Lemma batch_small_sorted : price_sorted Buy (pb_resting batch_small).
Proof. repeat constructor; simpl; lia. Qed.

Lemma batch_small_bounded : batch_bounded batch_small.
Proof. split_and!; [simpl; unfold MAX_MATCH_SLOTS; lia|repeat constructor; simpl; vm_compute; congruence|vm_compute; naive_solver..]. Qed.

(** The buyer takes all of the best offer before it trades with the second. *)
Lemma expected_batch_priority_witness :
  slot_trade_quantity (mk_slot true 100 4) = 4
  ∧ traded (br_slots (expected_batch batch_small)) = pb_arriving_quantity batch_small.
Proof.
  destruct (expected_batch_priority batch_small) as [Hfill Hdone];
    [simpl; lia|repeat constructor; simpl; try lia; discriminate|exact batch_small_sorted|].
  split.
  - refine (proj1 (proj2 (proj2 (proj2 (Hfill 1%nat (mk_resting_input (dig 2) Sell 101 5)
      (mk_slot true 101 2) eq_refl eq_refl eq_refl))) 0%nat (mk_resting_input (dig 1) Sell 100 4)
      (mk_slot true 100 4) _ eq_refl eq_refl)). lia.
  - apply (Hdone 1%nat (mk_resting_input (dig 2) Sell 101 5) (mk_slot true 101 2));
      [reflexivity|reflexivity|simpl; lia..].
Defined.

Lemma expected_batch_conserves_witness :
  0 ≤ traded (br_slots (expected_batch batch_small)) ≤ 6.
Proof.
  refine (proj1 (expected_batch_conserves batch_small _ _)); [simpl; lia|].
  repeat constructor; simpl; lia.
Defined.

Lemma expected_depth_canonical_witness :
  ∃ levels, br_public_levels (expected_batch batch_small) = Some levels
    ∧ validate_public_levels levels = Ok ()
    ∧ ∀ s p, depth_at s p levels = depth_at s p (remainders batch_small).
Proof. apply (expected_depth_canonical batch_small batch_small_bounded). Defined.

(** Insertion sort by key is a sorting network in the model's sense. *)
Definition toy_sort : list depth_row → list depth_row := sort_by (λ a b, dr_key a <=? dr_key b).

Lemma toy_sort_network : sorting_network toy_sort.
Proof.
  intros l. split; [apply sort_by_perm|].
  assert (StronglySorted (λ a b, (dr_key a <=? dr_key b) = true) (toy_sort l)) as Hs.
  { apply sort_by_sorted; [intros a b|intros a b c]; rewrite !Z.leb_le; lia. }
  induction Hs as [|a k _ IH Ha]; constructor; [done|].
  eapply Forall_impl; [exact Ha|]. intros b. by rewrite Z.leb_le.
Qed.

Lemma circuit_is_expected_witness :
  co_remaining (run_circuit toy_sort batch_small)
  = br_arriving_remaining (expected_batch batch_small).
Proof.
  apply (circuit_is_expected toy_sort batch_small toy_sort_network batch_small_bounded
    batch_small_sorted).
Defined.

Definition toy_io : round_io := {|
  io_recheck := Ok ();
  io_share _ := Ok [];
  io_spawn := Ok ();
  io_serve _ := Ok (replicate MPC_PARTIES (print_output (run_circuit toy_sort batch_small)))
|}.

Definition toy_runner : MpcRunner := mk_runner zero_digest 0 true 0.

Lemma honest_round_witness :
  ∃ m' receipt, execute_batch toy_io batch_small toy_runner = (m', Ok receipt)
    ∧ rc_result receipt = expected_batch batch_small
    ∧ rc_public_output_sha256 receipt = public_output_digest (expected_batch batch_small)
    ∧ rc_program_sha256 receipt = mp_program_sha256 toy_runner
    ∧ mp_rounds m' = wrapping_add (mp_rounds toy_runner) 1 ∧ mp_mesh m' = true.
Proof.
  apply (honest_round toy_sort toy_io batch_small toy_runner toy_sort_network
    batch_small_bounded batch_small_sorted); reflexivity.
Defined.

Lemma round_unanimous_witness :
  mp_rounds (execute_batch toy_io batch_small toy_runner).1 = 1.
Proof.
  destruct (execute_batch toy_io batch_small toy_runner) as [m' r] eqn:E.
  pose proof (round_unanimous toy_io batch_small toy_runner m' r E) as Hr.
  destruct r as [receipt|e].
  - destruct Hr as (files & outputs & res & _ & _ & _ & _ & Hm). exact Hm.
  - apply (f_equal (λ x, is_ok x.2)) in E. vm_compute in E. discriminate E.
Defined.

Lemma match_batch_price_time_witness :
  ∃ l rest, pb_resting batch3 = map resting_input l
    ∧ StronglySorted (ahead (o_side buy3)) (l ++ rest)
    ∧ (length l ≤ MAX_MATCH_SLOTS)%nat ∧ (rest ≠ [] → length l = MAX_MATCH_SLOTS)
    ∧ ∀ o, o ∈ l ++ rest ↔ o ∈ book_orders book2 ∧ o_side (ro_secret o) ≠ o_side buy3
        ∧ 1000 ≤ o_expires_at (ro_secret o).
Proof. apply (match_batch_price_time book2 buy3 1000 batch3 book2_wf). evaluate. Defined.

Lemma capacity_guard_exact_witness :
  (full_match book2 buy3 1000).2 = (eight_slot_match book2 buy3 1000).2.
Proof.
  refine (proj1 (proj2 (capacity_guard_exact book2 buy3 1000 book2_wf _) _)); [|evaluate].
  vm_compute. discriminate.
Defined.

Lemma admissible3 : admissible book2 buy3 (fix_authority buy3 3) 3 1000.
Proof. split_and!; evaluate. Qed.

Lemma book_match_refines_witness :
  ∃ b' t, apply_mpc_batch_result buy3 (fix_authority buy3 3) 3 1000 (expected_batch batch3) book2
          = (b', Ok t) ∧ book_wf b'.
Proof.
  destruct (book_match_refines book2 buy3 (fix_authority buy3 3) 3 1000 batch3 book2_wf
    admissible3) as (b' & t & Hop & Hwf & _); [evaluate|]. exists b', t. exact (conj Hop Hwf).
Defined.

Lemma book_match_atomic_witness :
  (apply_mpc_batch_result buy3 (fix_authority buy3 3) 3 1000 (mk_batch_result [] 6 None) book2).1
  = book2.
Proof.
  pose proof (book_match_atomic book2 buy3 (fix_authority buy3 3) 3 1000
    (mk_batch_result [] 6 None) book2_wf) as Ha.
  destruct (apply_mpc_batch_result _ _ _ _ _ _) as [b' [t|e]] eqn:E.
  - apply (f_equal (λ x, is_ok x.2)) in E. vm_compute in E. discriminate E.
  - apply Ha; evaluate.
Defined.

Definition book3 : PrivateBook :=
  (apply_mpc_batch_result buy3 (fix_authority buy3 3) 3 1000 (expected_batch batch3) book2).1.

Lemma book_match_conserves_witness :
  match apply_mpc_batch_result buy3 (fix_authority buy3 3) 3 1000 (expected_batch batch3) book2 with
  | (b', Ok t) => open_quantity Sell b'
      = open_quantity Sell book2 - sumZ (map f_quantity (bt_fills t))
  | (_, Err _) => False
  end.
Proof.
  destruct (apply_mpc_batch_result buy3 (fix_authority buy3 3) 3 1000 (expected_batch batch3) book2)
    as [b' [t|e]] eqn:E.
  - pose proof (book_match_conserves book2 buy3 (fix_authority buy3 3) 3 1000
      (expected_batch batch3) b' t book2_wf) as Hc.
    destruct Hc as [Hc _]; [evaluate|evaluate|exact E|exact Hc].
  - apply (f_equal (λ x, is_ok x.2)) in E. vm_compute in E. discriminate E.
Defined.

Lemma book2_uncrossed : uncrossed book2.
Proof.
  intros x y Hx _ Hbuy _.
  assert (forallb (λ o, bool_decide (o_side (ro_secret o) = Sell)) (book_orders book2) = true) as Hf
    by evaluate.
  rewrite forallb_forall in Hf. apply list_elem_of_In, Hf in Hx. bool_hyps. congruence.
Qed.

Lemma book2_live : Forall (λ o, 1000 ≤ o_expires_at (ro_secret o)) (book_orders book2).
Proof.
  apply Forall_forall. intros o Ho.
  assert (∀ l : list RestingOrder, forallb (λ o, 1000 <=? o_expires_at (ro_secret o)) l = true →
    o ∈ l → 1000 ≤ o_expires_at (ro_secret o)) as Hl.
  { intros l Hf Hin. rewrite forallb_forall in Hf. apply Z.leb_le, Hf. by apply list_elem_of_In. }
  apply (Hl (book_orders book2)); [evaluate|done].
Qed.

Lemma book_stays_uncrossed_witness : uncrossed book3.
Proof.
  unfold book3.
  destruct (apply_mpc_batch_result buy3 (fix_authority buy3 3) 3 1000 (expected_batch batch3) book2)
    as [b' [t|e]] eqn:E.
  - apply (book_stays_uncrossed book2 buy3 (fix_authority buy3 3) 3 1000 (expected_batch batch3)
      b' t book2_wf); [evaluate|evaluate|exact book2_uncrossed|exact book2_live|evaluate|exact E].
  - apply (f_equal (λ x, is_ok x.2)) in E. vm_compute in E. discriminate E.
Defined.

Lemma one_slot_agrees_witness :
  mk_slot true 100 4 = mk_slot (mr_matched (expected_result book2 buy3))
    (mr_trade_price (expected_result book2 buy3)) (mr_trade_quantity (expected_result book2 buy3)).
Proof.
  apply (one_slot_agrees book2 buy3 1000 batch3 (mk_slot true 100 4) [mk_slot true 101 2] book2_wf);
    [evaluate|exact book2_live|evaluate|evaluate].
Defined.

Definition cancel1 : SecretCancellation :=
  mk_cancellation (a_commitment (fix_authority sell1 1)) (dig 8) (dig 5) (dig 6).

Lemma cancellation_exact_witness :
  is_ok (apply_cancellation cancel1 3 book2).2 = true
  ∧ book_map (apply_cancellation cancel1 3 book2).1
    = delete (x_target cancel1) (book_map book2).
Proof.
  pose proof (cancellation_exact book2 cancel1 3 book2_wf) as Hc.
  destruct (apply_cancellation cancel1 3 book2) as [b' [t|e]] eqn:E.
  - destruct Hc as (o & _ & _ & _ & _ & Hmap & _); [evaluate|]. exact (conj eq_refl Hmap).
  - apply (f_equal (λ x, is_ok x.2)) in E. vm_compute in E. discriminate E.
Defined.

Definition expiry3 : OrderCommitment :=
  expiry_commitment fix_market 2001 (expired_commitments book2 2001).

Lemma expiry_exact_witness :
  is_ok (apply_expiry 2001 expiry3 3 book2).2 = true
  ∧ book_map (apply_expiry 2001 expiry3 3 book2).1
    = filter (λ e, expired 2001 e.2 = false) (book_map book2).
Proof.
  pose proof (expiry_exact book2 2001 expiry3 3 book2_wf) as Hc.
  destruct (apply_expiry 2001 expiry3 3 book2) as [b' [t|e]] eqn:E.
  - destruct Hc as (_ & _ & Hmap & _); [evaluate|]. exact (conj eq_refl Hmap).
  - apply (f_equal (λ x, is_ok x.2)) in E. vm_compute in E. discriminate E.
Defined.

Lemma book_invariant_witness : bk_sequence book2 = 2.
Proof. apply (book_invariant fix_market _ book2 book2_run). Defined.

Lemma book2_depth s p : book_depth book2 s p ≤ u64_max.
Proof.
  assert (∀ l : list RestingOrder, forallb (λ o, (0 <=? ro_remaining o) && (ro_remaining o <=? 100)) l = true →
    sumZ (map (qty_at s p) l) ≤ 100 * Z.of_nat (length l)) as Hl.
  { induction l as [|o l IH]; simpl; [lia|]. intros [Ho Hr]%andb_true_iff.
    specialize (IH Hr). bool_hyps. unfold qty_at at 1. case_bool_decide; lia. }
  unfold book_depth. specialize (Hl (book_orders book2)).
  assert (length (book_orders book2) = 2%nat) as Hlen by evaluate. rewrite Hlen in Hl.
  unfold u64_max. assert (sumZ (map (qty_at s p) (book_orders book2)) ≤ 200); [|lia].
  apply Hl. evaluate.
Qed.

Lemma snapshot_exact_witness :
  Forall (λ o, ∃ v, v ∈ ps_levels (public_snapshot book2)
    ∧ lv_side v = o_side (ro_secret o) ∧ lv_price v = o_limit_price (ro_secret o))
    (book_orders book2).
Proof. apply Forall_forall, (snapshot_exact book2 book2_wf book2_depth). Defined.
