(* ===== verification/WitnessProtocol.v ===== *)
(** * Ordering and proofs on concrete data

    The theorems about the ordering committee, transition proofs and
    challenges, applied to the demonstration committee. *)

From S2P Require Import Prelude BTree Bytes AppCrypto Orders Toy Matching Book Ordering Proofs.
From S2P Require Import Fixtures.
Open Scope list_scope.
Open Scope Z_scope.

Ltac evaluate := vm_compute; reflexivity.

Definition committee0 : OrderingCommittee :=
  ok_else (mk_committee seven_node [] [] log_default) deterministic_for_demo.

Definition request1 : request := {|
  rq_market_id := fix_market; rq_sequence := 1; rq_commitment := dig 9;
  rq_previous := zero_digest; rq_expires_at := 2000; rq_now := 1000 |}.

Definition node1 : OrderingNode := mk_node 1 (fix_key 1) [].

Lemma node1_run : node_run node1 [request1] (ask request1 node1).1.
Proof.
  destruct (ask request1 node1) as [n' [v|e]] eqn:E.
  - eapply node_run_granted; [apply node_run_nil|exact E].
  - apply (f_equal (λ x, is_ok x.2)) in E. vm_compute in E. discriminate E.
Qed.

Lemma vote_once_witness :
  rq_commitment request1 = rq_commitment request1
  ∨ collision (vote_preimage fix_market 1 (dig 9) zero_digest 2000)
              (vote_preimage fix_market 1 (dig 9) zero_digest 2000).
Proof.
  destruct (vote_once node1 [request1] (ask request1 node1).1 request1 request1 node1_run)
    as [(_ & Hc & _)|Hcol].
  - left.
  - left.
  - reflexivity.
  - split_and!; vm_compute; try lia; congruence.
  - split_and!; vm_compute; try lia; congruence.
  - left. exact Hc.
  - right. exact Hcol.
Defined.

Lemma committee0_ok : committee_ok committee0.
Proof.
  split.
  - evaluate.
  - evaluate.
  - apply (bool_decide_unpack _). evaluate.
  - intros n Hn.
    assert (forallb (λ n, bool_decide (bt_get (on_id n) (cm_keys committee0)
      = Some (verifying_key (on_key n)))) (cm_nodes committee0) = true) as Hf by evaluate.
    rewrite forallb_forall in Hf. apply list_elem_of_In, Hf in Hn. by bool_hyps.
  - intros n s d Hn.
    assert (forallb (λ n, Nat.eqb (length (on_voted n)) 0) (cm_nodes committee0) = true) as Hf
      by evaluate.
    rewrite forallb_forall in Hf. apply list_elem_of_In, Hf in Hn. destruct (on_voted n); done.
  - assert (cm_log committee0 = log_default) as -> by evaluate.
    split; [by intros [] o Hi|constructor|done|vm_compute; congruence].
Qed.

Definition certify1 := certify fix_market (dig 9) 2000 1000 committee0.
Definition certificate1 : OrderCertificate :=
  ok_else (mk_certificate [] 0 zero_digest zero_digest 0 []) certify1.2.

Lemma certify_progress_witness :
  ∃ m' o, certify fix_market (dig 9) 2000 1000 committee0 = (m', Ok o) ∧ oc_commitment o = dig 9.
Proof.
  destruct (certify_progress committee0 fix_market (dig 9) 2000 1000 committee0_ok)
    as (m' & o & Hc & _ & Ho & _); [vm_compute; congruence|set_solver|evaluate|].
  exists m', o. exact (conj Hc Ho).
Defined.

Lemma quorum_intersection_witness : ∃ both : gset Z, (3 ≤ size both)%nat.
Proof.
  destruct (quorum_intersection certificate1 certificate1 seven_node (cm_keys committee0) 1000 1000)
    as (both & Hsize & _); [vm_compute; lia|evaluate|evaluate|]. exists both. exact Hsize.
Defined.

Lemma chain1 : chained [certificate1].
Proof. intros [|[]] o Hi; [|done..].
  change (Some certificate1 = Some o) in Hi. apply (inj Some) in Hi as <-. split; evaluate. Qed.

Lemma certificate1_typed : certificate_typed certificate1.
Proof. split_and!; vm_compute; try lia; congruence. Qed.

Lemma head_binds_history_witness :
  Forall2 same_statement [certificate1] [certificate1]
  ∨ ∃ i o1 o2, [certificate1] !! i = Some o1 ∧ [certificate1] !! i = Some o2
      ∧ collision (certificate_preimage o1) (certificate_preimage o2).
Proof.
  apply (head_binds_history [certificate1] [certificate1] chain1 chain1);
    try (constructor; [exact certificate1_typed|constructor]); reflexivity.
Defined.

Definition statement1 : TransitionStatement :=
  mk_statement fix_market 1 (certificate_digest certificate1) (dig 1) (dig 2) (dig 3) (dig 4)
    (dig 5) (dig 6) (dig 7) (public_fills_digest []).

Definition proof1 : TransitionProof :=
  ok_else (mk_proof statement1 [])
    (transition_attest statement1 (transition_signers committee0) seven_node).

Lemma proof_needs_quorum_witness : ∃ signers : gset Z, (5 ≤ size signers)%nat.
Proof.
  destruct (proof_needs_quorum proof1 (cm_keys committee0) seven_node) as (s & Hs & _);
    [evaluate|]. exists s. exact Hs.
Defined.

Definition cstatement1 : CancellationStatement :=
  mk_cancellation_statement fix_market 1 (dig 1) (dig 2) (dig 3) (dig 4) (dig 5) (dig 6).
Definition estatement1 : ExpiryStatement :=
  mk_expiry_statement fix_market 1 (dig 1) 2000 [dig 2] (dig 3) (dig 4) (dig 5) (dig 6).

Lemma attest_then_verify_witness :
  ∃ p, transition_attest statement1 (transition_signers committee0) seven_node = Ok p
    ∧ tp_statement p = statement1 ∧ transition_verify p (cm_keys committee0) seven_node = Ok ().
Proof.
  refine (proj1 (attest_then_verify (transition_signers committee0) seven_node (cm_keys committee0)
    statement1 cstatement1 estatement1 _ _ _ _)).
  - evaluate.
  - apply (bool_decide_unpack _). evaluate.
  - vm_compute. congruence.
  - apply Forall_forall. intros x Hx.
    assert (forallb (λ e, bool_decide (bt_get e.1 (cm_keys committee0) = Some (verifying_key e.2)))
      (transition_signers committee0) = true) as Hf by evaluate.
    rewrite forallb_forall in Hf. apply list_elem_of_In, Hf in Hx. by bool_hyps.
Defined.

Definition verified1 : VerifiedTransitionProof := mk_verified proof1 (dig 3).

Lemma no_fills_typed : fills_typed [].
Proof. split; [constructor|vm_compute; congruence]. Qed.

Lemma execution_binding_unique_witness :
  (([] : list PublicFill) = [] ∧ same_statement certificate1 certificate1 ∧ dig 3 = dig 3)
  ∨ collision (fills_preimage []) (fills_preimage [])
  ∨ collision (certificate_preimage certificate1) (certificate_preimage certificate1).
Proof.
  refine (execution_binding_unique verified1 certificate1 certificate1 (dig 9) (dig 9) [] []
    (dig 3) (dig 3) certificate1_typed certificate1_typed no_fills_typed no_fills_typed _ _);
    evaluate.
Defined.

(** A decoder that knows one challenge. *)
Definition toy_json : Json := {|
  json_statement _ := Some [];
  json_parse_statement _ := None;
  json_parse_proof _ := Some proof1
|}.

Definition verifier1 : TransitionChallengeVerifier :=
  ok_else (mk_challenge_verifier [] seven_node zero_digest zero_digest)
    (challenge_verifier_new (cm_keys committee0) seven_node).

Definition claim1 : Claim :=
  mk_claim (dig 1) (cv_identity verifier1)
    (mk_context (cv_identity verifier1) (transition_input_root statement1))
    (statement_digest statement1).

Lemma statement1_typed : statement_typed statement1.
Proof. split; vm_compute; try lia; split; congruence. Qed.

Lemma challenge_same_input_witness :
  ∃ p, json_parse_proof (Json := toy_json) [] = Some p
    ∧ (same_input (tp_statement p) statement1
       ∨ collision (input_preimage (tp_statement p)) (input_preimage statement1)).
Proof.
  destruct (challenge_same_input (H0 := toy_json) verifier1 claim1 statement1
    (mk_finalized statement1 (cv_trust_root verifier1)
       (mk_reference (dig 1) (cl_context claim1) (statement_digest statement1) []))
    [] (statement_digest statement1)) as (p & Hp & _ & _ & Hs).
  - evaluate.
  - evaluate.
  - intros p Hp. injection Hp as <-. exact statement1_typed.
  - exact statement1_typed.
  - exists p. exact (conj Hp Hs).
Defined.
