(* ===== verification/WitnessSettlement.v ===== *)
(** * Reservations and settlement on concrete data

    Test doubles for the proof and ledger crates, an engine taken through
    binding, reservation, committee pinning and one settled fill, and the
    settlement theorems applied to it. *)

From S2P Require Import Prelude BTree Bytes AppCrypto Orders Toy Matching Book Ordering Proofs.
From S2P Require Import Reservations ReservationInv ReservationLife Settlement SettlementInv.
From S2P Require Import SettlementLife Canonical Fixtures WitnessProtocol.
Open Scope list_scope.
Open Scope Z_scope.

#[export] Instance toy_points : Points := {|
  RistrettoPoint := Z;
  Scalar := Z;
  point_identity := 0;
  point_add := Z.add;
  point_sub := Z.sub;
  compress z := dig z;
  commit_u64 v s := v + s
|}.

Definition toy_instruction (n : Digest32) (payer payee : Z) : Instruction :=
  mk_instruction n 5000 (ProofDigest (dig 7)) payer payee 1 4 100 true n (d_bytes n).

#[export] Instance toy_crates : SettlementCrates := {|
  PublicKeyPackage := ();
  QuorumPolicy := ();
  ThresholdRangeProof := ();
  DvpProofs := ();
  AssetLinkProof := ();
  OpeningEnvelope := Z;
  Ledger := list (bytes * Z);
  CanonicalReadback := Digest32;
  pk_serialize _ := Some [Byte.x01];
  validate_settlement_committee _ _ := Ok ();
  policy_threshold _ := 3;
  policy_members _ := 7;
  asset_link_verify _ _ _ := true;
  venue_verify _ _ _ _ := Ok ();
  threshold_price_limit _ _ _ _ _ _ := Ok ();
  build_threshold_package_from_proofs i s c cash _ _ := Ok (mk_package i cash s c (in_nullifier i));
  verify_threshold_range _ _ := true;
  envelope_validate _ := Ok ();
  envelope_context _ := zero_digest;
  envelope_recipient e := e;
  opening_context _ _ := Ok zero_digest;
  ledger_new := [];
  ledger_open a c l := (a, c) :: l;
  ledger_balance l h := snd <$> head (filter (λ x, bool_decide (x.1 = d_bytes h)) l);
  ledger_snapshot l := sha256 (concat (map (λ x, x.1 ++ u64_be x.2) l));
  ledger_conserved _ := true;
  account_of p rail := d_bytes (dig (p + match rail with SECURITIES_RAIL => 0 | CASH_RAIL => 100 end));
  manifest_digest := Ok (dig 1);
  readback_new r _ := Ok r;
  accept_canonical_transition _ _ _ _ _ := Ok (dig 2);
  hex_encode d := d_bytes d;
  AMOUNT_RANGE_CONTEXT := "amount"%string;
  PRICE_RANGE_CONTEXT := "price"%string;
  ValueShares := Z;
  NodeContribution := Z;
  PartialInstruction := Instruction;
  FrostSignature := ();
  deal_bits v s _ := Ok (v + s);
  vs_commitment v := v;
  node_contribution v _ := Some v;
  joint_prove_range_from_contributions _ _ _ := Ok ();
  escrow_point d := byte_val (hd Byte.x00 (d_bytes d));
  from_threshold_ranges _ _ _ _ _ payer escrow _ nonce _ := Ok (toy_instruction nonce payer escrow);
  partial_digest i := in_nonce i;
  frost_sign _ := Ok ();
  sealed i _ := i;
  own_venue_verify _ _ := Ok ()
|}.

Definition point8 : RistrettoPoint := 8.

Definition engine_default : SettlementEngine :=
  mk_engine None None [] reservations_default ∅ zero_digest 0.
Definition engine0 : SettlementEngine :=
  ok_else engine_default
    (new_with_transition_committee (cm_keys committee0) seven_node (Ok ()) 51 53 1 2 3 4).
Definition engine1 : SettlementEngine := (bind_eligible_participant (dig 51) (dig 101) engine0).1.
Definition engine2 : SettlementEngine := (bind_eligible_participant (dig 53) (dig 103) engine1).1.
Definition engine3 : SettlementEngine :=
  (pin_collaborative_settlement_committee () () engine2).1.
Definition engine4 : SettlementEngine := (reserve_order_with_commitment sell1 9 engine3).1.
Definition engine5 : SettlementEngine := (reserve_order_with_commitment buy3 point8 engine4).1.

Lemma sell1_view : view_ok sell1.
Proof. split_and!; vm_compute; congruence. Qed.
Lemma buy3_view : view_ok buy3.
Proof. split_and!; vm_compute; congruence. Qed.

Lemma engine0_new :
  new_with_transition_committee (cm_keys committee0) seven_node (Ok ()) 51 53 1 2 3 4 = Ok engine0.
Proof.
  unfold engine0. destruct (new_with_transition_committee _ _ _ _ _ _ _ _ _) as [e|err] eqn:E; [done|].
  apply (f_equal is_ok) in E. vm_compute in E. discriminate E.
Qed.

Lemma engine4_ok : engine_ok engine4.
Proof.
  apply (reserve_step_ok engine3 sell1 9); [|apply sell1_view].
  apply (engine_ok_frame engine2); [apply (pin_frame engine2 () ())..|].
  apply (bind_step_ok engine1 (dig 53) (dig 103)), (bind_step_ok engine0 (dig 51) (dig 101)).
  eapply new_engine_ok, engine0_new.
Qed.

Lemma engine5_ok : engine_ok engine5.
Proof. apply (reserve_step_ok engine4 buy3 point8); [exact engine4_ok|apply buy3_view]. Qed.

Definition fill1 : PublicFill := mk_fill (commitment sell1) (commitment buy3) 100 4.

Definition statement2 : TransitionStatement :=
  mk_statement fix_market 1 (certificate_digest certificate1) (dig 1) (dig 2) (dig 3) (dig 4)
    (dig 5) (dig 6) (dig 7) (public_fills_digest [fill1]).
Definition transition2 : VerifiedTransitionProof :=
  mk_verified (mk_proof statement2 []) (se_transition_committee_trust_root engine5).

Definition fill_proof1 : CollaborativeFillProof :=
  let job := ok_else zero_digest (collaborative_job_id (dig 11) 0 (dig 7)) in
  {| cp_job_id := job; cp_market_proof_digest := dig 7; cp_limit_direction := MaximumBuyPrice;
     cp_limit_commitment := 1; cp_limit_context := dig 1;
     cp_asset_id := canonical_securities_asset_id fix_market;
     cp_instruction := toy_instruction job 53 51; cp_frost_public := (); cp_pq_committee := ();
     cp_maker_handle := 51; cp_price_limit_proof := (); cp_dvp_proofs := ();
     cp_cash_commitment := 400; cp_securities_remainder := 9; cp_cash_remainder := 8;
     cp_maker_pool_remainder := 9; cp_maker_pool_remainder_proof := ();
     cp_securities_delivery_opening := 53; cp_securities_refund_opening := 51;
     cp_cash_delivery_opening := 51; cp_cash_refund_opening := 53; cp_asset_link := () |}.

Abbreviation settle1 :=
  (settle_batch_collaborative [fill1] [fill_proof1] (dig 11) transition2 (commitment buy3) 2 1000
    engine5).

Lemma settle1_succeeds : is_ok settle1.2 = true.
Proof. evaluate. Qed.

Lemma fills1_nonneg : Forall (λ fill, 0 ≤ f_price fill ∧ 0 ≤ f_quantity fill) [fill1].
Proof. repeat constructor; simpl; lia. Qed.

(** ** Reservations *)

Definition bound1 : ReservationBook :=
  (bind_participant (dig 51) (dig 101) 1000 1000 reservations_default).1.
Definition reserved1 : ReservationBook := (reserve sell1 9 bound1).1.
Definition closed1 : ReservationBook := (release_order (commitment sell1) reserved1).1.

Lemma reserved1_run : rtc reservation_step reservations_default reserved1.
Proof.
  apply (rtc_l _ _ bound1); [apply step_bind|].
  apply rtc_once, step_reserve, sell1_view.
Qed.

Lemma closed1_run : rtc reservation_step reserved1 closed1.
Proof. apply rtc_once, step_release. Qed.

Lemma reserved1_quantity :
  rec_remaining_quantity <$> record_of reserved1 (commitment sell1) = Some 4.
Proof. evaluate. Qed.

(** A participant is bound, reserves, and its reservation is released. *)
Lemma reservation_invariant_witness :
  ∃ r, record_of closed1 (commitment sell1) = Some r ∧ rec_remaining_quantity r ≤ 4.
Proof.
  pose proof reserved1_quantity as Hq.
  destruct (reservation_invariant reserved1 closed1 reserved1_run closed1_run) as (_ & _ & Hev).
  destruct (record_of reserved1 (commitment sell1)) as [r|] eqn:E; [|discriminate Hq].
  injection Hq as Hq. destruct (Hev _ _ E) as (r' & Hr' & _ & Hle & _).
  exists r'. split; [exact Hr'|]. rewrite <-Hq. exact Hle.
Defined.

Lemma consume_fill_exact_witness :
  is_ok (consume_fill fill1 fix_market 1000 (se_reservations engine5)).2 = true
  ∧ res_ok (consume_fill fill1 fix_market 1000 (se_reservations engine5)).1.
Proof.
  destruct (consume_fill_exact (se_reservations engine5) fill1 fix_market 1000 (proj1 engine5_ok))
    as [(mk & tk & _ & _ & _ & b' & cf & Hc & _ & Hb & _)|(_ & reason & Hc)];
    [reflexivity|reflexivity| |].
  - rewrite Hc. exact (conj eq_refl Hb).
  - apply (f_equal (λ x, is_ok x.2)) in Hc. vm_compute in Hc. discriminate Hc.
Defined.

Lemma reserve_exact_witness :
  is_ok (reserve buy3 point8 (se_reservations engine4)).2 = true
  ∧ res_ok (reserve buy3 point8 (se_reservations engine4)).1.
Proof.
  destruct (reserve_exact buy3 point8 (se_reservations engine4) (proj1 engine4_ok) buy3_view)
    as [(_ & b' & receipt & Hc & _ & Hb & _)|(_ & reason & Hc)].
  - rewrite Hc. exact (conj eq_refl Hb).
  - apply (f_equal (λ x, is_ok x.2)) in Hc. vm_compute in Hc. discriminate Hc.
Defined.

(** ** The engine *)

Lemma settlement_exact_witness :
  is_ok settle1.2 = true ∧ engine_ok settle1.1 ∧ se_height settle1.1 = se_height engine5 + 1.
Proof.
  destruct settle1 as [e' [receipt|err]] eqn:E.
  - destruct (settlement_exact engine5 e' [fill1] [fill_proof1] (dig 11) transition2
      (commitment buy3) 2 1000 receipt engine5_ok fills1_nonneg E) as (Hok & _ & _ & _ & _ & Hh).
    exact (conj eq_refl (conj Hok Hh)).
  - apply (f_equal (λ x, is_ok x.2)) in E. vm_compute in E. discriminate E.
Defined.

(** The second submission of the same batch is refused. *)
Lemma settlement_atomic_witness :
  se_participants (settle_batch_collaborative [fill1] [fill_proof1] (dig 11) transition2
    (commitment buy3) 0 1000 engine5).1 = se_participants engine5.
Proof.
  destruct (settle_batch_collaborative [fill1] [fill_proof1] (dig 11) transition2
    (commitment buy3) 0 1000 engine5) as [e' [receipt|err]] eqn:E.
  - apply (f_equal (λ x, is_ok x.2)) in E. vm_compute in E. discriminate E.
  - exact (proj1 (settlement_atomic engine5 e' [fill1] [fill_proof1] (dig 11) transition2
      (commitment buy3) 0 1000 err E)).
Defined.

(** Four of six units fill and the rest is dropped. *)
Definition ioc_batch : PrivateMatchBatch :=
  mk_batch [mk_resting_input (commitment sell1) Sell 100 4] Buy 101 6 false.

Lemma ioc_partial_fill_refused_witness :
  ∃ err, settle_batch_collaborative [fill1] [fill_proof1] (dig 11) transition2 (commitment buy3)
    (br_arriving_remaining (expected_batch ioc_batch)) 1000 engine5 = (engine5, Err err).
Proof.
  refine (ioc_partial_fill_refused engine5 [fill1] [fill_proof1] (dig 11) transition2
    (commitment buy3) ioc_batch (new_record buy3 point8) 1000 engine5_ok fills1_nonneg _ _ _ _);
    evaluate.
Defined.

(** ** Two-phase acceptance *)

Definition transition3 : VerifiedTransitionProof :=
  mk_verified (mk_proof statement1 []) (se_transition_committee_trust_root engine4).

Definition receipt3 : ReservationReceipt :=
  ok_else (mk_reservation_receipt zero_digest zero_digest Cash 0 zero_digest zero_digest 0
    None None None None None) (reserve_order_with_commitment buy3 point8 engine4).2.

Definition rnd3 : ZkpiRandom := mk_random 5 6 7.

Abbreviation prepare3 :=
  (prepare_canonical_reservation rnd3 engine4 engine5 receipt3 buy3 certificate1 transition3 1000).

Definition acceptance_for (t : PreparedCanonicalTransition) : CanonicalSettlementAcceptance :=
  mk_acceptance [Byte.x01] [Byte.x02] 9 (dig 1) (dig 2) (dig 3) (dig 4) (application_binding_of t)
    (binding_digest_of t).

