(* ===== verification/WitnessService.v ===== *)
(** * The exchange service on concrete data

    Test doubles for the compatibility settlement, DeKYX, the optimistic
    protocol and the outbox; a service on which one seller rests and one buyer
    trades, and the theorems about the service applied to it. *)

From S2P Require Import Prelude BTree Bytes AppCrypto Orders Toy Matching Circuit MpcRunner Book.
From S2P Require Import BookInv BookApply Ordering Proofs Reservations ReservationInv.
From S2P Require Import Settlement SettlementInv SettlementLife Canonical Compat CompatLife.
From S2P Require Import EngineLife.
From S2P Require Import Backing Eligibility Service OptimisticService Queue ServiceInv ServiceLife.
From S2P Require Import QueueLife Fixtures WitnessBook WitnessProtocol WitnessSettlement.
Open Scope list_scope.
Open Scope Z_scope.

(** ** Test doubles *)

(** Moves [amount] between two accounts of a ledger of openings. *)
Definition toy_move (l : list (bytes * Z)) (from to : bytes) (amount : Z) : list (bytes * Z) :=
  map (λ x, (x.1, if bool_decide (x.1 = from) then x.2 - amount
                  else if bool_decide (x.1 = to) then x.2 + amount else x.2)) l.

Definition toy_build (i : Instruction) (securities cash : list (bytes * Z)) (quantity price : Z)
    (h : Holdings) (_ : Z * Z) : result string ((Digest32 * (Digest32 * Digest32)) * Carry) :=
  if (quantity <=? hd_securities_balance h) && (price * quantity <=? hd_cash_balance h)
  then
    let seller := in_payee_handle i in
    let buyer := in_payer_handle i in
    Ok ((in_nullifier i,
         (ledger_snapshot (SettlementCrates := toy_crates) (toy_move securities
            (account_of seller SECURITIES_RAIL) (account_of buyer SECURITIES_RAIL) quantity),
          ledger_snapshot (SettlementCrates := toy_crates) (toy_move cash
            (account_of buyer CASH_RAIL) (account_of seller CASH_RAIL) (price * quantity)))),
        mk_carry (hd_securities_balance h - quantity) (hd_securities_blinding h)
          (hd_cash_balance h - price * quantity) (hd_cash_blinding h) 0 0)
  else Err "insufficient"%string.

#[export] Instance toy_compat : CompatCrates := {|
  DvpPackage := Digest32 * (Digest32 * Digest32);
  scalar_add := Z.add;
  package_nullifier p := p.1;
  package_digest p := p.1;
  instruction_digest i := in_wire i;
  build_package := toy_build;
  defmi_settle _ _ p _ := (Ok (), p.2)
|}.

#[export] Instance toy_compat_laws : CompatLaws.
Proof.
  split. intros i securities cash quantity price h openings package carry. simpl. unfold toy_build.
  destruct (_ && _) eqn:E; [|done]. bool_hyps. intros [= _ <-]. simpl. split_and!; lia.
Qed.

#[export] Instance toy_dekyx : Dekyx := {|
  IssuerDirectory := ();
  CredentialVerifier := ();
  PresentationLedger := ();
  directory_verifier _ _ _ := Ok ();
  verify_eligibility _ _ c a _ := Ok (mk_eligibility (ap_nullifier a) (dig 1) (dig 2) (pc_valid_until c));
  presentation_ledger_default := ();
  presentation_consume _ _ := mret ()
|}.

#[export] Instance toy_sdk : OptimisticSdk := {|
  Proposal := Digest32;
  CanonicalOptimisticFinality := Claim;
  finality_proposal := cl_id;
  finality_claim c := c;
  NodeExecutionAdmission := ExecutionContext;
  admission_context c := c;
  sign_admitted_optimistic_execution _ d := Ok d;
  client_propose _ := Ok ()
|}.

(** ** An engine through both phases of an acceptance and a settlement *)

Definition transition_default : PreparedCanonicalTransition :=
  PreparedReservation (mk_prepared_reservation engine4 (state_snapshot engine4) receipt3 []
    zero_digest zero_digest zero_digest zero_digest zero_digest zero_digest [] [] 0).

(** The reservation of [buy3], prepared on a clone of [engine4]. *)
Definition prepared_buy3 : PreparedCanonicalTransition := ok_else transition_default prepare3.

Lemma ok_else_Ok {E A} (default : A) (r : result E A) : is_ok r = true → r = Ok (ok_else default r).
Proof. by destruct r. Qed.

Lemma prepared_buy3_over : prepared_over (O := SecretOrder) (A := VerifiedTransitionProof) engine4 engine5 prepared_buy3.
Proof.
  refine (over_reservation engine4 engine5 rnd3 receipt3 buy3 certificate1 transition3 1000
    prepared_buy3 _).
  unfold prepared_buy3. apply ok_else_Ok. evaluate.
Qed.

(** It is accepted, and the fill is then settled from the scalar openings. *)
Definition engine_accepted : SettlementEngine :=
  (canonical_accept prepared_buy3 (acceptance_for prepared_buy3) engine4).1.
Definition engine_traded : SettlementEngine :=
  (settle_batch (λ _, rnd3) [fill1] transition2 buy3 2 1000 engine_accepted).1.

Lemma engine_traded_balances :
  (λ a, (balance a Securities, balance a Cash)) <$> bt_get (dig 53) (se_participants engine_traded)
    ≠ (λ a, (balance a Securities, balance a Cash)) <$> bt_get (dig 53) (se_participants engine4).
Proof. vm_compute. congruence. Qed.

Lemma engine4_reachable : reachable engine4.
Proof.
  apply (reach_reserve engine3 sell1 9); [|apply sell1_view].
  apply (reach_pin engine2 () ()), (reach_bind engine1 (dig 53) (dig 103)),
    (reach_bind engine0 (dig 51) (dig 101)).
  eapply reach_new, engine0_new.
Qed.

Lemma engine_accepted_presents : presents_reserved engine_accepted buy3.
Proof.
  assert (record_of (se_reservations engine_accepted) (commitment buy3)
    = Some (new_record buy3 point8)) as E by evaluate.
  intros r Hr. cbn [settlement_commitment secret_order_view] in Hr. rewrite E in Hr.
  injection Hr as <-. repeat split.
Qed.

Lemma engine5_reachable : reachable engine5.
Proof. unfold engine5. exact (reach_reserve engine4 buy3 point8 engine4_reachable buy3_view). Qed.

Lemma engine_accepted_reachable : reachable engine_accepted.
Proof.
  unfold engine_accepted. exact (reach_accept engine4 engine5 prepared_buy3 (acceptance_for prepared_buy3)
    engine4 prepared_buy3_over engine5_reachable engine4_reachable).
Qed.

Lemma engine_traded_reachable : reachable engine_traded.
Proof.
  unfold engine_traded. exact (reach_settle engine_accepted (λ _, rnd3) [fill1] transition2 buy3 2 1000
    engine_accepted_reachable fills1_nonneg ltac:(lia) engine_accepted_presents).
Qed.

Lemma engine_solvent_witness :
  ∃ a, bt_get (dig 53) (se_participants engine_traded) = Some a
    ∧ ∀ k, 0 ≤ held_sum (se_reservations engine_traded) (dig 53) k ≤ balance a k ≤ u64_max.
Proof.
  destruct (engine_solvent engine_traded (dig 53) (dig 103) engine_traded_reachable)
    as (a & Ha & Hk & _); [evaluate|].
  exists a. exact (conj Ha Hk).
Defined.

(** ** A service *)

Definition toy_verifier : OclobEligibilityVerifier :=
  mk_verifier () (mk_requirement true (dig 1) 1 (dig 2)) () (dig 3) (dig 4).

Definition evidence_for (o : SecretOrder) : AnonymousPresentation :=
  mk_presentation (mk_presentation_context (dig 2) (dig 3) (dig 4) (commitment o) 2000)
    (o_dekyx_nullifier o) [].

Definition seller : SecretOrder := fee_order 0 1 Sell 100 4 GoodTilCancelled.
Definition buyer : SecretOrder := fee_order 0 3 Buy 101 3 GoodTilCancelled.

Definition io_for (batch : PrivateMatchBatch) : submission_io :=
  mk_submission_io (mk_io (Ok ()) (λ _, Ok []) (Ok ())
    (λ _, Ok (replicate MPC_PARTIES (print_output (run_circuit toy_sort batch)))))
    9 (mk_random 5 6 7) (λ _, mk_random 5 6 7).

Definition sell_io : submission_io := io_for (mk_batch [] Sell 100 4 true).
Definition buy_io : submission_io :=
  io_for (mk_batch [mk_resting_input (commitment seller) Sell 100 4] Buy 101 3 true).

Abbreviation new_service := (service_new fix_market
  (new_with_transition_committee (H1 := toy_crates) (cm_keys committee0) seven_node (Ok ()) 51 53 1 2 3 4)
  (dig 51, dig 53) (Ok toy_runner) toy_verifier).

#[local] Existing Instance toy_json.

Definition svc0 : OclobService := ok_else
  (mk_service [] book0 committee0 toy_runner engine_default toy_verifier (dig 51, dig 53)) new_service.
Abbreviation submit1 :=
  (submit sell_io seller (fix_authority seller 1) (evidence_for seller) 1000 svc0).
Definition svc1 : OclobService := submit1.1.
Abbreviation submit2 :=
  (submit buy_io buyer (fix_authority buyer 3) (evidence_for buyer) 1000 svc1).
Definition svc2 : OclobService := submit2.1.

Lemma svc0_new : new_service = Ok svc0.
Proof.
  unfold svc0. destruct new_service as [s|err] eqn:E; [done|].
  apply (f_equal is_ok) in E. vm_compute in E. discriminate E.
Qed.

Lemma svc2_run : service_run svc0 svc2.
Proof.
  apply (srun_step svc0 svc1); [apply (srun_step svc0 svc0); [apply srun_new|evaluate|]|evaluate|].
  - apply sstep_submit. evaluate.
  - apply sstep_submit. evaluate.
Qed.

(** Three of the seller's four units traded; the last one rests, reserved. *)
Lemma service_backed_witness :
  ro_remaining <$> book_map (os_book svc2) !! commitment seller = Some 1
  ∧ ∃ r, record_of (se_reservations (os_settlement svc2)) (commitment seller) = Some r
      ∧ rec_status r = Active ∧ rec_remaining_quantity r = 1.
Proof.
  assert (ro_remaining <$> book_map (os_book svc2) !! commitment seller = Some 1) as Hm by evaluate.
  split; [exact Hm|].
  destruct (service_backed (H2 := toy_crates) (cm_keys committee0) seven_node (Ok ()) 51 53 1 2 3 4
    fix_market (dig 51, dig 53) (Ok toy_runner) toy_verifier svc0 svc2 svc0_new svc2_run)
    as (_ & _ & _ & _ & _ & Hb & _).
  destruct (book_map (os_book svc2) !! commitment seller) as [o|] eqn:E; [|discriminate Hm].
  injection Hm as Hr. destruct (Hb _ _ E) as (r & Hrec & Hact & _ & Hq).
  exists r. split; [exact Hrec|]. split; [exact Hact|]. congruence.
Defined.

(** ** The queue *)

#[local] Instance context_eq_dec : EqDecision PresentationContext.
Proof. solve_decision. Defined.
#[local] Instance presentation_eq_dec : EqDecision AnonymousPresentation.
Proof. solve_decision. Defined.
#[local] Instance envelope_eq_dec : EqDecision QueuedSubmissionEnvelope.
Proof. solve_decision. Defined.

Definition seller_envelope : QueuedSubmissionEnvelope :=
  mk_envelope 1 (to_secret_wire seller) (fix_authority seller 1) (evidence_for seller).

(** An outbox that keeps its requests, and a codec that knows one envelope. *)
#[export] Instance toy_outbox : CorporateOutbox := {|
  Outbox := list ClaimedRequest;
  outbox_new _ _ _ _ := Ok [];
  initialize_if_missing := mret ();
  enqueue_first_seen id b _ _ := λ l,
    (l ++ [mk_claimed id (toy_sha256 b) b], Ok (Enqueued (Z.of_nat (length l))));
  claim_next _ _ _ := λ l, (l, Ok (QDispatch <$> head l));
  claim_cover_slot now _ _ _ := λ l, (l, Ok (Some (mk_cover_slot 0 now CoverDummy)));
  record_pre_reserve_abort id _ _ := λ l,
    (filter (λ r, cq_request_id r ≠ id) l, Ok ());
  record_settlement id _ _ := λ l, (filter (λ r, cq_request_id r ≠ id) l, Ok ());
  mark_manual_review _ _ _ _ := mret ();
  json_envelope e := if decide (e = seller_envelope) then Some [Byte.x01] else None;
  json_parse_envelope b := if decide (b = [Byte.x01]) then Some seller_envelope else None
|}.

#[export] Instance toy_envelope_laws : EnvelopeLaws.
Proof. split. intros e b. simpl. case_decide; [|done]. by intros [= <-]; subst. Qed.

Definition queue0 : DurableOclobQueue := mk_queue [] "defmi"%string 5.

Abbreviation enqueue1 :=
  (enqueue seller (fix_authority seller 1) (evidence_for seller) 1000 queue0).

Lemma queue_delivers_witness :
  ∃ receipt signed, enqueue1.2 = Ok receipt
    ∧ envelope_encode seller (fix_authority seller 1) (evidence_for seller) = Ok signed
    ∧ qr_request_digest receipt = sha256 signed.
Proof.
  destruct enqueue1 as [q1 [receipt|err]] eqn:E.
  - destruct (queue_delivers seller (fix_authority seller 1) (evidence_for seller) 1000 queue0 q1
      receipt) as (signed & Hs & Hd & _); [evaluate|exact E|].
    exists receipt, signed. exact (conj eq_refl (conj Hs Hd)).
  - apply (f_equal (λ x, is_ok x.2)) in E. vm_compute in E. discriminate E.
Defined.
