(* ===== verification/WitnessEdge.v ===== *)
(** * The edge on concrete data

    One participant order shared to seven nodes with the test doubles of
    [ToyEdge], and the theorems on creation, delivery, reconstruction, the
    settlement capability and admission by a node applied to it. *)

From Stdlib Require Import Zmod.
From S2P Require Import Prelude BTree Bytes AppCrypto Orders Toy Matching Circuit Book Reservations.
From S2P Require Import MpcRunner Edge EdgeCreate EdgeField EdgeShares EdgeSeal EdgeLife EdgeTotal.
From S2P Require Import Ordering EdgeDecimal NodeReceipts NodeState NodeStore NodeSteps NodeAdmit.
From S2P Require Import ToyEdge ToyStore Fixtures.
Open Scope list_scope.
Open Scope Z_scope.

Definition rng (z : Z) : @Rng _ toy_edge := z.

Definition edge_key (p : fin MPC_PARTIES) : NodeDecryptionKey :=
  mk_decryption_key (replicate 64 (byte_of (Z.of_nat (fin_to_nat p)))).
Definition edge_keys : vec NodeEncryptionKey MPC_PARTIES :=
  fun_to_vec (λ p, node_public_key (edge_key p)).
Definition edge_signer : SigningKey := fix_key 9.
Definition edge_cap : Digest32 :=
  settlement_capability_commitment sell1 (vk_fingerprint (verifying_key edge_signer)).

Lemma edge_keys_at p : edge_keys !!! p = node_public_key (edge_key p).
Proof. unfold edge_keys. by rewrite lookup_fun_to_vec. Qed.

Lemma toy_inputs : edge_inputs sell1 None None (dig 3) edge_cap edge_signer edge_keys edge_key.
Proof.
  split.
  - by vm_compute.
  - by vm_compute.
  - by vm_compute.
  - by vm_compute.
  - by vm_compute.
  - by exists (digest_fill Byte.x01).
  - intros p. rewrite edge_keys_at. split; [done|]. by intros E%(f_equal length).
  - done.
  - done.
Qed.

Lemma toy_draw : nth_draw (key_draws None None) (rng 5) ≠ s_zero.
Proof. by vm_compute. Qed.

Lemma toy_bundle : ∃ r' b,
  create_inner 2 sell1 None None (dig 3) edge_cap edge_signer edge_keys (rng 5) = (r', Ok b).
Proof. exact (create_inner_succeeds 2 _ _ _ _ _ _ _ _ (rng 5) toy_inputs ltac:(lia) toy_draw). Qed.

(** ** An order with a settlement handle and a pre-trade reservation *)

Definition native1 : SecretOrder := {|
  o_version := o_version sell1; o_market_id := o_market_id sell1; o_side := o_side sell1;
  o_limit_price := o_limit_price sell1; o_quantity := o_quantity sell1;
  o_time_in_force := o_time_in_force sell1; o_expires_at := o_expires_at sell1;
  o_participant_handle := f11_digest (Zmod.of_Z 11 3); o_client_nonce := o_client_nonce sell1;
  o_salt := o_salt sell1; o_order_id := o_order_id sell1;
  o_ephemeral_public_key := o_ephemeral_public_key sell1;
  o_dekyx_nullifier := o_dekyx_nullifier sell1; o_reservation_id := o_reservation_id sell1;
  o_reservation_limit := o_reservation_limit sell1; o_minimum_lot := o_minimum_lot sell1;
  o_max_fee := o_max_fee sell1;
  o_cancellation_secret_digest := o_cancellation_secret_digest sell1 |}.

Definition native_handle : Handle := mk_handle _ _ (Zmod.of_Z 11 3) (Zmod.of_Z 11 3).

Definition native_permit : ReservationAdmission :=
  [# commitment native1; f11_digest (Zmod.of_Z 11 3);
     compress (pedersen (s_from (o_reservation_limit native1)) (Zmod.of_Z 11 4));
     compress (pedersen (order_values native1 !!! 0%fin) (Zmod.of_Z 11 5))].

Definition native_admission : PreauthorizedReservation :=
  mk_preauthorized _ _ native_permit [] (Zmod.of_Z 11 5) (Zmod.of_Z 11 4) 1000.

Definition native_cap : Digest32 :=
  preauthorized_settlement_commitment (toy_sha256 (array_bytes native_permit)).

Lemma native_fits : admission_fits native1 (Some native_handle) native_cap native_admission.
Proof.
  exists native_handle, (digest_fill Byte.x01), (array_bytes native_permit),
    (toy_sha256 (array_bytes native_permit)).
  split_and!; try reflexivity; try (by vm_compute).
Qed.

Lemma native_inputs : edge_inputs native1 (Some native_handle) (Some native_admission) (dig 3)
  native_cap edge_signer edge_keys edge_key.
Proof.
  split.
  - by vm_compute.
  - by vm_compute.
  - by vm_compute.
  - by vm_compute.
  - by vm_compute.
  - by exists (digest_fill Byte.x01).
  - intros p. rewrite edge_keys_at. split; [done|]. by intros E%(f_equal length).
  - intros h [= <-]. by vm_compute.
  - intros a [= <-]. exact native_fits.
Qed.

Lemma create_total_witness : ∃ r' b,
  create_inner 1 native1 (Some native_handle) (Some native_admission) (dig 3) native_cap edge_signer
    edge_keys (rng 5) = (r', Ok b).
Proof.
  apply (proj2 (create_total 1 native1 (Some native_handle) (Some native_admission) (dig 3)
    native_cap edge_signer edge_keys edge_key (rng 5) native_inputs)).
  exists 0%nat. split; [lia|]. by vm_compute.
Defined.

Lemma edge_delivers_witness : ∃ r' b,
  create_inner 2 sell1 None None (dig 3) edge_cap edge_signer edge_keys (rng 5) = (r', Ok b)
  ∧ ∀ p, is_ok (share_open (eb_sealed_shares b !!! p) (edge_key p) (eb_manifest b)
      (Z.of_nat (fin_to_nat p)) 1000) = true.
Proof.
  destruct toy_bundle as (r' & b & E). exists r', b. split; [exact E|].
  pose proof (edge_delivers _ _ _ _ _ _ _ _ _ _ _ edge_key 1000 E edge_keys_at ltac:(done)) as [H _].
  intros p. apply (H p).
Defined.

Lemma capability_roundtrip_witness : ∃ r' b e r2,
  create_inner 2 sell1 None None (dig 3) edge_cap edge_signer edge_keys (rng 5) = (r', Ok b)
  ∧ seal_settlement_capability b sell1 (dig 3) [Byte.x01] edge_signer (rng 8) = (r2, Ok e)
  ∧ is_ok (capability_open e (eb_settlement_capability_key b) (eb_manifest b) 1000) = true.
Proof.
  destruct toy_bundle as (r' & b & E).
  destruct (seal_capability_succeeds _ _ _ _ _ _ _ _ _ [Byte.x01] (rng 8) E) as (r2 & e & Hs);
    [done|done|by vm_compute|].
  exists r', b, e, r2. split; [exact E|]. split; [exact Hs|].
  rewrite (capability_roundtrip _ _ _ _ _ _ _ _ _ _ _ sell1 [Byte.x01] (rng 8) r2 e 1000 E ltac:(by vm_compute)
    Hs ltac:(done)). reflexivity.
Defined.

Lemma reconstruct_exact_witness : ∃ m ks,
  is_ok (reconstruct_settlement_capability_key m ks 1000) = true.
Proof.
  destruct toy_bundle as (r' & b & E).
  destruct (bundle_opens _ _ _ _ _ _ _ _ _ _ _ edge_key 1000 E edge_keys_at ltac:(done))
    as (Hm & flds & kp & _ & _ & _ & Hop).
  destruct (Hop 0%fin) as (s0 & k0 & _ & _ & _ & P0 & _ & V0).
  destruct (Hop 1%fin) as (s1 & k1 & _ & _ & _ & P1 & _ & V1).
  destruct (Hop 2%fin) as (s2 & k2 & _ & _ & _ & P2 & _ & V2).
  exists (eb_manifest b), [k0; k1; k2].
  assert (Hu : Forall (λ s, is_u16 (ck_party s) = true) [k0; k1; k2])
    by (repeat constructor; rewrite ?P0, ?P1, ?P2; reflexivity).
  apply (proj1 (reconstruct_exact (eb_manifest b) 1000 [k0; k1; k2] Hu)).
  split_and!; [done| | |simpl; lia|simpl; unfold MPC_PARTIES; lia].
  - repeat constructor; rewrite ?P0, ?P1, ?P2; done.
  - simpl. rewrite P0, P1, P2. apply (bool_decide_unpack _). by vm_compute.
Defined.

(** A fresh store of party zero. *)
Definition edge_store : NodeShareStore := {|
  ns_key := edge_key 0%fin; ns_state := empty_state 0 [Byte.x07]; ns_private_state_root := false;
  ns_reservation_trust := None; ns_disk := None |}.

Lemma honest_order_admitted_witness : ∃ r' b (J : StoreJson) s',
  create_inner 2 sell1 None None (dig 3) edge_cap edge_signer edge_keys (rng 5) = (r', Ok b)
  ∧ ingest (eb_manifest b) (eb_sealed_shares b !!! 0%fin)
      (eb_sealed_capability_key_shares b !!! 0%fin) 1000 Durable edge_store = (s', Ok (Stored 1)).
Proof.
  destruct toy_bundle as (r' & b & E).
  pose (l := [admitted None (ns_state edge_store) (bundle_record b 0%fin 1000)]).
  destruct (table_encodes l (admitted None (ns_state edge_store) (bundle_record b 0%fin 1000)))
    as [e He]; [left|simpl; lia|].
  pose proof (honest_order_admitted (H5 := table_json l) _ _ _ None _ _ _ _ _ _ _ edge_key 1000 0%fin edge_store e
    E (edge_keys_at 0%fin) ltac:(done) eq_refl eq_refl ltac:(done) eq_refl eq_refl ltac:(done)) as [H _].
  { unfold bundle_tag. rewrite (create_unreserved _ _ _ _ _ _ _ _ _ _ E). exact He. }
  exists r', b, (table_json l). eexists. split; [exact E|exact H].
Defined.
