(* ===== verification/WitnessNode.v ===== *)
(** * The share store on concrete data

    One node of the committee: an admitted order, a completed and finalized
    round with its private head, votes, a pruned record and restarts, and the
    theorems on the store applied to them. *)

From S2P Require Import Prelude BTree Bytes AppCrypto Orders Toy Matching Circuit MpcRunner Book.
From S2P Require Import Ordering Reservations Edge EdgeCreate EdgeDecimal ToyEdge NodeReceipts.
From S2P Require Import NodeState NodeStore NodeSteps NodeCore NodeInv NodeLife ToyStore Fixtures.
Open Scope list_scope.
Open Scope Z_scope.

Definition node_policy : bytes := [Byte.x07].
Definition node_key : NodeDecryptionKey := mk_decryption_key (replicate 64 Byte.x00).
Definition node_signer : SigningKey := fix_key 5.

Definition zeros {n} : vec Digest32 n := fun_to_vec (λ _, zero_digest).

(** An order of the plain market, live until 100. *)
Definition node_manifest : EdgeOrderManifest := {|
  m_version := EDGE_VERSION; m_market_id := fix_market; m_commitment := dig 21;
  m_retention_deadline := 100; m_eligibility_commitment := dig 3;
  m_source_order_commitment := dig 4; m_reservation_admission_digest := zero_digest;
  m_settlement_capability_commitment := dig 6; m_settlement_key_commitments := zeros;
  m_field_commitments := fun_to_vec (λ _, zeros); m_settlement_proof_enabled := false;
  m_settlement_field_commitments := fun_to_vec (λ _, zeros); m_signer := dig 8;
  m_signature := [] |}.

Definition node_record : StoredRecord := {|
  sr_manifest := node_manifest;
  sr_sealed := {| ss_version := EDGE_VERSION; ss_party := 0; ss_commitment := dig 21;
    ss_recipient := dig 9; ss_suite := (); ss_kem_ciphertext := []; ss_nonce := [];
    ss_ciphertext := [] |};
  sr_sealed_capability_key_share := None; sr_admitted_at := 5; sr_admission_receipt := None |}.

Definition node_state0 : StoreState := with_generation 1
  (with_records (<[dig 21 := node_record]> ∅)
    (with_claims (<[dig 22 := dig 21]> ∅) (empty_state 0 node_policy))).

(** A round in which the whole arriving order rests. *)
Definition node_result : MpcBatchResult := {|
  br_slots := replicate MAX_MATCH_SLOTS (mk_slot false 0 0);
  br_arriving_remaining := 7; br_public_levels := None |}.

Definition node_receipt0 (signature : bytes) : NodeExecutionReceipt := {|
  ne_version := VERSION; ne_party := 0; ne_round_id := dig 31; ne_generation := 1;
  ne_round_commitment := dig 32; ne_program_sha256 := dig 33; ne_artifact_sha256 := dig 34;
  ne_private_parent_digest := dig 35; ne_private_state_sha256 := dig 36;
  ne_public_output_sha256 := public_output_digest node_result; ne_result := node_result;
  ne_depth_attestation := None; ne_execution_ms := 3;
  ne_signer := vk_fingerprint (verifying_key node_signer); ne_signature := signature |}.

Definition node_receipt : NodeExecutionReceipt :=
  node_receipt0 (sig_bytes (ok_else (mk_signature [])
    (try_sign node_signer (execution_signature_body (node_receipt0 []))))).

Definition node_state1 : StoreState := with_round node_receipt node_state0.

(** The round as it became final. *)
Definition node_plan : RoundPlan := {|
  rp_version := VERSION; rp_market_id := fix_market; rp_sequence := 1;
  rp_ordering_certificate := mk_certificate fix_market 1 (dig 21) zero_digest 100 [];
  rp_resting := []; rp_arriving := dig 21; rp_issued_at := 10; rp_expires_at := 20;
  rp_coordinator := dig 37; rp_round_id := dig 31; rp_signature := [] |}.

Definition node_finality : PrivateStateFinality :=
  mk_private_finality (dig 31) (public_output_digest node_result) (dig 41) (dig 42) 9.

Definition node_signed : NodePrivateStateReceipt :=
  default (mk_private_state 0 0 zero_digest zero_digest zero_digest zero_digest 0 0 zero_digest
      zero_digest [])
    (private_state_sign 0 node_receipt node_finality 3 (dig 43) node_signer).

Definition node_final : PrivateRoundFinalization := {|
  fz_native_finality_required := false;
  fz_public_output_sha256 := pf_public_output_sha256 node_finality;
  fz_transition_digest := pf_transition_digest node_finality;
  fz_canonical_receipt_digest := pf_canonical_receipt_digest node_finality;
  fz_canonical_height := pf_canonical_height node_finality;
  fz_private_state_receipt := Some node_signed |}.

Definition node_state2 : StoreState := with_generation 3
  (with_finalized (<[dig 31 := node_final]> (st_finalized_private_rounds node_state1))
    (with_heads (advance_heads node_plan node_receipt node_finality (st_private_heads node_state1))
      node_state1)).

(** After pruning, and after two votes. *)
Definition node_pruned : StoreState := with_generation 4
  (with_records (st_records node_state2 ∖ expired_keys node_state2 200) node_state2).

Definition node_vote (expires_at : Z) : StoredOrderVote :=
  mk_stored_vote (vote_digest fix_market 1 (dig 21) zero_digest expires_at) expires_at.

Definition node_voted : StoreState :=
  with_generation 2 (with_votes (<[1 := node_vote 20]> (st_ordering_votes node_state0)) node_state0).

Definition node_revoted : StoreState :=
  with_generation 3 (with_votes (<[1 := node_vote 50]> (st_ordering_votes node_voted)) node_voted).

Definition node_table : list StoreState :=
  [node_state0; node_state1; node_state2; node_pruned; node_voted; node_revoted;
   semantic node_voted; semantic node_revoted].

#[local] Instance node_json : StoreJson := table_json node_table.

Lemma node_core0 : store_core 0 node_policy node_state0.
Proof.
  apply (ingest_core 0 node_policy (empty_state 0 node_policy) node_record 1 (Some (dig 22)));
    [apply empty_core|done|done|done|done|by intros ? [= <-]].
Qed.

Lemma node_receipt_complete : incomplete_receipt 0 node_receipt = false.
Proof. by vm_compute. Qed.

Lemma node_encodes i st : node_table !! i = Some st → ∃ e, encode_store st = Ok e.
Proof.
  intros Hi. apply (table_encodes node_table st); [by eapply list_elem_of_lookup_2|].
  unfold node_table. cbn [length]. lia.
Qed.

Lemma node_core1 : store_core 0 node_policy node_state1.
Proof.
  apply (completed_core 0 node_policy node_state0 node_receipt 2);
    [apply node_core0|simpl; lia|apply node_receipt_complete|done].
Qed.

Lemma node_signed_ok :
  private_state_sign 0 node_receipt node_finality 3 (dig 43) node_signer = Some node_signed.
Proof.
  unfold node_signed. destruct (private_state_sign _ _ _ _ _ _) eqn:E; [done|]. exfalso.
  by vm_compute in E.
Qed.

Lemma node_core2 : store_core 0 node_policy node_state2.
Proof.
  refine (finalize_core 0 node_policy node_state1 node_plan node_receipt node_finality false (dig 43)
    node_signer node_signed 3 node_core1 _ _ eq_refl _ eq_refl _ _ _ node_signed_ok _ _).
  - by apply Z.leb_le.
  - by vm_compute.
  - exact (lookup_insert_eq _ _ _).
  - by vm_compute.
  - done.
  - done.
  - simpl. lia.
  - by vm_compute.
Qed.

Definition node_store (st : StoreState) (e : bytes) : NodeShareStore := {|
  ns_key := node_key; ns_state := st; ns_private_state_root := false;
  ns_reservation_trust := None; ns_disk := Some e |}.

Definition node_marker : MarkerFile := mk_marker false true 384 node_policy.

Lemma node_reads st e :
  encode_store st = Ok e → store_core 0 node_policy st → heads_kept st →
  read_state e 0 node_policy = Ok st.
Proof.
  intros He Hc Hk. pose proof (encode_reads _ _ _ _ He Hc) as Hr.
  unfold reads in Hr. rewrite decide_True in Hr; done.
Qed.

Lemma node_opened st e :
  encode_store st = Ok e → store_core 0 node_policy st → heads_kept st →
  opened 0 node_policy (node_store st e).
Proof. intros He Hc Hk. exists e. split; [done|]. by apply node_reads. Qed.

Lemma node_restart s st e :
  ns_disk s = Some e → ns_key s = node_key → st_party (ns_state s) = 0 →
  encode_store st = Ok e → store_core 0 node_policy st → heads_kept st →
  exec (OpRestart (Some node_marker) (Some node_policy) Durable) s = Some (node_store st e).
Proof.
  intros Hd Hkey Hp He Hc Hk. pose proof (node_reads st e He Hc Hk) as Hr.
  simpl. unfold open_policy_bound. rewrite Hd, Hp, Hkey.
  replace (_ ≫= _) with (Ok node_policy : result NodeError bytes) by done. cbv iota zeta.
  rewrite Hr. done.
Qed.

Lemma node_kept0 : heads_kept node_state0.
Proof. done. Qed.
Lemma node_kept1 : heads_kept node_state1.
Proof. done. Qed.

Lemma node_kept2 : heads_kept node_state2.
Proof.
  intros k h Hk. assert (st_private_heads node_state2
    = <[dig 21 := new_head node_plan node_receipt node_finality MAX_MATCH_SLOTS]> ∅) as E by done.
  rewrite E in Hk. apply lookup_insert_Some in Hk as [[<- _]|[_ Hk]]; [|done].
  by exists node_record.
Qed.

(** A round completed with a failed acknowledgement, then a restart. *)
Definition node_ops : list StoreOp :=
  [OpCompleted node_receipt FailedAfter; OpRestart (Some node_marker) (Some node_policy) Durable].

(** The operations take a state whose round is new to the state with the round. *)
Lemma node_run P st e0 e1 :
  (∀ op s, op ∈ node_ops → P op s) → encode_store (with_round node_receipt st) = Ok e1 →
  st_party st = 0 → st_completed_rounds st = ∅ → st_generation st = 1 →
  store_core 0 node_policy st → heads_kept (with_round node_receipt st) →
  run P (node_store st e0) node_ops (node_store (with_round node_receipt st) e1).
Proof.
  intros HP E1 Hp Hn Hg Hc Hk. unfold node_ops.
  eapply run_cons; [apply HP; set_solver| |eapply run_cons; [apply HP; set_solver| |apply run_nil]].
  - apply (proj2 (completed_exec (node_store st e0) node_receipt e1
      ltac:(simpl; rewrite Hp; exact node_receipt_complete) ltac:(simpl; by rewrite Hn)
      ltac:(simpl; rewrite Hg; done) E1)).
  - apply (node_restart _ (with_round node_receipt st) e1); [done..| |done].
    apply completed_core; [done|lia|rewrite Hp; exact node_receipt_complete|by rewrite Hn].
Qed.

Lemma node_run0 P : (∀ op s, op ∈ node_ops → P op s) → ∃ e0 e1,
  opened 0 node_policy (node_store node_state0 e0) ∧
  run P (node_store node_state0 e0) node_ops (node_store node_state1 e1).
Proof.
  intros HP. destruct (node_encodes 0 node_state0 eq_refl) as [e0 E0].
  destruct (node_encodes 1 node_state1 eq_refl) as [e1 E1]. exists e0, e1. split.
  - apply (node_opened _ _ E0 node_core0). done.
  - apply (node_run P node_state0 e0 e1 HP E1); [done..|apply node_core0|done].
Qed.

Lemma store_reopens_witness : ∃ s0 s e st,
  opened 0 node_policy s0 ∧ run fair s0 node_ops s ∧ ns_disk s = Some e ∧
  read_state e 0 node_policy = if decide (heads_kept st) then Ok st else Err misbound.
Proof.
  destruct (node_run0 fair) as (e0 & e1 & Ho & Hr).
  { intros op s Hop. unfold node_ops in Hop. rewrite !elem_of_cons in Hop.
    by destruct Hop as [->|[->|[]%elem_of_nil]]. }
  destruct (store_reopens 0 node_policy _ _ _ Ho Hr) as (e & st & Hd & _ & Hread).
  eexists _, _, e, st. split; [exact Ho|]. split; [exact Hr|]. split; [exact Hd|exact Hread].
Defined.


(** The round is completed and saved. *)
Lemma store_refines_witness : ∃ s',
  outcome False (OpCompleted node_receipt Durable) (node_store node_state0 []) (s', Ok ())
  ∧ effect (OpCompleted node_receipt Durable) (ns_state s').
Proof.
  destruct (node_encodes 1 node_state1 eq_refl) as [e1 E1].
  pose proof (proj1 (completed_exec (node_store node_state0 []) node_receipt e1
    node_receipt_complete eq_refl ltac:(done) E1)) as Hx.
  pose proof (completed_answer (node_store node_state0 []) node_receipt e1
    node_receipt_complete eq_refl ltac:(done) E1) as Ha.
  destruct (store_refines (OpCompleted node_receipt Durable) (node_store node_state0 []) _
    eq_refl Hx) as [Ho He].
  eexists. split; [|exact (He Ha)]. rewrite Ha in Ho. exact Ho.
Defined.

Lemma prune_strands_heads_witness : ∃ s' n e',
  prune_expired 200 Durable (node_store node_state2 []) = (s', Ok n) ∧ (0 < n)%nat ∧
  ns_disk s' = Some e' ∧ read_state e' 0 node_policy = Err misbound.
Proof.
  destruct (node_encodes 2 node_state2 eq_refl) as [e2 E2].
  destruct (node_encodes 3 node_pruned eq_refl) as [e3 E3].
  pose proof (node_reads _ _ E2 node_core2 node_kept2) as Hr.
  destruct (prune_strands_heads 0 node_policy (node_store node_state2 []) e2 200 (dig 21) node_record
    (new_head node_plan node_receipt node_finality MAX_MATCH_SLOTS) e3 Hr eq_refl ltac:(done)
    eq_refl eq_refl ltac:(done) E3) as (s' & n & Hp & Hn & Hd & Hread).
  exists s', n, e3. exact (conj Hp (conj Hn (conj Hd Hread))).
Defined.

Lemma node_core_voted : store_core 0 node_policy node_voted.
Proof.
  apply (vote_core 0 node_policy node_state0 1 (node_vote 20) 2);
    [apply node_core0|simpl; lia|done|by vm_compute|done].
Qed.

Lemma node_admission st t :
  st_records st = st_records node_state0 → st_lifecycle st = ∅ →
  ordering_admission st (dig 21) t = Ok (fix_market, 100).
Proof.
  intros Hr Hl. unfold ordering_admission, lifecycle_blocks. rewrite Hr, Hl.
  change (st_records node_state0 !! dig 21) with (Some node_record). done.
Qed.

Lemma node_vote_expired v :
  st_ordering_votes node_voted !! 1 = Some v →
  sv_statement_digest v ≠ vote_digest fix_market 1 (dig 21) zero_digest 50 ∧ sv_expires_at v < 30.
Proof.
  assert (st_ordering_votes node_voted !! 1 = Some (node_vote 20)) as E by apply lookup_insert_eq.
  intros Hv. rewrite E in Hv. apply (inj Some) in Hv as <-. split; [by vm_compute|done].
Qed.
