(* ===== verification/WitnessRpc.v ===== *)
(** * The node's network and the client on concrete data

    A cluster of seven nodes with test keys: records, roles, votes with silent
    and failing nodes, key release and delivery of a whole order, and the
    theorems on the protocol applied to them. *)

From S2P Require Import Prelude BTree Bytes AppCrypto Orders Toy Matching Circuit MpcRunner Book.
From S2P Require Import Ordering Reservations Edge EdgeCreate EdgeField EdgeShares EdgeSeal EdgeLife.
From S2P Require Import EdgeTotal EdgeDecimal ToyEdge NodeReceipts NodeState NodeStore NodeSteps.
From S2P Require Import NodeCore NodeInv NodeLife NodeAdmit NodeRpc RpcLife EdgeClient ClientLife.
From S2P Require Import DeliveryLife OrderDelivery ToyStore Fixtures WitnessEdge WitnessNode.
Open Scope string_scope.
Open Scope list_scope.
Open Scope Z_scope.

Lemma record_roundtrip_witness :
  is_ok (encode_record Some 64 REQUEST_MAGIC [Byte.x01; Byte.x02]
    (λ n, replicate (Z.to_nat n) Byte.x00)) = true
  ∧ ∀ record, encode_record Some 64 REQUEST_MAGIC [Byte.x01; Byte.x02]
      (λ n, replicate (Z.to_nat n) Byte.x00) = Ok record →
    decode_record Some REQUEST_MAGIC record = Ok [Byte.x01; Byte.x02].
Proof.
  split; [by vm_compute|]. intros record Hr.
  refine (proj2 (record_roundtrip Some Some 64 REQUEST_MAGIC _ _ record _ _ _ _ Hr)).
  - by intros payload [= <-].
  - intros n Hn. rewrite length_replicate. lia.
  - reflexivity.
  - lia.
Defined.

(** ** One node *)

Definition rpc_env (now : Z) : DispatchEnv := {|
  de_clock := Some now; de_write := Durable; de_second_write := Durable;
  de_files := λ _, Err Conflict; de_executed := λ _ _, None |}.

Definition rpc_peer (role : PeerRole) : Principal := mk_principal (dig 71) role (dig 72).

Definition rpc_signer (i : nat) : SigningKey := fix_key (60 + Z.of_nat i).

Definition rpc_order_keys : btree Z VerifyingKey :=
  map (λ i, (Z.of_nat i + 1, verifying_key (rpc_signer i))) (seq 0 7).

Definition rpc_runtime (i : nat) (s : NodeShareStore) : NodeRuntime := {|
  rt_store := s; rt_receipt_signing_key := rpc_signer i; rt_ordering_policy := seven_node;
  rt_ordering_keys := rpc_order_keys; rt_has_executor := false |}.

(** A vote that the store records is answered with its signature. *)
Lemma vote_dispatched `{!StoreJson} now i market q c prev expires_at s s' statement x :
  record_order_vote market q c prev expires_at now Durable s = (s', Ok statement) →
  status s' = Ok x → ss_status_party x + 1 ≤ u16_max →
  ∃ v, dispatch (rpc_env now) (rpc_peer Coordinator) (RqVote market q c prev expires_at)
      (rpc_runtime i s) = (rpc_runtime i s', Voted v)
    ∧ v_statement_digest v = statement.
Proof.
  intros Hv Hs Hp. destruct (try_sign_total (rpc_signer i) (d_bytes statement)) as [sg Hsg].
  eexists. split.
  - unfold dispatch, dispatch_checked. cbn [de_clock rpc_env ok_or]. rewrite try_bind.
    unfold dispatch_vote. rewrite self_bind. unfold require_role. cbn [pp_role rpc_peer].
    rewrite try_bind, method_bind. unfold on_store. cbn [rt_store rpc_runtime de_write rpc_env].
    rewrite Hv. cbn [map_err]. rewrite method_bind. cbn [rt_store with_store rpc_runtime].
    rewrite Hs. cbn [map_err]. cbv zeta. rewrite (proj2 (Z.ltb_ge _ _)) by lia. simpl fail_if.
    rewrite try_bind. cbn [rt_receipt_signing_key rpc_runtime]. rewrite Hsg. cbn [map_err].
    rewrite try_bind. reflexivity.
  - reflexivity.
Qed.

#[local] Instance rpc_node_json : StoreJson := table_json node_table.

Lemma roles_separated_witness :
  dispatch (rpc_env 10) (rpc_peer Participant) RqStatus (rpc_runtime 0 (node_store node_state0 []))
  = (rpc_runtime 0 (node_store node_state0 []), Rejected "unauthorized").
Proof.
  exact (roles_separated (rpc_env 10) (rpc_peer Participant) RqStatus _ 10 eq_refl eq_refl).
Defined.

(** The status of a state whose stripped form the table can write. *)
Lemma semantic_status `{J : !StoreJson} l st s :
  J = table_json l → (length l ≤ 100)%nat → semantic st ∈ l → ns_state s = st →
  ∃ x, status s = Ok x ∧ ss_status_party x = st_party st.
Proof.
  intros -> Hl Hin <-. destruct (table_encodes l (semantic (ns_state s)) Hin Hl) as [e' He].
  unfold encode_store in He. apply bind_Ok in He as (payload & Hp%ok_or_Ok & _).
  eexists. split.
  - unfold status, state_digest. rewrite Hp. reflexivity.
  - reflexivity.
Qed.

Lemma node_never_equivocates_witness : ∃ r0 r1 r2 v1 v2,
  opened 0 node_policy (rt_store r0) ∧
  dispatch (rpc_env 10) (rpc_peer Coordinator) (RqVote fix_market 1 (dig 21) zero_digest 20) r0
    = (r1, Voted v1) ∧
  dispatch (rpc_env 30) (rpc_peer Coordinator) (RqVote fix_market 1 (dig 21) zero_digest 50) r1
    = (r2, Voted v2) ∧
  ∃ v, st_ordering_votes (ns_state (rt_store r1)) !! 1 = Some v
    ∧ sv_statement_digest v = v_statement_digest v1
    ∧ (v_statement_digest v2 = v_statement_digest v1 ∨ sv_expires_at v < 30).
Proof.
  destruct (node_encodes 0 node_state0 eq_refl) as [e0 E0].
  destruct (node_encodes 4 node_voted eq_refl) as [e1 E1].
  destruct (node_encodes 5 node_revoted eq_refl) as [e2 E2].
  pose proof (node_opened _ _ E0 node_core0 ltac:(done)) as Ho.
  assert (record_order_vote fix_market 1 (dig 21) zero_digest 20 10 Durable (node_store node_state0 e0)
    = (node_store node_voted e1, Ok (vote_digest fix_market 1 (dig 21) zero_digest 20))) as H1.
  { exact (vote_exec (node_store node_state0 e0) fix_market 1 (dig 21) zero_digest 20 10 100 e1
    eq_refl eq_refl (node_admission _ 10 eq_refl eq_refl) eq_refl eq_refl ltac:(lia) (not_elem_of_empty _)
    ltac:(by intros ? [=]) ltac:(done) E1). }
  assert (record_order_vote fix_market 1 (dig 21) zero_digest 50 30 Durable (node_store node_voted e1)
    = (node_store node_revoted e2, Ok (vote_digest fix_market 1 (dig 21) zero_digest 50))) as H2.
  { exact (vote_exec (node_store node_voted e1) fix_market 1 (dig 21) zero_digest 50 30 100 e2
    eq_refl eq_refl (node_admission _ 30 eq_refl eq_refl) eq_refl eq_refl ltac:(lia) (not_elem_of_empty _)
    node_vote_expired ltac:(done) E2). }
  destruct (semantic_status node_table node_voted (node_store node_voted e1) eq_refl) as (x1 & S1 & P1);
    [unfold node_table; cbn [length]; lia|by apply (list_elem_of_lookup_2 _ 6)|done|].
  destruct (semantic_status node_table node_revoted (node_store node_revoted e2) eq_refl) as (x2 & S2 & P2);
    [unfold node_table; cbn [length]; lia|by apply (list_elem_of_lookup_2 _ 7)|done|].
  destruct (vote_dispatched 10 0 _ _ _ _ _ _ _ _ _ H1 S1) as (v1 & D1 & _); [by rewrite P1|].
  destruct (vote_dispatched 30 0 _ _ _ _ _ _ _ _ _ H2 S2) as (v2 & D2 & _); [by rewrite P2|].
  eexists (rpc_runtime 0 (node_store node_state0 e0)), _, _, v1, v2.
  split; [exact Ho|]. split; [exact D1|]. split; [exact D2|].
  exact (node_never_equivocates 0 node_policy
    (rpc_runtime 0 (node_store node_state0 e0)) _ (rpc_env 10) _ _ _ _ _ _ _ _ _ (rpc_env 30) _ _ _ _ _
    30 _ _ Ho ltac:(lia)
    (node_idle _ _) ltac:(intros t [= <-]; lia) D1 (node_idle _ _) eq_refl D2).
Defined.

(** ** The cluster *)

Definition rpc_key (p : fin MPC_PARTIES) : NodeDecryptionKey :=
  mk_decryption_key (replicate 1216 (byte_of (Z.of_nat (fin_to_nat p) + 1))).

Definition rpc_keys : vec NodeEncryptionKey MPC_PARTIES :=
  fun_to_vec (λ p, node_public_key (rpc_key p)).

Definition rpc_public (i : nat) : ClusterNodePublic := {|
  cn_party := Z.of_nat i; cn_host := [Byte.x41]; cn_rpc_port := 7001; cn_proof_port := 7002;
  cn_server_name := [Byte.x41]; cn_tls_certificate_sha256 := dig 73;
  cn_share_encryption_key := mk_encryption_key (replicate 1216 (byte_of (Z.of_nat i + 1)));
  cn_receipt_verifying_key := vk_fingerprint (verifying_key (rpc_signer i)) |}.

Definition rpc_cluster : ClusterPublicConfig := {|
  cl_version := 6; cl_deployment_crypto_policy := Some node_policy; cl_market_id := fix_market;
  cl_program := [Byte.x50]; cl_settlement_release_threshold := 3;
  cl_nodes := map rpc_public (seq 0 7) |}.

Lemma rpc_cluster_valid : cluster_validate rpc_cluster = Ok ().
Proof. by vm_compute. Qed.

Lemma rpc_node_at i n : cl_nodes rpc_cluster !! i = Some n → n = rpc_public i ∧ (i < 7)%nat.
Proof.
  cbn [cl_nodes rpc_cluster]. intros Hn. apply list_lookup_fmap_Some in Hn as (j & -> & Hj).
  apply lookup_seq in Hj as [-> Hj]. done.
Qed.

Lemma rpc_keys_at p : rpc_keys !!! p = node_public_key (rpc_key p).
Proof. unfold rpc_keys. by rewrite lookup_fun_to_vec. Qed.

(** The nodes before and after their vote for the order. *)
Definition vote_state (i : nat) : StoreState :=
  with_records (<[dig 21 := node_record]> ∅) (empty_state (Z.of_nat i) node_policy).

Definition voted_state (i : nat) : StoreState :=
  with_generation (st_generation (vote_state i) + 1)
    (with_votes (<[1 := node_vote 20]> (st_ordering_votes (vote_state i))) (vote_state i)).

Definition vote_table : list StoreState :=
  flat_map (λ i, [voted_state i; semantic (voted_state i)]) (seq 0 7).

#[local] Instance vote_json : StoreJson := table_json vote_table.

Lemma vote_table_elem i : (i < 7)%nat → voted_state i ∈ vote_table ∧ semantic (voted_state i) ∈ vote_table.
Proof.
  intros Hi. unfold vote_table.
  split; apply list_elem_of_In, in_flat_map; exists i; (split; [apply in_seq; lia|]); simpl; auto.
Qed.

Lemma node_votes (i : nat) : (i < 7)%nat → ∃ s' v,
  dispatch (rpc_env 10) (rpc_peer Coordinator)
    (RqVote fix_market 1 (dig 21) zero_digest 20) (rpc_runtime i (node_store (vote_state i) []))
  = (rpc_runtime i s', Voted v).
Proof.
  intros Hi. destruct (vote_table_elem i Hi) as [H1 H2].
  destruct (table_encodes vote_table _ H1) as [e1 E1]; [simpl; lia|].
  assert (record_order_vote fix_market 1 (dig 21) zero_digest 20 10 Durable
      (node_store (vote_state i) [])
    = (node_store (voted_state i) e1, Ok (vote_digest fix_market 1 (dig 21) zero_digest 20))) as Hv.
  { exact (vote_exec (node_store (vote_state i) []) fix_market 1 (dig 21) zero_digest 20 10 100 e1
      eq_refl eq_refl eq_refl eq_refl eq_refl ltac:(lia) (not_elem_of_empty _)
      ltac:(by intros ? [=]) ltac:(done) E1). }
  destruct (semantic_status vote_table (voted_state i) (node_store (voted_state i) e1) eq_refl)
    as (x & Hx & Hp); [simpl; lia|done|done|].
  destruct (vote_dispatched 10 i _ _ _ _ _ _ _ _ _ Hv Hx) as (v & Hd & _); [|by eauto].
  rewrite Hp. simpl. unfold u16_max. lia.
Qed.

Lemma rpc_nodes i : (i < 7)%nat → cl_nodes rpc_cluster !! i = Some (rpc_public i).
Proof. intros Hi. cbn [cl_nodes rpc_cluster]. by rewrite list_lookup_fmap, lookup_seq_lt. Qed.

(** A node that voted, as the client meets it. *)
Lemma rpc_voter i r' v (answers : list (option Answer)) :
  (i < 7)%nat →
  dispatch (rpc_env 10) (rpc_peer Coordinator) (RqVote fix_market 1 (dig 21) zero_digest 20)
    (rpc_runtime i (node_store (vote_state i) [])) = (r', Voted v) →
  answers !! i = Some (Some (Ok (Voted v))) →
  ∃ n env p r r' v, cl_nodes rpc_cluster !! i = Some n
    ∧ st_party (ns_state (rt_store r)) = cn_party n
    ∧ vk_fingerprint (verifying_key (rt_receipt_signing_key r)) = cn_receipt_verifying_key n
    ∧ dispatch env p (RqVote (cl_market_id rpc_cluster) 1 (dig 21) zero_digest 20) r = (r', Voted v)
    ∧ answers !! i = Some (Some (Ok (Voted v))).
Proof.
  intros Hi Hd Ha. exists (rpc_public i), (rpc_env 10), (rpc_peer Coordinator).
  exists (rpc_runtime i (node_store (vote_state i) [])), r', v.
  split_and!; [by apply rpc_nodes|done|done|done|done].
Qed.

(** Five nodes vote, one thread panics and one connection fails. *)
Lemma certificate_survives_faults_witness : ∃ answers o,
  answers !! 5%nat = Some None ∧ answers !! 6%nat = Some (Some (Err NTlsHandshake))
  ∧ collect_order_certificate rpc_cluster None (dig 21) 20 SECOND (Some 10) answers = Ok o
  ∧ oc_commitment o = dig 21 ∧ (5 ≤ length (oc_votes o))%nat.
Proof.
  destruct (node_votes 0 ltac:(lia)) as (s0 & v0 & D0), (node_votes 1 ltac:(lia)) as (s1 & v1 & D1),
    (node_votes 2 ltac:(lia)) as (s2 & v2 & D2), (node_votes 3 ltac:(lia)) as (s3 & v3 & D3),
    (node_votes 4 ltac:(lia)) as (s4 & v4 & D4).
  pose (answers := [Some (Ok (Voted v0)); Some (Ok (Voted v1)); Some (Ok (Voted v2));
    Some (Ok (Voted v3)); Some (Ok (Voted v4)); None; Some (Err NTlsHandshake)] : list (option Answer)).
  destruct (certificate_survives_faults rpc_cluster None (dig 21) 20 SECOND (Some 10) 10 1 zero_digest
    answers [0; 1; 2; 3; 4]%nat) as (o & Ho & Hc & _ & _ & Hv).
  - unfold certificate_slot. rewrite rpc_cluster_valid. reflexivity.
  - reflexivity.
  - unfold SECOND. lia.
  - apply (bool_decide_unpack _). reflexivity.
  - simpl. lia.
  - intros i Hi. rewrite !elem_of_cons, elem_of_nil in Hi.
    destruct Hi as [->|[->|[->|[->|[->|[]]]]]].
    + exact (rpc_voter 0 _ v0 answers ltac:(lia) D0 eq_refl).
    + exact (rpc_voter 1 _ v1 answers ltac:(lia) D1 eq_refl).
    + exact (rpc_voter 2 _ v2 answers ltac:(lia) D2 eq_refl).
    + exact (rpc_voter 3 _ v3 answers ltac:(lia) D3 eq_refl).
    + exact (rpc_voter 4 _ v4 answers ltac:(lia) D4 eq_refl).
  - exists answers, o. split; [reflexivity|]. split; [reflexivity|]. split; [exact Ho|].
    split; [exact Hc|exact Hv].
Defined.

(** ** An executed round *)

Definition sg (k : SigningKey) (m : bytes) : bytes :=
  sig_bytes (ok_else (mk_signature []) (try_sign k m)).

Lemma sg_ok k m : signature_ok (verifying_key k) m (sg k m) = true.
Proof.
  unfold sg. destruct (try_sign_total k m) as [s Hs]. rewrite Hs. by apply signature_ok_signed.
Qed.

Lemma signature_checked k m s :
  signature_ok k m s = true → ∃ sg', sig_try_from s = Ok sg' ∧ verify_strict k m sg' = Ok ().
Proof.
  unfold signature_ok. destruct (sig_try_from s) as [sg'|]; [|done]. intros Hv. exists sg'.
  split; [done|]. by destruct (verify_strict k m sg') as [[]|].
Qed.

Lemma rpc_order_keys_ok : ordering_verifying_keys rpc_cluster = Ok rpc_order_keys.
Proof. by vm_compute. Qed.

Definition rpc_certificate (c : OrderCommitment) : OrderCertificate := {|
  oc_market_id := fix_market; oc_sequence := 1; oc_commitment := c;
  oc_previous_certificate := zero_digest; oc_expires_at := 100;
  oc_votes := map (λ i,
    let statement := vote_digest fix_market 1 c zero_digest 100 in
    mk_vote (Z.of_nat i + 1) statement (sg (rpc_signer i) (d_bytes statement))) (seq 0 5) |}.

Lemma rpc_certificate_ok c :
  is_zero c = false → certificate_verify (rpc_certificate c) seven_node rpc_order_keys 15 = Ok ().
Proof.
  intros Hc. apply certificate_verify_Ok. split_and!.
  - reflexivity.
  - unfold bad_statement. cbn [oc_commitment rpc_certificate]. by rewrite Hc.
  - simpl. lia.
  - apply (bool_decide_unpack _). reflexivity.
  - unfold rpc_certificate. cbn [oc_votes]. apply Forall_map. apply Forall_forall.
    intros i Hi%elem_of_seq. split; [reflexivity|]. exists (verifying_key (rpc_signer i)).
    split; [|apply sg_ok].
    assert (i = 0 ∨ i = 1 ∨ i = 2 ∨ i = 3 ∨ i = 4)%nat as Hcase by lia.
    repeat destruct Hcase as [->|Hcase]; try reflexivity. by subst.
Qed.

Definition plan_with (c : OrderCommitment) (round : Digest32) (signature : bytes) : RoundPlan := {|
  rp_version := VERSION; rp_market_id := fix_market; rp_sequence := 1;
  rp_ordering_certificate := rpc_certificate c; rp_resting := []; rp_arriving := c;
  rp_issued_at := 10; rp_expires_at := 20;
  rp_coordinator := vk_fingerprint (verifying_key (fix_key 70));
  rp_round_id := round; rp_signature := signature |}.

Definition rpc_round (c : OrderCommitment) : Digest32 := derived_round_id (plan_with c zero_digest []).

Definition rpc_plan (c : OrderCommitment) : RoundPlan :=
  plan_with c (rpc_round c) (sg (fix_key 70) (ROUND_PLAN_DOMAIN ++ d_bytes (rpc_round c))).

Lemma plan_with_round c r1 s1 r2 s2 :
  derived_round_id (plan_with c r1 s1) = derived_round_id (plan_with c r2 s2).
Proof. reflexivity. Qed.

Lemma plan_with_ok c round signature :
  is_zero c = false → round = derived_round_id (plan_with c round signature) →
  signature_ok (verifying_key (fix_key 70)) (ROUND_PLAN_DOMAIN ++ d_bytes round) signature = true →
  plan_verify_ordering (plan_with c round signature) seven_node rpc_order_keys 15 = Ok ().
Proof.
  intros Hc Hr Hs. unfold plan_verify_ordering, plan_verify.
  destruct (signature_checked _ _ _ Hs) as (sg' & Ht & Hv).
  cbn [plan_with rp_version rp_market_id rp_sequence rp_ordering_certificate rp_resting rp_arriving
    rp_issued_at rp_expires_at rp_coordinator rp_round_id rp_signature].
  assert (bool_decide (round = derived_round_id (plan_with c round signature)) = true) as ->
    by (apply bool_decide_eq_true_2; exact Hr).
  assert (bool_decide (oc_commitment (rpc_certificate c) = c) = true) as ->
    by (by apply bool_decide_eq_true_2).
  rewrite Hc.
  rewrite pass_guard by (by vm_compute). rewrite pass_guard by done.
  assert (vk_from_bytes (vk_fingerprint (verifying_key (fix_key 70))) = Ok (verifying_key (fix_key 70)))
    as -> by (by vm_compute).
  cbn [map_err]. rewrite Ok_bind, Ht. cbn [map_err]. rewrite Ok_bind.
  unfold plan_signature_body. cbn [plan_with rp_round_id]. rewrite Hv. cbn [map_err].
  by rewrite Ok_bind, (rpc_certificate_ok c Hc).
Qed.

Lemma rpc_plan_ok c :
  is_zero c = false → plan_verify_ordering (rpc_plan c) seven_node rpc_order_keys 15 = Ok ().
Proof. intros Hc. apply plan_with_ok; [done|apply plan_with_round|apply sg_ok]. Qed.

Definition receipt_with (round : Digest32) (i : nat) (signature : bytes) : NodeExecutionReceipt := {|
  ne_version := VERSION; ne_party := Z.of_nat i; ne_round_id := round;
  ne_generation := 1; ne_round_commitment := dig 32; ne_program_sha256 := dig 33;
  ne_artifact_sha256 := dig 34; ne_private_parent_digest := dig 35;
  ne_private_state_sha256 := dig 36; ne_public_output_sha256 := public_output_digest node_result;
  ne_result := node_result; ne_depth_attestation := None; ne_execution_ms := 3;
  ne_signer := vk_fingerprint (verifying_key (rpc_signer i)); ne_signature := signature |}.

Definition rpc_receipt (c : OrderCommitment) (i : nat) : NodeExecutionReceipt :=
  receipt_with (rpc_round c) i
    (sg (rpc_signer i) (execution_signature_body (receipt_with (rpc_round c) i []))).

Lemma receipt_with_ok round i signature plan :
  (i < 7)%nat → rp_round_id plan = round →
  signature_ok (verifying_key (rpc_signer i)) (execution_signature_body (receipt_with round i signature))
    signature = true →
  execution_verify (receipt_with round i signature) plan (Z.of_nat i) (dig 33)
    (verifying_key (rpc_signer i)) = Ok ().
Proof.
  intros Hi Hr Hs. unfold execution_verify. destruct (signature_checked _ _ _ Hs) as (sg' & Ht & Hv).
  rewrite pass_guard.
  - change (br_public_levels (ne_result (receipt_with round i signature))) with (@None (list MpcPriceLevel)).
    change (ne_depth_attestation (receipt_with round i signature)) with (@None DepthAttestation).
    change (ne_signature (receipt_with round i signature)) with signature. cbv iota.
    rewrite Ok_bind, Ht. cbn [map_err]. by rewrite Ok_bind, Hv.
  - cbn [receipt_with ne_version ne_party ne_round_id ne_program_sha256 ne_private_parent_digest
      ne_private_state_sha256 ne_public_output_sha256 ne_result ne_signer].
    rewrite (proj2 (Z.leb_gt _ _)), Hr, !Z.eqb_refl, !bool_decide_eq_true_2
      by (done || unfold MPC_PARTIES; lia).
    by vm_compute.
Qed.

Lemma rpc_receipt_ok c i :
  (i < 7)%nat →
  execution_verify (rpc_receipt c i) (rpc_plan c) (Z.of_nat i) (dig 33) (verifying_key (rpc_signer i))
  = Ok ().
Proof. intros Hi. by apply receipt_with_ok; [| |apply sg_ok]. Qed.

(** ** A participant's order at the nodes *)

Lemma rpc_inputs : edge_inputs sell1 None None (dig 3) edge_cap edge_signer rpc_keys rpc_key.
Proof.
  destruct toy_inputs as [Ho Hsrc Hel Hcap Hsg Happ _ Hh Hadm]. split;
    [exact Ho|exact Hsrc|exact Hel|exact Hcap|exact Hsg|exact Happ| |exact Hh|exact Hadm].
  intros p. rewrite rpc_keys_at. split; [done|]. intros E%(f_equal length). by vm_compute in E.
Qed.

Definition made (b : EdgeOrderBundle) : Prop :=
  ∃ r', create_inner 2 sell1 None None (dig 3) edge_cap edge_signer rpc_keys (rng 5) = (r', Ok b).

Lemma rpc_bundle : ∃ b, made b.
Proof.
  destruct (create_inner_succeeds 2 _ _ _ _ _ _ _ _ (rng 5) rpc_inputs ltac:(lia) toy_draw) as (r' & b & E).
  by exists b, r'.
Qed.

Lemma toy_nonzero b : is_zero (sha256 b) = false.
Proof. apply bool_decide_eq_false. apply toy_sha256_nonzero. Qed.

Lemma made_commitment b : made b → is_zero (m_commitment (eb_manifest b)) = false.
Proof.
  intros [r' E]. destruct (bundle_opens _ _ _ _ _ _ _ _ _ _ _ rpc_key 15 E rpc_keys_at) as (Hm & _);
    [simpl; lia|].
  unfold manifest_verify in Hm. apply bind_Ok in Hm as (? & Hg%fail_if_Ok & _). bool_hyps.
  match goal with Hc : m_commitment _ = derived_commitment _ |- _ => rewrite Hc end.
  apply toy_nonzero.
Qed.

(** A node that completed the round of the order. *)
Definition round_state (b : EdgeOrderBundle) (p : fin MPC_PARTIES) : StoreState :=
  with_round (rpc_receipt (m_commitment (eb_manifest b)) (fin_to_nat p))
    (admitted None (empty_state (index p) node_policy) (bundle_record b p 5)).

Definition round_store (b : EdgeOrderBundle) (p : fin MPC_PARTIES) : NodeShareStore := {|
  ns_key := rpc_key p; ns_state := round_state b p; ns_private_state_root := false;
  ns_reservation_trust := None; ns_disk := None |}.

Lemma key_share_released b p :
  made b → ∃ share,
  release_capability_key_share (round_store b p) (rpc_plan (m_commitment (eb_manifest b)))
    (m_commitment (eb_manifest b)) 15 = Ok (share, public_output_digest node_result)
  ∧ ck_party share = index p ∧ ck_order_commitment share = m_commitment (eb_manifest b).
Proof.
  intros Hb. pose proof (made_commitment b Hb) as Hz. destruct Hb as [r' E].
  pose proof (create_unreserved _ _ _ _ _ _ _ _ _ _ E) as Hun.
  destruct (bundle_opens _ _ _ _ _ _ _ _ _ _ _ rpc_key 15 E rpc_keys_at)
    as (_ & flds & kp & _ & _ & _ & Hop); [simpl; lia|].
  destruct (Hop p) as (s & ks & _ & Hk & _ & Hp & _ & Hv). exists ks.
  set (c := m_commitment (eb_manifest b)) in *. split_and!; [|done|].
  - pose proof (rpc_plan_ok c Hz) as Hplan. unfold plan_verify_ordering in Hplan.
    apply bind_Ok in Hplan as ([] & Hplan & _).
    unfold release_capability_key_share. rewrite Hplan. cbn [map_err]. rewrite Ok_bind.
    assert (completed_round (ns_state (round_store b p)) (rp_round_id (rpc_plan c))
      = Some (rpc_receipt c (fin_to_nat p))) as -> by apply lookup_insert_eq.
    cbn [ok_or]. rewrite Ok_bind.
    assert (release_authorized (rpc_plan c) (rpc_receipt c (fin_to_nat p)) c = true) as ->.
    { unfold release_authorized. by rewrite bool_decide_eq_true_2. }
    rewrite pass_guard by done.
    assert (st_records (ns_state (round_store b p)) !! c = Some (bundle_record b p 5)) as ->
      by apply lookup_insert_eq.
    cbn [ok_or]. rewrite Ok_bind. cbn [sr_manifest bundle_record]. rewrite Hun, Ok_bind.
    cbn [sr_sealed_capability_key_share bundle_record ok_or]. rewrite Ok_bind.
    cbn [ns_key round_store]. change (st_party (ns_state (round_store b p))) with (index p).
    rewrite Hk. reflexivity.
  - unfold key_share_verify in Hv. apply bind_Ok in Hv as (? & _ & Hv).
    apply bind_Ok in Hv as (? & Hv%fail_if_Ok & _). by bool_hyps.
Qed.

Lemma node_releases `{J : !StoreJson} b p l :
  made b → J = table_json l → (length l ≤ 100)%nat → semantic (round_state b p) ∈ l →
  let c := m_commitment (eb_manifest b) in
  let rt := rpc_runtime (fin_to_nat p) (round_store b p) in
  ∃ release, dispatch (rpc_env 15) (rpc_peer SettlementPeer) (RqRelease (rpc_plan c) c) rt
    = (rt, Released release)
  ∧ cr_public_output_sha256 release = public_output_digest node_result.
Proof.
  intros Hb HJ Hl Hin c rt. destruct (key_share_released b p Hb) as (share & Hr & Hp & Ho).
  destruct (semantic_status l (round_state b p) (round_store b p) HJ Hl Hin eq_refl) as (x & Hx & Hpx).
  assert (∃ release, release_sign (ss_status_party x) c (rpc_plan c)
    (public_output_digest node_result) share (rpc_signer (fin_to_nat p)) = Ok release
    ∧ cr_public_output_sha256 release = public_output_digest node_result) as (release & Hs & Hout).
  { rewrite Hpx. change (st_party (round_state b p)) with (index p).
    assert (fin_to_nat p < 7)%nat as H7 by apply fin_to_nat_lt.
    unfold release_sign, sign_context. rewrite Hp, Z.eqb_refl, bool_decide_eq_true_2 by done.
    assert ((Z.of_nat MPC_PARTIES <=? index p) = false) as ->
      by (apply Z.leb_gt; change (Z.of_nat MPC_PARTIES) with 7; lia).
    rewrite pass_guard by apply toy_nonzero.
    match goal with |- context [try_sign ?k ?m] => destruct (try_sign_total k m) as [sg' ->] end.
    eexists. split; [reflexivity|done]. }
  exists release. split; [|done]. unfold dispatch, dispatch_checked.
  cbn [de_clock rpc_env ok_or]. rewrite try_bind. unfold dispatch_release. rewrite self_bind.
  unfold require_role. cbn [pp_role rpc_peer]. rewrite try_bind. unfold ordering_checked.
  cbn [rt rt_ordering_policy rt_ordering_keys rpc_runtime].
  rewrite (rpc_plan_ok c (made_commitment b Hb)). cbn [map_err]. rewrite try_bind, method_bind.
  unfold on_store. cbn [rt_store rpc_runtime rt]. rewrite Hx. cbn [map_err]. rewrite method_bind.
  cbn [rt_store with_store rpc_runtime rt]. unfold c in Hs |- *. rewrite Hr. cbn [map_err].
  cbn [rt_receipt_signing_key rpc_runtime rt]. rewrite Hs, try_bind. reflexivity.
Qed.

Lemma key_release_guarded_witness : ∃ (J : StoreJson) p request r r' release,
  dispatch (rpc_env 15) p request r = (r', Released release) ∧ pp_role p = SettlementPeer.
Proof.
  destruct rpc_bundle as [b Hb]. pose (l := [semantic (round_state b 0%fin)]).
  destruct (node_releases (J := table_json l) b 0%fin l Hb eq_refl) as (release & Hd & _);
    [simpl; lia|left|].
  eexists (table_json l), _, _, _, _, release. split; [exact Hd|].
  exact (proj1 (key_release_guarded (H3 := table_json l) _ _ _ _ _ _ Hd)).
Defined.

Definition rpc_execution (c : OrderCommitment) : AgreedRoundExecution := {|
  ag_receipts := map (rpc_receipt c) (seq 0 7); ag_result := node_result |}.

Lemma same_with round i s1 j s2 :
  same_execution node_result (receipt_with round i s1) (receipt_with round j s2) = true.
Proof.
  unfold same_execution. cbn [receipt_with ne_result ne_public_output_sha256 ne_program_sha256
    ne_artifact_sha256]. by rewrite !bool_decide_eq_true_2.
Qed.

Lemma rpc_release_checks `{!StoreJson} b :
  made b →
  let c := m_commitment (eb_manifest b) in
  release_checks rpc_cluster (rpc_plan c) (dig 33) (rpc_execution c) (eb_manifest b) c SECOND (Some 15)
  = Ok (15, public_output_digest node_result).
Proof.
  intros Hb c. pose proof (made_commitment b Hb) as Hz. destruct Hb as [r' E].
  destruct (bundle_opens _ _ _ _ _ _ _ _ _ _ _ rpc_key 15 E rpc_keys_at) as (Hm & _); [simpl; lia|].
  destruct (bundle_share _ _ _ _ _ _ _ _ _ _ _ rpc_key 15 0%fin E (rpc_keys_at _))
    as (_ & _ & _ & _ & _ & Hmk); [simpl; lia|].
  unfold release_checks. rewrite pass_guard by done. rewrite rpc_cluster_valid. cbn [map_err ok_or].
  rewrite !Ok_bind, Hm. cbn [map_err]. rewrite Ok_bind, rpc_order_keys_ok. cbn [map_err].
  rewrite Ok_bind, (rpc_plan_ok c Hz). cbn [map_err]. rewrite Ok_bind.
  rewrite pass_guard.
  2:{ rewrite !orb_false_iff, !negb_false_iff, !bool_decide_eq_true.
      split_and!; [reflexivity|exact (eq_sym Hmk)|reflexivity|].
      unfold capability_release_permitted. by rewrite bool_decide_eq_true_2. }
  change (head (ag_receipts (rpc_execution c))) with (Some (rpc_receipt c 0)). cbn [ok_or].
  rewrite Ok_bind.
  assert (verify_executions rpc_cluster (rpc_plan c) (dig 33) (ag_receipts (rpc_execution c))
    (same_execution (ag_result (rpc_execution c)) (rpc_receipt c 0)) CSettlementThreshold = Ok ()) as ->.
  2: reflexivity.
  assert (∀ i, (i < 7)%nat →
    vk_from_bytes (cn_receipt_verifying_key (rpc_public i)) = Ok (verifying_key (rpc_signer i))) as Hvk.
  { intros i Hi. destruct (cluster_node rpc_cluster i (rpc_public i) rpc_cluster_valid (rpc_nodes i Hi))
      as (_ & _ & Hk & _). exact Hk. }
  assert (∀ i, same_execution (ag_result (rpc_execution c)) (rpc_receipt c 0) (rpc_receipt c i) = true)
    as Hsame by (intros i; apply same_with).
  unfold verify_executions.
  assert (∀ l f, (∀ x, x ∈ l → f () x = Ok ()) →
    for_each (E := EdgeClientError) (A := nat * (ClusterNodePublic * NodeExecutionReceipt)) f () l
    = Ok ()) as Hall.
  { clear. induction l as [|x l IH]; intros f Hf; [done|]. cbn [for_each].
    rewrite (Hf x), Ok_bind by left. apply IH. intros y Hy. apply Hf. by right. }
  apply Hall. intros [i [n receipt]] Hx. apply list_elem_of_lookup in Hx as [j Hj].
  rewrite list_lookup_imap in Hj. apply fmap_Some in Hj as ([n' receipt'] & Hj & [= -> -> ->]).
  apply lookup_zip_with_Some in Hj as (n1 & r1 & [= -> ->] & Hn & Hr).
  apply rpc_node_at in Hn as [-> Hi]. apply list_lookup_fmap_Some in Hr as (k & -> & Hk).
  apply lookup_seq in Hk as [-> _]. cbn [Nat.add].
  rewrite Hvk by done. cbn [map_err]. rewrite Ok_bind, rpc_receipt_ok by done. cbn [map_err].
  by rewrite Ok_bind, Hsame.
Qed.

(** Three nodes release their share, four do not answer. *)
Lemma key_release_survives_faults_witness : ∃ (J : StoreJson) m plan execution answers t k,
  collect_threshold_capability_release rpc_cluster plan (dig 33) execution m (m_commitment m) SECOND
    (Some 15) answers = Ok t
  ∧ answers !! 3%nat = Some None ∧ answers !! 6%nat = Some None
  ∧ th_key t = mk_capability_key (s_to_bytes k).
Proof.
  destruct rpc_bundle as [b Hb]. set (c := m_commitment (eb_manifest b)).
  pose (l := map (λ p, semantic (round_state b p)) (fin_range MPC_PARTIES)).
  assert (∀ p, semantic (round_state b p) ∈ l) as Hl.
  { intros p. apply list_elem_of_fmap. exists p. split; [reflexivity|apply elem_of_fin_range]. }
  assert (length l ≤ 100)%nat as Hlen by (unfold l; simpl; lia).
  destruct (node_releases (J := table_json l) b 0%fin l Hb eq_refl Hlen (Hl _)) as (k0 & D0 & O0).
  destruct (node_releases (J := table_json l) b 1%fin l Hb eq_refl Hlen (Hl _)) as (k1 & D1 & O1).
  destruct (node_releases (J := table_json l) b 2%fin l Hb eq_refl Hlen (Hl _)) as (k2 & D2 & O2).
  pose (answers := [Some (Ok (Released k0)); Some (Ok (Released k1)); Some (Ok (Released k2));
    None; None; None; None] : list (option Answer)).
  assert (∀ p, serves (rpc_public (fin_to_nat p)) (eb_manifest b)
    (rpc_runtime (fin_to_nat p) (round_store b p))) as Hserves.
  { intros p. split; [reflexivity|]. split; [reflexivity|]. exists (bundle_record b p 5).
    split; [apply lookup_insert_eq|reflexivity]. }
  destruct (key_release_survives_faults (H5 := table_json l) rpc_cluster (rpc_plan c) (dig 33)
    (rpc_execution c) (eb_manifest b) SECOND (Some 15) 15 (public_output_digest node_result) answers
    [0; 1; 2]%nat) as (t & k & Ht & Hk & _).
  - exact (rpc_release_checks b Hb).
  - unfold SECOND. lia.
  - reflexivity.
  - apply (bool_decide_unpack _). reflexivity.
  - simpl. lia.
  - intros i Hi. rewrite !elem_of_cons, elem_of_nil in Hi. destruct Hi as [->|[->|[->|[]]]].
    + exists (rpc_public 0), (rpc_env 15), (rpc_peer SettlementPeer),
        (rpc_runtime 0 (round_store b 0%fin)), (rpc_runtime 0 (round_store b 0%fin)), k0.
      split; [apply rpc_nodes; lia|]. split; [exact (Hserves 0%fin)|].
      split; [exact D0|]. split; [exact O0|reflexivity].
    + exists (rpc_public 1), (rpc_env 15), (rpc_peer SettlementPeer),
        (rpc_runtime 1 (round_store b 1%fin)), (rpc_runtime 1 (round_store b 1%fin)), k1.
      split; [apply rpc_nodes; lia|]. split; [exact (Hserves 1%fin)|].
      split; [exact D1|]. split; [exact O1|reflexivity].
    + exists (rpc_public 2), (rpc_env 15), (rpc_peer SettlementPeer),
        (rpc_runtime 2 (round_store b 2%fin)), (rpc_runtime 2 (round_store b 2%fin)), k2.
      split; [apply rpc_nodes; lia|]. split; [exact (Hserves 2%fin)|].
      split; [exact D2|]. split; [exact O2|reflexivity].
  - exists (table_json l), (eb_manifest b), (rpc_plan c), (rpc_execution c), answers, t, k.
    split; [exact Ht|]. split; [reflexivity|]. split; [reflexivity|exact Hk].
Defined.

(** ** Delivery *)

Lemma rpc_delivery_valid `{!StoreJson} b now :
  made b → now ≤ 2000 → delivery_validate (from_bundle b) rpc_cluster now = Ok ().
Proof.
  intros [r' E] Hnow.
  apply (bundle_delivery_valid _ _ _ _ _ _ _ _ _ _ _ rpc_key now rpc_cluster E rpc_keys_at Hnow
    rpc_cluster_valid eq_refl).
  intros p n Hn. apply rpc_node_at in Hn as [-> _]. by rewrite rpc_keys_at.
Qed.

(** No node answers. *)
Lemma delivery_all_or_nothing_witness : ∃ (J : StoreJson) b,
  is_ok (submit_prepared rpc_cluster SECOND (from_bundle b) (vreplicate MPC_PARTIES None) (Some 1000)
    (Some 1001)) = false.
Proof.
  destruct rpc_bundle as [b Hb]. exists vote_json, b.
  assert (1001 ≤ m_retention_deadline (pd_manifest (from_bundle b))) as Hdl.
  { destruct Hb as [r' E]. change (pd_manifest (from_bundle b)) with (eb_manifest b).
    destruct (bundle_share _ _ _ _ _ _ _ _ _ _ _ rpc_key 1000 0%fin E (rpc_keys_at _))
      as (_ & _ & _ & _ & -> & _); simpl; lia. }
  assert (0 < SECOND ≤ 600 * SECOND) as Ht by (unfold SECOND; lia).
  destruct (delivery_all_or_nothing rpc_cluster (from_bundle b) SECOND (vreplicate MPC_PARTIES None) 1000
    1001 (rpc_delivery_valid b 1000 Hb ltac:(lia)) Hdl Ht) as [Hall _].
  destruct (is_ok _); [|reflexivity]. exfalso.
  destruct (Hall eq_refl 0%fin) as (receipt & n & _ & Ha & _). by rewrite vlookup_replicate in Ha.
Defined.

Lemma table_json_app l1 l2 st :
  st ∈ l1 → ∃ payload, @json_store _ _ (table_json (l1 ++ l2)) st = Some payload
    ∧ @json_store _ _ (table_json l1) st = Some payload.
Proof.
  intros Hin. simpl. destruct (list_find_elem_of (λ st', st' = st) l1 st Hin eq_refl) as [[i st'] Hi].
  rewrite Hi. rewrite (list_find_app_l _ _ _ _ _ Hi). eauto.
Qed.

(** A node with nothing in its store, and its states on the way. *)
Definition fresh_store (p : fin MPC_PARTIES) : NodeShareStore := {|
  ns_key := rpc_key p; ns_state := empty_state (index p) node_policy; ns_private_state_root := false;
  ns_reservation_trust := None; ns_disk := None |}.

Definition stored_state (b : EdgeOrderBundle) (p : fin MPC_PARTIES) : StoreState :=
  admitted None (empty_state (index p) node_policy) (bundle_record b p 1000).

Definition stored_table (b : EdgeOrderBundle) : list StoreState :=
  flat_map (λ p, [stored_state b p; semantic (stored_state b p)]) (fin_range MPC_PARTIES).

Definition stored_digest (b : EdgeOrderBundle) (p : fin MPC_PARTIES) : Digest32 :=
  sha256 (default [] (@json_store _ _ (table_json (stored_table b)) (semantic (stored_state b p)))).

Definition receipted_state (b : EdgeOrderBundle) (p : fin MPC_PARTIES) : list StoreState :=
  match first_receipt (stored_state b p) (bundle_record b p 1000) (stored_digest b p)
    (rpc_signer (fin_to_nat p)) with
  | Some receipt => [receipted (stored_state b p) (bundle_record b p 1000) receipt]
  | None => []
  end.

Definition delivery_table (b : EdgeOrderBundle) : list StoreState :=
  stored_table b ++ flat_map (receipted_state b) (fin_range MPC_PARTIES).

Lemma stored_elem b p : stored_state b p ∈ stored_table b ∧ semantic (stored_state b p) ∈ stored_table b.
Proof.
  unfold stored_table. pose proof (elem_of_fin_range p) as Hp%list_elem_of_In.
  split; apply list_elem_of_In, in_flat_map; exists p; (split; [exact Hp|]).
  - left. reflexivity.
  - right. left. reflexivity.
Qed.

Lemma delivery_table_length b : (length (delivery_table b) ≤ 100)%nat.
Proof.
  assert (∀ (f : fin MPC_PARTIES → list StoreState) k, (∀ p, (length (f p) ≤ k)%nat) →
    ∀ l, (length (flat_map f l) ≤ k * length l)%nat) as Hf.
  { intros f k Hk l. induction l as [|p l IH]; simpl; [lia|]. rewrite length_app.
    specialize (Hk p). lia. }
  assert (length (fin_range MPC_PARTIES) = 7)%nat as H7 by reflexivity.
  unfold delivery_table, stored_table. rewrite length_app.
  pose proof (Hf (λ p, [stored_state b p; semantic (stored_state b p)]) 2%nat
    (λ _, le_n 2) (fin_range MPC_PARTIES)) as H1.
  pose proof (Hf (receipted_state b) 1%nat) as H2.
  specialize (H2 ltac:(intros p; unfold receipted_state; destruct (first_receipt _ _ _ _); simpl; lia)
    (fin_range MPC_PARTIES)). lia.
Qed.

Lemma node_ready b p :
  made b → ready (H5 := table_json (delivery_table b)) b None (rpc_key p) 1000 p (rpc_public (fin_to_nat p))
    (rpc_runtime (fin_to_nat p) (fresh_store p)).
Proof.
  intros [r0 E0]. destruct (stored_elem b p) as [H1 H2]. pose proof (delivery_table_length b) as Hlen.
  assert (∀ st, st ∈ delivery_table b →
    is_ok (@encode_store _ _ _ (table_json (delivery_table b)) st) = true) as Hok.
  { intros st Hst. by destruct (table_encodes _ _ Hst Hlen) as [e ->]. }
  unfold ready, bundle_tag. rewrite (create_unreserved _ _ _ _ _ _ _ _ _ _ E0).
  cbn [rt_store rpc_runtime].
  change (admitted None (ns_state (fresh_store p)) (bundle_record b p 1000)) with (stored_state b p).
  do 2 (split; [reflexivity|]). split; [intros a [=]|].
  do 2 (split; [reflexivity|]). split; [split; [discriminate|reflexivity]|]. split; [reflexivity|].
  do 2 (split; [apply toy_nonzero|]). split; [apply Hok, elem_of_app; by left|].
  exists (stored_digest b p). split.
  - unfold state_digest, stored_digest.
      destruct (table_json_app (stored_table b) (flat_map (receipted_state b) (fin_range MPC_PARTIES)) _ H2)
        as (payload & Ha & ->). unfold delivery_table. rewrite Ha. reflexivity.
  - split; [apply toy_nonzero|]. intros receipt Hr. apply Hok, elem_of_app. right.
      apply list_elem_of_In, in_flat_map. exists p. split; [apply list_elem_of_In, elem_of_fin_range|].
      unfold receipted_state. cbn [rt_receipt_signing_key rpc_runtime] in Hr. rewrite Hr.
      left. reflexivity.
Qed.

Lemma order_delivered_witness : ∃ (J : StoreJson) b answers receipt,
  made b
  ∧ submit_prepared rpc_cluster SECOND (from_bundle b) answers (Some 1000) (Some 1001) = Ok receipt
  ∧ edge_receipt_verify receipt rpc_cluster 1001 = Ok ().
Proof.
  destruct rpc_bundle as [b Hb]. pose proof Hb as [r' E].
  assert (1000 ≤ o_expires_at sell1 ∧ 1001 ≤ o_expires_at sell1) as [Hn Hn'] by (simpl; lia).
  assert (0 < SECOND ≤ 600 * SECOND) as Ht by (unfold SECOND; lia).
  destruct (order_delivered (H5 := table_json (delivery_table b)) 2 sell1 None None (dig 3) edge_cap
    edge_signer rpc_keys (rng 5) r' b rpc_key 1000 1001 rpc_cluster SECOND
    (λ p, (rpc_env 1000, rpc_peer Participant, rpc_runtime (fin_to_nat p) (fresh_store p)))
    E rpc_keys_at Hn Hn' Ht rpc_cluster_valid eq_refl) as (receipt & Hs & Hv & _).
  - intros p n Hp. apply rpc_node_at in Hp as [-> _]. split; [by rewrite rpc_keys_at|].
    split; [apply node_ready, Hb|]. do 3 (split; [reflexivity|]). reflexivity.
  - eexists (table_json (delivery_table b)), b, _, receipt. split; [exact Hb|].
    split; [exact Hs|exact Hv].
Defined.
