(* ===== verification/WitnessJournal.v ===== *)
(** * The corporate journal on concrete data

    An outbox in memory, test doubles for the crates, and workers run one after
    the other with the network down after the send. *)

From Stdlib Require Import Zmod.
From S2P Require Import Prelude BTree Bytes AppCrypto Orders Toy Matching Circuit MpcRunner Book.
From S2P Require Import Ordering Reservations Eligibility Edge EdgeCreate ToyEdge NodeReceipts NodeState.
From S2P Require Import NodeStore NodeRpc EdgeClient Corporate Journal JournalRuns JournalLife.
From S2P Require Import JournalPool Dispatch DispatchLife ToyStore Fixtures WitnessEdge WitnessRpc.
Open Scope string_scope.
Open Scope list_scope.
Open Scope Z_scope.

(** ** An outbox *)

(** The first entry of an identifier counts. *)
Definition add_entry (l : list Entry) (e : Entry) : list Entry :=
  if decide (en_id e ∈ map en_id l) then l else l ++ [e].
Definition first_entries (l : list Entry) : list Entry := foldl add_entry [] l.

Definition new_entry (id : text) (x : bytes) (l : list Entry) : Entry :=
  mk_entry id (toy_sha256 x) (Z.of_nat (length l)) x.

#[export] Instance toy_outbox : OutboxFile := {|
  Box := list Entry;
  box_summaries l := Ok (map summary_of (first_entries l));
  box_signed_request id _ l :=
    match list_find (λ e, en_id e = id) (first_entries l) with
    | Some (_, e) => Ok (en_request e)
    | None => Err "missing"
    end;
  box_enqueue id x _ _ l := (l ++ [new_entry id x l], Ok ())
|}.

Lemma first_entries_app l e : first_entries (l ++ [e]) = add_entry (first_entries l) e.
Proof. unfold first_entries. by rewrite foldl_app. Qed.

Lemma first_entries_ids l : NoDup (map en_id (first_entries l)).
Proof.
  induction l as [|e l IH] using rev_ind; [constructor|]. rewrite first_entries_app.
  unfold add_entry. case_decide as Hn; [done|]. rewrite map_app. apply NoDup_app.
  split; [done|]. split; [|apply NoDup_singleton]. intros x Hx ->%list_elem_of_singleton. done.
Qed.

#[export] Instance toy_outbox_laws : OutboxLaws.
Proof.
  unshelve esplit; [exact first_entries|exact first_entries_ids|..].
  - intros b l [= <-]. done.
  - intros id digest b x. simpl. destruct (list_find _ _) as [[n e]|] eqn:Hf; [|done].
    intros [= <-]. apply list_find_Some in Hf as (Hn & Hid & _). exists e.
    split; [by eapply list_elem_of_lookup_2|done].
  - intros id x s t b. simpl. rewrite first_entries_app. unfold add_entry. case_decide as Hn; [by left|right].
    split; [done|]. by exists (new_entry id x b).
Defined.

(** ** Workers one after the other *)

(** The random generator and the queue. *)
Record World `{CorporateCrates} := mk_world {
  w_rng : Rng;
  w_entries : list QueueEntry;
  w_request : text → bytes;
  w_action : option QueueAction
}.

(** The outbox works; the clock stands at 10; the network is down. *)
Definition answer `{CorporateCrates} {R} (w : World) (c : call R) : Box → R * Box :=
  match c in call R return Box → R * Box with
  | Summaries => λ b, (box_summaries b, b)
  | SignedRequest id digest => λ b, (box_signed_request id digest b, b)
  | EnqueueFirstSeen id x s t => λ b, let '(b', r) := box_enqueue id x s t b in (r, b')
  | Clock => λ b, (Ok 10, b)
  | Random => λ b, (w_rng w, b)
  | Observe _ | OpenClient | RecoverWallet => λ b, (Ok (), b)
  | ReadScope => λ b, (Err "offline", b)
  | SendReserve _ => λ b, (Err "offline", b)
  | ReadReservation _ => λ b, (Err "offline", b)
  | ReadFacility _ => λ b, (Err "offline", b)
  | ReadStateRoot => λ b, (Err "offline", b)
  | SendRelease _ => λ b, (Err "offline", b)
  | SendDelivery _ => λ b, (Err "offline", b)
  | CheckFundingSpent _ => λ b, (Err "offline", b)
  | QueueSummaries => λ b, (Ok (w_entries w), b)
  | QueueRequest id _ => λ b, (Ok (w_request w id), b)
  | QueueEnqueue _ _ _ _ => λ b, (Ok false, b)
  | ClaimNext _ _ _ => λ b, (Ok (w_action w), b)
  | MarkReleasePending _ _ _ => λ b, (Ok (), b)
  | RecordAbort _ _ _ => λ b, (Ok (), b)
  | RecordRelease _ _ _ => λ b, (Ok (), b)
  | RecordAdmission _ _ _ _ => λ b, (Ok (), b)
  | NodeHealthy _ => λ b, (true, b)
  | PrepareReservation _ _ _ _ => λ b, (Err PreparationUnfunded, b)
  | RecoverFacility => λ b, (Err "offline", b)
  end.

Section exec.
Context `{CorporateCrates} (w : World).

Lemma answer_step {R} (c : call R) b : call_step c b (answer w c b).1 (answer w c b).2.
Proof. destruct c; simpl; auto. Qed.

Fixpoint exec {A} (m : prog A) (b : Box) : list event * Box * A :=
  match m with
  | Ret a => ([], b, a)
  | Call c k =>
      let '(x, b1) := answer w c b in
      let '(l, b2, a) := exec (k x) b1 in (event_of c :: l, b2, a)
  end.

Lemma exec_runs {A} (m : prog A) b : runs m b (exec m b).2 (exec m b).1.2.
Proof.
  revert b. induction m as [a|R c k IH]; intros b; simpl; [done|].
  pose proof (answer_step c b) as Hs. destruct (answer w c b) as [x b1]. simpl in Hs.
  specialize (IH x b1). destruct (exec (k x) b1) as [[l b2] a]. simpl in *. by exists b, x, b1.
Qed.

(** The program [i] of a pool runs to its end, the rest follows. *)
Lemma pool_exec {A} i (m : prog A) b ts l b' ts' :
  ts !! i = Some m →
  pool_run (exec m b).1.2 (<[i := Ret (exec m b).2]> ts) l b' ts' →
  pool_run b ts (map (pair i) (exec m b).1.1 ++ l) b' ts'.
Proof.
  revert b ts. induction m as [a|R c k IH]; intros b ts Hi Hp; simpl in *.
  - by rewrite list_insert_id in Hp.
  - pose proof (answer_step c b) as Hs. destruct (answer w c b) as [x b1]. simpl in Hs.
    specialize (IH x b1 (<[i := k x]> ts)). destruct (exec (k x) b1) as [[l1 b2] a]. simpl in *.
    eapply pool_step; [done|done|]. apply IH.
    + apply list_lookup_insert_eq. by eapply lookup_lt_Some.
    + by rewrite list_insert_insert_eq.
Qed.

End exec.

(** ** Data *)

#[export] Instance toy_corporate : CorporateCrates := {|
  order_authorization_commitment c _ := Some c;
  mandate_verify _ _ _ := Ok ();
  scope_check _ := Ok ();
  identity_context _ _ := None;
  subject_line_id _ := None;
  credential_digest _ := None;
  identity_handle seed := mk_handle _ _ Zmod.one Zmod.one;
  note_release_verify _ _ _ _ := Ok ();
  Binding := Digest32;
  binding_hold_id d := d;
  mandate_binding m := Some (am_hold_id m);
  permit_escrow_note_id _ := zero_digest;
  permit_reserve_receipt_digest _ := zero_digest;
  json_request r := Some (d_bytes (rr_operation_id r));
  json_authorization _ := Some [Byte.x0a]
|}.

Definition j_key : bytes := replicate 64 (byte_of 9).

Definition j_mandate : ApplicationReserveMandate := {|
  am_version := 1;
  am_scope := mk_scope (dig 1) (dig 91) (dig 92) (dig 93) (dig 94) 1 32;
  am_request_commitment := commitment sell1;
  am_facility_id := dig 95; am_hold_id := o_reservation_id sell1; am_asset_id := dig 96;
  am_amount_commitment := compress (commit_u64 (o_reservation_limit sell1) (Zmod.of_Z 11 3));
  am_participant_handle := dig 51; am_entity_commitment := dig 97; am_credential_digest := dig 98;
  am_settlement_terms_commitment := compress (commit_u64 1 (Zmod.of_Z 11 4));
  am_valid_from := 1; am_valid_until := 2000; am_participant_public := public_of j_key;
  am_signature := [] |}.

Definition j_funding : FacilityWitness :=
  mk_witness (dig 95) 2 [# 1; 2; 3] [# dig 1; dig 2; dig 3].

Definition j_request : PrivateReserveRequest := {|
  rr_mandate := j_mandate; rr_order_commitment := commitment sell1;
  rr_order_authorization_salt := dig 99; rr_reserve_reblinding := dig 5; rr_operation_id := dig 100;
  rr_before_sequence := 1; rr_before := [# dig 1; dig 2; dig 3];
  rr_after := [# compress (commit_u64 1 (Zmod.of_Z 11 1)); compress (commit_u64 2 (Zmod.of_Z 11 2));
    compress (commit_u64 3 (Zmod.of_Z 11 3))];
  rr_ring := []; rr_outputs := []; rr_relation_proof := []; rr_relation_proof_digest := dig 101;
  rr_spend_proof := [];
  rr_identity := mk_presentation (mk_presentation_context (dig 1) (dig 1) (dig 1) (dig 1) 1) (dig 1) [] |}.

Definition j_prepared : PreparedCorporateReserve := {|
  pr_request := j_request; pr_order_wire := to_secret_wire sell1; pr_signing_key := j_key;
  pr_eligibility_commitment := dig 3; pr_side_blinding := dig 4; pr_reserve_blinding := dig 3;
  pr_facility_after := j_funding |}.

Definition j_config : CorporateNativeConfig := {|
  cf_deployment_crypto_policy := None; cf_host := []; cf_port := 0; cf_server_name := [];
  cf_claim_authorization_endpoint := mk_endpoint [] 0 [] zero_digest;
  cf_venue_id := dig 91; cf_defmi_id := dig 92; cf_issuer_public := []; cf_facility_id := dig 95;
  cf_asset_id := dig 96; cf_facility_values := [# 1; 2; 3];
  cf_facility_blindings := [# dig 1; dig 2; dig 3]; cf_wallet_spend_secret := dig 1;
  cf_wallet_opening_seed := []; cf_credential_custody_seed := []; cf_identity_seed := dig 1 |}.

Lemma j_prepared_valid : prepared_validate j_config j_prepared = Ok ().
Proof. vm_compute. reflexivity. Qed.

Definition j_intent : StoredCorporateIntent := {|
  ci_input_digest := dig 102; ci_order_wire := to_secret_wire sell1; ci_signing_key := j_key;
  ci_eligibility_commitment := dig 3; ci_accepted_at := 1; ci_expires_at := 2000;
  ci_reserve_send_tracking := true |}.

(** Signed terms of a request without a prepared reserve. *)
Definition j_terms : CorporateReserveAuthorization := {|
  ra_mandate := j_mandate; ra_order_wire := to_secret_wire sell1; ra_signing_key := j_key;
  ra_eligibility_commitment := dig 3; ra_order_authorization_salt := dig 99;
  ra_reserve_reblinding := dig 5; ra_reserve_blinding := dig 3; ra_side_blinding := dig 4;
  ra_identity := rr_identity j_request |}.

Definition j_terms_digest : Digest32 :=
  sha256 (ascii_bytes "OCLOB:CORPORATE-AUTHORIZATION:v1" ++ [Byte.x0a]).

Definition j_reserve_digest : Digest32 := sha256 (d_bytes (dig 100)).

(** The decision to send a prepared reserve, the decision to end the terms unsent. *)
Definition j_decision (may_send : bool) : ReserveSendDecision :=
  mk_decision (dig 102) (if may_send then j_reserve_digest else j_terms_digest) may_send.

Definition manifest_with (commitment : Digest32) (signature : bytes) : EdgeOrderManifest := {|
  m_version := EDGE_VERSION; m_market_id := fix_market; m_commitment := commitment;
  m_retention_deadline := 2000; m_eligibility_commitment := dig 3; m_source_order_commitment := dig 4;
  m_reservation_admission_digest := dig 4;
  m_settlement_capability_commitment := preauthorized_settlement_commitment (dig 4);
  m_settlement_key_commitments := vreplicate _ (dig 1);
  m_field_commitments := vreplicate _ (vreplicate _ (dig 1)); m_settlement_proof_enabled := true;
  m_settlement_field_commitments := vreplicate _ (vreplicate _ (dig 1));
  m_signer := vk_fingerprint (verifying_key edge_signer); m_signature := signature |}.

Definition j_commitment : Digest32 := derived_commitment (manifest_with zero_digest []).

Definition j_manifest : EdgeOrderManifest :=
  manifest_with j_commitment (sg edge_signer (manifest_signature_body j_commitment)).

(** Ciphertexts for the seven nodes. *)
Definition j_sealed (p : fin MPC_PARTIES) : Z * SealedPartyShare * SealedCapabilityKeyShare :=
  let party := Z.of_nat (fin_to_nat p) in
  let recipient := node_key_fingerprint (cn_share_encryption_key (rpc_public (fin_to_nat p))) in
  (party, mk_sealed_share _ _ 1 party j_commitment recipient () [] [] [],
   mk_sealed_key _ _ 1 party j_commitment (preauthorized_settlement_commitment (dig 4)) recipient () [] [] []).

Definition j_edge : PreparedEdgeDelivery := mk_delivery _ _ j_manifest (fun_to_vec j_sealed).

Definition j_delivery : StoredCorporateDelivery := {|
  dv_reserve_digest := j_reserve_digest; dv_delivery := j_edge;
  dv_authority := mk_sealed_capability 1 (dig 21) (dig 5) [] [] |}.

(** The seven nodes sign for it. *)
Definition j_node_receipt (party : nat) : list NodeAdmissionReceipt :=
  match vec_to_list (pd_deliveries j_edge) !! party with
  | Some (_, share, key) =>
      option_list (admission_sign (Z.of_nat party) (m_commitment (pd_manifest j_edge))
        (m_signer (pd_manifest j_edge)) (share_wire_digest share) (sealed_key_wire_digest key) 1 (dig 1)
        (rpc_signer party))
  | None => []
  end.

Definition j_receipts : list NodeAdmissionReceipt := flat_map j_node_receipt (seq 0 7).

Definition j_receipt : EdgeAdmissionReceipt :=
  let shares := vmap (λ '(_, share, _), share_wire_digest share) (pd_deliveries j_edge) in
  let keys := vmap (λ '(_, _, key), sealed_key_wire_digest key) (pd_deliveries j_edge) in
  let generations := vreplicate MPC_PARTIES 1 in
  {| er_version := 3; er_manifest := pd_manifest j_edge; er_node_generations := generations;
     er_order_share_digests := shares; er_capability_key_share_digests := keys;
     er_node_receipts := j_receipts;
     er_receipt_digest := receipt_digest (pd_manifest j_edge) generations shares keys j_receipts |}.

Definition journal0 : NativeCorporateJournal := mk_journal (dig 103).

(** One record per byte string. *)
Definition one_record {T} (payload : bytes) (v : T) : Serde T := {|
  to_json _ := Some payload;
  from_json b := if bool_decide (b = payload) then Some (mk_bound 2 (dig 103) v) else None |}.
Definition no_record {T} : Serde T := {| to_json _ := None; from_json _ := None |}.

#[export] Instance toy_journal_json : JournalJson := {|
  json_context := no_record;
  json_intent := one_record [Byte.x02] j_intent;
  json_decision := {|
    to_json r := Some (if sd_may_send (bd_body r) then [Byte.x01] else [Byte.x00]);
    from_json b := if bool_decide (b = [Byte.x01]) then Some (mk_bound 2 (dig 103) (j_decision true))
      else if bool_decide (b = [Byte.x00]) then Some (mk_bound 2 (dig 103) (j_decision false)) else None |};
  json_terms := one_record [Byte.x06] j_terms;
  json_ended := one_record [Byte.x07] (mk_ended (chars "b") j_terms_digest 5 InsufficientFunding);
  json_prepared := one_record [Byte.x03] j_prepared;
  json_finalized := no_record;
  json_delivery := one_record [Byte.x04] j_delivery;
  json_receipt := one_record [Byte.x05] j_receipt;
  json_resolution := no_record;
  json_release := no_record;
  json_cancel := no_record;
  json_witness := no_record;
  json_scope := no_record;
  JsonValue := ();
  json_value := {| to_json _ := None; from_json _ := Some (mk_bound 2 (dig 103) ()) |};
  json_config _ := None;
  json_cluster _ := None |}.

#[local] Instance toy_store_json : StoreJson := table_json [].

Definition box_of (l : list (string * bytes)) : Box :=
  foldl (λ b '(id, x), b ++ [new_entry (chars id) x b]) [] l.

(** Two intents, the first request prepared. *)
Definition box1 : Box :=
  box_of [("intent:a", [Byte.x02]); ("intent:b", [Byte.x02]); ("reserve:a", [Byte.x03])].

Definition submit (id : string) : Job := Submit 0 j_config rpc_cluster (chars id) None.

Definition jobs1 : list Job :=
  [submit "a"; submit "a"; Reconcile j_config (chars "a") 3000; EndUnprepared (chars "a") 3000 EndExpired].

(** ** The theorems applied *)

(** The programs of a pool run one after the other from [b]. *)
Fixpoint sequential {A} (w : World) (i : nat) (ms : list (prog A)) (b : Box) :
    list (nat * event) * Box :=
  match ms with
  | [] => ([], b)
  | m :: ms =>
      let '(l, b1, _) := exec w m b in
      let '(l', b2) := sequential w (S i) ms b1 in (map (pair i) l ++ l', b2)
  end.

Lemma sequential_pool {A} w (ms ended : list (prog A)) b :
  ∃ ts', pool_run b (ended ++ ms) (sequential w (length ended) ms b).1
    (sequential w (length ended) ms b).2 ts'.
Proof.
  revert ended b. induction ms as [|m ms IH]; intros ended b.
  { exists (ended ++ []). apply pool_idle. }
  cbn [sequential]. destruct (exec w m b) as [[l b1] a] eqn:E.
  destruct (IH (ended ++ [Ret a]) b1) as [ts' Hp]. rewrite length_app, Nat.add_1_r, <-app_assoc in Hp.
  destruct (sequential w (S (length ended)) ms b1) as [l' b2]. cbn [fst snd] in *. exists ts'.
  pose proof (pool_exec w (length ended) m b (ended ++ m :: ms) l' b2 ts') as Hx.
  rewrite E in Hx. cbn [fst snd] in Hx. apply Hx.
  - exact (list_lookup_middle _ _ _ _ eq_refl).
  - by rewrite insert_app_r_alt, Nat.sub_diag by lia.
Qed.

Lemma pool_of {A} w (ms : list (prog A)) b l :
  l = (sequential w 0 ms b).1 → ∃ b' ts', pool_run b ms l b' ts'.
Proof. intros ->. destruct (sequential_pool w ms [] b) as [ts' Hp]. by eexists _, ts'. Qed.

(** Worker [k] of the pool did an event of the kind. *)
Definition did (P : event → bool) (k : nat) (l : list (nat * event)) : bool :=
  existsb (λ '(i, e), Nat.eqb i k && P e) l.

Definition is_reserved (e : event) : bool := match e with Reserved _ => true | _ => false end.

Lemma did_elem P k l : did P k l = true → ∃ e, (k, e) ∈ l ∧ P e = true.
Proof.
  intros ([i e] & Hin%list_elem_of_In & [->%Nat.eqb_eq He]%andb_prop)%existsb_exists. by exists e.
Qed.

Lemma reserved_elem k l : did is_reserved k l = true → ∃ request, (k, Reserved request) ∈ l.
Proof. intros ([request| | | |] & Hin & He)%did_elem; [|done..]. by exists request. Qed.

Definition j_world : World := mk_world _ _ _ (rng 7) [] (λ _, []) None.

(** The first worker sends and loses the answer, the second one sends again. *)
Abbreviation events1 :=
  ((sequential j_world 0 (map (job_prog journal0) jobs1) box1).1).

Lemma sent1 : did is_reserved 0 events1 && did is_reserved 1 events1 = true.
Proof. vm_compute. reflexivity. Qed.

Lemma pool1 : ∃ b' ts', pool_run box1 (map (job_prog journal0) jobs1) events1 b' ts'.
Proof. exact (pool_of j_world (map (job_prog journal0) jobs1) box1 _ eq_refl). Qed.

Lemma sent_never_declared_unsent_witness : ∃ b' ts' request,
  pool_run box1 (map (job_prog journal0) jobs1) events1 b' ts' ∧ (0%nat, Reserved request) ∈ events1
  ∧ ¬ ∃ k job' r, jobs1 !! k = Some job' ∧ ts' !! k = Some r ∧ declares_unsent (chars "a") job' r.
Proof.
  destruct pool1 as (b' & ts' & Hp), (andb_prop _ _ sent1) as [[request Hr]%reserved_elem _].
  exists b', ts', request. split; [exact Hp|]. split; [exact Hr|].
  exact (sent_never_declared_unsent journal0 box1 jobs1 _ b' ts' (chars "a") 0 (submit "a") request
    Hp eq_refl eq_refl Hr).
Defined.

Lemma resubmission_identical_witness : ∃ r r',
  (0%nat, Reserved r) ∈ events1 ∧ (1%nat, Reserved r') ∈ events1 ∧ r = r'.
Proof.
  destruct pool1 as (b' & ts' & Hp),
    (andb_prop _ _ sent1) as [[r Hr]%reserved_elem [r' Hr']%reserved_elem].
  exists r, r'. split; [exact Hr|]. split; [exact Hr'|].
  exact (resubmission_identical journal0 box1 jobs1 _ b' ts' (chars "a") 0 1 (submit "a") (submit "a")
    (Reserved r) (Reserved r') Hp eq_refl eq_refl Hr eq_refl eq_refl Hr').
Defined.

(** The first request admitted. *)
Definition box2 : Box :=
  box_of [("intent:a", [Byte.x02]); ("intent:b", [Byte.x02]); ("reserve:a", [Byte.x03]);
    ("delivery:a", [Byte.x04]); ("receipt:a", [Byte.x05]); ("reserve:b", [Byte.x03])].

Definition box2_entry (n : nat) : Entry :=
  default (mk_entry [] zero_digest 0 []) (entries_of box2 !! n).

Lemma box2_entries n : (n < 6)%nat → box2_entry n ∈ entries_of box2.
Proof.
  intros Hn. apply (list_elem_of_lookup_2 _ n). unfold box2_entry.
  do 6 (destruct n as [|n]; [vm_compute; reflexivity|]). lia.
Qed.

Abbreviation events2 :=
  ((sequential j_world 0 (map (job_prog journal0) [submit "b"]) box2).1).

Lemma sent2 : did is_reserved 0 events2 = true.
Proof. vm_compute. reflexivity. Qed.

Lemma pool2 : ∃ b' ts', pool_run box2 (map (job_prog journal0) [submit "b"]) events2 b' ts'.
Proof. exact (pool_of j_world (map (job_prog journal0) [submit "b"]) box2 _ eq_refl). Qed.

Lemma submissions_in_order_witness : ∃ b' request,
  (0%nat, Reserved request) ∈ events2 ∧ (terminal b' (chars "a") ∨ admitted b' (chars "b")).
Proof.
  destruct pool2 as (b' & ts' & Hp), (reserved_elem _ _ sent2) as [request Hr].
  exists b', request. split; [exact Hr|].
  refine (submissions_in_order journal0 box2 [submit "b"] events2 b' ts' (chars "b") 0 (submit "b")
    (Reserved request) (box2_entry 0) (box2_entry 1) (chars "a") Hp eq_refl eq_refl Hr ltac:(discriminate)
    (box2_entries 0 ltac:(lia)) _ (box2_entries 1 ltac:(lia)) _ _); vm_compute; reflexivity.
Defined.

(** ** Workers *)

Definition j_dispatch (version : Z) (id : string) (reserve : Digest32) (terms : option Digest32) :
    DispatchRequest :=
  mk_dispatch version (dig 103) (chars id) (dig 102) reserve terms None.

#[export] Instance toy_dispatch_json : DispatchJson := {|
  json_dispatch _ := None;
  parse_dispatch b :=
    if bool_decide (b = [Byte.x01]) then Some (j_dispatch 1 "a" j_reserve_digest None)
    else if bool_decide (b = [Byte.x02]) then Some (j_dispatch 2 "b" zero_digest (Some j_terms_digest))
    else None |}.

(** The queue names [b], whose terms ended, and hands out [a]. *)
Definition q_world : World := mk_world _ _ _ (rng 7)
  [mk_queue_entry (chars "b") (dig 104) OtherState]
  (λ id, if bool_decide (id = chars "a") then [Byte.x01] else [Byte.x02])
  (Some (Dispatch (mk_claimed (chars "a") (dig 105) 1))).

Definition box3 : Box :=
  box_of [("intent:a", [Byte.x02]); ("intent:b", [Byte.x02]); ("reserve:a", [Byte.x03]);
    ("authorization:b", [Byte.x06]); ("reserve-send:b", [Byte.x00]); ("authorization-end:b", [Byte.x07])].

Definition workers3 : list Worker := [Pump 0 j_config rpc_cluster 10 60; Direct (submit "a")].
Abbreviation events3 :=
  ((sequential q_world 0 (map (work_prog journal0) workers3) box3).1).

Definition is_aborted (id : text) (e : event) : bool :=
  match e with Aborted id' => bool_decide (id' = id) | _ => false end.

Lemma aborted_elem k l id : did (is_aborted id) k l = true → (k, Aborted id) ∈ l.
Proof.
  intros (e & Hin & He)%did_elem. destruct e; try discriminate He.
  apply bool_decide_eq_true in He. by subst.
Qed.

Lemma pool3 : ∃ b' ts', pool_run box3 (map (work_prog journal0) workers3) events3 b' ts'.
Proof. exact (pool_of q_world (map (work_prog journal0) workers3) box3 _ eq_refl). Qed.

Lemma aborted3 : did (is_aborted (chars "b")) 0 events3 && did is_reserved 1 events3 = true.
Proof. vm_compute. reflexivity. Qed.

Lemma aborted_never_sent_witness : ∃ b' request,
  (0%nat, Aborted (chars "b")) ∈ events3 ∧ (1%nat, Reserved request) ∈ events3
  ∧ ∃ id' (p : PreparedCorporateReserve), id' ≠ chars "b" ∧ recorded journal0 b' "reserve" id' p
    ∧ request = pr_request p.
Proof.
  destruct pool3 as (b' & ts' & Hp),
    (andb_prop _ _ aborted3) as [Ha%aborted_elem [request Hr]%reserved_elem].
  exists b', request. split; [exact Ha|]. split; [exact Hr|].
  exact (aborted_never_sent journal0 box3 workers3 events3 b' ts' 0 1 (chars "b") request Hp Ha Hr).
Defined.

(** Nothing to finish, and [a] was admitted before. *)
Definition a_world : World := mk_world _ _ _ (rng 7) [] (λ _, [Byte.x01])
  (Some (Dispatch (mk_claimed (chars "a") (dig 105) 1))).

Definition workers4 : list Worker := [Pump 0 j_config rpc_cluster 10 60].
Abbreviation events4 :=
  ((sequential a_world 0 (map (work_prog journal0) workers4) box2).1).

Definition is_acknowledged (id : text) (e : event) : bool :=
  match e with Acknowledged id' => bool_decide (id' = id) | _ => false end.

Lemma acknowledged_elem k l id : did (is_acknowledged id) k l = true → (k, Acknowledged id) ∈ l.
Proof.
  intros (e & Hin & He)%did_elem. destruct e; try discriminate He.
  apply bool_decide_eq_true in He. by subst.
Qed.

Lemma pool4 : ∃ b' ts', pool_run box2 (map (work_prog journal0) workers4) events4 b' ts'.
Proof. exact (pool_of a_world (map (work_prog journal0) workers4) box2 _ eq_refl). Qed.

Lemma acknowledged4 : did (is_acknowledged (chars "a")) 0 events4 = true.
Proof. vm_compute. reflexivity. Qed.

Lemma acknowledgement_backed_witness : ∃ b',
  (0%nat, Acknowledged (chars "a")) ∈ events4 ∧ receipted journal0 b' rpc_cluster (chars "a").
Proof.
  destruct pool4 as (b' & ts' & Hp). pose proof (acknowledged_elem _ _ _ acknowledged4) as Ha.
  exists b'. split; [exact Ha|].
  exact (acknowledgement_backed journal0 box2 workers4 events4 b' ts' 0 (chars "a") 0 j_config rpc_cluster 10 60
    Hp eq_refl Ha).
Defined.
