(* ===== verification/WitnessMarket.v ===== *)
(** * The market's journal and the published book on concrete data *)

From S2P Require Import Prelude BTree Bytes AppCrypto Orders Toy Matching Circuit MpcRunner Book.
From S2P Require Import Ordering Reservations Eligibility Edge EdgeCreate EdgeDecimal ToyEdge NodeReceipts.
From S2P Require Import NodeState NodeStore NodeRpc RpcLife EdgeClient ClientLife PublicDepth DepthLife.
From S2P Require Import Corporate Journal JournalRuns JournalLife JournalPool MarketJournal MarketLife.
From S2P Require Import ToyStore Fixtures WitnessEdge WitnessNode WitnessRpc WitnessJournal.
Open Scope string_scope.
Open Scope list_scope.
Open Scope Z_scope.

(** ** A published book *)

(** A round that published one level and matched nothing. *)
Definition depth_result : MpcBatchResult := {|
  br_slots := br_slots node_result; br_arriving_remaining := br_arriving_remaining node_result;
  br_public_levels := Some [mk_level Sell 100 4] |}.

Definition depth_plan : RoundPlan := rpc_plan (dig 21).

Definition depth_at (i : nat) : option DepthAttestation :=
  match depth_sign (Z.of_nat i) depth_plan depth_result (dig 33) (dig 36) (rpc_signer i) with
  | Ok a => Some a
  | Err _ => None
  end.

Definition depth_receipt_with (i : nat) (signature : bytes) : NodeExecutionReceipt := {|
  ne_version := VERSION; ne_party := Z.of_nat i; ne_round_id := rp_round_id depth_plan;
  ne_generation := 1; ne_round_commitment := dig 32; ne_program_sha256 := dig 33;
  ne_artifact_sha256 := dig 34; ne_private_parent_digest := dig 35;
  ne_private_state_sha256 := dig 36; ne_public_output_sha256 := public_output_digest depth_result;
  ne_result := depth_result; ne_depth_attestation := depth_at i; ne_execution_ms := 3;
  ne_signer := vk_fingerprint (verifying_key (rpc_signer i)); ne_signature := signature |}.

Definition depth_receipt (i : nat) : NodeExecutionReceipt :=
  depth_receipt_with i (sg (rpc_signer i) (execution_signature_body (depth_receipt_with i []))).

Definition depth_execution : AgreedRoundExecution := mk_agreed (map depth_receipt (seq 0 7)) depth_result.

Lemma depth_checked i : (i < 7)%nat →
  check_execution depth_plan (dig 33) depth_result (rpc_public i) (depth_receipt i) = Ok ().
Proof. intros Hi. do 7 (destruct i as [|i]; [vm_compute; reflexivity|]). lia. Qed.

Lemma agreed_book_published_witness : ∃ book,
  from_execution rpc_cluster depth_plan (dig 33) depth_execution [] = Ok book
  ∧ pb_levels book = [mk_level Sell 100 4]
  ∧ public_book_verify book rpc_cluster (dig 33) 10 1 = Ok ().
Proof.
  refine (agreed_book_published rpc_cluster depth_plan (dig 33) depth_execution [] _
    rpc_cluster_valid eq_refl eq_refl _ eq_refl eq_refl eq_refl).
  intros i n r Hn Hr. apply rpc_node_at in Hn as [-> Hi].
  apply list_lookup_fmap_Some in Hr as (k & -> & Hk). apply lookup_seq in Hk as [-> _].
  exact (depth_checked i Hi).
Defined.

(** ** Intake *)

Definition m_authority : SealedSettlementCapability :=
  mk_sealed_capability EDGE_VERSION j_commitment (preauthorized_settlement_commitment (dig 4)) []
    (replicate (Z.to_nat (SEALED_SETTLEMENT_CAPABILITY_CLEAR_BYTES + 16)) Byte.x00).

(** What [serde_json] writes for the envelope, in short. *)
Definition m_statement : Digest32 := sha256 (ascii_bytes "OCLOB:MARKET-INGRESS:v2" ++ [Byte.x01]).

Definition m_ingress : MarketIngress :=
  mk_ingress 2 j_receipt m_authority (sg edge_signer (d_bytes m_statement)).

Definition m_round : MarketCompletedRound := {|
  mr_certificate := rpc_certificate (dig 21); mr_result := depth_result; mr_book := [];
  mr_transaction_id := None; mr_canonical_root := None; mr_finality_observations := 0;
  mr_public_snapshot := None |}.

Definition one_market_record {T} (payload : bytes) (v : T) : MarketSerde T := {|
  market_to_json _ := Some payload;
  market_from_json b := if bool_decide (b = payload) then Some (mk_market_bound (dig 106) v) else None |}.

#[local] Instance toy_market_json : MarketJson := {|
  market_json_context := one_market_record [Byte.x01] (dig 106);
  market_json_ingress := one_market_record [Byte.x02] m_ingress;
  market_json_round := one_market_record [Byte.x03] m_round;
  json_ingress _ := Some [Byte.x01];
  json_ingress_body _ _ _ := Some [Byte.x01] |}.

Definition market0 : MarketJournal := mk_market_journal (dig 106).
Definition m_accept : act Z := market_accept market0 m_ingress rpc_cluster 10.
Definition m_box1 : Box := [new_entry (input_id j_commitment) [Byte.x02] []].

(** The first intake verifies the envelope and records it, the second one finds it. *)
Lemma m_accepted :
  ((exec j_world m_accept []).2, (exec j_world m_accept []).1.2) = (Ok 0, m_box1).
Proof. vm_compute. reflexivity. Qed.
Lemma m_accepted_again : (exec j_world m_accept m_box1).2 = Ok 0.
Proof. vm_compute. reflexivity. Qed.

Lemma market_intake_unique_witness : ∃ q q' b',
  runs m_accept [] (Ok q) m_box1 ∧ runs m_accept m_box1 (Ok q') b'
  ∧ q = q' ∧ ∃ d, ingress_digest m_ingress = Ok d ∧ ingress_digest m_ingress = Ok d.
Proof.
  pose proof (exec_runs j_world m_accept []) as Hr. pose proof m_accepted as E.
  apply pair_equal_spec in E as [E1 E2]. rewrite E1, E2 in Hr.
  pose proof (exec_runs j_world m_accept m_box1) as Hr'. rewrite m_accepted_again in Hr'.
  exists 0, 0. eexists. split; [exact Hr|]. split; [exact Hr'|].
  exact (market_intake_unique market0 m_ingress m_ingress rpc_cluster rpc_cluster 10 10 _ _ _ _ _ 0 0
    Hr (runs_grow _ _ _ _ Hr') Hr' (grow_refl _) eq_refl).
Defined.

(** ** Rounds *)

(** The first of two inputs completed. *)
Definition m_box2 : Box :=
  box_of [("input:a", [Byte.x02]); ("input:b", [Byte.x02]); ("done:a", [Byte.x03])].

Definition m_entry : Entry := default (mk_entry [] zero_digest 0 []) (entries_of m_box2 !! 0%nat).

Lemma m_next_ok :
  match (exec j_world (market_next market0) m_box2).2 with Ok (Some _) => true | _ => false end = true.
Proof. vm_compute. reflexivity. Qed.

(** The second input is taken up: its round is missing, and the first one's is on file. *)
Lemma market_next_in_order_witness : ∃ v b' e2,
  runs (market_next market0) m_box2 (Ok (Some v)) b'
  ∧ taken market0 m_box2 b' e2 v
  ∧ (en_sequence m_entry < en_sequence e2 → completed market0 b' (chars "a")).
Proof.
  pose proof (exec_runs j_world (market_next market0) m_box2) as Hr. pose proof m_next_ok as Hok.
  destruct (exec j_world (market_next market0) m_box2).2 as [[v|]|]; [|discriminate Hok..].
  destruct (market_next_in_order market0 m_box2 (Some v) _ Hr) as (e2 & Ht & Hc).
  exists v. eexists. exists e2. split; [exact Hr|]. split; [exact Ht|].
  apply (Hc m_entry (chars "a")).
  - apply (list_elem_of_lookup_2 _ 0). vm_compute. reflexivity.
  - vm_compute. reflexivity.
Defined.
